(* ===== verification/_CoqProject ===== *)
-Q . S2P
Prelude.v
CStrings.v
Protobuf.v
PbCommon.v
PbRpc.v
PbNfs.v
PbTables.v
ProtobufDecoding.v
Messages.v
MessageContents.v
MessageSchemas.v
RpcSchemas.v
ReceivedMessages.v
Parsing.v
Posix.v
InodeCache.v
Permissions.v
SharedInodeCache.v
FileManagement.v
ReadDir.v
ServerState.v
ProcAttr.v
ProcFile.v
ProcCreate.v
ProcRemove.v
ProcMount.v
RecordMarking.v
RecordMarkingQuic.v
QuicStreams.v
QuicPackets.v
Server.v
Authorization.v
Connections.v
ServerThreads.v
ServerShutdown.v
QuicServer.v
QuicClient.v
QuicReplies.v
QuicConnection.v
QuicShutdown.v
RpcClient.v
ServerLife.v
NfsClient.v
EndToEnd.v
QuicEndToEnd.v
FusePaths.v
FuseHandlers.v
FuseData.v
FuseMain.v
ReplDag.v
ReplState.v
ReplHandlers.v
ReplCommands.v
ReplSafety.v
ReplData.v
ServerFiles.v
ServerDirectories.v
GeneratedCodec.v
GeneratedMessages.v
MemFs.v
WireCodec.v
Witnesses.v
ServerLifeWitnesses.v
ClientWitnesses.v
FuseWitnesses.v
ReplWitnesses.v
SystemWitnesses.v
QuicWitnesses.v
QuicClientWitnesses.v
QuicSystemWitnesses.v
