(* ===== verification/Prelude.v ===== *)
(** * quic-nfs: a verified model of an NFS version 2 server and its clients

    The program is a user-space NFS v2 + Mount v2 server and its clients,
    written in C. Messages are protobuf messages; RPC (RFC 5531) runs over TCP
    or QUIC with record marking. This library models the server, the transport
    below it, the client stubs, the FUSE client and the command-line client (the
    REPL), and proves what makes them correct, one by one and composed.

    ** The parts of the program and where they are modelled

    A call travels through these parts (paths under [src/src/]):

    - [transport/tcp/tcp_record_marking.c] cuts a message into fragments and
      puts fragments together: [RecordMarking]. The incremental receiver of
      [transport/quic/quic_record_marking.c], fed whatever bytes a stream has:
      [RecordMarkingQuic].
    - [transport/tcp/tcp_rpc_server.c] decodes a call, checks its RPC version,
      credentials and verifier, lets the programs answer and sends the reply;
      [nfs/server/server.c], [nfs.c] and [mount.c] dispatch by program, version
      and procedure number: [Server]. The server over QUIC
      ([transport/quic/quic_rpc_server.c]) has the same functions over streams:
      they are instances of the ones in [Server], and its callback for readable
      streams is in [QuicServer]; [QuicStreams] has the lemmas on streams and
      the list of receiving contexts. The loop of [handle_client_tcp] over the
      calls of one connection: [Connections]. The list of the threads that
      serve connections ([nfs/server/nfs_server_threads.c]) with the threads
      that add and remove entries, interleaved: [ServerThreads]; and the
      handler of SIGTERM that cancels and joins them, interleaved with them:
      [ServerShutdown]. The life of the server's process ([main] and the rest of
      the handler of SIGTERM in [nfs/server/server.c], the start of
      [run_server_tcp] and [run_server_quic], the release of what they
      acquired): [ServerLife].
    - [nfs/server/procedures] holds the procedures. [ServerState] has the
      server's globals (inode cache, mount list, READDIR sessions) beside the
      operating system, and the blocks that the procedures repeat; [ProcAttr]
      has NULL, GETATTR, SETATTR, LOOKUP and STATFS, [ProcFile] READLINK, READ,
      WRITE and READDIR, [ProcCreate] CREATE, MKDIR, LINK and SYMLINK,
      [ProcRemove] REMOVE, RMDIR and RENAME, [ProcMount] MNT. A procedure is
      translated in stages (arguments, checks, system call, reply), each a
      definition, composed as the function runs through them.
    - The procedures call [nfs/server/inode_cache.c] (file handles are inode
      numbers, the cache finds their paths): [InodeCache], and statement by
      statement on nodes in memory, with the threads of all connections
      interleaved, as the cache has no mutex, [SharedInodeCache];
      [common_permissions] and [nfs/server/nfs_permissions.c]: [Permissions];
      [nfs/server/file_management.c] and [path_building]: [FileManagement];
      [nfs/server/directory_reading.c] (sessions that keep a directory stream
      open between READDIR calls, and the thread that cleans them up
      periodically): [ReadDir].
    - [serialization/*.proto], the functions that build replies, and the
      clients' validation of replies ([message_validation],
      [common_rpc/client_common_rpc.c]): [Messages].
    - The generated serialization code ([serialization/*/*.pb-c.c] and the
      headers): for every message its structure with the [INIT] macro, its
      descriptor table and its six functions, for every enumeration its constants
      and its table, in [PbCommon] (google_protos, nfs_fh, mount), [PbRpc] and
      [PbNfs]; [PbTables] has all tables by name and their consistency. [Protobuf]
      has the types of the tables, the contents of messages, the documented encoding
      and the interface to the library protobuf-c; [ProtobufDecoding] a library
      that does what is documented. [MessageContents], [MessageSchemas] and
      [RpcSchemas] relate the structures of [Messages] to the contents that the
      tables describe, [ReceivedMessages] what can arrive; [GeneratedCodec] makes
      the interfaces [Codec] and [ClientCodec] of the rest of the development out of
      the generated functions, and [GeneratedMessages] shows the promises about
      messages of them.
    - The client's end: credentials, connection contexts
      ([common_rpc/rpc_connection_context.c]) and calls over TCP
      ([transport/tcp/tcp_rpc_client.c]): [RpcClient]; the stubs of
      [nfs/clients]: [NfsClient]; client and server connected: [EndToEnd]. Calls
      over QUIC ([transport/quic/quic_rpc_client.c], [streams.c],
      [stream_allocation.c], [client_stream_context.c]): the pool of streams, the
      contexts and the threads that share them, interleaved, in [QuicClient];
      the client with a peer that answers on the same stream in [QuicReplies].
      The packets between the UDP socket and the QUIC library, of client and
      server: [QuicPackets]. The establishing and closing of the client's
      connection ([wait_for_connection_establishment], the callbacks for
      connections, the closing in [free_rpc_connection_context]), as threads of
      their own: [QuicConnection]; the freeing of the client's lists:
      [QuicShutdown].
    - The FUSE client: [fuse/path_resolution.c] in [FusePaths], the handlers of
      [fuse/handlers] and mounting ([fuse/nfs_fuse.c]) in [FuseHandlers]. The
      handlers' loops are analysed in [FuseData] against interfaces that say
      what a server promises ([LookupService], [FileService],
      [DirectoryService]). [main] and [clean_up] of [fuse/nfs_fuse.c]:
      [FuseMain].
    - The REPL ([repl]): the nodes of the directories it has visited
      ([filesystem_dag]) in [ReplDag]; its globals, the calls of stubs and the
      following of symbolic links ([soft_links]) in [ReplState]; the command
      handlers ([handlers]) in [ReplHandlers]; the menu, the parsing of lines
      and the loop of [repl.c] in [ReplCommands]. What the sessions do is in
      [ReplSafety] (for all servers) and [ReplData] (for servers that keep the
      promises of the interfaces of [FuseData]). [CStrings] has the string
      functions of C it uses ([fgets], [sscanf], [strtoul]) and
      [Parsing] the port numbers and names of [parsing/parsing.c].
    - The composition: [ServerFiles] and [ServerDirectories] show that the
      server, over its TCP connection, keeps the promises [LookupService], [LinkService],
      [SizeService], [FileService] and [DirectoryService] that the FUSE client and the REPL
      rely on, and conclude what both see of the server's files. [QuicEndToEnd]
      connects the QUIC client with the QUIC server.

    [Prelude] (this file) has the computations that model C functions, their
    weakest preconditions with automation, machine integers and lemmas on
    lists. [Authorization] has theorems across procedures, [MemFs] a file
    system in memory and a message encoding to run the server on, [WireCodec]
    an encoding of all messages; [Witnesses], [ServerLifeWitnesses],
    [ClientWitnesses], [FuseWitnesses], [ReplWitnesses], [SystemWitnesses],
    [QuicWitnesses], [QuicClientWitnesses] and [QuicSystemWitnesses] apply the
    theorems to them and run client and server together.

    ** How C is modelled

    A function body is a computation [prog St R A]: a function of the state
    that falls through with a value, leaves the function by [return], or
    faults. A fault is a null dereference, a read of the wrong union member, or
    a loop that does not end. A pointer that may be NULL is an [option].
    Integers are [Z], kept at their width with [wrap32], [wrap64], [to_int32]
    and [to_int64] where they are stored in fields or cast. Allocation may fail
    only in the record marking files, in the making of contexts and in mounting,
    where the code tests for it. Reading memory after it was freed is a fault.

    Not under [src/] and therefore parameters of the model, as classes: the
    operating system ([Posix], over an abstract state), the library protobuf-c
    ([ProtobufC]), sockets and QUIC streams ([Socket],
    [QuicStream]), the client's host and its QUIC library ([ClientHost],
    [QuicLibrary]) and memory ([Memory]). [Peer] is what happens on the other
    side of a connection while a client waits. [UdpSockets] and [QuicEndpoint]
    are the UDP socket and the endpoint of the QUIC library. The REPL and the
    programs get the files of their own machine ([local_files]), [malloc] and
    [realloc] ([memory]) and the making and freeing of contexts ([create],
    [release]) as arguments, the starting servers the [answers] of the system
    calls. Documented facts about them that a theorem needs are separate
    classes: [ProtobufCEncodes] (messages that the tables describe and that are
    smaller than 2 GiB are packed in the documented encoding and unpacked from it,
    and what is unpacked is described by the tables), [Stdio] (files),
    [DirStreams] (directory streams as POSIX has them: a value of [telldir] is good
    for its stream only and until [rewinddir]; that the values behind an entry are
    positive is the one fact that is not in the standard),
    [StreamSocket] and [LiveSocket] (a stream delivers bytes in order; a
    connection that stays up makes progress), [PendingStream] and [LiveStreams]
    (the same for QUIC streams: a write takes at least a byte, so that flow control,
    which the code takes for an error, is left out), [Arrivals] and
    [StreamArrivals] (delivery by the network), [Datagrams] (what a UDP socket has
    received is read in order), [OrdinaryFile] and [BrowsableDirectory] (a file and a
    directory of the server that nobody else changes and on which the calls
    succeed). Every such class has an
    instance, in [MemFs], [WireCodec], [ProtobufDecoding], [RecordMarking],
    [RecordMarkingQuic] or one of the files of witnesses.

    Between the generated code and its callers are the interfaces [Codec] and
    [ClientCodec] with [PackedSizeBounds] and [CountRange] (sizes of directory
    entries and the range of a field) and [Messaging] (messages are decoded to what
    was encoded): the theorems on server, clients and front ends are proved against
    them, and [GeneratedMessages] shows that the generated code keeps them.
    [PackSmall] says that an encoded message is smaller than 2^63 bytes, like every
    object in memory. At this border a string is a C string, without NUL (what follows a NUL in a string that
    arrives is kept, where C code would not see it), and a number that is not a
    constant of its enumeration is not a message, where C code would see the number.

    ** What the theorems show

    - Safety ([Server]): a call with checked credentials makes the server
      reach undefined behaviour exactly when it leaves out the parameters of a
      procedure that reads them; every reply is well formed.
    - Calls and connections ([Server], [Connections]): a call is either
      rejected, with no effect but the rejection, or carried out once and
      answered once, or crashes the server because it has no parameters; the thread
      of a connection implements the specification [answer_all], which answers the
      client's calls one by one in order and stops at a call of the last kind.
    - Messages ([PbTables], [GeneratedCodec], [GeneratedMessages]): the tables of
      the generated code agree with the headers and with each other; the messages
      that client and server exchange are encoded as the documentation of protocol
      buffers says and arrive as they were sent; what is decoded is well formed; and
      the interfaces to the rest of the program are kept.
    - Authorization ([Permissions], [Authorization], SETATTR in [ProcAttr]):
      the permission checks are the UNIX rule and no change gets past them.
    - Transport ([RecordMarking], [RecordMarkingQuic]): records that are not empty
      arrive as they were sent, however the bytes are split over reads and calls;
      errors of the socket are lost, a record that ends in an empty fragment is
      not noticed over QUIC, and bytes behind a record make the receiver use freed
      memory.
    - QUIC ([QuicServer]): however the arrivals of many streams interleave,
      every call is answered on its own stream, by the same specification as
      over TCP.
    - QUIC client ([QuicClient], [QuicReplies]): concurrent calls have streams of
      their own, at most ten, and each gets the answer to its own message under
      every interleaving; but a call that finds all streams in use never returns,
      nor does any call after a callback has failed, and a wake-up can be lost.
    - Clients ([NfsClient], [EndToEnd]): a stub returns exactly the results of
      a successful reply, and crashes exactly on one without its accepted body; called on an idle TCP connection it runs one procedure
      on the server and returns its result, and a rejected call changes nothing;
      the contexts that clients make are well formed. The NULL stubs crash when
      there is no reply.
    - FUSE client ([FusePaths], [FuseData]): path resolution is the walk down
      the server's tree of names; what was written in pieces is read back;
      listing a directory ends and is complete; offsets of 4 GiB or more wrap.
    - Client and server together ([ServerFiles], [ServerDirectories],
      [QuicEndToEnd]): for files and directories to which names lead that the server
      has already given handles for, what the FUSE client writes, and the REPL's [echo] appends,
      is on the server's disk and read back by [nfs_read] and [cat]; both list the
      server's directories completely, except that [ls] never ends in one with an
      entry of more than 50 bytes; a call over QUIC that returned has run on the
      server exactly once, between the calls before and behind it.
    - REPL ([ReplCommands], [ReplSafety], [ReplData]): typed commands are
      understood and overflow no buffer; the heap of directory nodes implements a
      stack of directories and no command follows a dangling pointer; sessions
      end when calls and the giving up of connections do; links are followed along their targets, at most 40, and a dangling one
      crashes; [cd] asks the client's own machine for permission; leaving frees
      the root node only.
    - Life of the processes ([ServerLife], [FuseMain]): the command line selects
      port and transport; the QUIC server releases what it acquired. SIGTERM
      ([ServerShutdown]): under every interleaving the handler uses no freed entry,
      and every run ends, with all threads joined and their entries freed, or in a
      crash of an unregistered thread or one of three deadlocks.
    - QUIC connections ([QuicPackets], [QuicConnection], [QuicShutdown]): packets
      that arrived reach the library in order; a connection is freed when its event
      loop has ended, and then its streams, contexts and queue are freed once; but a failed handshake hangs
      the call that waits for it, a wake-up can be lost, and two first calls at
      the same time leave an event loop behind that uses freed memory.
    - Handles ([InodeCache], LOOKUP, CREATE, REMOVE, RENAME, MNT): the inode
      cache implements a stack of mappings per inode number under all of its
      operations; handles resolve, survive and are forgotten as
      they should, except after a RENAME onto an existing name. The statements of the
      cache's functions on nodes and pointers implement the operations on lists when
      they run alone ([SharedInodeCache]); searches of all threads are safe as long
      as nothing is removed, but two concurrent additions can lose one, and a search
      next to a removal can read freed memory.
    - READDIR ([ReadDir]): pages continue where a cookie of the session points to,
      every call ends, sessions stay unique and expire, under every interleaving of the calls
      with the periodic clean-up; and the group of a client is not compared.
    - Data ([FileManagement], [ProcFile]): READ returns what WRITE stored,
      within the limits.
    - Threads ([ServerThreads]): under every interleaving the list of threads
      stays well formed and its critical sections exclude each other; but the
      mutex is lost when the newest thread removes itself, and a thread that
      fails before it is registered crashes the server.
    - Results on every branch: GETATTR, MNT and the exports file; and MKDIR with
      a size, which fails after it made the directory.

    ** Fuel

    The sending and receiving loops get as fuel the number of bytes or
    fragments they have to move, plus one; each round moves at least one, and
    the round-trip theorems show that this is enough. [read_entries] gets the
    byte limit plus one: each round adds at least one byte to the page (and
    READDIR is shown to return). The chunk loop of the QUIC receiver gets twice
    the length of the chunk plus one. Receivers take their fuel as an argument,
    and their theorems hold for all fuel from the number of fragments on; the
    loop over the calls of a connection is right for all fuel above their
    number. The loops of the FUSE handlers get the number of bytes to write
    (each round writes at least one), or any number above the bytes to read or
    the entries to list. The search in the list of threads gets the size of the
    heap plus one. The receiving callback of the QUIC client takes any fuel; any
    number above the pieces that have arrived is shown to be enough, and so for
    the datagrams that [read_datagrams] reads. The loop of the REPL gets a round
    per character of the input, as each reads at least one, [clean_up_dag] the
    number of nodes, the following of links the code's own limit of 40; [ls] and
    [cat] take any fuel above the entries and the bytes of the file. The handler of
    SIGTERM is a step relation without fuel, shown to end. A function of the
    inode cache run alone takes any number of steps from the number of mappings
    plus six on. Decoding a message gets the number of its bytes, as every field has at
    least one; reading a list of directory entries from a content gets its encoded
    size plus one.

    ** What is not modelled

    The insides of protobuf-c, libfuse, libev and the QUIC library. Logging
    ([error_handling], the printing functions of [common_rpc]). Freeing memory,
    except of the entries of the threads' list, of the inode cache, of the nodes of
    the REPL and of the QUIC client's lists; [malloc] failing outside record marking,
    the making of contexts, mounting, the QUIC client and the REPL; concurrent
    procedures as a whole (each runs as one step; what they share is modelled with
    interleaved threads for itself: the READDIR sessions, which a mutex protects, and
    the inode cache, which none does; the mount list, to which procedures only add and
    from which none reads, is not). The counter of xids, an [int], is taken to wrap
    around after 2^31 messages. In [EndToEnd] the class [QuicCalls] stands for
    [invoke_rpc_remote_quic], whose body is in [QuicEndToEnd]. The tests
    ([tests]) are no part of the program. *)
From stdpp Require Export base tactics list strings numbers option gmap.
From Stdlib Require Export ssreflect Init.Byte.
From Stdlib Require Import Strings.Byte.

Declare Scope c_scope.
Delimit Scope c_scope with C.
Global Open Scope general_if_scope.
Global Open Scope Z_scope.

(** * C programs as state-passing computations

    A C function body is a computation over a state [St] that either falls
    through with a value, leaves the function early through a [return]
    statement, or reaches behaviour the C standard does not define (here:
    dereferencing a null pointer, or reading a union member other than the
    one that was stored). *)

Inductive outcome (St R A : Type) : Type :=
  | Val (a : A) (s : St)
  | Ret (r : R) (s : St)
  | Fault.

Arguments Val {St R A} a s.
Arguments Ret {St R A} r s.
Arguments Fault {St R A}.

Definition prog (St R A : Type) : Type := St → outcome St R A.

Global Instance prog_ret {St R} : MRet (prog St R) := λ A a s, Val a s.

Global Instance prog_bind {St R} : MBind (prog St R) :=
  λ A B k m s,
    match m s with
    | Val a s' => k a s'
    | Ret r s' => Ret r s'
    | Fault => Fault
    end.

(** [return r;] *)
Definition return_ {St R A} (r : R) : prog St R A := λ s, Ret r s.

(** Undefined behaviour. *)
Definition fault {St R A} : prog St R A := λ _, Fault.

Definition gets {St R A} (f : St → A) : prog St R A := λ s, Val (f s) s.

Definition modify {St R} (f : St → St) : prog St R unit := λ s, Val tt (f s).

(** A state transformer of the environment (a library or system call). *)
Definition lift {St R A} (f : St → A * St) : prog St R A :=
  λ s, let '(a, s') := f s in Val a s'.

(** An operation that may be undefined or not end. *)
Definition attempt {St R A} (f : St → option (A * St)) : prog St R A :=
  λ s, match f s with Some (a, s') => Val a s' | None => Fault end.

(** [if (p == NULL) return r;] followed by uses of [*p]. *)
Definition orelse {St R A} (o : option A) (r : R) : prog St R A :=
  match o with Some a => mret a | None => return_ r end.

(** [*p] with no check before it. *)
Definition deref {St R A} (o : option A) : prog St R A :=
  match o with Some a => mret a | None => fault end.

(** [if (b) return r;] *)
Definition return_if {St R} (b : bool) (r : R) : prog St R unit :=
  if b then return_ r else mret tt.

(** A call of another function: its [return] becomes the value of the call. *)
Definition call {St R T} (body : prog St T T) : prog St R T :=
  λ s, match body s with
       | Val t s' => Val t s'
       | Ret t s' => Val t s'
       | Fault => Fault
       end.

(** The whole function, run from a state: its result and the final state, or
    nothing when it ran into undefined behaviour. *)
Definition run {St T} (body : prog St T T) (s : St) : option (T * St) :=
  match body s with
  | Val t s' => Some (t, s')
  | Ret t s' => Some (t, s')
  | Fault => None
  end.

(** ** Total-correctness triples

    [wp m Q E s]: [m] started in [s] does not reach undefined behaviour, a
    normal end satisfies [Q] and a [return] satisfies [E]. *)
Definition wp {St R A} (m : prog St R A) (Q : A → St → Prop) (E : R → St → Prop)
    (s : St) : Prop :=
  match m s with
  | Val a s' => Q a s'
  | Ret r s' => E r s'
  | Fault => False
  end.

Section wp.
Context {St R : Type}.
Implicit Types (s : St) (E : R → St → Prop).

Lemma wp_mret {A} (a : A) Q E s : Q a s → wp (mret a) Q E s.
Proof. done. Qed.

Lemma wp_bind {A B} (m : prog St R A) (k : A → prog St R B) Q E s :
  wp m (λ a s', wp (k a) Q E s') E s → wp (m ≫= k) Q E s.
Proof. rw /wp /mbind /prog_bind. by destruct (m s). Qed.

Lemma wp_mono {A} (m : prog St R A) (Q Q' : A → St → Prop) (E E' : R → St → Prop) s :
  wp m Q E s → (∀ a s', Q a s' → Q' a s') → (∀ r s', E r s' → E' r s') → wp m Q' E' s.
Proof. rw /wp. destruct (m s); auto. Qed.

Lemma wp_return {A} (r : R) (Q : A → St → Prop) E s : E r s → wp (return_ r) Q E s.
Proof. done. Qed.

Lemma wp_gets {A} (f : St → A) Q E s : Q (f s) s → wp (gets f) Q E s.
Proof. done. Qed.

Lemma wp_modify (f : St → St) (Q : () → St → Prop) E s :
  Q tt (f s) → wp (modify f) Q E s.
Proof. done. Qed.

Lemma wp_lift {A} (f : St → A * St) (Q : A → St → Prop) E s :
  (∀ a s', f s = (a, s') → Q a s') → wp (lift f) Q E s.
Proof. rw /wp /lift. destruct (f s); auto. Qed.

Lemma wp_attempt {A} (f : St → option (A * St)) (Q : A → St → Prop) E s a s' :
  f s = Some (a, s') → Q a s' → wp (attempt f) Q E s.
Proof. rw /wp /attempt. by intros ->. Qed.

Lemma wp_orelse {A} (o : option A) (r : R) Q E s :
  (o = None → E r s) → (∀ a, o = Some a → Q a s) → wp (orelse o r) Q E s.
Proof. destruct o; rw /wp /=; auto. Qed.

Lemma wp_deref {A} (o : option A) Q E s :
  is_Some o → (∀ a, o = Some a → Q a s) → wp (deref o) Q E s.
Proof. intros [a ->]; rw /wp /=; auto. Qed.

Lemma wp_return_if (b : bool) (r : R) (Q : () → St → Prop) E s :
  (b = true → E r s) → (b = false → Q tt s) → wp (return_if b r) Q E s.
Proof. destruct b; rw /wp /=; auto. Qed.

Lemma wp_call {T} (body : prog St T T) (Q : T → St → Prop) E s :
  wp body Q Q s → wp (call body) Q E s.
Proof. rw /wp /call. by destruct (body s). Qed.

Lemma wp_run {T} (body : prog St T T) (Q : T → St → Prop) s :
  wp body Q Q s ↔ ∃ t s', run body s = Some (t, s') ∧ Q t s'.
Proof.
  rw /wp /run. destruct (body s) as [t s'|t s'|].
  - split; [eauto|]. intros (?&?&?&?); by simplify_eq.
  - split; [eauto|]. intros (?&?&?&?); by simplify_eq.
  - split; [done|]. by intros (?&?&?&?).
Qed.

Lemma wp_run_elim {T} (body : prog St T T) (Q : T → St → Prop) s t s' :
  wp body Q Q s → run body s = Some (t, s') → Q t s'.
Proof. intros (?&?&?&?)%wp_run ?. by simplify_eq. Qed.
End wp.

(** ** The outcomes of computations that may fault *)

Definition wlp {St R A} (m : prog St R A) (Q : A → St → Prop) (E : R → St → Prop) (s : St) : Prop :=
  match m s with Val a s' => Q a s' | Ret r s' => E r s' | Fault => True end.

Section wlp.
Context {St R : Type}.

Lemma wlp_bind {A B} (m : prog St R A) (k : A → prog St R B) Q E s :
  wlp m (λ a, wlp (k a) Q E) E s → wlp (m ≫= k) Q E s.
Proof. rw /wlp /mbind /prog_bind. by destruct (m s). Qed.

Lemma wlp_wp {A} (m : prog St R A) Q E s : wp m Q E s → wlp m Q E s.
Proof. rw /wp /wlp. by destruct (m s). Qed.

Lemma wlp_deref {A} (o : option A) (Q : A → St → Prop) (E : R → St → Prop) s :
  (∀ a, o = Some a → Q a s) → wlp (deref o) Q E s.
Proof. destruct o; rw /wlp /=; auto. Qed.

Lemma wlp_fault {A} (Q : A → St → Prop) (E : R → St → Prop) s : wlp fault Q E s.
Proof. done. Qed.

Lemma wlp_run {T} (body : prog St T T) (Q : T → St → Prop) s t s' :
  wlp body Q Q s → run body s = Some (t, s') → Q t s'.
Proof. rw /wlp /run. destruct (body s); intros HQ Hr; by simplify_eq. Qed.
End wlp.

(** ** Running a computation step by step *)

Section run_steps.
Context {St R : Type}.

Lemma bind_val {A B} (m : prog St R A) (k : A → prog St R B) s a s1 :
  m s = Val a s1 → (m ≫= k) s = k a s1.
Proof. rw /mbind /prog_bind. by intros ->. Qed.

Lemma bind_ret {A B} (m : prog St R A) (k : A → prog St R B) s r s1 :
  m s = Ret r s1 → (m ≫= k) s = Ret r s1.
Proof. rw /mbind /prog_bind. by intros ->. Qed.

Lemma run_val (m : prog St R R) s r s1 : m s = Val r s1 → run m s = Some (r, s1).
Proof. rw /run. by intros ->. Qed.

Lemma run_ret (m : prog St R R) s r s1 : m s = Ret r s1 → run m s = Some (r, s1).
Proof. rw /run. by intros ->. Qed.
End run_steps.

(** Rewrite with a known outcome of the first step of a computation. *)
Ltac run_step H :=
  lazymatch type of H with
  | _ = Val _ _ => rw (bind_val _ _ _ _ _ H)
  | _ = Ret _ _ => rw (bind_ret _ _ _ _ _ H)
  end.

(** ** Automation for [wp] goals *)

Create HintDb c_wp discriminated.

(** One structural step through a computation. *)
Ltac wp_step :=
  lazymatch goal with
  | |- wp (mbind _ _) _ _ _ => apply wp_bind
  | |- wp (mret _) _ _ _ => apply wp_mret
  | |- wp (return_ _) _ _ _ => apply wp_return
  | |- wp (gets _) _ _ _ => apply wp_gets
  | |- wp (modify _) _ _ _ => apply wp_modify
  | |- wp (lift _) _ _ _ =>
      let a := fresh "a" in let s := fresh "s" in let H := fresh "Hcall" in
      apply wp_lift; intros a s H
  | |- wp (orelse _ _) _ _ _ =>
      let x := fresh "x" in let H := fresh "Hsome" in
      apply wp_orelse; [intros H | intros x H]
  | |- wp (return_if _ _) _ _ _ =>
      let H := fresh "Hif" in apply wp_return_if; intros H
  | |- wp (call _) _ _ _ => apply wp_call
  | |- wp (match ?x with _ => _ end) _ _ _ =>
      let H := fresh "Hm" in destruct x eqn:H
  | |- wp (let '(_, _) := ?x in _) _ _ _ =>
      let H := fresh "Hm" in destruct x eqn:H
  end; cbv beta.

Ltac wp_auto := repeat wp_step.

(** The same where a computation may fault. *)
Ltac wlp_step :=
  lazymatch goal with
  | |- wlp (mbind _ _) _ _ _ => apply wlp_bind
  | |- wlp (deref _) _ _ _ =>
      let x := fresh "x" in let H := fresh "Hsome" in apply wlp_deref; intros x H
  | |- wlp fault _ _ _ => apply wlp_fault
  | |- wlp (match ?x with _ => _ end) _ _ _ => let H := fresh "Hm" in destruct x eqn:H
  | |- wlp _ _ _ _ => apply wlp_wp; wp_step
  end; cbv beta.

Ltac wlp_auto := repeat wlp_step.

(** * Machine integers

    Unsigned C integers are [Z] values reduced modulo their width; a signed
    conversion picks the representative in two's complement. *)

Definition wrap32 (z : Z) : Z := z mod 2 ^ 32.
Definition wrap64 (z : Z) : Z := z mod 2 ^ 64.

(** Conversion of a 64-bit value to a signed type ([off_t], [time_t]). *)
Definition to_int64 (z : Z) : Z :=
  let u := wrap64 z in if u <? 2 ^ 63 then u else u - 2 ^ 64.

(** Conversion to [int]. *)
Definition to_int32 (z : Z) : Z :=
  let u := z mod 2 ^ 32 in if u <? 2 ^ 31 then u else u - 2 ^ 32.

Lemma to_int32_small z : 0 ≤ z < 2 ^ 31 → to_int32 z = z.
Proof.
  intros ?. rw /to_int32 Z.mod_small; [lia|].
  by rw (proj2 (Z.ltb_lt z (2 ^ 31))); [lia|].
Qed.

(** [-1] converted to an unsigned type of 32 or 64 bits. *)
Definition UINT32_MAX : Z := 2 ^ 32 - 1.
Definition UINT64_MAX : Z := 2 ^ 64 - 1.

Definition u32 (z : Z) : Prop := 0 ≤ z < 2 ^ 32.
Definition u64 (z : Z) : Prop := 0 ≤ z < 2 ^ 64.

#[global] Instance u32_dec z : Decision (u32 z).
Proof. unfold u32. apply _. Defined.
#[global] Instance u64_dec z : Decision (u64 z).
Proof. unfold u64. apply _. Defined.

Lemma u32_u64 z : u32 z → u64 z.
Proof. unfold u32, u64. lia. Qed.

Lemma wrap32_small z : u32 z → wrap32 z = z.
Proof. rw /u32 /wrap32 => ?. by apply Z.mod_small. Qed.

Lemma wrap32_range z : u32 (wrap32 z).
Proof. rw /u32 /wrap32. apply Z.mod_pos_bound. lia. Qed.

Lemma wrap64_range z : u64 (wrap64 z).
Proof. rw /u64 /wrap64. apply Z.mod_pos_bound. lia. Qed.

Lemma wrap64_small z : u64 z → wrap64 z = z.
Proof. rw /u64 /wrap64 => ?. by apply Z.mod_small. Qed.

Lemma to_int64_small z : 0 ≤ z < 2 ^ 63 → to_int64 z = z.
Proof.
  intros ?. rw /to_int64 wrap64_small; [rw /u64; lia|].
  by rw (proj2 (Z.ltb_lt z (2 ^ 63))); [lia|].
Qed.

(** * Bytes *)

Global Instance byte_eq_dec : EqDecision byte := byte_eq_dec.

(** The low eight bits of a value, as a byte. *)
Definition byte_of_Z (z : Z) : byte :=
  default x00 (Byte.of_N (Z.to_N (z mod 256))).

Definition Z_of_byte (b : byte) : Z := Z.of_N (Byte.to_N b).

Lemma Z_of_byte_range b : 0 ≤ Z_of_byte b < 256.
Proof. rw /Z_of_byte. pose proof (Byte.to_N_bounded b). lia. Qed.

Lemma Z_of_byte_of_Z z : Z_of_byte (byte_of_Z z) = z mod 256.
Proof.
  rw /Z_of_byte /byte_of_Z. pose proof (Z.mod_pos_bound z 256 ltac:(lia)).
  destruct (Byte.of_N _) as [b|] eqn:Hb; simpl.
  - apply Byte.to_of_N in Hb. rw Hb. lia.
  - apply Byte.of_N_None_iff in Hb. lia.
Qed.

(** * Lists *)

(** The first element satisfying a test (a search loop over a linked list). *)
Fixpoint find_first {A} (p : A → bool) (l : list A) : option A :=
  match l with
  | [] => None
  | x :: l => if p x then Some x else find_first p l
  end.

(** The list without its first element satisfying a test (unlinking a node). *)
Fixpoint remove_first {A} (p : A → bool) (l : list A) : list A :=
  match l with
  | [] => []
  | x :: l => if p x then l else x :: remove_first p l
  end.

(** The list with its first element satisfying a test rewritten in place. *)
Fixpoint update_first {A} (p : A → bool) (f : A → A) (l : list A) : list A :=
  match l with
  | [] => []
  | x :: l => if p x then f x :: l else x :: update_first p f l
  end.

Section find_first.
Context {A : Type}.
Implicit Types (p q : A → bool) (l : list A).

Lemma find_first_Some p l x : find_first p l = Some x → x ∈ l ∧ p x = true.
Proof.
  induction l as [|y l IH]; simpl; [done|].
  destruct (p y) eqn:Hy; intros; simplify_eq; [by split; [apply list_elem_of_here|]|].
  destruct IH; [done|]. by split; [apply list_elem_of_further|].
Qed.

Lemma find_first_None p l : find_first p l = None ↔ ∀ x, x ∈ l → p x = false.
Proof.
  induction l as [|y l IH]; simpl; [split; [intros _ x []%not_elem_of_nil|done]|].
  destruct (p y) eqn:Hy.
  - split; [done|]. intros H. specialize (H y (list_elem_of_here _ _)). congruence.
  - rw IH. setoid_rewrite elem_of_cons. split; [intros H x [->|Hx]; auto|auto].
Qed.

Lemma find_first_app p l1 l2 :
  find_first p (l1 ++ l2) =
  match find_first p l1 with Some x => Some x | None => find_first p l2 end.
Proof. induction l1 as [|x l1 IH]; simpl; [done|]. by destruct (p x). Qed.

Lemma find_first_ext p q l :
  (∀ x, x ∈ l → p x = q x) → find_first p l = find_first q l.
Proof.
  induction l as [|x l IH]; simpl; intros H; [done|].
  rw (H x (list_elem_of_here _ _)) IH; [|done].
  intros y Hy. apply H. by apply list_elem_of_further.
Qed.

Lemma remove_first_id p l : find_first p l = None → remove_first p l = l.
Proof. induction l as [|x l IH]; simpl; [done|]. destruct (p x); [done|]. by intros ->%IH. Qed.

Lemma update_first_id p f l : find_first p l = None → update_first p f l = l.
Proof. induction l as [|x l IH]; simpl; [done|]. destruct (p x); [done|]. intros. by rw IH. Qed.

Lemma remove_first_sublist p l : remove_first p l `sublist_of` l.
Proof.
  induction l as [|x l IH]; simpl; [done|]. destruct (p x); by constructor.
Qed.

Lemma remove_first_Forall (P : A → Prop) p l : Forall P l → Forall P (remove_first p l).
Proof. induction 1 as [|x l Hx Hl IH]; simpl; [constructor|]. destruct (p x); auto. Qed.

Lemma remove_first_length p l x :
  find_first p l = Some x → S (length (remove_first p l)) = length l.
Proof.
  induction l as [|y l IH]; simpl; [done|].
  destruct (p y); simpl; [done|]. intros ?%IH. lia.
Qed.

(** Unlinking a node does not disturb searches that do not select it. *)
Lemma find_first_remove_ne p q l :
  (∀ x, q x = true → p x = false) → find_first q (remove_first p l) = find_first q l.
Proof.
  intros H. induction l as [|x l IH]; simpl; [done|].
  destruct (p x) eqn:Hp; simpl; last by rw IH.
  destruct (q x) eqn:Hq; [|done]. apply H in Hq. congruence.
Qed.

(** The list around the first match. *)
Lemma find_first_split p l x :
  find_first p l = Some x →
  ∃ l1 l2, l = l1 ++ x :: l2 ∧ p x = true ∧ Forall (λ y, p y = false) l1.
Proof.
  induction l as [|y l IH]; simpl; [done|]. destruct (p y) eqn:Hy.
  - intros [= <-]. by exists [], l.
  - intros Hx. destruct (IH Hx) as (l1 & l2 & -> & Hp & Hl1). exists (y :: l1), l2. by split_and!; [|..|constructor].
Qed.

Lemma remove_first_app p l1 x l2 :
  Forall (λ y, p y = false) l1 → p x = true → remove_first p (l1 ++ x :: l2) = l1 ++ l2.
Proof. intros Hl1 Hx. induction Hl1 as [|y l1 Hy _ IH]; simpl; [by rw Hx|by rw Hy IH]. Qed.

Lemma update_first_app p f l1 x l2 :
  Forall (λ y, p y = false) l1 → p x = true → update_first p f (l1 ++ x :: l2) = l1 ++ f x :: l2.
Proof. intros Hl1 Hx. induction Hl1 as [|y l1 Hy _ IH]; simpl; [by rw Hx|by rw Hy IH]. Qed.

Lemma find_first_update_ne p q f l :
  (∀ x, p x = true → q (f x) = q x) → (∀ x, p x = true → q x = false) →
  find_first q (update_first p f l) = find_first q l.
Proof.
  intros H1 H2. induction l as [|x l IH]; simpl; [done|].
  destruct (p x) eqn:Hp; simpl.
  - by rw H1 // H2.
  - by rw IH.
Qed.

Lemma update_first_length p f l : length (update_first p f l) = length l.
Proof. induction l as [|x l IH]; simpl; [done|]. destruct (p x); simpl; congruence. Qed.
End find_first.

Lemma sum_inv {A B} (x : A + B) : (∃ a, x = inl a) ∨ (∃ b, x = inr b).
Proof. destruct x; eauto. Qed.

(** [if]-conditions written with the C comparison operators. *)
Notation "a '!=?' b" := (negb (Z.eqb a b)) (at level 70, no associativity) : Z_scope.

Create Rewrite HintDb c_bool.

#[export] Hint Rewrite Z.eqb_eq Z.eqb_neq Z.ltb_lt Z.ltb_ge Z.leb_le Z.leb_gt
  negb_true_iff negb_false_iff andb_true_iff andb_false_iff orb_true_iff orb_false_iff : c_bool.

(** Turn boolean C conditions in the context into propositions. *)
Ltac c_bools := autorewrite with c_bool in *.

(** A mask with one bit tests that bit. *)
Lemma land_pow2_testbit m k : 0 ≤ k → (Z.land m (2 ^ k) !=? 0) = Z.testbit m k.
Proof.
  intros Hk. destruct (Z.testbit m k) eqn:Hb; apply eq_true_iff_eq; c_bools.
  - split; [done|]. intros _ Hz. apply (f_equal (λ z, Z.testbit z k)) in Hz.
    rw Z.land_spec Z.pow2_bits_true // Hb Z.bits_0 in Hz. done.
  - split; [|done]. intros []. apply Z.bits_inj'. intros n Hn.
    rw Z.land_spec Z.bits_0. destruct (decide (n = k)) as [->|]; [by rw Hb|].
    rw Z.pow2_bits_false; [lia|]. by rw andb_false_r.
Qed.
