(* ===== verification/CStrings.v ===== *)
(** Strings of the C library as the sources use them: characters, [strtoul],
    [sscanf] with the formats of the REPL, [fgets] and [strcspn].

    A C string is a [string] without the character NUL; functions that walk
    through strings work on the list of characters. *)
From stdpp Require Import pretty.
From Stdlib Require Import Strings.Ascii.
From S2P Require Import Prelude.

Abbreviation char := Ascii.ascii.
Abbreviation chars := String.list_ascii_of_string.
Abbreviation of_chars := String.string_of_list_ascii.

Definition NUL : char := "000"%char.
Definition newline : char := "010"%char.

(** A newline as a string, and a text with a newline behind it. *)
Definition nl : string := String newline "".
Definition line (text : string) : string := text +:+ nl.

Lemma chars_of_chars l : chars (of_chars l) = l.
Proof. apply String.list_ascii_of_string_of_list_ascii. Qed.

Lemma of_chars_chars s : of_chars (chars s) = s.
Proof. apply String.string_of_list_ascii_of_string. Qed.

Lemma chars_app s1 s2 : chars (s1 +:+ s2) = chars s1 ++ chars s2.
Proof. induction s1 as [|c s1 IH]; [done|]. by rw /= IH. Qed.

Lemma chars_length s : length (chars s) = String.length s.
Proof. induction s as [|c s IH]; [done|]. by rw /= IH. Qed.

(** * Prefixes *)

(** The longest prefix of a list that satisfies a test, and the rest. *)
Fixpoint take_while {A} (p : A → bool) (l : list A) : list A :=
  match l with [] => [] | x :: l => if p x then x :: take_while p l else [] end.

Fixpoint drop_while {A} (p : A → bool) (l : list A) : list A :=
  match l with [] => [] | x :: l' => if p x then drop_while p l' else l end.

Section while_lemmas.
Context {A : Type} (p : A → bool).
Implicit Types l : list A.

Lemma take_drop_while l : take_while p l ++ drop_while p l = l.
Proof. induction l as [|x l IH]; simpl; [done|]. destruct (p x); [by rw /= IH|done]. Qed.

Lemma take_while_Forall l : Forall (λ x, p x = true) (take_while p l).
Proof. induction l as [|x l IH]; simpl; [constructor|]. destruct (p x) eqn:E; by constructor. Qed.

Lemma drop_while_head l x l' : drop_while p l = x :: l' → p x = false.
Proof.
  induction l as [|y l IH]; simpl; [done|]. destruct (p y) eqn:E; [done|]. by intros [= <- _].
Qed.

(** A list is a prefix that satisfies the test and a rest that does not
    start with it. *)
Lemma while_split l :
  ∃ l1 l2, l = l1 ++ l2 ∧ Forall (λ x, p x = true) l1 ∧ take_while p l = l1 ∧ drop_while p l = l2.
Proof. exists (take_while p l), (drop_while p l). rw take_drop_while. by split_and!; [|apply take_while_Forall|..]. Qed.


Lemma take_while_length l : (length (take_while p l) ≤ length l)%nat.
Proof. rw -{2}(take_drop_while l) length_app. lia. Qed.

Lemma drop_while_length l : (length (drop_while p l) ≤ length l)%nat.
Proof. rw -{2}(take_drop_while l) length_app. lia. Qed.

(** A list that satisfies the test in front of one that does not start with
    it. *)
Lemma take_while_app l1 l2 :
  Forall (λ x, p x = true) l1 → (∀ x, head l2 = Some x → p x = false) →
  take_while p (l1 ++ l2) = l1 ∧ drop_while p (l1 ++ l2) = l2.
Proof.
  intros H1 H2. induction H1 as [|x l1 Hx _ [IH1 IH2]]; simpl.
  - destruct l2 as [|y l2]; [done|]. by rw /= H2.
  - by rw Hx IH1 IH2.
Qed.
End while_lemmas.

(** * Characters *)

(** Blank, tabulators, newline, form feed and carriage return. *)
Definition isspace (c : char) : bool :=
  let n := N_of_ascii c in ((n =? 32) || ((9 <=? n) && (n <=? 13)))%N.

Definition isdigit (c : char) : bool :=
  let n := N_of_ascii c in ((48 <=? n) && (n <=? 57))%N.

Definition digit_value (c : char) : Z := Z.of_N (N_of_ascii c) - 48.

(** * Numbers *)

Definition number (digits : list char) : Z := fold_left (λ v c, 10 * v + digit_value c) digits 0.

(** [strtoul(string, &endptr, 10)]: the value, whether [errno] is set, and
    what [endptr] points to. White space and a sign may come first; a minus sign
    negates in the type [unsigned long]. *)
Definition strtoul (string : list char) : Z * bool * list char :=
  let l := drop_while isspace string in
  let '(negative, l) :=
    match l with
    | "-"%char :: l => (true, l)
    | "+"%char :: l => (false, l)
    | _ => (false, l)
    end in
  match take_while isdigit l with
  | [] => (0, false, string)
  | digits =>
      if number digits >? UINT64_MAX then (UINT64_MAX, true, drop_while isdigit l)
      else (if (negative : bool) then wrap64 (- number digits) else number digits, false, drop_while isdigit l)
  end.

(** [%d] *)
Definition decimal (z : Z) : string := pretty z.

(** * Reading a line *)

(** [fgets] with a buffer of [size] bytes: at most [size - 1] characters, a
    newline ends the line. The buffer and what is left of the input; [None] at
    the end of the input. *)
Fixpoint fgets_loop (n : nat) (input : list char) : list char * list char :=
  match n, input with
  | S n, c :: input =>
      if Ascii.eqb c newline then ([c], input)
      else let '(line, rest) := fgets_loop n input in (c :: line, rest)
  | _, _ => ([], input)
  end.

Definition fgets (size : nat) (input : list char) : option (list char * list char) :=
  match input with [] => None | _ => Some (fgets_loop (size - 1) input) end.

(** The C string at the start of a buffer. *)
Definition c_string (buffer : list char) : list char := take_while (λ c, negb (Ascii.eqb c NUL)) buffer.

(** [s[strcspn(s, "\n")] = 0] *)
Definition strip_newline (buffer : list char) : list char :=
  take_while (λ c, negb (Ascii.eqb c newline)) (c_string buffer).

(** * Scanning *)

(** The directives of a format: a blank, another character, [%s] and
    [%[^c]]. *)
Inductive directive := Blank | Literal (c : char) | Word | Until (c : char).

(** [sscanf]: the strings assigned, in order; their number is what the
    function returns (or -1 for none). *)
Fixpoint sscanf (l : list char) (format : list directive) : list string :=
  match format with
  | [] => []
  | Blank :: format => sscanf (drop_while isspace l) format
  | Literal c :: format =>
      match l with
      | x :: l => if Ascii.eqb x c then sscanf l format else []
      | [] => []
      end
  | Word :: format =>
      let l := drop_while isspace l in
      match take_while (negb ∘ isspace) l with
      | [] => []
      | word => of_chars word :: sscanf (drop_while (negb ∘ isspace) l) format
      end
  | Until c :: format =>
      match take_while (λ x, negb (Ascii.eqb x c)) l with
      | [] => []
      | text => of_chars text :: sscanf (drop_while (λ x, negb (Ascii.eqb x c)) l) format
      end
  end.

Example scanned :
  sscanf (chars "  'a b' >>f g") [Blank; Literal "'"; Until "'"; Literal "'"; Blank; Literal ">"; Literal ">"; Blank; Word]
  = ["a b"; "f"] ∧ strtoul (chars " +12x") = (12, false, ["x"%char]) ∧
  strtoul (chars "-1") = (2 ^ 64 - 1, false, []).
Proof. vm_compute. done. Qed.

(** * Lemmas *)

Abbreviation is_number := (Forall (λ c, isdigit c = true)).

Lemma number_app l1 l2 : number (l1 ++ l2) = number l1 * 10 ^ Z.of_nat (length l2) + number l2.
Proof.
  rw /number fold_left_app. generalize (fold_left (λ v c, 10 * v + digit_value c) l1 0).
  induction l2 as [|c l2 IH] using rev_ind; intros v; [simpl; lia|].
  rw !fold_left_app /= IH length_app Nat2Z.inj_add Z.pow_add_r; [lia..|]. simpl. lia.
Qed.

Lemma pretty_N_char_digit x :
  (x < 10)%N → isdigit (pretty_N_char x) = true ∧ digit_value (pretty_N_char x) = Z.of_N x.
Proof.
  intros Hx. assert (x = 0 ∨ x = 1 ∨ x = 2 ∨ x = 3 ∨ x = 4 ∨ x = 5 ∨ x = 6 ∨ x = 7 ∨ x = 8 ∨ x = 9)%N as H by lia.
  by repeat destruct H as [->|H]; subst.
Qed.

Lemma pretty_N_go_number x s :
  ∃ l, pretty_N_go x s = of_chars l +:+ s ∧ is_number l ∧ number l = Z.of_N x ∧ (x ≠ 0%N → l ≠ []).
Proof.
  revert s. induction (N.lt_wf_0 x) as [x _ IH]; intros s.
  destruct (decide (x = 0%N)) as [->|Hx]; [by exists []|].
  rw pretty_N_go_step; [lia|].
  destruct (IH (x `div` 10)%N (N.div_lt x 10 ltac:(lia) ltac:(lia)) (String (pretty_N_char (x `mod` 10)) s))
    as (l & -> & Hl & Hn & _).
  destruct (pretty_N_char_digit (x `mod` 10)) as [Hd Hv]; [by apply N.mod_lt|].
  exists (l ++ [pretty_N_char (x `mod` 10)]). split_and!.
  - generalize (pretty_N_char (x `mod` 10)). intros c. clear. induction l as [|c' l IHl]; [done|].
    exact (f_equal (String c') IHl).
  - apply Forall_app. split; [done|]. by constructor.
  - rw number_app Hn. cbn [number fold_left length]. rw Hv. pose proof (N.div_mod x 10). lia.
  - intros _. by destruct l.
Qed.

(** Printed numbers are digits that stand for the number. *)
Lemma decimal_number z : 0 ≤ z →
  ∃ l, chars (decimal z) = l ∧ is_number l ∧ number l = z ∧ l ≠ [].
Proof.
  intros Hz. rw /decimal /pretty /pretty_Z. destruct z as [|p|p]; [|..|lia].
  - eexists. by split_and!; [|repeat constructor|..].
  - change (pretty p) with (pretty_N_go (N.pos p) ""). destruct (pretty_N_go_number (N.pos p) "") as (l & -> & Hl & Hn & Hne).
    eexists. split; [done|]. rw chars_app chars_of_chars app_nil_r. split_and!; [done|done|by apply Hne].
Qed.

Lemma digit_not_space c : isdigit c = true → isspace c = false.
Proof. by destruct c as [[] [] [] [] [] [] [] []]. Qed.

(** Digits alone are read back. *)
Lemma strtoul_digits l : is_number l → l ≠ [] → number l ≤ UINT64_MAX → strtoul l = (number l, false, []).
Proof.
  intros Hl Hne Hmax. destruct l as [|c l]; [done|]. pose proof (Forall_inv Hl) as Hc.
  rw /strtoul /= (digit_not_space c Hc).
  assert (match c :: l with
    | "-"%char :: l0 => (true, l0) | "+"%char :: l0 => (false, l0) | _ => (false, c :: l) end = (false, c :: l)) as Hsign.
  { destruct c as [[] [] [] [] [] [] [] []]; done. }
  simpl in Hsign. rw Hsign.
  destruct (take_while_app isdigit (c :: l) [] Hl ltac:(done)) as [Ht Hd]. rw app_nil_r in Ht Hd. rw Ht Hd.
  by rw Z.gtb_ltb (proj2 (Z.ltb_ge _ _) Hmax).
Qed.

(** ** Scanned strings are no longer than the input *)

Lemma length_of_chars l : String.length (of_chars l) = length l.
Proof. induction l as [|c l IH]; [done|]. by rw /= IH. Qed.

Lemma sscanf_length l format n :
  (length l ≤ n)%nat → Forall (λ s, String.length s ≤ n)%nat (sscanf l format).
Proof.
  revert l. induction format as [|d format IH]; intros l Hl; [constructor|].
  pose proof (drop_while_length isspace l) as Hsp. destruct d as [|c| |c]; simpl.
  - apply IH. lia.
  - destruct l as [|x l]; [constructor|]. destruct (Ascii.eqb x c); [|constructor]. apply IH. simpl in Hl. lia.
  - pose proof (take_while_length (negb ∘ isspace) (drop_while isspace l)) as Ht.
    pose proof (drop_while_length (negb ∘ isspace) (drop_while isspace l)) as Hd.
    destruct (take_while _ _) as [|a w]; [constructor|]. constructor; [simpl in *; rw length_of_chars; lia|].
    apply IH. lia.
  - pose proof (take_while_length (λ x, negb (Ascii.eqb x c)) l) as Ht.
    pose proof (drop_while_length (λ x, negb (Ascii.eqb x c)) l) as Hd.
    destruct (take_while _ _) as [|a w]; [constructor|]. constructor; [simpl in *; rw length_of_chars; lia|].
    apply IH. lia.
Qed.

Lemma fgets_loop_app n input line rest : fgets_loop n input = (line, rest) → input = line ++ rest.
Proof.
  revert input line rest. induction n as [|n IH]; intros [|c input] line rest; simpl; try by intros [= <- <-].
  destruct (Ascii.eqb c newline); [by intros [= <- <-]|].
  destruct (fgets_loop n input) as [l r] eqn:E. intros [= <- <-]. by rw (IH _ _ _ E).
Qed.

Lemma fgets_loop_length n input : (length (fgets_loop n input).1 ≤ n)%nat.
Proof.
  revert input. induction n as [|n IH]; intros [|c input]; simpl; try lia.
  destruct (Ascii.eqb c newline); simpl; [lia|]. specialize (IH input).
  destruct (fgets_loop n input); simpl in *. lia.
Qed.

(** A line that fits is read whole; of a longer one the first part is read. *)
Lemma fgets_loop_line n line rest :
  Forall (λ c, c ≠ newline) line → (length line < n)%nat →
  fgets_loop n (line ++ newline :: rest) = (line ++ [newline], rest).
Proof.
  intros Hl. revert n. induction Hl as [|c line Hc _ IH]; intros [|n] Hn; simpl in *; try lia; [done|].
  apply Ascii.eqb_neq in Hc. by rw Hc IH; [lia|].
Qed.

Lemma fgets_loop_full n line rest :
  Forall (λ c, c ≠ newline) line → length line = n → fgets_loop n (line ++ rest) = (line, rest).
Proof.
  intros Hl <-. induction Hl as [|c line Hc _ IH]; simpl; [by destruct rest|].
  apply Ascii.eqb_neq in Hc. by rw Hc IH.
Qed.

Lemma fgets_shorter n input buffer rest :
  fgets (S (S n)) input = Some (buffer, rest) → (length rest < length input)%nat.
Proof.
  rw /fgets. destruct input as [|c input]; [done|]. rw (_ : S (S n) - 1 = S n)%nat; [lia|]. cbn [fgets_loop].
  destruct (Ascii.eqb c newline); [intros [= _ <-]; simpl; lia|].
  destruct (fgets_loop n input) as [l r] eqn:E. intros [= _ <-]. rw (fgets_loop_app _ _ _ _ E) /= length_app. lia.
Qed.

Lemma fgets_length n input buffer rest : fgets (S n) input = Some (buffer, rest) → (length buffer ≤ n)%nat.
Proof.
  rw /fgets (_ : S n - 1 = n)%nat; [lia|]. pose proof (fgets_loop_length n input) as Hmax.
  destruct input as [|c input]; [done|]. destruct (fgets_loop n (c :: input)). by intros [= <- _].
Qed.

#[global] Arguments fgets : simpl never.
