(* ===== verification/Protobuf.v ===== *)
(** Protocol buffers as the generated code of [src/serialization/*.pb-c.c] uses
    them: the types of its tables (descriptors of messages, fields and
    enumerations, and the structures of the headers), what makes tables
    consistent, the contents of messages with the documented encoding of protocol
    buffers, the interface of the library protobuf-c, and the functions that are
    generated for every message.

    protobuf-c is not part of the repository: [ProtobufC] is its interface and
    [ProtobufCEncodes] what its documentation says of it. *)
From S2P Require Import Prelude.

(** * Tables *)

Inductive ProtobufCLabel := LABEL_NONE | LABEL_REPEATED.

Inductive ProtobufCType :=
  | TYPE_UINT32 | TYPE_UINT64 | TYPE_BOOL | TYPE_ENUM | TYPE_STRING | TYPE_BYTES | TYPE_MESSAGE.

Inductive ProtobufCFieldFlag := NO_FLAG | FLAG_PACKED | FLAG_ONEOF.

#[global] Instance ProtobufCFieldFlag_eq_dec : EqDecision ProtobufCFieldFlag.
Proof. solve_decision. Defined.

(** An offset is given by the member of the structure it is the offset of, and a
    pointer to a descriptor by the name of the variable. *)
Record ProtobufCFieldDescriptor := mkField {
  field_name : string;
  field_id : Z;
  field_label : ProtobufCLabel;
  field_type : ProtobufCType;
  quantifier_offset : option string;
  field_offset : string;
  field_descriptor : option string;
  default_is_empty_string : bool;
  field_flags : ProtobufCFieldFlag }.

(** [ProtobufCIntRange]: the first number of a run of consecutive numbers and the
    index of its field or value. *)
Definition ProtobufCIntRange : Type := Z * nat.

Record ProtobufCMessageDescriptor := mkMessageDescriptor {
  message_name : string;
  short_name : string;
  c_name : string;
  package_name : string;
  n_fields : nat;
  fields : list ProtobufCFieldDescriptor;
  fields_sorted_by_name : list nat;
  n_field_ranges : nat;
  field_ranges : list ProtobufCIntRange }.

Record ProtobufCEnumDescriptor := mkEnumDescriptor {
  enum_name : string;
  enum_short_name : string;
  enum_c_name : string;
  enum_package_name : string;
  n_values : nat;
  enum_values : list (string * string * Z);   (* name, name in C, number *)
  n_value_names : nat;
  values_by_name : list (string * nat);
  n_value_ranges : nat;
  value_ranges : list ProtobufCIntRange }.

Inductive descriptor :=
  | MessageDescriptor (d : ProtobufCMessageDescriptor)
  | EnumDescriptor (d : ProtobufCEnumDescriptor).

(** The types of the members of the structures. *)
Inductive ctype :=
  | uint32_t | uint64_t | protobuf_c_boolean | size_t | char_pointer | uint32_t_pointer | ProtobufCBinaryData
  | enumeration (name : string)
  | pointer_to (name : string).

#[global] Instance ctype_eq_dec : EqDecision ctype.
Proof. solve_decision. Defined.

(** What the [INIT] macros write. *)
Inductive initializer :=
  | zero | null | empty_string | empty_data | union_zero | constant (name : string).

#[global] Instance initializer_eq_dec : EqDecision initializer.
Proof. solve_decision. Defined.

(** A structure of a header behind its [base]: the members (the last component:
    in the union), the enumeration of the cases of its union, and the values of its
    [INIT] macro. *)
Record c_struct := mkStruct {
  struct_name : string;
  members : list (string * ctype * bool);
  case_type : option (string * list (string * Z));
  initializers : list initializer }.

Definition find_field (d : ProtobufCMessageDescriptor) (i : Z) : option ProtobufCFieldDescriptor :=
  find_first (λ f, field_id f =? i) (fields d).

(** * Consistency of tables *)

Fixpoint ascending (l : list Z) : bool :=
  match l with
  | x :: (y :: _) as l' => (x <? y) && ascending l'
  | _ => true
  end.

Fixpoint sorted_names (l : list string) : bool :=
  match l with
  | x :: (y :: _) as l' => String.ltb x y && sorted_names l'
  | _ => true
  end.

(** The numbers that ranges stand for: each range goes on to the index of the
    next; the last entry holds the number of all. *)
Fixpoint range_numbers (l : list ProtobufCIntRange) : list Z :=
  match l with
  | (start, i) :: ((_, j) :: _) as l' => ((λ k : nat, start + Z.of_nat k) <$> seq 0 (j - i)) ++ range_numbers l'
  | _ => []
  end.

Definition ranges_ok (n : nat) (ranges : list ProtobufCIntRange) (numbers : list Z) : bool :=
  ascending numbers && bool_decide (range_numbers ranges = numbers) &&
  (match numbers with [] => (n =? 0)%nat | _ => (S n =? length ranges)%nat end).

(** The names at the indices are all the names, in the order of [strcmp]. *)
Definition sorted_by_name (names : list string) (indices : list nat) : bool :=
  (length indices =? length names)%nat &&
  match mapM (λ i, names !! i) indices with Some l => sorted_names l | None => false end.

Section tables.
(** The descriptors by the names of their variables. *)
Variable env : string → option descriptor.

Definition message_descriptor (name : option string) : option ProtobufCMessageDescriptor :=
  name ← name; match env name with Some (MessageDescriptor d) => Some d | _ => None end.

Definition enum_descriptor (name : option string) : option ProtobufCEnumDescriptor :=
  name ← name; match env name with Some (EnumDescriptor d) => Some d | _ => None end.

Definition message_table_ok (d : ProtobufCMessageDescriptor) : bool :=
  (n_fields d =? length (fields d))%nat &&
  ranges_ok (n_field_ranges d) (field_ranges d) (field_id <$> fields d) &&
  forallb (λ f, 0 <? field_id f) (fields d) &&
  sorted_by_name (field_name <$> fields d) (fields_sorted_by_name d).

(** The enumeration of a header and its table. *)
Definition enum_table_ok (d : ProtobufCEnumDescriptor) (header : list (string * Z)) : bool :=
  (n_values d =? length (enum_values d))%nat && (n_value_names d =? length (values_by_name d))%nat &&
  ranges_ok (n_value_ranges d) (value_ranges d) ((λ v, v.2) <$> enum_values d) &&
  sorted_by_name ((λ v, v.1.1) <$> enum_values d) ((λ v, v.2) <$> values_by_name d) &&
  bool_decide (mapM (λ v, (λ e : string * string * Z, e.1.1) <$> (enum_values d !! v.2)) (values_by_name d)
               = Some (fst <$> values_by_name d)) &&
  bool_decide (((λ v, (v.1.2, v.2)) <$> enum_values d) = header).

(** The C type in which the library stores a field of this type. *)
Definition field_ctype (f : ProtobufCFieldDescriptor) : option ctype :=
  match field_label f, field_type f with
  | LABEL_REPEATED, TYPE_UINT32 => Some uint32_t_pointer
  | LABEL_REPEATED, _ => None
  | LABEL_NONE, TYPE_UINT32 => Some uint32_t
  | LABEL_NONE, TYPE_UINT64 => Some uint64_t
  | LABEL_NONE, TYPE_BOOL => Some protobuf_c_boolean
  | LABEL_NONE, TYPE_ENUM => enumeration ∘ enum_c_name <$> enum_descriptor (field_descriptor f)
  | LABEL_NONE, TYPE_STRING => Some char_pointer
  | LABEL_NONE, TYPE_BYTES => Some ProtobufCBinaryData
  | LABEL_NONE, TYPE_MESSAGE => pointer_to ∘ c_name <$> message_descriptor (field_descriptor f)
  end.

(** The member a field is stored in, and the one that holds its case or number of
    elements. *)
Definition field_members (s : c_struct) (f : ProtobufCFieldDescriptor) : option (list (string * ctype * bool)) :=
  t ← field_ctype f;
  match field_flags f, quantifier_offset f, case_type s with
  | FLAG_ONEOF, Some case, Some (case_name, cases) =>
      if bool_decide (field_id f ∈ (snd <$> cases)) then Some [(case, enumeration case_name, false); (field_offset f, t, true)]
      else None
  | FLAG_PACKED, Some n, _ => Some [(n, size_t, false); (field_offset f, t, false)]
  | NO_FLAG, None, _ => Some [(field_offset f, t, false)]
  | _, _, _ => None
  end.

(** In the order of the first occurrence. *)
Fixpoint without_repeats (seen : list (string * ctype * bool)) (l : list (string * ctype * bool)) :=
  match l with
  | [] => []
  | m :: l => if bool_decide (m ∈ seen) then without_repeats seen l else m :: without_repeats (m :: seen) l
  end.

(** The constants of the enumeration [t] that the structure uses. *)
Definition constants_of (d : ProtobufCMessageDescriptor) (s : c_struct) (t : string) : list (string * Z) :=
  (match case_type s with Some (n, l) => if String.eqb n t then l else [] | None => [] end) ++
  flat_map (λ f, match enum_descriptor (field_descriptor f) with
                 | Some e => if String.eqb (enum_c_name e) t then (λ v, (v.1.2, v.2)) <$> enum_values e else []
                 | None => []
                 end) (fields d).

(** The [INIT] macro: 0, NULL, the empty string, no data, the constant of number
    0, and one zero for the union, which comes last. *)
Fixpoint initial_ok (d : ProtobufCMessageDescriptor) (s : c_struct) (l : list (string * ctype * bool))
    (values : list initializer) : bool :=
  match l, values with
  | [], [] => true
  | (_, _, true) :: l, [union_zero] => forallb (λ m, m.2) l
  | (_, t, false) :: l, i :: values =>
      (match t, i with
       | (uint32_t | uint64_t | protobuf_c_boolean | size_t), zero => true
       | char_pointer, empty_string => true
       | (uint32_t_pointer | pointer_to _), null => true
       | ProtobufCBinaryData, empty_data => true
       | enumeration n, constant c => bool_decide ((c, 0) ∈ constants_of d s n)
       | _, _ => false
       end) && initial_ok d s l values
  | _, _ => false
  end.

(** The structure has exactly the members that the fields need, with their types,
    and its [INIT] macro stands for a message in which nothing is set. *)
Definition struct_ok (d : ProtobufCMessageDescriptor) (s : c_struct) : bool :=
  String.eqb (c_name d) (struct_name s) &&
  (match mapM (field_members s) (fields d) with
   | Some ms => bool_decide (members s = without_repeats [] (concat ms))
   | None => false
   end) &&
  initial_ok d s (members s) (initializers s).
End tables.

(** * Contents of messages

    What a message holds: the fields that are set, by their numbers in ascending
    order. A number that is 0, an empty string, empty data, an empty array and a
    NULL pointer are not set, unless the field is a case of a [oneof]. *)

Inductive value :=
  | VInt (n : Z)
  | VBytes (b : list byte)
  | VInts (l : list Z)
  | VMessage (m : list (Z * value)).

Abbreviation message := (list (Z * value)).

Definition is_oneof (f : ProtobufCFieldDescriptor) : bool := bool_decide (field_flags f = FLAG_ONEOF).

(** In the range, and set. *)
Definition int_ok (f : ProtobufCFieldDescriptor) (lo hi n : Z) : bool :=
  (lo <=? n) && (n <? hi) && (is_oneof f || (n !=? 0)).

Section contents.
Variable env : string → option descriptor.

(** The fields of a message behind the number [last]; [used] are the unions that
    have a case already. *)
Section fields.
Variable value_ok : ProtobufCFieldDescriptor → value → bool.

Fixpoint fields_ok (d : ProtobufCMessageDescriptor) (last : Z) (used : list string) (m : message) : bool :=
  match m with
  | [] => true
  | (i, v) :: m =>
      (last <? i) &&
      match find_field d i with
      | None => false
      | Some f =>
          value_ok f v &&
          match field_flags f, quantifier_offset f with
          | FLAG_ONEOF, Some case => negb (bool_decide (case ∈ used)) && fields_ok d i (case :: used) m
          | _, _ => fields_ok d i used m
          end
      end
  end.
End fields.

Fixpoint value_ok (f : ProtobufCFieldDescriptor) (v : value) : bool :=
  match field_label f, field_type f, v with
  | LABEL_NONE, TYPE_UINT32, VInt n => int_ok f 0 (2 ^ 32) n
  | LABEL_NONE, TYPE_UINT64, VInt n => int_ok f 0 (2 ^ 64) n
  | LABEL_NONE, TYPE_BOOL, VInt n => int_ok f 0 2 n
  | LABEL_NONE, TYPE_ENUM, VInt n => int_ok f (- 2 ^ 31) (2 ^ 31) n
  | LABEL_NONE, (TYPE_STRING | TYPE_BYTES), VBytes b => is_oneof f || negb (bool_decide (b = []))
  | LABEL_REPEATED, TYPE_UINT32, VInts l =>
      negb (bool_decide (l = [])) && forallb (λ n, (0 <=? n) && (n <? 2 ^ 32)) l
  | LABEL_NONE, TYPE_MESSAGE, VMessage m =>
      match message_descriptor env (field_descriptor f) with
      | Some d => fields_ok value_ok d 0 [] m
      | None => false
      end
  | _, _, _ => false
  end.

Definition message_ok (d : ProtobufCMessageDescriptor) (m : message) : bool := fields_ok value_ok d 0 [] m.
End contents.

(** * The encoding of protocol buffers *)

(** Seven bits a byte, the lowest first; the eighth bit says that more follow. Ten
    bytes hold 64 bits. *)
Fixpoint varint_loop (k : nat) (n : Z) : list byte :=
  match k with
  | O => []
  | S k => if n <? 128 then [byte_of_Z n] else byte_of_Z (n mod 128 + 128) :: varint_loop k (n / 128)
  end.

Definition varint (n : Z) : list byte := varint_loop 10 n.

(** The number of the field and how its value is encoded: 0 for a number, 2 for
    bytes with their length before them. *)
Definition tag (i wire_type : Z) : list byte := varint (8 * i + wire_type).

Definition delimited (b : list byte) : list byte := varint (Z.of_nat (length b)) ++ b.

Section encoding.
Variable encode_field : Z → value → list byte.

Fixpoint encode_fields (m : message) : list byte :=
  match m with [] => [] | (i, v) :: m => encode_field i v ++ encode_fields m end.
End encoding.

Fixpoint encode_field (i : Z) (v : value) : list byte :=
  match v with
  | VInt n => tag i 0 ++ varint (wrap64 n)
  | VBytes b => tag i 2 ++ delimited b
  | VInts l => tag i 2 ++ delimited (flat_map varint l)
  | VMessage m => tag i 2 ++ delimited (encode_fields encode_field m)
  end.

Definition encode (m : message) : list byte := encode_fields encode_field m.

Definition packed_size (m : message) : Z := Z.of_nat (length (encode m)).

(** The example of the documentation: 150 in the field 1; and a string. *)
Example encoded :
  encode [(1, VInt 150)] = [x08; x96; x01] ∧
  encode [(2, VBytes [x74; x65; x73; x74; x69; x6e; x67])] = [x12; x07; x74; x65; x73; x74; x69; x6e; x67] ∧
  encode [(3, VMessage [(1, VInt 150)])] = [x1a; x03; x08; x96; x01] ∧
  encode [(6, VInts [3; 270; 86942])] = [x32; x06; x03; x8e; x02; x9e; xa7; x05].
Proof. by vm_compute. Qed.

(** * The library *)

(** A descriptor is given by the name of its variable. *)
Class ProtobufC := {
  protobuf_c_message_get_packed_size : string → message → Z;
  protobuf_c_message_pack : string → message → list byte;
  (* what is appended to the buffer *)
  protobuf_c_message_pack_to_buffer : string → message → list byte;
  protobuf_c_message_unpack : string → list byte → option message }.

(** What the documentation says of the functions on a program's tables: messages
    that the tables describe are packed in the documented encoding and unpacked
    to themselves, up to the limit of 2 GiB for a message, and what is unpacked is
    described by the tables. *)
Class ProtobufCEncodes (env : string → option descriptor) `{ProtobufC} := {
  pack_encodes name d m : env name = Some (MessageDescriptor d) → message_ok env d m = true → packed_size m < 2 ^ 31 →
    protobuf_c_message_pack name m = encode m;
  size_is_length name d m : env name = Some (MessageDescriptor d) → message_ok env d m = true → packed_size m < 2 ^ 31 →
    protobuf_c_message_get_packed_size name m = packed_size m;
  unpack_encoded name d m : env name = Some (MessageDescriptor d) → message_ok env d m = true → packed_size m < 2 ^ 31 →
    protobuf_c_message_unpack name (encode m) = Some m;
  unpacked_ok name d b m : env name = Some (MessageDescriptor d) → protobuf_c_message_unpack name b = Some m →
    message_ok env d m = true }.

(** * The generated functions *)

(** A message in memory: its [base.descriptor] and its content. *)
Record c_message := mkCMessage { base_descriptor : string; content : message }.

(** The six functions of a message. [None] for a failed assertion. *)
Record generated := mkGenerated {
  init : c_message;
  get_packed_size : c_message → option Z;
  pack : c_message → option (list byte);
  pack_to_buffer : c_message → list byte → option (list byte);
  unpack : list byte → option c_message;
  free_unpacked : option c_message → option unit }.

Definition functions_of `{ProtobufC} (descriptor : string) : generated :=
  let checked {A} (m : c_message) (a : A) := if String.eqb (base_descriptor m) descriptor then Some a else None in
  mkGenerated
    (mkCMessage descriptor [])
    (λ m, checked m (protobuf_c_message_get_packed_size descriptor (content m)))
    (λ m, checked m (protobuf_c_message_pack descriptor (content m)))
    (λ m buffer, checked m (buffer ++ protobuf_c_message_pack_to_buffer descriptor (content m)))
    (λ data, mkCMessage descriptor <$> protobuf_c_message_unpack descriptor data)
    (λ m, match m with None => Some tt | Some m => checked m tt end).
