(* ===== verification/PbCommon.v ===== *)
(** The generated code of the small packages: [google_protos/empty.pb-c.c], [any.pb-c.c],
    [nfs_fh/nfs_fh.pb-c.c] and [mount/mount.pb-c.c], with their headers: for every
    message its structure with the [INIT] macro, its table and its functions. *)
From S2P Require Import Prelude Protobuf.

(** * [google_protos/empty.pb-c] *)

(** [Google__Protobuf__Empty] *)
Definition google__protobuf__empty__struct : c_struct := mkStruct "Google__Protobuf__Empty"
    []
    None
    [].

Definition google__protobuf__empty__descriptor : ProtobufCMessageDescriptor := mkMessageDescriptor
    "google.protobuf.Empty" "Empty" "Google__Protobuf__Empty" "google.protobuf"
    0
    []
    []%nat
    0 [].

(** * [google_protos/any.pb-c] *)

(** [Google__Protobuf__Any] *)
Definition google__protobuf__any__struct : c_struct := mkStruct "Google__Protobuf__Any"
    [("type_url", char_pointer, false); ("value", ProtobufCBinaryData, false)]
    None
    [empty_string; empty_data].

Definition google__protobuf__any__descriptor : ProtobufCMessageDescriptor := mkMessageDescriptor
    "google.protobuf.Any" "Any" "Google__Protobuf__Any" "google.protobuf"
    2
    [mkField "type_url" 1 LABEL_NONE TYPE_STRING None "type_url" None true NO_FLAG;
     mkField "value" 2 LABEL_NONE TYPE_BYTES None "value" None false NO_FLAG]
    [0; 1]%nat
    1 [(1, 0%nat); (0, 2%nat)].

(** * [nfs_fh/nfs_fh.pb-c] *)

(** [NfsFh__NfsFileHandle] *)
Definition nfs_fh__nfs_file_handle__struct : c_struct := mkStruct "NfsFh__NfsFileHandle"
    [("inode_number", uint64_t, false); ("timestamp", uint64_t, false)]
    None
    [zero; zero].

Definition nfs_fh__nfs_file_handle__descriptor : ProtobufCMessageDescriptor := mkMessageDescriptor
    "nfs_fh.NfsFileHandle" "NfsFileHandle" "NfsFh__NfsFileHandle" "nfs_fh"
    2
    [mkField "inode_number" 1 LABEL_NONE TYPE_UINT64 None "inode_number" None false NO_FLAG;
     mkField "timestamp" 2 LABEL_NONE TYPE_UINT64 None "timestamp" None false NO_FLAG]
    [0; 1]%nat
    1 [(1, 0%nat); (0, 2%nat)].

(** * [mount/mount.pb-c] *)

(** [Mount__Stat] *)
Definition mount__stat__constants : list (string * Z) :=
  [("MOUNT__STAT__MNT_OK", 0); ("MOUNT__STAT__MNTERR_NOENT", 2); ("MOUNT__STAT__MNTERR_NOTEXP", 3);
   ("MOUNT__STAT__MNTERR_IO", 5); ("MOUNT__STAT__MNTERR_ACCES", 13); ("MOUNT__STAT__MNTERR_NOTDIR", 20)].

Definition mount__stat__descriptor : ProtobufCEnumDescriptor := mkEnumDescriptor
    "mount.Stat" "Stat" "Mount__Stat" "mount"
    6 [("MNT_OK", "MOUNT__STAT__MNT_OK", 0); ("MNTERR_NOENT", "MOUNT__STAT__MNTERR_NOENT", 2);
      ("MNTERR_NOTEXP", "MOUNT__STAT__MNTERR_NOTEXP", 3); ("MNTERR_IO", "MOUNT__STAT__MNTERR_IO", 5);
      ("MNTERR_ACCES", "MOUNT__STAT__MNTERR_ACCES", 13); ("MNTERR_NOTDIR", "MOUNT__STAT__MNTERR_NOTDIR", 20)]
    6 [("MNTERR_ACCES", 4%nat); ("MNTERR_IO", 3%nat); ("MNTERR_NOENT", 1%nat); ("MNTERR_NOTDIR", 5%nat);
      ("MNTERR_NOTEXP", 2%nat); ("MNT_OK", 0%nat)]
    5 [(0, 0%nat); (2, 1%nat); (5, 3%nat); (13, 4%nat); (20, 5%nat); (0, 6%nat)].

(** [Mount__FHandle] *)
Definition mount__fhandle__struct : c_struct := mkStruct "Mount__FHandle"
    [("nfs_filehandle", pointer_to "NfsFh__NfsFileHandle", false)]
    None
    [null].

Definition mount__fhandle__descriptor : ProtobufCMessageDescriptor := mkMessageDescriptor
    "mount.FHandle" "FHandle" "Mount__FHandle" "mount"
    1
    [mkField "nfs_filehandle" 1 LABEL_NONE TYPE_MESSAGE None "nfs_filehandle" (Some "nfs_fh__nfs_file_handle__descriptor") false NO_FLAG]
    [0]%nat
    1 [(1, 0%nat); (0, 1%nat)].

(** [Mount__MntStat] *)
Definition mount__mnt_stat__struct : c_struct := mkStruct "Mount__MntStat"
    [("stat", enumeration "Mount__Stat", false)]
    None
    [constant "MOUNT__STAT__MNT_OK"].

Definition mount__mnt_stat__descriptor : ProtobufCMessageDescriptor := mkMessageDescriptor
    "mount.MntStat" "MntStat" "Mount__MntStat" "mount"
    1
    [mkField "stat" 1 LABEL_NONE TYPE_ENUM None "stat" (Some "mount__stat__descriptor") false NO_FLAG]
    [0]%nat
    1 [(1, 0%nat); (0, 1%nat)].

(** [Mount__FhStatus] *)
Definition mount__fh_status__struct : c_struct := mkStruct "Mount__FhStatus"
    [("mnt_status", pointer_to "Mount__MntStat", false);
     ("fhstatus_body_case", enumeration "Mount__FhStatus__FhstatusBodyCase", false);
     ("directory", pointer_to "Mount__FHandle", true);
     ("default_case", pointer_to "Google__Protobuf__Empty", true)]
    (Some ("Mount__FhStatus__FhstatusBodyCase",
     [("MOUNT__FH_STATUS__FHSTATUS_BODY__NOT_SET", 0); ("MOUNT__FH_STATUS__FHSTATUS_BODY_DIRECTORY", 2);
     ("MOUNT__FH_STATUS__FHSTATUS_BODY_DEFAULT_CASE", 3)]))
    [null; constant "MOUNT__FH_STATUS__FHSTATUS_BODY__NOT_SET"; union_zero].

Definition mount__fh_status__descriptor : ProtobufCMessageDescriptor := mkMessageDescriptor
    "mount.FhStatus" "FhStatus" "Mount__FhStatus" "mount"
    3
    [mkField "mnt_status" 1 LABEL_NONE TYPE_MESSAGE None "mnt_status" (Some "mount__mnt_stat__descriptor") false NO_FLAG;
     mkField "directory" 2 LABEL_NONE TYPE_MESSAGE (Some "fhstatus_body_case") "directory" (Some "mount__fhandle__descriptor") false FLAG_ONEOF;
     mkField "default_case" 3 LABEL_NONE TYPE_MESSAGE (Some "fhstatus_body_case") "default_case" (Some "google__protobuf__empty__descriptor") false FLAG_ONEOF]
    [2; 1; 0]%nat
    1 [(1, 0%nat); (0, 3%nat)].

(** [Mount__DirPath] *)
Definition mount__dir_path__struct : c_struct := mkStruct "Mount__DirPath"
    [("path", char_pointer, false)]
    None
    [empty_string].

Definition mount__dir_path__descriptor : ProtobufCMessageDescriptor := mkMessageDescriptor
    "mount.DirPath" "DirPath" "Mount__DirPath" "mount"
    1
    [mkField "path" 1 LABEL_NONE TYPE_STRING None "path" None true NO_FLAG]
    [0]%nat
    1 [(1, 0%nat); (0, 1%nat)].

(** [Mount__Name] *)
Definition mount__name__struct : c_struct := mkStruct "Mount__Name"
    [("name", char_pointer, false)]
    None
    [empty_string].

Definition mount__name__descriptor : ProtobufCMessageDescriptor := mkMessageDescriptor
    "mount.Name" "Name" "Mount__Name" "mount"
    1
    [mkField "name" 1 LABEL_NONE TYPE_STRING None "name" None true NO_FLAG]
    [0]%nat
    1 [(1, 0%nat); (0, 1%nat)].

(** [Mount__MountList] *)
Definition mount__mount_list__struct : c_struct := mkStruct "Mount__MountList"
    [("hostname", pointer_to "Mount__Name", false); ("directory", pointer_to "Mount__DirPath", false);
     ("nextentry", pointer_to "Mount__MountList", false)]
    None
    [null; null; null].

Definition mount__mount_list__descriptor : ProtobufCMessageDescriptor := mkMessageDescriptor
    "mount.MountList" "MountList" "Mount__MountList" "mount"
    3
    [mkField "hostname" 1 LABEL_NONE TYPE_MESSAGE None "hostname" (Some "mount__name__descriptor") false NO_FLAG;
     mkField "directory" 2 LABEL_NONE TYPE_MESSAGE None "directory" (Some "mount__dir_path__descriptor") false NO_FLAG;
     mkField "nextentry" 3 LABEL_NONE TYPE_MESSAGE None "nextentry" (Some "mount__mount_list__descriptor") false NO_FLAG]
    [1; 0; 2]%nat
    1 [(1, 0%nat); (0, 3%nat)].

(** [Mount__Groups] *)
Definition mount__groups__struct : c_struct := mkStruct "Mount__Groups"
    [("grname", pointer_to "Mount__Name", false); ("grnext", pointer_to "Mount__Groups", false)]
    None
    [null; null].

Definition mount__groups__descriptor : ProtobufCMessageDescriptor := mkMessageDescriptor
    "mount.Groups" "Groups" "Mount__Groups" "mount"
    2
    [mkField "grname" 1 LABEL_NONE TYPE_MESSAGE None "grname" (Some "mount__name__descriptor") false NO_FLAG;
     mkField "grnext" 2 LABEL_NONE TYPE_MESSAGE None "grnext" (Some "mount__groups__descriptor") false NO_FLAG]
    [0; 1]%nat
    1 [(1, 0%nat); (0, 2%nat)].

(** [Mount__ExportList] *)
Definition mount__export_list__struct : c_struct := mkStruct "Mount__ExportList"
    [("filesys", pointer_to "Mount__DirPath", false); ("groups", pointer_to "Mount__Groups", false);
     ("next", pointer_to "Mount__ExportList", false)]
    None
    [null; null; null].

Definition mount__export_list__descriptor : ProtobufCMessageDescriptor := mkMessageDescriptor
    "mount.ExportList" "ExportList" "Mount__ExportList" "mount"
    3
    [mkField "filesys" 1 LABEL_NONE TYPE_MESSAGE None "filesys" (Some "mount__dir_path__descriptor") false NO_FLAG;
     mkField "groups" 2 LABEL_NONE TYPE_MESSAGE None "groups" (Some "mount__groups__descriptor") false NO_FLAG;
     mkField "next" 3 LABEL_NONE TYPE_MESSAGE None "next" (Some "mount__export_list__descriptor") false NO_FLAG]
    [0; 1; 2]%nat
    1 [(1, 0%nat); (0, 3%nat)].

(** * The generated functions *)

Section functions.
Context `{ProtobufC}.

Definition google__protobuf__empty : generated := functions_of "google__protobuf__empty__descriptor".
Definition google__protobuf__any : generated := functions_of "google__protobuf__any__descriptor".
Definition nfs_fh__nfs_file_handle : generated := functions_of "nfs_fh__nfs_file_handle__descriptor".
Definition mount__fhandle : generated := functions_of "mount__fhandle__descriptor".
Definition mount__mnt_stat : generated := functions_of "mount__mnt_stat__descriptor".
Definition mount__fh_status : generated := functions_of "mount__fh_status__descriptor".
Definition mount__dir_path : generated := functions_of "mount__dir_path__descriptor".
Definition mount__name : generated := functions_of "mount__name__descriptor".
Definition mount__mount_list : generated := functions_of "mount__mount_list__descriptor".
Definition mount__groups : generated := functions_of "mount__groups__descriptor".
Definition mount__export_list : generated := functions_of "mount__export_list__descriptor".
End functions.
