(* ===== verification/PbRpc.v ===== *)
(** The generated code of [rpc/rpc.pb-c.c] and its header: for every message its
    structure with the [INIT] macro, its table and its functions, for every
    enumeration its constants and its table. *)
From S2P Require Import Prelude Protobuf.

(** * [rpc/rpc.pb-c] *)

(** [Rpc__MsgType] *)
Definition rpc__msg_type__constants : list (string * Z) :=
  [("RPC__MSG_TYPE__CALL", 0); ("RPC__MSG_TYPE__REPLY", 1)].

Definition rpc__msg_type__descriptor : ProtobufCEnumDescriptor := mkEnumDescriptor
    "rpc.MsgType" "MsgType" "Rpc__MsgType" "rpc"
    2 [("CALL", "RPC__MSG_TYPE__CALL", 0); ("REPLY", "RPC__MSG_TYPE__REPLY", 1)]
    2 [("CALL", 0%nat); ("REPLY", 1%nat)]
    1 [(0, 0%nat); (0, 2%nat)].

(** [Rpc__ReplyStat] *)
Definition rpc__reply_stat__constants : list (string * Z) :=
  [("RPC__REPLY_STAT__MSG_ACCEPTED", 0); ("RPC__REPLY_STAT__MSG_DENIED", 1)].

Definition rpc__reply_stat__descriptor : ProtobufCEnumDescriptor := mkEnumDescriptor
    "rpc.ReplyStat" "ReplyStat" "Rpc__ReplyStat" "rpc"
    2 [("MSG_ACCEPTED", "RPC__REPLY_STAT__MSG_ACCEPTED", 0); ("MSG_DENIED", "RPC__REPLY_STAT__MSG_DENIED", 1)]
    2 [("MSG_ACCEPTED", 0%nat); ("MSG_DENIED", 1%nat)]
    1 [(0, 0%nat); (0, 2%nat)].

(** [Rpc__AcceptStat] *)
Definition rpc__accept_stat__constants : list (string * Z) :=
  [("RPC__ACCEPT_STAT__SUCCESS", 0); ("RPC__ACCEPT_STAT__PROG_UNAVAIL", 1);
   ("RPC__ACCEPT_STAT__PROG_MISMATCH", 2); ("RPC__ACCEPT_STAT__PROC_UNAVAIL", 3);
   ("RPC__ACCEPT_STAT__GARBAGE_ARGS", 4); ("RPC__ACCEPT_STAT__SYSTEM_ERR", 5)].

Definition rpc__accept_stat__descriptor : ProtobufCEnumDescriptor := mkEnumDescriptor
    "rpc.AcceptStat" "AcceptStat" "Rpc__AcceptStat" "rpc"
    6 [("SUCCESS", "RPC__ACCEPT_STAT__SUCCESS", 0); ("PROG_UNAVAIL", "RPC__ACCEPT_STAT__PROG_UNAVAIL", 1);
      ("PROG_MISMATCH", "RPC__ACCEPT_STAT__PROG_MISMATCH", 2);
      ("PROC_UNAVAIL", "RPC__ACCEPT_STAT__PROC_UNAVAIL", 3);
      ("GARBAGE_ARGS", "RPC__ACCEPT_STAT__GARBAGE_ARGS", 4); ("SYSTEM_ERR", "RPC__ACCEPT_STAT__SYSTEM_ERR", 5)]
    6 [("GARBAGE_ARGS", 4%nat); ("PROC_UNAVAIL", 3%nat); ("PROG_MISMATCH", 2%nat); ("PROG_UNAVAIL", 1%nat);
      ("SUCCESS", 0%nat); ("SYSTEM_ERR", 5%nat)]
    1 [(0, 0%nat); (0, 6%nat)].

(** [Rpc__RejectStat] *)
Definition rpc__reject_stat__constants : list (string * Z) :=
  [("RPC__REJECT_STAT__RPC_MISMATCH", 0); ("RPC__REJECT_STAT__AUTH_ERROR", 1)].

Definition rpc__reject_stat__descriptor : ProtobufCEnumDescriptor := mkEnumDescriptor
    "rpc.RejectStat" "RejectStat" "Rpc__RejectStat" "rpc"
    2 [("RPC_MISMATCH", "RPC__REJECT_STAT__RPC_MISMATCH", 0); ("AUTH_ERROR", "RPC__REJECT_STAT__AUTH_ERROR", 1)]
    2 [("AUTH_ERROR", 1%nat); ("RPC_MISMATCH", 0%nat)]
    1 [(0, 0%nat); (0, 2%nat)].

(** [Rpc__AuthStat] *)
Definition rpc__auth_stat__constants : list (string * Z) :=
  [("RPC__AUTH_STAT__AUTH_OK", 0); ("RPC__AUTH_STAT__AUTH_BADCRED", 1); ("RPC__AUTH_STAT__AUTH_REJECTEDCRED", 2);
   ("RPC__AUTH_STAT__AUTH_BADVERF", 3); ("RPC__AUTH_STAT__AUTH_REJECTEDVERF", 4);
   ("RPC__AUTH_STAT__AUTH_TOOWEAK", 5); ("RPC__AUTH_STAT__AUTH_INVALIDRESP", 6);
   ("RPC__AUTH_STAT__AUTH_FAILED", 7); ("RPC__AUTH_STAT__AUTH_KERB_GENERIC", 8);
   ("RPC__AUTH_STAT__AUTH_TIMEEXPIRE", 9); ("RPC__AUTH_STAT__AUTH_TKT_FILE", 10);
   ("RPC__AUTH_STAT__AUTH_DECODE", 11); ("RPC__AUTH_STAT__AUTH_NET_ADDR", 12);
   ("RPC__AUTH_STAT__RPCSEC_GSS_CREDPROBLEM", 13); ("RPC__AUTH_STAT__RPCSEC_GSS_CTXPROBLEM", 14)].

Definition rpc__auth_stat__descriptor : ProtobufCEnumDescriptor := mkEnumDescriptor
    "rpc.AuthStat" "AuthStat" "Rpc__AuthStat" "rpc"
    15 [("AUTH_OK", "RPC__AUTH_STAT__AUTH_OK", 0); ("AUTH_BADCRED", "RPC__AUTH_STAT__AUTH_BADCRED", 1);
      ("AUTH_REJECTEDCRED", "RPC__AUTH_STAT__AUTH_REJECTEDCRED", 2);
      ("AUTH_BADVERF", "RPC__AUTH_STAT__AUTH_BADVERF", 3);
      ("AUTH_REJECTEDVERF", "RPC__AUTH_STAT__AUTH_REJECTEDVERF", 4);
      ("AUTH_TOOWEAK", "RPC__AUTH_STAT__AUTH_TOOWEAK", 5);
      ("AUTH_INVALIDRESP", "RPC__AUTH_STAT__AUTH_INVALIDRESP", 6);
      ("AUTH_FAILED", "RPC__AUTH_STAT__AUTH_FAILED", 7);
      ("AUTH_KERB_GENERIC", "RPC__AUTH_STAT__AUTH_KERB_GENERIC", 8);
      ("AUTH_TIMEEXPIRE", "RPC__AUTH_STAT__AUTH_TIMEEXPIRE", 9);
      ("AUTH_TKT_FILE", "RPC__AUTH_STAT__AUTH_TKT_FILE", 10); ("AUTH_DECODE", "RPC__AUTH_STAT__AUTH_DECODE", 11);
      ("AUTH_NET_ADDR", "RPC__AUTH_STAT__AUTH_NET_ADDR", 12);
      ("RPCSEC_GSS_CREDPROBLEM", "RPC__AUTH_STAT__RPCSEC_GSS_CREDPROBLEM", 13);
      ("RPCSEC_GSS_CTXPROBLEM", "RPC__AUTH_STAT__RPCSEC_GSS_CTXPROBLEM", 14)]
    15 [("AUTH_BADCRED", 1%nat); ("AUTH_BADVERF", 3%nat); ("AUTH_DECODE", 11%nat); ("AUTH_FAILED", 7%nat);
      ("AUTH_INVALIDRESP", 6%nat); ("AUTH_KERB_GENERIC", 8%nat); ("AUTH_NET_ADDR", 12%nat); ("AUTH_OK", 0%nat);
      ("AUTH_REJECTEDCRED", 2%nat); ("AUTH_REJECTEDVERF", 4%nat); ("AUTH_TIMEEXPIRE", 9%nat);
      ("AUTH_TKT_FILE", 10%nat); ("AUTH_TOOWEAK", 5%nat); ("RPCSEC_GSS_CREDPROBLEM", 13%nat);
      ("RPCSEC_GSS_CTXPROBLEM", 14%nat)]
    1 [(0, 0%nat); (0, 15%nat)].

(** [Rpc__AuthFlavor] *)
Definition rpc__auth_flavor__constants : list (string * Z) :=
  [("RPC__AUTH_FLAVOR__AUTH_NONE", 0); ("RPC__AUTH_FLAVOR__AUTH_SYS", 1); ("RPC__AUTH_FLAVOR__AUTH_SHORT", 2);
   ("RPC__AUTH_FLAVOR__AUTH_DH", 3); ("RPC__AUTH_FLAVOR__RPCSEC_GSS", 6)].

Definition rpc__auth_flavor__descriptor : ProtobufCEnumDescriptor := mkEnumDescriptor
    "rpc.AuthFlavor" "AuthFlavor" "Rpc__AuthFlavor" "rpc"
    5 [("AUTH_NONE", "RPC__AUTH_FLAVOR__AUTH_NONE", 0); ("AUTH_SYS", "RPC__AUTH_FLAVOR__AUTH_SYS", 1);
      ("AUTH_SHORT", "RPC__AUTH_FLAVOR__AUTH_SHORT", 2); ("AUTH_DH", "RPC__AUTH_FLAVOR__AUTH_DH", 3);
      ("RPCSEC_GSS", "RPC__AUTH_FLAVOR__RPCSEC_GSS", 6)]
    5 [("AUTH_DH", 3%nat); ("AUTH_NONE", 0%nat); ("AUTH_SHORT", 2%nat); ("AUTH_SYS", 1%nat);
      ("RPCSEC_GSS", 4%nat)]
    2 [(0, 0%nat); (6, 4%nat); (0, 5%nat)].

(** [Rpc__AuthSysParams] *)
Definition rpc__auth_sys_params__struct : c_struct := mkStruct "Rpc__AuthSysParams"
    [("timestamp", uint64_t, false); ("machinename", char_pointer, false); ("uid", uint32_t, false);
     ("gid", uint32_t, false); ("n_gids", size_t, false); ("gids", uint32_t_pointer, false)]
    None
    [zero; empty_string; zero; zero; zero; null].

Definition rpc__auth_sys_params__descriptor : ProtobufCMessageDescriptor := mkMessageDescriptor
    "rpc.AuthSysParams" "AuthSysParams" "Rpc__AuthSysParams" "rpc"
    5
    [mkField "timestamp" 1 LABEL_NONE TYPE_UINT64 None "timestamp" None false NO_FLAG;
     mkField "machinename" 2 LABEL_NONE TYPE_STRING None "machinename" None true NO_FLAG;
     mkField "uid" 3 LABEL_NONE TYPE_UINT32 None "uid" None false NO_FLAG;
     mkField "gid" 4 LABEL_NONE TYPE_UINT32 None "gid" None false NO_FLAG;
     mkField "gids" 5 LABEL_REPEATED TYPE_UINT32 (Some "n_gids") "gids" None false FLAG_PACKED]
    [3; 4; 1; 0; 2]%nat
    1 [(1, 0%nat); (0, 5%nat)].

(** [Rpc__OpaqueAuth] *)
Definition rpc__opaque_auth__struct : c_struct := mkStruct "Rpc__OpaqueAuth"
    [("flavor", enumeration "Rpc__AuthFlavor", false); ("body_case", enumeration "Rpc__OpaqueAuth__BodyCase", false);
     ("empty", pointer_to "Google__Protobuf__Empty", true); ("auth_sys", pointer_to "Rpc__AuthSysParams", true)]
    (Some ("Rpc__OpaqueAuth__BodyCase",
     [("RPC__OPAQUE_AUTH__BODY__NOT_SET", 0); ("RPC__OPAQUE_AUTH__BODY_EMPTY", 2);
     ("RPC__OPAQUE_AUTH__BODY_AUTH_SYS", 3)]))
    [constant "RPC__AUTH_FLAVOR__AUTH_NONE"; constant "RPC__OPAQUE_AUTH__BODY__NOT_SET"; union_zero].

Definition rpc__opaque_auth__descriptor : ProtobufCMessageDescriptor := mkMessageDescriptor
    "rpc.OpaqueAuth" "OpaqueAuth" "Rpc__OpaqueAuth" "rpc"
    3
    [mkField "flavor" 1 LABEL_NONE TYPE_ENUM None "flavor" (Some "rpc__auth_flavor__descriptor") false NO_FLAG;
     mkField "empty" 2 LABEL_NONE TYPE_MESSAGE (Some "body_case") "empty" (Some "google__protobuf__empty__descriptor") false FLAG_ONEOF;
     mkField "auth_sys" 3 LABEL_NONE TYPE_MESSAGE (Some "body_case") "auth_sys" (Some "rpc__auth_sys_params__descriptor") false FLAG_ONEOF]
    [2; 1; 0]%nat
    1 [(1, 0%nat); (0, 3%nat)].

(** [Rpc__CallBody] *)
Definition rpc__call_body__struct : c_struct := mkStruct "Rpc__CallBody"
    [("rpcvers", uint32_t, false); ("prog", uint32_t, false); ("vers", uint32_t, false); ("proc", uint32_t, false);
     ("credential", pointer_to "Rpc__OpaqueAuth", false); ("verifier", pointer_to "Rpc__OpaqueAuth", false);
     ("params", pointer_to "Google__Protobuf__Any", false)]
    None
    [zero; zero; zero; zero; null; null; null].

Definition rpc__call_body__descriptor : ProtobufCMessageDescriptor := mkMessageDescriptor
    "rpc.CallBody" "CallBody" "Rpc__CallBody" "rpc"
    7
    [mkField "rpcvers" 1 LABEL_NONE TYPE_UINT32 None "rpcvers" None false NO_FLAG;
     mkField "prog" 2 LABEL_NONE TYPE_UINT32 None "prog" None false NO_FLAG;
     mkField "vers" 3 LABEL_NONE TYPE_UINT32 None "vers" None false NO_FLAG;
     mkField "proc" 4 LABEL_NONE TYPE_UINT32 None "proc" None false NO_FLAG;
     mkField "credential" 5 LABEL_NONE TYPE_MESSAGE None "credential" (Some "rpc__opaque_auth__descriptor") false NO_FLAG;
     mkField "verifier" 6 LABEL_NONE TYPE_MESSAGE None "verifier" (Some "rpc__opaque_auth__descriptor") false NO_FLAG;
     mkField "params" 7 LABEL_NONE TYPE_MESSAGE None "params" (Some "google__protobuf__any__descriptor") false NO_FLAG]
    [4; 6; 3; 1; 0; 5; 2]%nat
    1 [(1, 0%nat); (0, 7%nat)].

(** [Rpc__MismatchInfo] *)
Definition rpc__mismatch_info__struct : c_struct := mkStruct "Rpc__MismatchInfo"
    [("low", uint32_t, false); ("high", uint32_t, false)]
    None
    [zero; zero].

Definition rpc__mismatch_info__descriptor : ProtobufCMessageDescriptor := mkMessageDescriptor
    "rpc.MismatchInfo" "MismatchInfo" "Rpc__MismatchInfo" "rpc"
    2
    [mkField "low" 1 LABEL_NONE TYPE_UINT32 None "low" None false NO_FLAG;
     mkField "high" 2 LABEL_NONE TYPE_UINT32 None "high" None false NO_FLAG]
    [1; 0]%nat
    1 [(1, 0%nat); (0, 2%nat)].

(** [Rpc__AcceptedReply] *)
Definition rpc__accepted_reply__struct : c_struct := mkStruct "Rpc__AcceptedReply"
    [("verifier", pointer_to "Rpc__OpaqueAuth", false); ("stat", enumeration "Rpc__AcceptStat", false);
     ("reply_data_case", enumeration "Rpc__AcceptedReply__ReplyDataCase", false);
     ("results", pointer_to "Google__Protobuf__Any", true);
     ("mismatch_info", pointer_to "Rpc__MismatchInfo", true);
     ("default_case", pointer_to "Google__Protobuf__Empty", true)]
    (Some ("Rpc__AcceptedReply__ReplyDataCase",
     [("RPC__ACCEPTED_REPLY__REPLY_DATA__NOT_SET", 0); ("RPC__ACCEPTED_REPLY__REPLY_DATA_RESULTS", 3);
     ("RPC__ACCEPTED_REPLY__REPLY_DATA_MISMATCH_INFO", 4); ("RPC__ACCEPTED_REPLY__REPLY_DATA_DEFAULT_CASE", 5)]))
    [null; constant "RPC__ACCEPT_STAT__SUCCESS"; constant "RPC__ACCEPTED_REPLY__REPLY_DATA__NOT_SET"; union_zero].

Definition rpc__accepted_reply__descriptor : ProtobufCMessageDescriptor := mkMessageDescriptor
    "rpc.AcceptedReply" "AcceptedReply" "Rpc__AcceptedReply" "rpc"
    5
    [mkField "verifier" 1 LABEL_NONE TYPE_MESSAGE None "verifier" (Some "rpc__opaque_auth__descriptor") false NO_FLAG;
     mkField "stat" 2 LABEL_NONE TYPE_ENUM None "stat" (Some "rpc__accept_stat__descriptor") false NO_FLAG;
     mkField "results" 3 LABEL_NONE TYPE_MESSAGE (Some "reply_data_case") "results" (Some "google__protobuf__any__descriptor") false FLAG_ONEOF;
     mkField "mismatch_info" 4 LABEL_NONE TYPE_MESSAGE (Some "reply_data_case") "mismatch_info" (Some "rpc__mismatch_info__descriptor") false FLAG_ONEOF;
     mkField "default_case" 5 LABEL_NONE TYPE_MESSAGE (Some "reply_data_case") "default_case" (Some "google__protobuf__empty__descriptor") false FLAG_ONEOF]
    [4; 3; 2; 1; 0]%nat
    1 [(1, 0%nat); (0, 5%nat)].

(** [Rpc__RejectedReply] *)
Definition rpc__rejected_reply__struct : c_struct := mkStruct "Rpc__RejectedReply"
    [("stat", enumeration "Rpc__RejectStat", false);
     ("reply_data_case", enumeration "Rpc__RejectedReply__ReplyDataCase", false);
     ("mismatch_info", pointer_to "Rpc__MismatchInfo", true); ("auth_stat", enumeration "Rpc__AuthStat", true)]
    (Some ("Rpc__RejectedReply__ReplyDataCase",
     [("RPC__REJECTED_REPLY__REPLY_DATA__NOT_SET", 0); ("RPC__REJECTED_REPLY__REPLY_DATA_MISMATCH_INFO", 2);
     ("RPC__REJECTED_REPLY__REPLY_DATA_AUTH_STAT", 3)]))
    [constant "RPC__REJECT_STAT__RPC_MISMATCH"; constant "RPC__REJECTED_REPLY__REPLY_DATA__NOT_SET"; union_zero].

Definition rpc__rejected_reply__descriptor : ProtobufCMessageDescriptor := mkMessageDescriptor
    "rpc.RejectedReply" "RejectedReply" "Rpc__RejectedReply" "rpc"
    3
    [mkField "stat" 1 LABEL_NONE TYPE_ENUM None "stat" (Some "rpc__reject_stat__descriptor") false NO_FLAG;
     mkField "mismatch_info" 2 LABEL_NONE TYPE_MESSAGE (Some "reply_data_case") "mismatch_info" (Some "rpc__mismatch_info__descriptor") false FLAG_ONEOF;
     mkField "auth_stat" 3 LABEL_NONE TYPE_ENUM (Some "reply_data_case") "auth_stat" (Some "rpc__auth_stat__descriptor") false FLAG_ONEOF]
    [2; 1; 0]%nat
    1 [(1, 0%nat); (0, 3%nat)].

(** [Rpc__ReplyBody] *)
Definition rpc__reply_body__struct : c_struct := mkStruct "Rpc__ReplyBody"
    [("stat", enumeration "Rpc__ReplyStat", false); ("reply_case", enumeration "Rpc__ReplyBody__ReplyCase", false);
     ("areply", pointer_to "Rpc__AcceptedReply", true); ("rreply", pointer_to "Rpc__RejectedReply", true)]
    (Some ("Rpc__ReplyBody__ReplyCase",
     [("RPC__REPLY_BODY__REPLY__NOT_SET", 0); ("RPC__REPLY_BODY__REPLY_AREPLY", 2);
     ("RPC__REPLY_BODY__REPLY_RREPLY", 3)]))
    [constant "RPC__REPLY_STAT__MSG_ACCEPTED"; constant "RPC__REPLY_BODY__REPLY__NOT_SET"; union_zero].

Definition rpc__reply_body__descriptor : ProtobufCMessageDescriptor := mkMessageDescriptor
    "rpc.ReplyBody" "ReplyBody" "Rpc__ReplyBody" "rpc"
    3
    [mkField "stat" 1 LABEL_NONE TYPE_ENUM None "stat" (Some "rpc__reply_stat__descriptor") false NO_FLAG;
     mkField "areply" 2 LABEL_NONE TYPE_MESSAGE (Some "reply_case") "areply" (Some "rpc__accepted_reply__descriptor") false FLAG_ONEOF;
     mkField "rreply" 3 LABEL_NONE TYPE_MESSAGE (Some "reply_case") "rreply" (Some "rpc__rejected_reply__descriptor") false FLAG_ONEOF]
    [1; 2; 0]%nat
    1 [(1, 0%nat); (0, 3%nat)].

(** [Rpc__RpcMsg] *)
Definition rpc__rpc_msg__struct : c_struct := mkStruct "Rpc__RpcMsg"
    [("xid", uint32_t, false); ("mtype", enumeration "Rpc__MsgType", false);
     ("body_case", enumeration "Rpc__RpcMsg__BodyCase", false); ("cbody", pointer_to "Rpc__CallBody", true);
     ("rbody", pointer_to "Rpc__ReplyBody", true)]
    (Some ("Rpc__RpcMsg__BodyCase",
     [("RPC__RPC_MSG__BODY__NOT_SET", 0); ("RPC__RPC_MSG__BODY_CBODY", 3); ("RPC__RPC_MSG__BODY_RBODY", 4)]))
    [zero; constant "RPC__MSG_TYPE__CALL"; constant "RPC__RPC_MSG__BODY__NOT_SET"; union_zero].

Definition rpc__rpc_msg__descriptor : ProtobufCMessageDescriptor := mkMessageDescriptor
    "rpc.RpcMsg" "RpcMsg" "Rpc__RpcMsg" "rpc"
    4
    [mkField "xid" 1 LABEL_NONE TYPE_UINT32 None "xid" None false NO_FLAG;
     mkField "mtype" 2 LABEL_NONE TYPE_ENUM None "mtype" (Some "rpc__msg_type__descriptor") false NO_FLAG;
     mkField "cbody" 3 LABEL_NONE TYPE_MESSAGE (Some "body_case") "cbody" (Some "rpc__call_body__descriptor") false FLAG_ONEOF;
     mkField "rbody" 4 LABEL_NONE TYPE_MESSAGE (Some "body_case") "rbody" (Some "rpc__reply_body__descriptor") false FLAG_ONEOF]
    [2; 1; 3; 0]%nat
    1 [(1, 0%nat); (0, 4%nat)].

(** * The generated functions *)

Section functions.
Context `{ProtobufC}.

Definition rpc__auth_sys_params : generated := functions_of "rpc__auth_sys_params__descriptor".
Definition rpc__opaque_auth : generated := functions_of "rpc__opaque_auth__descriptor".
Definition rpc__call_body : generated := functions_of "rpc__call_body__descriptor".
Definition rpc__mismatch_info : generated := functions_of "rpc__mismatch_info__descriptor".
Definition rpc__accepted_reply : generated := functions_of "rpc__accepted_reply__descriptor".
Definition rpc__rejected_reply : generated := functions_of "rpc__rejected_reply__descriptor".
Definition rpc__reply_body : generated := functions_of "rpc__reply_body__descriptor".
Definition rpc__rpc_msg : generated := functions_of "rpc__rpc_msg__descriptor".
End functions.
