(* ===== verification/PbNfs.v ===== *)
(** The generated code of [nfs/nfs.pb-c.c] and its header: for every message its
    structure with the [INIT] macro, its table and its functions, for every
    enumeration its constants and its table. *)
From S2P Require Import Prelude Protobuf.

(** * [nfs/nfs.pb-c] *)

(** [Nfs__Stat] *)
Definition nfs__stat__constants : list (string * Z) :=
  [("NFS__STAT__NFS_OK", 0); ("NFS__STAT__NFSERR_PERM", 1); ("NFS__STAT__NFSERR_NOENT", 2);
   ("NFS__STAT__NFSERR_IO", 5); ("NFS__STAT__NFSERR_NXIO", 6); ("NFS__STAT__NFSERR_ACCES", 13);
   ("NFS__STAT__NFSERR_EXIST", 17); ("NFS__STAT__NFSERR_NODEV", 19); ("NFS__STAT__NFSERR_NOTDIR", 20);
   ("NFS__STAT__NFSERR_ISDIR", 21); ("NFS__STAT__NFSERR_FBIG", 27); ("NFS__STAT__NFSERR_NOSPC", 28);
   ("NFS__STAT__NFSERR_ROFS", 30); ("NFS__STAT__NFSERR_NAMETOOLONG", 63); ("NFS__STAT__NFSERR_NOTEMPTY", 66);
   ("NFS__STAT__NFSERR_DQUOT", 69); ("NFS__STAT__NFSERR_STALE", 70); ("NFS__STAT__NFSERR_WFLUSH", 99)].

Definition nfs__stat__descriptor : ProtobufCEnumDescriptor := mkEnumDescriptor
    "nfs.Stat" "Stat" "Nfs__Stat" "nfs"
    18 [("NFS_OK", "NFS__STAT__NFS_OK", 0); ("NFSERR_PERM", "NFS__STAT__NFSERR_PERM", 1);
      ("NFSERR_NOENT", "NFS__STAT__NFSERR_NOENT", 2); ("NFSERR_IO", "NFS__STAT__NFSERR_IO", 5);
      ("NFSERR_NXIO", "NFS__STAT__NFSERR_NXIO", 6); ("NFSERR_ACCES", "NFS__STAT__NFSERR_ACCES", 13);
      ("NFSERR_EXIST", "NFS__STAT__NFSERR_EXIST", 17); ("NFSERR_NODEV", "NFS__STAT__NFSERR_NODEV", 19);
      ("NFSERR_NOTDIR", "NFS__STAT__NFSERR_NOTDIR", 20); ("NFSERR_ISDIR", "NFS__STAT__NFSERR_ISDIR", 21);
      ("NFSERR_FBIG", "NFS__STAT__NFSERR_FBIG", 27); ("NFSERR_NOSPC", "NFS__STAT__NFSERR_NOSPC", 28);
      ("NFSERR_ROFS", "NFS__STAT__NFSERR_ROFS", 30); ("NFSERR_NAMETOOLONG", "NFS__STAT__NFSERR_NAMETOOLONG", 63);
      ("NFSERR_NOTEMPTY", "NFS__STAT__NFSERR_NOTEMPTY", 66); ("NFSERR_DQUOT", "NFS__STAT__NFSERR_DQUOT", 69);
      ("NFSERR_STALE", "NFS__STAT__NFSERR_STALE", 70); ("NFSERR_WFLUSH", "NFS__STAT__NFSERR_WFLUSH", 99)]
    18 [("NFSERR_ACCES", 5%nat); ("NFSERR_DQUOT", 15%nat); ("NFSERR_EXIST", 6%nat); ("NFSERR_FBIG", 10%nat);
      ("NFSERR_IO", 3%nat); ("NFSERR_ISDIR", 9%nat); ("NFSERR_NAMETOOLONG", 13%nat); ("NFSERR_NODEV", 7%nat);
      ("NFSERR_NOENT", 2%nat); ("NFSERR_NOSPC", 11%nat); ("NFSERR_NOTDIR", 8%nat); ("NFSERR_NOTEMPTY", 14%nat);
      ("NFSERR_NXIO", 4%nat); ("NFSERR_PERM", 1%nat); ("NFSERR_ROFS", 12%nat); ("NFSERR_STALE", 16%nat);
      ("NFSERR_WFLUSH", 17%nat); ("NFS_OK", 0%nat)]
    11 [(0, 0%nat); (5, 3%nat); (13, 5%nat); (17, 6%nat); (19, 7%nat); (27, 10%nat); (30, 12%nat); (63, 13%nat);
      (66, 14%nat); (69, 15%nat); (99, 17%nat); (0, 18%nat)].

(** [Nfs__FType] *)
Definition nfs__ftype__constants : list (string * Z) :=
  [("NFS__FTYPE__NFNON", 0); ("NFS__FTYPE__NFREG", 1); ("NFS__FTYPE__NFDIR", 2); ("NFS__FTYPE__NFBLK", 3);
   ("NFS__FTYPE__NFCHR", 4); ("NFS__FTYPE__NFLNK", 5)].

Definition nfs__ftype__descriptor : ProtobufCEnumDescriptor := mkEnumDescriptor
    "nfs.FType" "FType" "Nfs__FType" "nfs"
    6 [("NFNON", "NFS__FTYPE__NFNON", 0); ("NFREG", "NFS__FTYPE__NFREG", 1); ("NFDIR", "NFS__FTYPE__NFDIR", 2);
      ("NFBLK", "NFS__FTYPE__NFBLK", 3); ("NFCHR", "NFS__FTYPE__NFCHR", 4); ("NFLNK", "NFS__FTYPE__NFLNK", 5)]
    6 [("NFBLK", 3%nat); ("NFCHR", 4%nat); ("NFDIR", 2%nat); ("NFLNK", 5%nat); ("NFNON", 0%nat);
      ("NFREG", 1%nat)]
    1 [(0, 0%nat); (0, 6%nat)].

(** [Nfs__NfsStat] *)
Definition nfs__nfs_stat__struct : c_struct := mkStruct "Nfs__NfsStat"
    [("stat", enumeration "Nfs__Stat", false)]
    None
    [constant "NFS__STAT__NFS_OK"].

Definition nfs__nfs_stat__descriptor : ProtobufCMessageDescriptor := mkMessageDescriptor
    "nfs.NfsStat" "NfsStat" "Nfs__NfsStat" "nfs"
    1
    [mkField "stat" 1 LABEL_NONE TYPE_ENUM None "stat" (Some "nfs__stat__descriptor") false NO_FLAG]
    [0]%nat
    1 [(1, 0%nat); (0, 1%nat)].

(** [Nfs__NfsFType] *)
Definition nfs__nfs_ftype__struct : c_struct := mkStruct "Nfs__NfsFType"
    [("ftype", enumeration "Nfs__FType", false)]
    None
    [constant "NFS__FTYPE__NFNON"].

Definition nfs__nfs_ftype__descriptor : ProtobufCMessageDescriptor := mkMessageDescriptor
    "nfs.NfsFType" "NfsFType" "Nfs__NfsFType" "nfs"
    1
    [mkField "ftype" 1 LABEL_NONE TYPE_ENUM None "ftype" (Some "nfs__ftype__descriptor") false NO_FLAG]
    [0]%nat
    1 [(1, 0%nat); (0, 1%nat)].

(** [Nfs__FHandle] *)
Definition nfs__fhandle__struct : c_struct := mkStruct "Nfs__FHandle"
    [("nfs_filehandle", pointer_to "NfsFh__NfsFileHandle", false)]
    None
    [null].

Definition nfs__fhandle__descriptor : ProtobufCMessageDescriptor := mkMessageDescriptor
    "nfs.FHandle" "FHandle" "Nfs__FHandle" "nfs"
    1
    [mkField "nfs_filehandle" 1 LABEL_NONE TYPE_MESSAGE None "nfs_filehandle" (Some "nfs_fh__nfs_file_handle__descriptor") false NO_FLAG]
    [0]%nat
    1 [(1, 0%nat); (0, 1%nat)].

(** [Nfs__TimeVal] *)
Definition nfs__time_val__struct : c_struct := mkStruct "Nfs__TimeVal"
    [("seconds", uint64_t, false); ("useconds", uint64_t, false)]
    None
    [zero; zero].

Definition nfs__time_val__descriptor : ProtobufCMessageDescriptor := mkMessageDescriptor
    "nfs.TimeVal" "TimeVal" "Nfs__TimeVal" "nfs"
    2
    [mkField "seconds" 1 LABEL_NONE TYPE_UINT64 None "seconds" None false NO_FLAG;
     mkField "useconds" 2 LABEL_NONE TYPE_UINT64 None "useconds" None false NO_FLAG]
    [0; 1]%nat
    1 [(1, 0%nat); (0, 2%nat)].

(** [Nfs__FAttr] *)
Definition nfs__fattr__struct : c_struct := mkStruct "Nfs__FAttr"
    [("nfs_ftype", pointer_to "Nfs__NfsFType", false); ("mode", uint32_t, false); ("nlink", uint64_t, false);
     ("uid", uint32_t, false); ("gid", uint32_t, false); ("size", uint64_t, false);
     ("blocksize", uint64_t, false); ("rdev", uint64_t, false); ("blocks", uint64_t, false);
     ("fsid", uint64_t, false); ("fileid", uint64_t, false); ("atime", pointer_to "Nfs__TimeVal", false);
     ("mtime", pointer_to "Nfs__TimeVal", false); ("ctime", pointer_to "Nfs__TimeVal", false)]
    None
    [null; zero; zero; zero; zero; zero; zero; zero; zero; zero; zero; null; null; null].

Definition nfs__fattr__descriptor : ProtobufCMessageDescriptor := mkMessageDescriptor
    "nfs.FAttr" "FAttr" "Nfs__FAttr" "nfs"
    14
    [mkField "nfs_ftype" 1 LABEL_NONE TYPE_MESSAGE None "nfs_ftype" (Some "nfs__nfs_ftype__descriptor") false NO_FLAG;
     mkField "mode" 2 LABEL_NONE TYPE_UINT32 None "mode" None false NO_FLAG;
     mkField "nlink" 3 LABEL_NONE TYPE_UINT64 None "nlink" None false NO_FLAG;
     mkField "uid" 4 LABEL_NONE TYPE_UINT32 None "uid" None false NO_FLAG;
     mkField "gid" 5 LABEL_NONE TYPE_UINT32 None "gid" None false NO_FLAG;
     mkField "size" 6 LABEL_NONE TYPE_UINT64 None "size" None false NO_FLAG;
     mkField "blocksize" 7 LABEL_NONE TYPE_UINT64 None "blocksize" None false NO_FLAG;
     mkField "rdev" 8 LABEL_NONE TYPE_UINT64 None "rdev" None false NO_FLAG;
     mkField "blocks" 9 LABEL_NONE TYPE_UINT64 None "blocks" None false NO_FLAG;
     mkField "fsid" 10 LABEL_NONE TYPE_UINT64 None "fsid" None false NO_FLAG;
     mkField "fileid" 11 LABEL_NONE TYPE_UINT64 None "fileid" None false NO_FLAG;
     mkField "atime" 12 LABEL_NONE TYPE_MESSAGE None "atime" (Some "nfs__time_val__descriptor") false NO_FLAG;
     mkField "mtime" 13 LABEL_NONE TYPE_MESSAGE None "mtime" (Some "nfs__time_val__descriptor") false NO_FLAG;
     mkField "ctime" 14 LABEL_NONE TYPE_MESSAGE None "ctime" (Some "nfs__time_val__descriptor") false NO_FLAG]
    [11; 8; 6; 13; 10; 9; 4; 1; 12; 0; 2; 7; 5; 3]%nat
    1 [(1, 0%nat); (0, 14%nat)].

(** [Nfs__SAttr] *)
Definition nfs__sattr__struct : c_struct := mkStruct "Nfs__SAttr"
    [("mode", uint32_t, false); ("uid", uint32_t, false); ("gid", uint32_t, false); ("size", uint64_t, false);
     ("atime", pointer_to "Nfs__TimeVal", false); ("mtime", pointer_to "Nfs__TimeVal", false)]
    None
    [zero; zero; zero; zero; null; null].

Definition nfs__sattr__descriptor : ProtobufCMessageDescriptor := mkMessageDescriptor
    "nfs.SAttr" "SAttr" "Nfs__SAttr" "nfs"
    6
    [mkField "mode" 1 LABEL_NONE TYPE_UINT32 None "mode" None false NO_FLAG;
     mkField "uid" 2 LABEL_NONE TYPE_UINT32 None "uid" None false NO_FLAG;
     mkField "gid" 3 LABEL_NONE TYPE_UINT32 None "gid" None false NO_FLAG;
     mkField "size" 4 LABEL_NONE TYPE_UINT64 None "size" None false NO_FLAG;
     mkField "atime" 5 LABEL_NONE TYPE_MESSAGE None "atime" (Some "nfs__time_val__descriptor") false NO_FLAG;
     mkField "mtime" 6 LABEL_NONE TYPE_MESSAGE None "mtime" (Some "nfs__time_val__descriptor") false NO_FLAG]
    [4; 2; 0; 5; 3; 1]%nat
    1 [(1, 0%nat); (0, 6%nat)].

(** [Nfs__FileName] *)
Definition nfs__file_name__struct : c_struct := mkStruct "Nfs__FileName"
    [("filename", char_pointer, false)]
    None
    [empty_string].

Definition nfs__file_name__descriptor : ProtobufCMessageDescriptor := mkMessageDescriptor
    "nfs.FileName" "FileName" "Nfs__FileName" "nfs"
    1
    [mkField "filename" 1 LABEL_NONE TYPE_STRING None "filename" None true NO_FLAG]
    [0]%nat
    1 [(1, 0%nat); (0, 1%nat)].

(** [Nfs__Path] *)
Definition nfs__path__struct : c_struct := mkStruct "Nfs__Path"
    [("path", char_pointer, false)]
    None
    [empty_string].

Definition nfs__path__descriptor : ProtobufCMessageDescriptor := mkMessageDescriptor
    "nfs.Path" "Path" "Nfs__Path" "nfs"
    1
    [mkField "path" 1 LABEL_NONE TYPE_STRING None "path" None true NO_FLAG]
    [0]%nat
    1 [(1, 0%nat); (0, 1%nat)].

(** [Nfs__AttrStat] *)
Definition nfs__attr_stat__struct : c_struct := mkStruct "Nfs__AttrStat"
    [("nfs_status", pointer_to "Nfs__NfsStat", false); ("body_case", enumeration "Nfs__AttrStat__BodyCase", false);
     ("attributes", pointer_to "Nfs__FAttr", true); ("default_case", pointer_to "Google__Protobuf__Empty", true)]
    (Some ("Nfs__AttrStat__BodyCase",
     [("NFS__ATTR_STAT__BODY__NOT_SET", 0); ("NFS__ATTR_STAT__BODY_ATTRIBUTES", 2);
     ("NFS__ATTR_STAT__BODY_DEFAULT_CASE", 3)]))
    [null; constant "NFS__ATTR_STAT__BODY__NOT_SET"; union_zero].

Definition nfs__attr_stat__descriptor : ProtobufCMessageDescriptor := mkMessageDescriptor
    "nfs.AttrStat" "AttrStat" "Nfs__AttrStat" "nfs"
    3
    [mkField "nfs_status" 1 LABEL_NONE TYPE_MESSAGE None "nfs_status" (Some "nfs__nfs_stat__descriptor") false NO_FLAG;
     mkField "attributes" 2 LABEL_NONE TYPE_MESSAGE (Some "body_case") "attributes" (Some "nfs__fattr__descriptor") false FLAG_ONEOF;
     mkField "default_case" 3 LABEL_NONE TYPE_MESSAGE (Some "body_case") "default_case" (Some "google__protobuf__empty__descriptor") false FLAG_ONEOF]
    [1; 2; 0]%nat
    1 [(1, 0%nat); (0, 3%nat)].

(** [Nfs__DirOpArgs] *)
Definition nfs__dir_op_args__struct : c_struct := mkStruct "Nfs__DirOpArgs"
    [("dir", pointer_to "Nfs__FHandle", false); ("name", pointer_to "Nfs__FileName", false)]
    None
    [null; null].

Definition nfs__dir_op_args__descriptor : ProtobufCMessageDescriptor := mkMessageDescriptor
    "nfs.DirOpArgs" "DirOpArgs" "Nfs__DirOpArgs" "nfs"
    2
    [mkField "dir" 1 LABEL_NONE TYPE_MESSAGE None "dir" (Some "nfs__fhandle__descriptor") false NO_FLAG;
     mkField "name" 2 LABEL_NONE TYPE_MESSAGE None "name" (Some "nfs__file_name__descriptor") false NO_FLAG]
    [0; 1]%nat
    1 [(1, 0%nat); (0, 2%nat)].

(** [Nfs__DirOpOk] *)
Definition nfs__dir_op_ok__struct : c_struct := mkStruct "Nfs__DirOpOk"
    [("file", pointer_to "Nfs__FHandle", false); ("attributes", pointer_to "Nfs__FAttr", false)]
    None
    [null; null].

Definition nfs__dir_op_ok__descriptor : ProtobufCMessageDescriptor := mkMessageDescriptor
    "nfs.DirOpOk" "DirOpOk" "Nfs__DirOpOk" "nfs"
    2
    [mkField "file" 1 LABEL_NONE TYPE_MESSAGE None "file" (Some "nfs__fhandle__descriptor") false NO_FLAG;
     mkField "attributes" 2 LABEL_NONE TYPE_MESSAGE None "attributes" (Some "nfs__fattr__descriptor") false NO_FLAG]
    [1; 0]%nat
    1 [(1, 0%nat); (0, 2%nat)].

(** [Nfs__DirOpRes] *)
Definition nfs__dir_op_res__struct : c_struct := mkStruct "Nfs__DirOpRes"
    [("nfs_status", pointer_to "Nfs__NfsStat", false); ("body_case", enumeration "Nfs__DirOpRes__BodyCase", false);
     ("diropok", pointer_to "Nfs__DirOpOk", true); ("default_case", pointer_to "Google__Protobuf__Empty", true)]
    (Some ("Nfs__DirOpRes__BodyCase",
     [("NFS__DIR_OP_RES__BODY__NOT_SET", 0); ("NFS__DIR_OP_RES__BODY_DIROPOK", 2);
     ("NFS__DIR_OP_RES__BODY_DEFAULT_CASE", 3)]))
    [null; constant "NFS__DIR_OP_RES__BODY__NOT_SET"; union_zero].

Definition nfs__dir_op_res__descriptor : ProtobufCMessageDescriptor := mkMessageDescriptor
    "nfs.DirOpRes" "DirOpRes" "Nfs__DirOpRes" "nfs"
    3
    [mkField "nfs_status" 1 LABEL_NONE TYPE_MESSAGE None "nfs_status" (Some "nfs__nfs_stat__descriptor") false NO_FLAG;
     mkField "diropok" 2 LABEL_NONE TYPE_MESSAGE (Some "body_case") "diropok" (Some "nfs__dir_op_ok__descriptor") false FLAG_ONEOF;
     mkField "default_case" 3 LABEL_NONE TYPE_MESSAGE (Some "body_case") "default_case" (Some "google__protobuf__empty__descriptor") false FLAG_ONEOF]
    [2; 1; 0]%nat
    1 [(1, 0%nat); (0, 3%nat)].

(** [Nfs__SAttrArgs] *)
Definition nfs__sattr_args__struct : c_struct := mkStruct "Nfs__SAttrArgs"
    [("file", pointer_to "Nfs__FHandle", false); ("attributes", pointer_to "Nfs__SAttr", false)]
    None
    [null; null].

Definition nfs__sattr_args__descriptor : ProtobufCMessageDescriptor := mkMessageDescriptor
    "nfs.SAttrArgs" "SAttrArgs" "Nfs__SAttrArgs" "nfs"
    2
    [mkField "file" 1 LABEL_NONE TYPE_MESSAGE None "file" (Some "nfs__fhandle__descriptor") false NO_FLAG;
     mkField "attributes" 2 LABEL_NONE TYPE_MESSAGE None "attributes" (Some "nfs__sattr__descriptor") false NO_FLAG]
    [1; 0]%nat
    1 [(1, 0%nat); (0, 2%nat)].

(** [Nfs__ReadLinkRes] *)
Definition nfs__read_link_res__struct : c_struct := mkStruct "Nfs__ReadLinkRes"
    [("nfs_status", pointer_to "Nfs__NfsStat", false);
     ("body_case", enumeration "Nfs__ReadLinkRes__BodyCase", false); ("data", pointer_to "Nfs__Path", true);
     ("default_case", pointer_to "Google__Protobuf__Empty", true)]
    (Some ("Nfs__ReadLinkRes__BodyCase",
     [("NFS__READ_LINK_RES__BODY__NOT_SET", 0); ("NFS__READ_LINK_RES__BODY_DATA", 2);
     ("NFS__READ_LINK_RES__BODY_DEFAULT_CASE", 3)]))
    [null; constant "NFS__READ_LINK_RES__BODY__NOT_SET"; union_zero].

Definition nfs__read_link_res__descriptor : ProtobufCMessageDescriptor := mkMessageDescriptor
    "nfs.ReadLinkRes" "ReadLinkRes" "Nfs__ReadLinkRes" "nfs"
    3
    [mkField "nfs_status" 1 LABEL_NONE TYPE_MESSAGE None "nfs_status" (Some "nfs__nfs_stat__descriptor") false NO_FLAG;
     mkField "data" 2 LABEL_NONE TYPE_MESSAGE (Some "body_case") "data" (Some "nfs__path__descriptor") false FLAG_ONEOF;
     mkField "default_case" 3 LABEL_NONE TYPE_MESSAGE (Some "body_case") "default_case" (Some "google__protobuf__empty__descriptor") false FLAG_ONEOF]
    [1; 2; 0]%nat
    1 [(1, 0%nat); (0, 3%nat)].

(** [Nfs__ReadArgs] *)
Definition nfs__read_args__struct : c_struct := mkStruct "Nfs__ReadArgs"
    [("file", pointer_to "Nfs__FHandle", false); ("offset", uint32_t, false); ("count", uint32_t, false);
     ("totalcount", uint32_t, false)]
    None
    [null; zero; zero; zero].

Definition nfs__read_args__descriptor : ProtobufCMessageDescriptor := mkMessageDescriptor
    "nfs.ReadArgs" "ReadArgs" "Nfs__ReadArgs" "nfs"
    4
    [mkField "file" 1 LABEL_NONE TYPE_MESSAGE None "file" (Some "nfs__fhandle__descriptor") false NO_FLAG;
     mkField "offset" 2 LABEL_NONE TYPE_UINT32 None "offset" None false NO_FLAG;
     mkField "count" 3 LABEL_NONE TYPE_UINT32 None "count" None false NO_FLAG;
     mkField "totalcount" 4 LABEL_NONE TYPE_UINT32 None "totalcount" None false NO_FLAG]
    [2; 0; 1; 3]%nat
    1 [(1, 0%nat); (0, 4%nat)].

(** [Nfs__ReadResBody] *)
Definition nfs__read_res_body__struct : c_struct := mkStruct "Nfs__ReadResBody"
    [("attributes", pointer_to "Nfs__FAttr", false); ("nfsdata", ProtobufCBinaryData, false)]
    None
    [null; empty_data].

Definition nfs__read_res_body__descriptor : ProtobufCMessageDescriptor := mkMessageDescriptor
    "nfs.ReadResBody" "ReadResBody" "Nfs__ReadResBody" "nfs"
    2
    [mkField "attributes" 1 LABEL_NONE TYPE_MESSAGE None "attributes" (Some "nfs__fattr__descriptor") false NO_FLAG;
     mkField "nfsdata" 2 LABEL_NONE TYPE_BYTES None "nfsdata" None false NO_FLAG]
    [0; 1]%nat
    1 [(1, 0%nat); (0, 2%nat)].

(** [Nfs__ReadRes] *)
Definition nfs__read_res__struct : c_struct := mkStruct "Nfs__ReadRes"
    [("nfs_status", pointer_to "Nfs__NfsStat", false); ("body_case", enumeration "Nfs__ReadRes__BodyCase", false);
     ("readresbody", pointer_to "Nfs__ReadResBody", true);
     ("default_case", pointer_to "Google__Protobuf__Empty", true)]
    (Some ("Nfs__ReadRes__BodyCase",
     [("NFS__READ_RES__BODY__NOT_SET", 0); ("NFS__READ_RES__BODY_READRESBODY", 2);
     ("NFS__READ_RES__BODY_DEFAULT_CASE", 3)]))
    [null; constant "NFS__READ_RES__BODY__NOT_SET"; union_zero].

Definition nfs__read_res__descriptor : ProtobufCMessageDescriptor := mkMessageDescriptor
    "nfs.ReadRes" "ReadRes" "Nfs__ReadRes" "nfs"
    3
    [mkField "nfs_status" 1 LABEL_NONE TYPE_MESSAGE None "nfs_status" (Some "nfs__nfs_stat__descriptor") false NO_FLAG;
     mkField "readresbody" 2 LABEL_NONE TYPE_MESSAGE (Some "body_case") "readresbody" (Some "nfs__read_res_body__descriptor") false FLAG_ONEOF;
     mkField "default_case" 3 LABEL_NONE TYPE_MESSAGE (Some "body_case") "default_case" (Some "google__protobuf__empty__descriptor") false FLAG_ONEOF]
    [2; 0; 1]%nat
    1 [(1, 0%nat); (0, 3%nat)].

(** [Nfs__WriteArgs] *)
Definition nfs__write_args__struct : c_struct := mkStruct "Nfs__WriteArgs"
    [("file", pointer_to "Nfs__FHandle", false); ("beginoffset", uint32_t, false); ("offset", uint32_t, false);
     ("totalcount", uint32_t, false); ("nfsdata", ProtobufCBinaryData, false)]
    None
    [null; zero; zero; zero; empty_data].

Definition nfs__write_args__descriptor : ProtobufCMessageDescriptor := mkMessageDescriptor
    "nfs.WriteArgs" "WriteArgs" "Nfs__WriteArgs" "nfs"
    5
    [mkField "file" 1 LABEL_NONE TYPE_MESSAGE None "file" (Some "nfs__fhandle__descriptor") false NO_FLAG;
     mkField "beginoffset" 2 LABEL_NONE TYPE_UINT32 None "beginoffset" None false NO_FLAG;
     mkField "offset" 3 LABEL_NONE TYPE_UINT32 None "offset" None false NO_FLAG;
     mkField "totalcount" 4 LABEL_NONE TYPE_UINT32 None "totalcount" None false NO_FLAG;
     mkField "nfsdata" 5 LABEL_NONE TYPE_BYTES None "nfsdata" None false NO_FLAG]
    [1; 0; 4; 2; 3]%nat
    1 [(1, 0%nat); (0, 5%nat)].

(** [Nfs__CreateArgs] *)
Definition nfs__create_args__struct : c_struct := mkStruct "Nfs__CreateArgs"
    [("where", pointer_to "Nfs__DirOpArgs", false); ("attributes", pointer_to "Nfs__SAttr", false)]
    None
    [null; null].

Definition nfs__create_args__descriptor : ProtobufCMessageDescriptor := mkMessageDescriptor
    "nfs.CreateArgs" "CreateArgs" "Nfs__CreateArgs" "nfs"
    2
    [mkField "where" 1 LABEL_NONE TYPE_MESSAGE None "where" (Some "nfs__dir_op_args__descriptor") false NO_FLAG;
     mkField "attributes" 2 LABEL_NONE TYPE_MESSAGE None "attributes" (Some "nfs__sattr__descriptor") false NO_FLAG]
    [1; 0]%nat
    1 [(1, 0%nat); (0, 2%nat)].

(** [Nfs__RenameArgs] *)
Definition nfs__rename_args__struct : c_struct := mkStruct "Nfs__RenameArgs"
    [("from", pointer_to "Nfs__DirOpArgs", false); ("to", pointer_to "Nfs__DirOpArgs", false)]
    None
    [null; null].

Definition nfs__rename_args__descriptor : ProtobufCMessageDescriptor := mkMessageDescriptor
    "nfs.RenameArgs" "RenameArgs" "Nfs__RenameArgs" "nfs"
    2
    [mkField "from" 1 LABEL_NONE TYPE_MESSAGE None "from" (Some "nfs__dir_op_args__descriptor") false NO_FLAG;
     mkField "to" 2 LABEL_NONE TYPE_MESSAGE None "to" (Some "nfs__dir_op_args__descriptor") false NO_FLAG]
    [0; 1]%nat
    1 [(1, 0%nat); (0, 2%nat)].

(** [Nfs__LinkArgs] *)
Definition nfs__link_args__struct : c_struct := mkStruct "Nfs__LinkArgs"
    [("from", pointer_to "Nfs__FHandle", false); ("to", pointer_to "Nfs__DirOpArgs", false)]
    None
    [null; null].

Definition nfs__link_args__descriptor : ProtobufCMessageDescriptor := mkMessageDescriptor
    "nfs.LinkArgs" "LinkArgs" "Nfs__LinkArgs" "nfs"
    2
    [mkField "from" 1 LABEL_NONE TYPE_MESSAGE None "from" (Some "nfs__fhandle__descriptor") false NO_FLAG;
     mkField "to" 2 LABEL_NONE TYPE_MESSAGE None "to" (Some "nfs__dir_op_args__descriptor") false NO_FLAG]
    [0; 1]%nat
    1 [(1, 0%nat); (0, 2%nat)].

(** [Nfs__SymLinkArgs] *)
Definition nfs__sym_link_args__struct : c_struct := mkStruct "Nfs__SymLinkArgs"
    [("from", pointer_to "Nfs__DirOpArgs", false); ("to", pointer_to "Nfs__Path", false);
     ("attributes", pointer_to "Nfs__SAttr", false)]
    None
    [null; null; null].

Definition nfs__sym_link_args__descriptor : ProtobufCMessageDescriptor := mkMessageDescriptor
    "nfs.SymLinkArgs" "SymLinkArgs" "Nfs__SymLinkArgs" "nfs"
    3
    [mkField "from" 1 LABEL_NONE TYPE_MESSAGE None "from" (Some "nfs__dir_op_args__descriptor") false NO_FLAG;
     mkField "to" 2 LABEL_NONE TYPE_MESSAGE None "to" (Some "nfs__path__descriptor") false NO_FLAG;
     mkField "attributes" 3 LABEL_NONE TYPE_MESSAGE None "attributes" (Some "nfs__sattr__descriptor") false NO_FLAG]
    [2; 0; 1]%nat
    1 [(1, 0%nat); (0, 3%nat)].

(** [Nfs__NfsCookie] *)
Definition nfs__nfs_cookie__struct : c_struct := mkStruct "Nfs__NfsCookie"
    [("value", uint64_t, false)]
    None
    [zero].

Definition nfs__nfs_cookie__descriptor : ProtobufCMessageDescriptor := mkMessageDescriptor
    "nfs.NfsCookie" "NfsCookie" "Nfs__NfsCookie" "nfs"
    1
    [mkField "value" 1 LABEL_NONE TYPE_UINT64 None "value" None false NO_FLAG]
    [0]%nat
    1 [(1, 0%nat); (0, 1%nat)].

(** [Nfs__ReadDirArgs] *)
Definition nfs__read_dir_args__struct : c_struct := mkStruct "Nfs__ReadDirArgs"
    [("dir", pointer_to "Nfs__FHandle", false); ("cookie", pointer_to "Nfs__NfsCookie", false);
     ("count", uint32_t, false)]
    None
    [null; null; zero].

Definition nfs__read_dir_args__descriptor : ProtobufCMessageDescriptor := mkMessageDescriptor
    "nfs.ReadDirArgs" "ReadDirArgs" "Nfs__ReadDirArgs" "nfs"
    3
    [mkField "dir" 1 LABEL_NONE TYPE_MESSAGE None "dir" (Some "nfs__fhandle__descriptor") false NO_FLAG;
     mkField "cookie" 2 LABEL_NONE TYPE_MESSAGE None "cookie" (Some "nfs__nfs_cookie__descriptor") false NO_FLAG;
     mkField "count" 3 LABEL_NONE TYPE_UINT32 None "count" None false NO_FLAG]
    [1; 2; 0]%nat
    1 [(1, 0%nat); (0, 3%nat)].

(** [Nfs__DirectoryEntriesList] *)
Definition nfs__directory_entries_list__struct : c_struct := mkStruct "Nfs__DirectoryEntriesList"
    [("fileid", uint64_t, false); ("name", pointer_to "Nfs__FileName", false);
     ("cookie", pointer_to "Nfs__NfsCookie", false);
     ("nextentry", pointer_to "Nfs__DirectoryEntriesList", false)]
    None
    [zero; null; null; null].

Definition nfs__directory_entries_list__descriptor : ProtobufCMessageDescriptor := mkMessageDescriptor
    "nfs.DirectoryEntriesList" "DirectoryEntriesList" "Nfs__DirectoryEntriesList" "nfs"
    4
    [mkField "fileid" 1 LABEL_NONE TYPE_UINT64 None "fileid" None false NO_FLAG;
     mkField "name" 2 LABEL_NONE TYPE_MESSAGE None "name" (Some "nfs__file_name__descriptor") false NO_FLAG;
     mkField "cookie" 3 LABEL_NONE TYPE_MESSAGE None "cookie" (Some "nfs__nfs_cookie__descriptor") false NO_FLAG;
     mkField "nextentry" 4 LABEL_NONE TYPE_MESSAGE None "nextentry" (Some "nfs__directory_entries_list__descriptor") false NO_FLAG]
    [2; 0; 1; 3]%nat
    1 [(1, 0%nat); (0, 4%nat)].

(** [Nfs__ReadDirOk] *)
Definition nfs__read_dir_ok__struct : c_struct := mkStruct "Nfs__ReadDirOk"
    [("entries", pointer_to "Nfs__DirectoryEntriesList", false); ("eof", protobuf_c_boolean, false)]
    None
    [null; zero].

Definition nfs__read_dir_ok__descriptor : ProtobufCMessageDescriptor := mkMessageDescriptor
    "nfs.ReadDirOk" "ReadDirOk" "Nfs__ReadDirOk" "nfs"
    2
    [mkField "entries" 1 LABEL_NONE TYPE_MESSAGE None "entries" (Some "nfs__directory_entries_list__descriptor") false NO_FLAG;
     mkField "eof" 2 LABEL_NONE TYPE_BOOL None "eof" None false NO_FLAG]
    [0; 1]%nat
    1 [(1, 0%nat); (0, 2%nat)].

(** [Nfs__ReadDirRes] *)
Definition nfs__read_dir_res__struct : c_struct := mkStruct "Nfs__ReadDirRes"
    [("nfs_status", pointer_to "Nfs__NfsStat", false); ("body_case", enumeration "Nfs__ReadDirRes__BodyCase", false);
     ("readdirok", pointer_to "Nfs__ReadDirOk", true);
     ("default_case", pointer_to "Google__Protobuf__Empty", true)]
    (Some ("Nfs__ReadDirRes__BodyCase",
     [("NFS__READ_DIR_RES__BODY__NOT_SET", 0); ("NFS__READ_DIR_RES__BODY_READDIROK", 2);
     ("NFS__READ_DIR_RES__BODY_DEFAULT_CASE", 3)]))
    [null; constant "NFS__READ_DIR_RES__BODY__NOT_SET"; union_zero].

Definition nfs__read_dir_res__descriptor : ProtobufCMessageDescriptor := mkMessageDescriptor
    "nfs.ReadDirRes" "ReadDirRes" "Nfs__ReadDirRes" "nfs"
    3
    [mkField "nfs_status" 1 LABEL_NONE TYPE_MESSAGE None "nfs_status" (Some "nfs__nfs_stat__descriptor") false NO_FLAG;
     mkField "readdirok" 2 LABEL_NONE TYPE_MESSAGE (Some "body_case") "readdirok" (Some "nfs__read_dir_ok__descriptor") false FLAG_ONEOF;
     mkField "default_case" 3 LABEL_NONE TYPE_MESSAGE (Some "body_case") "default_case" (Some "google__protobuf__empty__descriptor") false FLAG_ONEOF]
    [2; 0; 1]%nat
    1 [(1, 0%nat); (0, 3%nat)].

(** [Nfs__FsInfo] *)
Definition nfs__fs_info__struct : c_struct := mkStruct "Nfs__FsInfo"
    [("tsize", uint32_t, false); ("bsize", uint64_t, false); ("blocks", uint64_t, false); ("bfree", uint64_t, false);
     ("bavail", uint64_t, false)]
    None
    [zero; zero; zero; zero; zero].

Definition nfs__fs_info__descriptor : ProtobufCMessageDescriptor := mkMessageDescriptor
    "nfs.FsInfo" "FsInfo" "Nfs__FsInfo" "nfs"
    5
    [mkField "tsize" 1 LABEL_NONE TYPE_UINT32 None "tsize" None false NO_FLAG;
     mkField "bsize" 2 LABEL_NONE TYPE_UINT64 None "bsize" None false NO_FLAG;
     mkField "blocks" 3 LABEL_NONE TYPE_UINT64 None "blocks" None false NO_FLAG;
     mkField "bfree" 4 LABEL_NONE TYPE_UINT64 None "bfree" None false NO_FLAG;
     mkField "bavail" 5 LABEL_NONE TYPE_UINT64 None "bavail" None false NO_FLAG]
    [4; 3; 2; 1; 0]%nat
    1 [(1, 0%nat); (0, 5%nat)].

(** [Nfs__StatFsRes] *)
Definition nfs__stat_fs_res__struct : c_struct := mkStruct "Nfs__StatFsRes"
    [("nfs_status", pointer_to "Nfs__NfsStat", false); ("body_case", enumeration "Nfs__StatFsRes__BodyCase", false);
     ("fs_info", pointer_to "Nfs__FsInfo", true); ("default_case", pointer_to "Google__Protobuf__Empty", true)]
    (Some ("Nfs__StatFsRes__BodyCase",
     [("NFS__STAT_FS_RES__BODY__NOT_SET", 0); ("NFS__STAT_FS_RES__BODY_FS_INFO", 2);
     ("NFS__STAT_FS_RES__BODY_DEFAULT_CASE", 3)]))
    [null; constant "NFS__STAT_FS_RES__BODY__NOT_SET"; union_zero].

Definition nfs__stat_fs_res__descriptor : ProtobufCMessageDescriptor := mkMessageDescriptor
    "nfs.StatFsRes" "StatFsRes" "Nfs__StatFsRes" "nfs"
    3
    [mkField "nfs_status" 1 LABEL_NONE TYPE_MESSAGE None "nfs_status" (Some "nfs__nfs_stat__descriptor") false NO_FLAG;
     mkField "fs_info" 2 LABEL_NONE TYPE_MESSAGE (Some "body_case") "fs_info" (Some "nfs__fs_info__descriptor") false FLAG_ONEOF;
     mkField "default_case" 3 LABEL_NONE TYPE_MESSAGE (Some "body_case") "default_case" (Some "google__protobuf__empty__descriptor") false FLAG_ONEOF]
    [2; 1; 0]%nat
    1 [(1, 0%nat); (0, 3%nat)].

(** * The generated functions *)

Section functions.
Context `{ProtobufC}.

Definition nfs__nfs_stat : generated := functions_of "nfs__nfs_stat__descriptor".
Definition nfs__nfs_ftype : generated := functions_of "nfs__nfs_ftype__descriptor".
Definition nfs__fhandle : generated := functions_of "nfs__fhandle__descriptor".
Definition nfs__time_val : generated := functions_of "nfs__time_val__descriptor".
Definition nfs__fattr : generated := functions_of "nfs__fattr__descriptor".
Definition nfs__sattr : generated := functions_of "nfs__sattr__descriptor".
Definition nfs__file_name : generated := functions_of "nfs__file_name__descriptor".
Definition nfs__path : generated := functions_of "nfs__path__descriptor".
Definition nfs__attr_stat : generated := functions_of "nfs__attr_stat__descriptor".
Definition nfs__dir_op_args : generated := functions_of "nfs__dir_op_args__descriptor".
Definition nfs__dir_op_ok : generated := functions_of "nfs__dir_op_ok__descriptor".
Definition nfs__dir_op_res : generated := functions_of "nfs__dir_op_res__descriptor".
Definition nfs__sattr_args : generated := functions_of "nfs__sattr_args__descriptor".
Definition nfs__read_link_res : generated := functions_of "nfs__read_link_res__descriptor".
Definition nfs__read_args : generated := functions_of "nfs__read_args__descriptor".
Definition nfs__read_res_body : generated := functions_of "nfs__read_res_body__descriptor".
Definition nfs__read_res : generated := functions_of "nfs__read_res__descriptor".
Definition nfs__write_args : generated := functions_of "nfs__write_args__descriptor".
Definition nfs__create_args : generated := functions_of "nfs__create_args__descriptor".
Definition nfs__rename_args : generated := functions_of "nfs__rename_args__descriptor".
Definition nfs__link_args : generated := functions_of "nfs__link_args__descriptor".
Definition nfs__sym_link_args : generated := functions_of "nfs__sym_link_args__descriptor".
Definition nfs__nfs_cookie : generated := functions_of "nfs__nfs_cookie__descriptor".
Definition nfs__read_dir_args : generated := functions_of "nfs__read_dir_args__descriptor".
Definition nfs__directory_entries_list : generated := functions_of "nfs__directory_entries_list__descriptor".
Definition nfs__read_dir_ok : generated := functions_of "nfs__read_dir_ok__descriptor".
Definition nfs__read_dir_res : generated := functions_of "nfs__read_dir_res__descriptor".
Definition nfs__fs_info : generated := functions_of "nfs__fs_info__descriptor".
Definition nfs__stat_fs_res : generated := functions_of "nfs__stat_fs_res__descriptor".
End functions.
