(* ===== verification/PbTables.v ===== *)
(** All tables of the generated code by the names of their variables, and their
    consistency: what protobuf-c relies on when it follows them. *)
From S2P Require Import Prelude Protobuf PbCommon PbRpc PbNfs.

(** The messages with the structures of the headers, and the enumerations with
    their constants. *)
Definition message_tables : list (string * ProtobufCMessageDescriptor * c_struct) :=
  [("google__protobuf__empty__descriptor", google__protobuf__empty__descriptor, google__protobuf__empty__struct);
   ("google__protobuf__any__descriptor", google__protobuf__any__descriptor, google__protobuf__any__struct);
   ("nfs_fh__nfs_file_handle__descriptor", nfs_fh__nfs_file_handle__descriptor, nfs_fh__nfs_file_handle__struct);
   ("mount__fhandle__descriptor", mount__fhandle__descriptor, mount__fhandle__struct);
   ("mount__mnt_stat__descriptor", mount__mnt_stat__descriptor, mount__mnt_stat__struct);
   ("mount__fh_status__descriptor", mount__fh_status__descriptor, mount__fh_status__struct);
   ("mount__dir_path__descriptor", mount__dir_path__descriptor, mount__dir_path__struct);
   ("mount__name__descriptor", mount__name__descriptor, mount__name__struct);
   ("mount__mount_list__descriptor", mount__mount_list__descriptor, mount__mount_list__struct);
   ("mount__groups__descriptor", mount__groups__descriptor, mount__groups__struct);
   ("mount__export_list__descriptor", mount__export_list__descriptor, mount__export_list__struct);
   ("rpc__auth_sys_params__descriptor", rpc__auth_sys_params__descriptor, rpc__auth_sys_params__struct);
   ("rpc__opaque_auth__descriptor", rpc__opaque_auth__descriptor, rpc__opaque_auth__struct);
   ("rpc__call_body__descriptor", rpc__call_body__descriptor, rpc__call_body__struct);
   ("rpc__mismatch_info__descriptor", rpc__mismatch_info__descriptor, rpc__mismatch_info__struct);
   ("rpc__accepted_reply__descriptor", rpc__accepted_reply__descriptor, rpc__accepted_reply__struct);
   ("rpc__rejected_reply__descriptor", rpc__rejected_reply__descriptor, rpc__rejected_reply__struct);
   ("rpc__reply_body__descriptor", rpc__reply_body__descriptor, rpc__reply_body__struct);
   ("rpc__rpc_msg__descriptor", rpc__rpc_msg__descriptor, rpc__rpc_msg__struct);
   ("nfs__nfs_stat__descriptor", nfs__nfs_stat__descriptor, nfs__nfs_stat__struct);
   ("nfs__nfs_ftype__descriptor", nfs__nfs_ftype__descriptor, nfs__nfs_ftype__struct);
   ("nfs__fhandle__descriptor", nfs__fhandle__descriptor, nfs__fhandle__struct);
   ("nfs__time_val__descriptor", nfs__time_val__descriptor, nfs__time_val__struct);
   ("nfs__fattr__descriptor", nfs__fattr__descriptor, nfs__fattr__struct);
   ("nfs__sattr__descriptor", nfs__sattr__descriptor, nfs__sattr__struct);
   ("nfs__file_name__descriptor", nfs__file_name__descriptor, nfs__file_name__struct);
   ("nfs__path__descriptor", nfs__path__descriptor, nfs__path__struct);
   ("nfs__attr_stat__descriptor", nfs__attr_stat__descriptor, nfs__attr_stat__struct);
   ("nfs__dir_op_args__descriptor", nfs__dir_op_args__descriptor, nfs__dir_op_args__struct);
   ("nfs__dir_op_ok__descriptor", nfs__dir_op_ok__descriptor, nfs__dir_op_ok__struct);
   ("nfs__dir_op_res__descriptor", nfs__dir_op_res__descriptor, nfs__dir_op_res__struct);
   ("nfs__sattr_args__descriptor", nfs__sattr_args__descriptor, nfs__sattr_args__struct);
   ("nfs__read_link_res__descriptor", nfs__read_link_res__descriptor, nfs__read_link_res__struct);
   ("nfs__read_args__descriptor", nfs__read_args__descriptor, nfs__read_args__struct);
   ("nfs__read_res_body__descriptor", nfs__read_res_body__descriptor, nfs__read_res_body__struct);
   ("nfs__read_res__descriptor", nfs__read_res__descriptor, nfs__read_res__struct);
   ("nfs__write_args__descriptor", nfs__write_args__descriptor, nfs__write_args__struct);
   ("nfs__create_args__descriptor", nfs__create_args__descriptor, nfs__create_args__struct);
   ("nfs__rename_args__descriptor", nfs__rename_args__descriptor, nfs__rename_args__struct);
   ("nfs__link_args__descriptor", nfs__link_args__descriptor, nfs__link_args__struct);
   ("nfs__sym_link_args__descriptor", nfs__sym_link_args__descriptor, nfs__sym_link_args__struct);
   ("nfs__nfs_cookie__descriptor", nfs__nfs_cookie__descriptor, nfs__nfs_cookie__struct);
   ("nfs__read_dir_args__descriptor", nfs__read_dir_args__descriptor, nfs__read_dir_args__struct);
   ("nfs__directory_entries_list__descriptor", nfs__directory_entries_list__descriptor, nfs__directory_entries_list__struct);
   ("nfs__read_dir_ok__descriptor", nfs__read_dir_ok__descriptor, nfs__read_dir_ok__struct);
   ("nfs__read_dir_res__descriptor", nfs__read_dir_res__descriptor, nfs__read_dir_res__struct);
   ("nfs__fs_info__descriptor", nfs__fs_info__descriptor, nfs__fs_info__struct);
   ("nfs__stat_fs_res__descriptor", nfs__stat_fs_res__descriptor, nfs__stat_fs_res__struct)].

Definition enum_tables : list (string * ProtobufCEnumDescriptor * list (string * Z)) :=
  [("mount__stat__descriptor", mount__stat__descriptor, mount__stat__constants);
   ("rpc__msg_type__descriptor", rpc__msg_type__descriptor, rpc__msg_type__constants);
   ("rpc__reply_stat__descriptor", rpc__reply_stat__descriptor, rpc__reply_stat__constants);
   ("rpc__accept_stat__descriptor", rpc__accept_stat__descriptor, rpc__accept_stat__constants);
   ("rpc__reject_stat__descriptor", rpc__reject_stat__descriptor, rpc__reject_stat__constants);
   ("rpc__auth_stat__descriptor", rpc__auth_stat__descriptor, rpc__auth_stat__constants);
   ("rpc__auth_flavor__descriptor", rpc__auth_flavor__descriptor, rpc__auth_flavor__constants);
   ("nfs__stat__descriptor", nfs__stat__descriptor, nfs__stat__constants);
   ("nfs__ftype__descriptor", nfs__ftype__descriptor, nfs__ftype__constants)].

(** The variable that a pointer to a descriptor points to. *)
Definition tables (name : string) : option descriptor :=
  match find_first (λ t, String.eqb t.1.1 name) message_tables with
  | Some t => Some (MessageDescriptor t.1.2)
  | None => (λ t, EnumDescriptor t.1.2) <$> find_first (λ t, String.eqb t.1.1 name) enum_tables
  end.

(** C28: the tables of the generated code are consistent with each other
    and with the headers. For every message: the fields are in the order of their
    numbers, the ranges stand for exactly these numbers and the index by name is
    sorted and complete; every field that is an enumeration or a message has a
    table of that kind; the structure has exactly the members that the
    fields need, with the C types in which the library reads and writes them, a
    member with the case or the number of elements where there has to be one, and a
    constant for every case; the [INIT] macro stands for a message in which nothing
    is set. For every enumeration: the constants of the header, the table, its
    ranges and its index by name agree. *)
Theorem generated_tables_are_consistent :
  (∀ name d s, (name, d, s) ∈ message_tables →
     tables name = Some (MessageDescriptor d) ∧ message_table_ok d = true ∧ struct_ok tables d s = true) ∧
  (∀ name d l, (name, d, l) ∈ enum_tables →
     tables name = Some (EnumDescriptor d) ∧ enum_table_ok d l = true).
Proof.
  split.
  - assert (Forall (λ t, tables t.1.1 = Some (MessageDescriptor t.1.2) ∧ message_table_ok t.1.2 = true ∧
                         struct_ok tables t.1.2 t.2 = true) message_tables) as Hall.
    { rw /message_tables. repeat (apply Forall_cons_2; [split; [reflexivity|split; vm_compute; reflexivity]|]). apply Forall_nil_2. }
    intros name d s Hin. exact (proj1 (Forall_forall _ _) Hall _ Hin).
  - assert (Forall (λ t, tables t.1.1 = Some (EnumDescriptor t.1.2) ∧ enum_table_ok t.1.2 t.2 = true) enum_tables) as Hall.
    { rw /enum_tables. repeat (apply Forall_cons_2; [split; [reflexivity|vm_compute; reflexivity]|]). apply Forall_nil_2. }
    intros name d l Hin. exact (proj1 (Forall_forall _ _) Hall _ Hin).
Qed.
