(* ===== verification/ProtobufDecoding.v ===== *)
(** A library that keeps the promises of [ProtobufCEncodes]: it packs messages in
    the documented encoding and unpacks exactly the messages that a program's tables
    describe. *)
From S2P Require Import Prelude Protobuf PbTables.

Fixpoint read_varint (k : nat) (b : list byte) : option (Z * list byte) :=
  match k, b with
  | S k, c :: b =>
      if Z_of_byte c <? 128 then Some (Z_of_byte c, b)
      else '(n, b) ← read_varint k b; Some (Z_of_byte c - 128 + 128 * n, b)
  | _, _ => None
  end.

Fixpoint read_varints (fuel : nat) (b : list byte) : option (list Z) :=
  match b, fuel with
  | [], _ => Some []
  | _, O => None
  | _, S fuel => '(n, b) ← read_varint 10 b; l ← read_varints fuel b; Some (n :: l)
  end.

Definition read_delimited (b : list byte) : option (list byte * list byte) :=
  '(n, b) ← read_varint 10 b;
  if n <=? Z.of_nat (length b) then Some (take (Z.to_nat n) b, drop (Z.to_nat n) b) else None.

Section decoding.
Variable env : string → option descriptor.

(** The value of a field with the given way of encoding, by the type of the field. *)
Definition decode_value (decode : ProtobufCMessageDescriptor → list byte → option message)
    (f : ProtobufCFieldDescriptor) (wire_type : Z) (b : list byte) : option (value * list byte) :=
  match field_label f, field_type f, wire_type with
  | LABEL_NONE, (TYPE_UINT32 | TYPE_UINT64 | TYPE_BOOL), 0 => '(n, b) ← read_varint 10 b; Some (VInt n, b)
  | LABEL_NONE, TYPE_ENUM, 0 => '(n, b) ← read_varint 10 b; Some (VInt (to_int32 n), b)
  | LABEL_NONE, (TYPE_STRING | TYPE_BYTES), 2 => '(x, b) ← read_delimited b; Some (VBytes x, b)
  | LABEL_REPEATED, TYPE_UINT32, 2 => '(x, b) ← read_delimited b; l ← read_varints (length x) x; Some (VInts l, b)
  | LABEL_NONE, TYPE_MESSAGE, 2 =>
      '(x, b) ← read_delimited b;
      d ← message_descriptor env (field_descriptor f);
      m ← decode d x;
      Some (VMessage m, b)
  | _, _, _ => None
  end.

Fixpoint decode (fuel : nat) (d : ProtobufCMessageDescriptor) (b : list byte) : option message :=
  match b, fuel with
  | [], _ => Some []
  | _, O => None
  | _, S fuel =>
      '(t, b) ← read_varint 10 b;
      f ← find_field d (t / 8);
      '(v, b) ← decode_value (decode fuel) f (t mod 8) b;
      m ← decode fuel d b;
      Some ((t / 8, v) :: m)
  end.
End decoding.

Lemma byte_of_small n : 0 ≤ n < 256 → Z_of_byte (byte_of_Z n) = n.
Proof. intros. rw Z_of_byte_of_Z Z.mod_small //. Qed.

Lemma read_varint_S k c b :
  read_varint (S k) (c :: b) =
  if Z_of_byte c <? 128 then Some (Z_of_byte c, b)
  else '(n, b) ← read_varint k b; Some (Z_of_byte c - 128 + 128 * n, b).
Proof. done. Qed.

Lemma varint_loop_S k n :
  varint_loop (S k) n = if n <? 128 then [byte_of_Z n] else byte_of_Z (n mod 128 + 128) :: varint_loop k (n / 128).
Proof. done. Qed.

Lemma read_varint_loop k : ∀ n rest, 0 ≤ n < 128 ^ Z.of_nat (S k) →
  read_varint (S k) (varint_loop (S k) n ++ rest) = Some (n, rest).
Proof.
  induction k as [|k IH]; intros n rest Hn; rw varint_loop_S; destruct (Z.ltb_spec n 128) as [Hs|Hs];
    try (rw [_ ++ _]/= read_varint_S byte_of_small; [lia|]; by rw (proj2 (Z.ltb_lt n 128))); [simpl in Hn; lia|].
  pose proof (Z.mod_pos_bound n 128 ltac:(lia)). pose proof (Z.div_mod n 128 ltac:(lia)).
  rw -app_comm_cons read_varint_S byte_of_small; [lia|]. rw (proj2 (Z.ltb_ge _ _)); [lia|]. rw IH.
  - split; [apply Z.div_pos; lia|]. apply Z.div_lt_upper_bound; [lia|].
    rw (Nat2Z.inj_succ (S k)) Z.pow_succ_r in Hn; lia.
  - simpl. do 2 f_equal. lia.
Qed.

Lemma read_varint_varint n rest : 0 ≤ n < 2 ^ 64 → read_varint 10 (varint n ++ rest) = Some (n, rest).
Proof. intros Hn. apply read_varint_loop. split; [lia|]. trans (2 ^ 64); [lia|done]. Qed.

Lemma varint_nonempty n : varint n ≠ [].
Proof. rw /varint /=. by destruct (n <? 128). Qed.

Lemma varint_length n : (1 ≤ length (varint n))%nat.
Proof. destruct (varint n) eqn:Hv; [by apply varint_nonempty in Hv|]. simpl. lia. Qed.

Lemma read_varints_S fuel n b :
  read_varints (S fuel) (varint n ++ b) = ('(m, b) ← read_varint 10 (varint n ++ b); l ← read_varints fuel b; Some (m :: l)).
Proof. destruct (varint n) eqn:Hv; [by apply varint_nonempty in Hv|done]. Qed.

Lemma read_varints_all l : Forall (λ n, 0 ≤ n < 2 ^ 64) l → ∀ fuel, (length (flat_map varint l) ≤ fuel)%nat →
  read_varints fuel (flat_map varint l) = Some l.
Proof.
  induction 1 as [|n l Hn Hl IH]; intros fuel Hf; [by destruct fuel|]. cbn [flat_map] in *. rw length_app in Hf.
  pose proof (varint_length n). destruct fuel as [|fuel]; [lia|]. rw read_varints_S read_varint_varint //=. rw IH //. lia.
Qed.

Lemma read_delimited_all b rest : Z.of_nat (length b) < 2 ^ 64 → read_delimited (delimited b ++ rest) = Some (b, rest).
Proof.
  intros Hb. rw /read_delimited /delimited -app_assoc read_varint_varint; [lia|]. rw /= length_app.
  rw (proj2 (Z.leb_le _ _)); [lia|]. by rw Nat2Z.id take_app_length drop_app_length.
Qed.

Section decode_encode.
Variable env : string → option descriptor.
Hypothesis Hids : ∀ name d f, env name = Some (MessageDescriptor d) → f ∈ fields d → field_id f < 2 ^ 29.

Lemma tag_parts i w : 0 ≤ w < 8 → (8 * i + w) / 8 = i ∧ (8 * i + w) mod 8 = w.
Proof. intros. split; symmetry; [apply (Z.div_unique _ _ _ w); lia|apply (Z.mod_unique _ _ i); lia]. Qed.

Lemma decode_step fuel d i w f v b rest m :
  0 ≤ w < 8 → 0 ≤ i < 2 ^ 29 → find_field d i = Some f →
  decode_value env (decode env fuel) f w (b ++ rest) = Some (v, rest) → decode env fuel d rest = Some m →
  decode env (S fuel) d (varint (8 * i + w) ++ b ++ rest) = Some ((i, v) :: m).
Proof.
  intros Hw Hi Hf Hv Hm. destruct (tag_parts i w Hw) as [Hq Hr].
  trans ('(t, b) ← read_varint 10 (varint (8 * i + w) ++ b ++ rest);
         f ← find_field d (t / 8);
         '(v, b) ← decode_value env (decode env fuel) f (t mod 8) b;
         m ← decode env fuel d b;
         Some ((t / 8, v) :: m)).
  { destruct (varint (8 * i + w)) eqn:Hv'; [by apply varint_nonempty in Hv'|done]. }
  rw read_varint_varint; [lia|]. rw /mbind /option_bind Hq Hr Hf Hv Hm //.
Qed.

Lemma to_int32_wrap64 n : - 2 ^ 31 ≤ n < 2 ^ 31 → to_int32 (wrap64 n) = n.
Proof.
  intros Hn. rw /to_int32 /wrap64. rw Z.mod_mod_divide; [by exists (2 ^ 32)|].
  destruct (decide (0 ≤ n)).
  - rw Z.mod_small; [lia|]. by rw (proj2 (Z.ltb_lt _ _)); [lia|].
  - rw -(Z.mod_add n 1 (2 ^ 32)) // Z.mod_small; [lia|]. rw (proj2 (Z.ltb_ge _ _)); lia.
Qed.

Lemma fields_ok_cons d last used i v m :
  fields_ok (value_ok env) d last used ((i, v) :: m) = true →
  last < i ∧ ∃ f used', find_field d i = Some f ∧ value_ok env f v = true ∧ fields_ok (value_ok env) d i used' m = true.
Proof.
  simpl. intros [Hi H]%andb_true_iff. apply Z.ltb_lt in Hi. split; [done|]. destruct (find_field d i) as [f|]; [|done].
  apply andb_true_iff in H as [Hv H]. exists f.
  destruct (field_flags f); [by exists used..|]. destruct (quantifier_offset f) as [c|]; [|by exists used].
  apply andb_true_iff in H as [_ H]. by exists (c :: used).
Qed.

Lemma length_encode_cons i v m : length (encode ((i, v) :: m)) = (length (encode_field i v) + length (encode m))%nat.
Proof. by rw /encode /= length_app. Qed.

Lemma delimited_length b : (S (length b) ≤ length (delimited b))%nat.
Proof. rw /delimited length_app. pose proof (varint_length (Z.of_nat (length b))). lia. Qed.

Lemma decode_encode fuel : ∀ name d m last used,
  env name = Some (MessageDescriptor d) → 0 ≤ last → fields_ok (value_ok env) d last used m = true →
  packed_size m < 2 ^ 31 → (length (encode m) ≤ fuel)%nat → decode env fuel d (encode m) = Some m.
Proof.
  induction fuel as [|fuel IH]; intros name d [|[i v] m] last used Hd Hlast Hok Hsize Hfuel; try done.
  { rw length_encode_cons in Hfuel. destruct v; rw /= /tag !length_app in Hfuel; pose proof (varint_length (8 * i + 0));
      pose proof (varint_length (8 * i + 2)); lia. }
  apply fields_ok_cons in Hok as (Hi & f & used' & Hf & Hv & Hok). rw /packed_size length_encode_cons in Hsize.
  rw length_encode_cons in Hfuel. pose proof (find_first_Some _ _ _ Hf) as [Hin Hid%Z.eqb_eq].
  pose proof (Hids name d f Hd Hin) as Hbound. rw Hid in Hbound.
  assert (∀ w b, encode_field i v = varint w ++ b → (length (encode m) ≤ fuel)%nat) as Hrest.
  { intros w b Hw. rw Hw length_app in Hfuel. pose proof (varint_length w). lia. }
  assert (decode env fuel d (encode m) = Some m) as Hm.
  { apply (IH name d m i used' Hd); try done; [lia|rw /packed_size; lia|]. destruct v; eapply Hrest; reflexivity. }
  assert (∀ b, length (encode_field i v) = (length (varint (8 * i + 2)) + length (delimited b))%nat →
    Z.of_nat (length b) < 2 ^ 31 ∧ (length b ≤ fuel)%nat) as Hshort.
  { intros b Hb. pose proof (delimited_length b). pose proof (varint_length (8 * i + 2)). lia. }
  change (encode ((i, v) :: m)) with (encode_field i v ++ encode m).
  destruct v as [n|b|l|s]; rw /= /tag -app_assoc; (apply (decode_step _ _ _ _ f); [lia|lia|done| |done]);
    rw /decode_value; simpl in Hv.
  - destruct (field_label f); [|by destruct (field_type f)].
    destruct (field_type f); try done; rw /int_ok in Hv; c_bools; rw read_varint_varint;
      try (rw /wrap64; apply Z.mod_pos_bound; lia); simpl; first [rw to_int32_wrap64|rw wrap64_small]; rw /u64 //; lia.
  - destruct (Hshort b) as [Hb _]; [by rw /= /tag length_app|].
    destruct (field_label f); [|by destruct (field_type f)].
    destruct (field_type f); try done; by rw read_delimited_all; [lia|].
  - destruct (Hshort (flat_map varint l)) as [Hb _]; [by rw /= /tag length_app|].
    destruct (field_label f); [by destruct (field_type f)|]. destruct (field_type f); try done.
    rw read_delimited_all; [lia|]. rw /= read_varints_all //.
    apply andb_true_iff in Hv as [_ Hl]. apply Forall_forall. intros n Hn.
    rw forallb_forall in Hl. specialize (Hl n ltac:(by apply list_elem_of_In)). c_bools. lia.
  - destruct (Hshort (encode s)) as [Hb Hbf]; [by rw /= /tag length_app|].
    destruct (field_label f); [|by destruct (field_type f)]. destruct (field_type f); try done.
    rw -/(encode s) read_delimited_all; [lia|].
    destruct (field_descriptor f) as [ns|]; [|done]. simpl in Hv |- *.
    destruct (env ns) as [[ds|]|] eqn:Hds; try done. simpl.
    by rw (IH ns ds s 0 []) //; lia.
Qed.
End decode_encode.

(** * The library *)

Lemma field_numbers_small name d f : tables name = Some (MessageDescriptor d) → f ∈ fields d → field_id f < 2 ^ 29.
Proof.
  rw /tables. destruct (find_first _ message_tables) as [t|] eqn:Ht.
  - intros [= <-]. apply find_first_Some in Ht as [Hin _]. revert f.
    assert (Forall (λ t : string * ProtobufCMessageDescriptor * c_struct, Forall (λ f, field_id f < 2 ^ 29) (fields t.1.2)) message_tables) as Hall.
    { apply (bool_decide_unpack _). vm_compute. exact I. }
    intros f Hf. exact (proj1 (Forall_forall _ _) (proj1 (Forall_forall _ _) Hall t Hin) f Hf).
  - by destruct (find_first _ enum_tables).
Qed.

Definition documented_library : ProtobufC := {|
  protobuf_c_message_get_packed_size name m := Z.min (packed_size m) (2 ^ 31);
  protobuf_c_message_pack name m := if packed_size m <? 2 ^ 31 then encode m else [];
  protobuf_c_message_pack_to_buffer name m := if packed_size m <? 2 ^ 31 then encode m else [];
  protobuf_c_message_unpack name b :=
    match tables name with
    | Some (MessageDescriptor d) =>
        m ← decode tables (length b) d b;
        if message_ok tables d m then Some m else None
    | _ => None
    end |}.

Lemma encode_nonempty m : m ≠ [] → 1 ≤ packed_size m.
Proof.
  destruct m as [|[i v] m]; [done|]. intros _. rw /packed_size length_encode_cons.
  assert (1 ≤ length (encode_field i v))%nat; [|lia].
  destruct v; rw /= /tag !length_app; pose proof (varint_length (8 * i + 0)); pose proof (varint_length (8 * i + 2)); lia.
Qed.

Lemma documented_limit name m : Z.of_nat (length (@protobuf_c_message_pack documented_library name m)) < 2 ^ 31.
Proof. simpl. destruct (Z.ltb_spec (packed_size m) (2 ^ 31)); [done|simpl; lia]. Qed.

Lemma documented_encodes : @ProtobufCEncodes tables documented_library.
Proof.
  constructor; simpl.
  - intros name d m _ _ Hs. by rw (proj2 (Z.ltb_lt _ _) Hs).
  - intros name d m _ _ Hs. lia.
  - intros name d m Hd Hm Hs. rw Hd (decode_encode tables field_numbers_small _ name d m 0 []) //; lia || rw /= Hm //.
  - intros name d b m Hd. rw Hd. destruct (decode _ _ _ _) as [m'|]; [|done]. simpl.
    destruct (message_ok tables d m') eqn:Hm; [|done]. by intros [= <-].
Qed.
