(* ===== verification/Messages.v ===== *)
(** Protocol messages: the C structures protobuf-c generates from
    [src/serialization/*/*.proto] (a pointer to a sub-message is an [option],
    a [oneof] is an inductive type with its [body_case] as constructor), the
    constructors of replies in [nfs_messages.c], [mount_messages.c] and
    [server_common_rpc.c], and the structural validators of
    [message_validation.c] and [client_common_rpc.c] that the clients run on
    what they receive.

    The class [Codec] is the interface to the generated serialization code, which
    [GeneratedCodec] implements. *)
From S2P Require Import Prelude.

(** * Nfs messages *)

Module Nfs.

Inductive Stat :=
  | NFS_OK | NFSERR_PERM | NFSERR_NOENT | NFSERR_IO | NFSERR_NXIO | NFSERR_ACCES
  | NFSERR_EXIST | NFSERR_NODEV | NFSERR_NOTDIR | NFSERR_ISDIR | NFSERR_FBIG
  | NFSERR_NOSPC | NFSERR_ROFS | NFSERR_NAMETOOLONG | NFSERR_NOTEMPTY
  | NFSERR_DQUOT | NFSERR_STALE | NFSERR_WFLUSH.

Inductive FType := NFNON | NFREG | NFDIR | NFBLK | NFCHR | NFLNK.

#[global] Instance Stat_eq_dec : EqDecision Stat.
Proof. solve_decision. Defined.

#[global] Instance FType_eq_dec : EqDecision FType.
Proof. solve_decision. Defined.

(** [NfsFh__NfsFileHandle] *)
Record NfsFileHandle := mkNfsFileHandle { inode_number : Z; timestamp : Z }.

Record FHandle := mkFHandle { nfs_filehandle : option NfsFileHandle }.

Record TimeVal := mkTimeVal { seconds : Z; useconds : Z }.

Record FAttr := mkFAttr {
  fa_ftype : option FType;  (* the NfsFType sub-message *)
  fa_mode : Z; fa_nlink : Z; fa_uid : Z; fa_gid : Z; fa_size : Z; fa_blocksize : Z;
  fa_rdev : Z; fa_blocks : Z; fa_fsid : Z; fa_fileid : Z;
  fa_atime : option TimeVal; fa_mtime : option TimeVal; fa_ctime : option TimeVal }.

Record SAttr := mkSAttr {
  sa_mode : Z; sa_uid : Z; sa_gid : Z; sa_size : Z;
  sa_atime : option TimeVal; sa_mtime : option TimeVal }.

Record FileName := mkFileName { filename : option string }.

Record Path := mkPath { path : option string }.

Record DirOpArgs := mkDirOpArgs { dir : option FHandle; name : option FileName }.

Record DirOpOk := mkDirOpOk { file : option FHandle; attributes : option FAttr }.

Record SAttrArgs := mkSAttrArgs { sattr_file : option FHandle; sattr_attributes : option SAttr }.

Record ReadArgs := mkReadArgs {
  read_file : option FHandle; read_offset : Z; read_count : Z; read_totalcount : Z }.

(** [ProtobufCBinaryData] *)
Record BinaryData := mkBinaryData { len : Z; data : option (list byte) }.

Record ReadResBody := mkReadResBody { rr_attributes : option FAttr; rr_nfsdata : BinaryData }.

Record WriteArgs := mkWriteArgs {
  write_file : option FHandle; write_beginoffset : Z; write_offset : Z;
  write_totalcount : Z; write_nfsdata : BinaryData }.

Record CreateArgs := mkCreateArgs { where_ : option DirOpArgs; create_attributes : option SAttr }.

Record RenameArgs := mkRenameArgs { rename_from : option DirOpArgs; rename_to : option DirOpArgs }.

Record LinkArgs := mkLinkArgs { link_from : option FHandle; link_to : option DirOpArgs }.

Record SymLinkArgs := mkSymLinkArgs {
  symlink_from : option DirOpArgs; symlink_to : option Path; symlink_attributes : option SAttr }.

Record NfsCookie := mkNfsCookie { value : Z }.

Record ReadDirArgs := mkReadDirArgs {
  readdir_dir : option FHandle; readdir_cookie : option NfsCookie; readdir_count : Z }.

(** One node of the linked list [Nfs__DirectoryEntriesList]; the list itself
    ([nextentry] until NULL) is a Rocq list of nodes. *)
Record DirectoryEntry := mkDirectoryEntry {
  de_fileid : Z; de_name : option FileName; de_cookie : option NfsCookie }.

Record ReadDirOk := mkReadDirOk { entries : list DirectoryEntry; eof : Z }.

Record FsInfo := mkFsInfo { tsize : Z; bsize : Z; blocks : Z; bfree : Z; bavail : Z }.

(** The common shape of results: a status sub-message and a [oneof body] with
    a procedure-specific case and [default_case] (a google.protobuf.Empty). *)
Inductive Body (T : Type) :=
  | BODY__NOT_SET
  | BODY_OK (p : option T)
  | BODY_DEFAULT_CASE (p : option unit).

Arguments BODY__NOT_SET {T}.
Arguments BODY_OK {T} p.
Arguments BODY_DEFAULT_CASE {T} p.

Record Res (T : Type) := mkRes { nfs_status : option Stat; body : Body T }.

Arguments mkRes {T} nfs_status body.
Arguments nfs_status {T} r.
Arguments body {T} r.

Definition AttrStat : Type := Res FAttr.
Definition DirOpRes : Type := Res DirOpOk.
Definition ReadLinkRes : Type := Res Path.
Definition ReadRes : Type := Res ReadResBody.
Definition ReadDirRes : Type := Res ReadDirOk.
Definition StatFsRes : Type := Res FsInfo.

(** ** [nfs_messages.c] *)

Definition create_nfs_stat (stat : Stat) : Stat := stat.

(** [create_default_case_attr_stat] and its five siblings, which differ only
    in the message type: NULL for NFS_OK. *)
Definition create_default_case {T} (non_nfs_ok_status : Stat) : option (Res T) :=
  if decide (non_nfs_ok_status = NFS_OK) then None
  else Some (mkRes (Some (create_nfs_stat non_nfs_ok_status)) (BODY_DEFAULT_CASE (Some tt))).

Definition create_default_case_attr_stat : Stat → option AttrStat := create_default_case.
Definition create_default_case_dir_op_res : Stat → option DirOpRes := create_default_case.
Definition create_default_case_read_link_res : Stat → option ReadLinkRes := create_default_case.
Definition create_default_case_read_res : Stat → option ReadRes := create_default_case.
Definition create_default_case_read_dir_res : Stat → option ReadDirRes := create_default_case.
Definition create_default_case_stat_fs_res : Stat → option StatFsRes := create_default_case.

(** The results the procedures build on success. *)
Definition ok_res {T} (p : T) : Res T := mkRes (Some NFS_OK) (BODY_OK (Some p)).

End Nfs.

(** * Mount messages *)

Module Mount.

Inductive Stat := MNT_OK | MNTERR_NOENT | MNTERR_NOTEXP | MNTERR_IO | MNTERR_ACCES | MNTERR_NOTDIR.

#[global] Instance Stat_eq_dec : EqDecision Stat.
Proof. solve_decision. Defined.

Record DirPath := mkDirPath { path : option string }.

Inductive FhStatus_body :=
  | FHSTATUS_BODY__NOT_SET
  | FHSTATUS_BODY_DIRECTORY (p : option Nfs.FHandle)
  | FHSTATUS_BODY_DEFAULT_CASE (p : option unit).

Record FhStatus := mkFhStatus { mnt_status : option Stat; fhstatus_body : FhStatus_body }.

(** One node of the linked list [Mount__MountList]. *)
Record MountListEntry := mkMountListEntry { hostname : string; directory : string }.

(** [mount_messages.c] *)
Definition create_default_case_fh_status (non_mnt_ok_status : Stat) : FhStatus :=
  mkFhStatus (Some non_mnt_ok_status) (FHSTATUS_BODY_DEFAULT_CASE (Some tt)).

End Mount.

(** * Rpc messages *)

Module Rpc.

Inductive MsgType := CALL | REPLY.
Inductive ReplyStat := MSG_ACCEPTED | MSG_DENIED.
Inductive AcceptStat :=
  | SUCCESS | PROG_UNAVAIL | PROG_MISMATCH | PROC_UNAVAIL | GARBAGE_ARGS | SYSTEM_ERR.
Inductive RejectStat := RPC_MISMATCH | AUTH_ERROR.
Inductive AuthStat :=
  | AUTH_OK | AUTH_BADCRED | AUTH_REJECTEDCRED | AUTH_BADVERF | AUTH_REJECTEDVERF | AUTH_TOOWEAK
  | AUTH_INVALIDRESP | AUTH_FAILED | AUTH_KERB_GENERIC | AUTH_TIMEEXPIRE | AUTH_TKT_FILE
  | AUTH_DECODE | AUTH_NET_ADDR | RPCSEC_GSS_CREDPROBLEM | RPCSEC_GSS_CTXPROBLEM.
Inductive AuthFlavor := AUTH_NONE | AUTH_SYS | AUTH_SHORT | AUTH_DH | RPCSEC_GSS.

#[global] Instance MsgType_eq_dec : EqDecision MsgType.
Proof. solve_decision. Defined.
#[global] Instance AcceptStat_eq_dec : EqDecision AcceptStat.
Proof. solve_decision. Defined.
#[global] Instance AuthFlavor_eq_dec : EqDecision AuthFlavor.
Proof. solve_decision. Defined.

(** [gids] is NULL when the repeated field is empty. *)
Record AuthSysParams := mkAuthSysParams {
  timestamp : Z; machinename : option string; uid : Z; gid : Z; gids : option (list Z) }.

Inductive OpaqueAuth_body :=
  | AUTH_BODY__NOT_SET
  | AUTH_BODY_EMPTY (p : option unit)
  | AUTH_BODY_AUTH_SYS (p : option AuthSysParams).

Record OpaqueAuth := mkOpaqueAuth { flavor : AuthFlavor; body : OpaqueAuth_body }.

(** [Google__Protobuf__Any] *)
Record Any := mkAny { type_url : option string; value : list byte }.

Record CallBody := mkCallBody {
  rpcvers : Z; prog_ : Z; vers : Z; proc : Z;
  credential : option OpaqueAuth; verifier : option OpaqueAuth; params : option Any }.

Record MismatchInfo := mkMismatchInfo { low : Z; high : Z }.

Inductive AcceptedReply_data :=
  | REPLY_DATA__NOT_SET
  | REPLY_DATA_RESULTS (p : option Any)
  | REPLY_DATA_MISMATCH_INFO (p : option MismatchInfo)
  | REPLY_DATA_DEFAULT_CASE (p : option unit).

Record AcceptedReply := mkAcceptedReply {
  ar_verifier : option OpaqueAuth; ar_stat : AcceptStat; ar_reply_data : AcceptedReply_data }.

Inductive RejectedReply_data :=
  | RR_DATA__NOT_SET
  | RR_DATA_MISMATCH_INFO (p : option MismatchInfo)
  | RR_DATA_AUTH_STAT (a : AuthStat).

Record RejectedReply := mkRejectedReply { rr_stat : RejectStat; rr_reply_data : RejectedReply_data }.

Inductive ReplyBody_reply :=
  | REPLY__NOT_SET
  | REPLY_AREPLY (p : option AcceptedReply)
  | REPLY_RREPLY (p : option RejectedReply).

Record ReplyBody := mkReplyBody { rb_stat : ReplyStat; rb_reply : ReplyBody_reply }.

Inductive RpcMsg_body :=
  | MSG_BODY__NOT_SET
  | BODY_CBODY (p : option CallBody)
  | BODY_RBODY (p : option ReplyBody).

Record RpcMsg := mkRpcMsg { xid : Z; mtype : MsgType; msg_body : RpcMsg_body }.

(** ** [authentication.c] and [server_common_rpc.c] *)

Definition create_auth_none_opaque_auth : OpaqueAuth :=
  mkOpaqueAuth AUTH_NONE (AUTH_BODY_EMPTY (Some tt)).

Definition wrap_procedure_results_in_successful_accepted_reply
    (results_buffer : list byte) (results_type : string) : AcceptedReply :=
  mkAcceptedReply (Some create_auth_none_opaque_auth) SUCCESS
    (REPLY_DATA_RESULTS (Some (mkAny (Some results_type) results_buffer))).

(** The arguments [low] and [high] are not used: the reply always says 2, 2. *)
Definition create_prog_mismatch_accepted_reply (low high : Z) : AcceptedReply :=
  mkAcceptedReply (Some create_auth_none_opaque_auth) PROG_MISMATCH
    (REPLY_DATA_MISMATCH_INFO (Some (mkMismatchInfo 2 2))).

Definition create_default_case_accepted_reply (stat : AcceptStat) : option AcceptedReply :=
  if decide (stat = SUCCESS ∨ stat = PROG_MISMATCH) then None
  else Some (mkAcceptedReply (Some create_auth_none_opaque_auth) stat
               (REPLY_DATA_DEFAULT_CASE (Some tt))).

Definition create_garbage_args_accepted_reply : option AcceptedReply :=
  create_default_case_accepted_reply GARBAGE_ARGS.

Definition create_system_error_accepted_reply : option AcceptedReply :=
  create_default_case_accepted_reply SYSTEM_ERR.

Definition create_rpc_mismatch_rejected_reply (low high : Z) : RejectedReply :=
  mkRejectedReply RPC_MISMATCH (RR_DATA_MISMATCH_INFO (Some (mkMismatchInfo low high))).

Definition create_auth_error_rejected_reply (stat : AuthStat) : RejectedReply :=
  mkRejectedReply AUTH_ERROR (RR_DATA_AUTH_STAT stat).

End Rpc.

(** * Structural validation ([message_validation.c]): 0 when well formed, 1 otherwise *)

Module Validation.
Import Nfs.

Definition is_null {A} (o : option A) : bool := match o with None => true | Some _ => false end.

Definition validate_mount_fhandle (fhandle : option FHandle) : Z :=
  match fhandle with
  | None => 1
  | Some f => if is_null (nfs_filehandle f) then 1 else 0
  end.

Definition validate_nfs_fhandle (fhandle : option FHandle) : Z :=
  match fhandle with
  | None => 1
  | Some f => if is_null (nfs_filehandle f) then 1 else 0
  end.

Definition validate_mount_fh_status (fh_status : option Mount.FhStatus) : Z :=
  match fh_status with
  | None => 1
  | Some f =>
      match Mount.mnt_status f with
      | None => 1
      | Some Mount.MNT_OK =>
          match Mount.fhstatus_body f with
          | Mount.FHSTATUS_BODY_DIRECTORY p => if validate_mount_fhandle p >? 0 then 1 else 0
          | _ => 1
          end
      | Some _ =>
          match Mount.fhstatus_body f with
          | Mount.FHSTATUS_BODY_DEFAULT_CASE p => if is_null p then 1 else 0
          | _ => 1
          end
      end
  end.

Definition validate_nfs_nfs_stat (nfsstat : option Stat) : Z := if is_null nfsstat then 1 else 0.

(** The loop over the linked list of directory entries. *)
Fixpoint validate_entries (entries : list DirectoryEntry) : Z :=
  match entries with
  | [] => 0
  | e :: entries =>
      if match de_name e with None => true | Some n => is_null (filename n) end then 1
      else if is_null (de_cookie e) then 1
      else validate_entries entries
  end.

(** The pointer is dereferenced without a test: [None] is a null dereference. *)
Definition validate_nfs_read_dir_ok (readdirok : option ReadDirOk) : option Z :=
  match readdirok with
  | None => None
  | Some r => Some (validate_entries (entries r))
  end.

(** The common shape of the validators of results: the status must be
    present, the [oneof] case must agree with it, and the case for NFS_OK is
    checked by [check_ok]. *)
Definition validate_res {T} (check_ok : option T → option Z) (res : option (Res T)) : option Z :=
  match res with
  | None => Some 1
  | Some r =>
      match nfs_status r with
      | None => Some 1
      | Some NFS_OK =>
          match body r with
          | BODY_OK p => c ← check_ok p; Some (if c >? 0 then 1 else 0)
          | _ => Some 1
          end
      | Some _ =>
          match body r with
          | BODY_DEFAULT_CASE p => Some (if is_null p then 1 else 0)
          | _ => Some 1
          end
      end
  end.

Definition validate_nfs_read_dir_res : option ReadDirRes → option Z :=
  validate_res validate_nfs_read_dir_ok.

Definition validate_nfs_fattr (fattr : option FAttr) : Z :=
  match fattr with
  | None => 1
  | Some f =>
      if is_null (fa_ftype f) || is_null (fa_atime f) || is_null (fa_mtime f) || is_null (fa_ctime f)
      then 1 else 0
  end.

Definition validate_nfs_attr_stat : option AttrStat → option Z :=
  validate_res (λ p, Some (validate_nfs_fattr p)).

Definition validate_nfs_dir_op_ok (diropok : option DirOpOk) : Z :=
  match diropok with
  | None => 1
  | Some d =>
      if is_null (file d) then 1
      else if validate_nfs_fhandle (file d) >? 0 then 1
      else if validate_nfs_fattr (attributes d) >? 0 then 1
      else 0
  end.

Definition validate_nfs_dir_op_res : option DirOpRes → option Z :=
  validate_res (λ p, Some (validate_nfs_dir_op_ok p)).

Definition validate_read_res_body (readresbody : option ReadResBody) : Z :=
  match readresbody with
  | None => 1
  | Some b =>
      if validate_nfs_fattr (rr_attributes b) !=? 0 then 1
      else if (len (rr_nfsdata b) >? 0) && is_null (data (rr_nfsdata b)) then 1
      else if (len (rr_nfsdata b) =? 0) && negb (is_null (data (rr_nfsdata b))) then 1
      else 0
  end.

Definition validate_nfs_read_res : option ReadRes → option Z :=
  validate_res (λ p, Some (validate_read_res_body p)).

Definition validate_nfs_read_link_res : option ReadLinkRes → option Z :=
  validate_res (λ p, Some (match p with
                           | None => 1
                           | Some p => if is_null (path p) then 1 else 0
                           end)).

(** ** [client_common_rpc.c] *)
Import Rpc.

(** [None]: the AcceptedReply pointer is dereferenced without a test. *)
Definition validate_accepted_reply (areply : option AcceptedReply) : option Z :=
  match areply with
  | None => None
  | Some a =>
      match ar_verifier a with
      | None => Some 10
      | Some v =>
          if decide (flavor v = AUTH_NONE) then
            match Rpc.body v with
            | AUTH_BODY_EMPTY None => Some 12
            | AUTH_BODY_EMPTY (Some _) =>
                match ar_stat a with
                | SUCCESS =>
                    match ar_reply_data a with
                    | REPLY_DATA_RESULTS p => Some (if is_null p then 15 else 0)
                    | _ => Some 14
                    end
                | PROG_MISMATCH =>
                    match ar_reply_data a with
                    | REPLY_DATA_MISMATCH_INFO p => Some (if is_null p then 17 else 0)
                    | _ => Some 16
                    end
                | _ =>
                    match ar_reply_data a with
                    | REPLY_DATA_DEFAULT_CASE p => Some (if is_null p then 19 else 0)
                    | _ => Some 18
                    end
                end
            | _ => Some 11
            end
          else Some 13
      end
  end.

Definition validate_rpc_reply_structure (rpc_reply : option RpcMsg) : option Z :=
  match rpc_reply with
  | None => Some 1
  | Some m =>
      match mtype m, msg_body m with
      | REPLY, BODY_RBODY rbody =>
          match rbody with
          | None => Some 3
          | Some rb =>
              match rb_stat rb with
              | MSG_DENIED =>
                  match rb_reply rb with
                  | REPLY_RREPLY None => Some 5
                  | REPLY_RREPLY (Some rr) =>
                      match rr_stat rr, rr_reply_data rr with
                      | RPC_MISMATCH, RR_DATA_MISMATCH_INFO p => Some (if is_null p then 7 else 0)
                      | RPC_MISMATCH, _ => Some 6
                      | AUTH_ERROR, RR_DATA_AUTH_STAT _ => Some 0
                      | AUTH_ERROR, _ => Some 8
                      end
                  | _ => Some 4
                  end
              | MSG_ACCEPTED =>
                  match rb_reply rb with
                  | REPLY_AREPLY p => validate_accepted_reply p
                  | _ => Some 9
                  end
              end
          end
      | _, _ => Some 2
      end
  end.

(** Only the branches reachable once the structure was validated read the
    fields; the others are [None]. *)
Definition validate_successful_accepted_reply (rpc_reply : option RpcMsg) : option Z :=
  error_code ← validate_rpc_reply_structure rpc_reply;
  if error_code >? 0 then Some 1 else
  match rpc_reply with
  | Some (mkRpcMsg _ _ (BODY_RBODY (Some rb))) =>
      match rb_stat rb, rb_reply rb with
      | MSG_DENIED, REPLY_RREPLY (Some rr) =>
          match rr_stat rr with RPC_MISMATCH => Some 2 | AUTH_ERROR => Some 3 end
      | _, REPLY_AREPLY (Some a) =>
          match ar_stat a with SUCCESS => Some 0 | PROG_MISMATCH => Some 4 | _ => Some 5 end
      | _, _ => None
      end
  | _ => None
  end.

End Validation.

(** * The protobuf-c interface

    [pack] and [unpack] of the message types the server uses: the generated
    functions ([GeneratedCodec]). Nothing is assumed about them here, and theorems
    that need a fact of them state it. *)
Class Codec := {
  unpack_FHandle : list byte → option Nfs.FHandle;
  unpack_SAttrArgs : list byte → option Nfs.SAttrArgs;
  unpack_DirOpArgs : list byte → option Nfs.DirOpArgs;
  unpack_ReadArgs : list byte → option Nfs.ReadArgs;
  unpack_WriteArgs : list byte → option Nfs.WriteArgs;
  unpack_CreateArgs : list byte → option Nfs.CreateArgs;
  unpack_RenameArgs : list byte → option Nfs.RenameArgs;
  unpack_LinkArgs : list byte → option Nfs.LinkArgs;
  unpack_SymLinkArgs : list byte → option Nfs.SymLinkArgs;
  unpack_ReadDirArgs : list byte → option Nfs.ReadDirArgs;
  unpack_DirPath : list byte → option Mount.DirPath;
  pack_NfsStat : Nfs.Stat → list byte;
  pack_AttrStat : Nfs.AttrStat → list byte;
  pack_DirOpRes : Nfs.DirOpRes → list byte;
  pack_ReadLinkRes : Nfs.ReadLinkRes → list byte;
  pack_ReadRes : Nfs.ReadRes → list byte;
  pack_ReadDirRes : Nfs.ReadDirRes → list byte;
  pack_StatFsRes : Nfs.StatFsRes → list byte;
  pack_FhStatus : Mount.FhStatus → list byte;
  (* nfs__directory_entries_list__get_packed_size of one unlinked node *)
  directory_entry_packed_size : Nfs.DirectoryEntry → Z;
  unpack_RpcMsg : list byte → option Rpc.RpcMsg;
  pack_RpcMsg : Rpc.RpcMsg → list byte;
}.

(** * Facts about the constructors and validators *)

Section facts.
Import Nfs Validation.

Lemma create_default_case_Some {T} st :
  st ≠ NFS_OK →
  create_default_case (T:=T) st = Some (mkRes (Some st) (BODY_DEFAULT_CASE (Some tt))).
Proof. intros. rw /create_default_case decide_False //. Qed.

Lemma validate_res_default {T} (chk : option T → option Z) st r :
  create_default_case st = Some r → validate_res chk (Some r) = Some 0.
Proof.
  rw /create_default_case. case_decide; [done|]. intros; simplify_eq/=. by destruct st.
Qed.

Lemma validate_res_ok {T} (chk : option T → option Z) p :
  chk (Some p) = Some 0 → validate_res chk (Some (ok_res p)) = Some 0.
Proof. rw /validate_res /=. by intros ->. Qed.
End facts.
