(* ===== verification/MessageContents.v ===== *)
(** Between the C structures of messages ([Messages]) and the contents of protobuf
    messages ([Protobuf]): a [schema] of a type says which table describes it, how a
    structure becomes a content and back, and which structures arrive as they were
    sent. This file has the combinators and their laws. *)
From S2P Require Import Prelude CStrings Messages Protobuf PbTables ProtobufDecoding.

(** * Slots *)

(** A field of a structure: its number and its value, if it is set. *)
Definition slot : Type := Z * option value.

Definition present (l : list slot) : message := omap (λ s : slot, pair s.1 <$> s.2) l.

Definition get (i : Z) (m : message) : option value := snd <$> find_first (λ p, p.1 =? i) m.

(** What a number, a string, data, an array and a pointer are as fields. *)
Definition num (n : Z) : option value := if n =? 0 then None else Some (VInt n).

Definition bytes_of (s : string) : list byte := Ascii.byte_of_ascii <$> String.list_ascii_of_string s.
Definition string_of (b : list byte) : string := String.string_of_list_ascii (Ascii.ascii_of_byte <$> b).

Definition data (b : list byte) : option value := match b with [] => None | _ => Some (VBytes b) end.

Definition text (s : option string) : option value := s ← s; data (bytes_of s).

Definition nums (l : list Z) : option value := match l with [] => None | _ => Some (VInts l) end.

Definition sub {A} (f : A → message) (o : option A) : option value := VMessage ∘ f <$> o.

(** ... and back: a number that is not set is 0, a string the empty string, a
    pointer NULL. [None]: a value of another type. A string is taken with all its
    bytes: those behind a NUL, which C code does not see, are kept. *)
Definition as_num (v : option value) : option Z :=
  match v with None => Some 0 | Some (VInt n) => Some n | _ => None end.

Definition as_data (v : option value) : option (list byte) :=
  match v with None => Some [] | Some (VBytes b) => Some b | _ => None end.

Definition as_text (v : option value) : option (option string) := Some ∘ string_of <$> as_data v.

Definition as_nums (v : option value) : option (list Z) :=
  match v with None => Some [] | Some (VInts l) => Some l | _ => None end.

Definition as_sub {A} (f : message → option A) (v : option value) : option (option A) :=
  match v with None => Some None | Some (VMessage m) => Some <$> f m | _ => None end.

Lemma string_of_bytes_of s : string_of (bytes_of s) = s.
Proof.
  rw /string_of /bytes_of -list_fmap_compose. rw -{2}(String.string_of_list_ascii_of_string s). f_equal.
  rw -{2}(list_fmap_id (String.list_ascii_of_string s)). apply list_fmap_ext. intros _ c _. apply Ascii.ascii_of_byte_of_ascii.
Qed.

Lemma length_bytes_of s : length (bytes_of s) = String.length s.
Proof. rw /bytes_of length_fmap. by induction s as [|c s IH]; rw /= ?IH. Qed.

Lemma as_num_num n : as_num (num n) = Some n.
Proof. rw /num. destruct (Z.eqb_spec n 0); by subst. Qed.

Lemma as_data_data b : as_data (data b) = Some b.
Proof. by destruct b. Qed.

Lemma as_text_text s : as_text (text (Some s)) = Some (Some s).
Proof. rw /as_text /text /= as_data_data /=. by rw string_of_bytes_of. Qed.

Lemma as_nums_nums l : as_nums (nums l) = Some l.
Proof. by destruct l. Qed.

Lemma as_sub_sub {A} (to : A → message) back (o : option A) :
  (∀ a, o = Some a → back (to a) = Some a) → as_sub back (sub to o) = Some o.
Proof. destruct o as [a|]; [|done]. intros Ho. by rw /= (Ho a). Qed.

(** The field of a number. *)
Definition slot_of (i : Z) (l : list slot) : option value := s ← find_first (λ s : slot, s.1 =? i) l; s.2.

Lemma get_absent i l : (∀ s, s ∈ l → s.1 ≠ i) → get i (present l) = None.
Proof.
  induction l as [|[j o] l IH]; intros Hl; [done|]. destruct o as [v|]; rw /get /present /=.
  - destruct (Z.eqb_spec j i) as [->|]; [by destruct (Hl (i, Some v)); [constructor|]|].
    apply IH. intros s Hs. apply Hl. by constructor.
  - apply IH. intros s Hs. apply Hl. by constructor.
Qed.

Lemma get_present i l : NoDup l.*1 → get i (present l) = slot_of i l.
Proof.
  induction l as [|[j o] l IH]; [done|]. intros [Hj Hnd]%NoDup_cons. rw /slot_of /=.
  destruct (Z.eqb_spec j i) as [->|].
  - destruct o as [v|]; rw /get /present /= ?Z.eqb_refl //. apply get_absent. intros s Hs Hi. apply Hj. rw -Hi. exact (list_elem_of_fmap_2 fst l s Hs).
  - rw -/(slot_of i l) -IH //. destruct o as [v|]; rw /get /present /=; [|done]. destruct (Z.eqb_spec j i); [done|done].
Qed.

(** * Which contents the tables describe *)

Definition described (f : ProtobufCFieldDescriptor) (o : option value) : Prop :=
  ∀ v, o = Some v → value_ok tables f v = true.

(** Slots in the order of their numbers, of fields of the table, at most one for
    a union. *)
Fixpoint slots_ok (d : ProtobufCMessageDescriptor) (last : Z) (used : list string) (l : list slot) : Prop :=
  match l with
  | [] => True
  | (i, o) :: l =>
      last < i ∧
      match find_field d i with
      | None => False
      | Some f =>
          described f o ∧
          match field_flags f, quantifier_offset f with
          | FLAG_ONEOF, Some case => case ∉ used ∧ slots_ok d i (case :: used) l
          | _, _ => slots_ok d i used l
          end
      end
  end.

Lemma fields_ok_weaken ok d last last' used used' m :
  last' ≤ last → (∀ c, c ∈ used' → c ∈ used) → fields_ok ok d last used m = true → fields_ok ok d last' used' m = true.
Proof.
  revert last last' used used'. induction m as [|[i v] m IH]; intros last last' used used' Hl Hu; [done|]. simpl.
  intros [Hi H]%andb_true_iff. apply Z.ltb_lt in Hi. rw (proj2 (Z.ltb_lt last' i)); [lia|]. simpl.
  destruct (find_field d i) as [f|]; [|done]. apply andb_true_iff in H as [-> H]. simpl.
  destruct (field_flags f); [by apply (IH i i used used'); [lia|..]..|].
  destruct (quantifier_offset f) as [c|]; [|by apply (IH i i used used'); [lia|..]].
  apply andb_true_iff in H as [Hc H]. apply andb_true_iff. split.
  - apply negb_true_iff, bool_decide_eq_false. apply negb_true_iff, bool_decide_eq_false in Hc. auto.
  - apply (IH i i (c :: used) (c :: used')); [lia| |done]. intros c'. rw !elem_of_cons. naive_solver.
Qed.

Lemma slots_described d l last used : slots_ok d last used l → fields_ok (value_ok tables) d last used (present l) = true.
Proof.
  revert last used. induction l as [|[i o] l IH]; intros last used; [done|]. simpl.
  destruct (find_field d i) as [f|] eqn:Hf; [|by intros [_ []]]. intros (Hi & Ho & Hl).
  assert (∃ used', slots_ok d i used' l ∧ (∀ c, c ∈ used → c ∈ used') ∧
    match field_flags f, quantifier_offset f with FLAG_ONEOF, Some c => c ∉ used ∧ used' = c :: used | _, _ => used' = used end)
    as (used' & Hl' & Hsub & Hused).
  { destruct (field_flags f); [by exists used..|]. destruct (quantifier_offset f) as [c|]; [|by exists used].
    destruct Hl as [Hc Hl]. exists (c :: used). split; [done|]. split; [|done]. intros c' ?. by constructor. }
  destruct o as [v|]; rw /present /= -/(present l).
  - rw (proj2 (Z.ltb_lt last i) Hi) Hf (Ho v eq_refl) /=.
    destruct (field_flags f); [by subst; apply IH..|]. destruct (quantifier_offset f) as [c|]; [|by subst; apply IH].
    destruct Hused as [Hc ->]. rw bool_decide_eq_false_2 //. by apply IH.
  - apply (fields_ok_weaken _ _ i _ used'); [lia|done|by apply IH].
Qed.

(** * Schemas *)

(** How the structure of a message is written as fields and read back. The members
    are assigned to the numbers of the fields by hand, as the headers name them; that
    the offsets in the tables are those of these members is checked in [PbTables]. A
    string is its bytes: one that contains a NUL, which no C string does, is sent whole
    here, where protobuf-c would send it up to the NUL. *)
Record schema (A : Type) := mkSchema {
  table_name : string;
  to_message : A → message;
  of_message : message → option A;
  sendable : A → Prop }.

Arguments mkSchema {A} table_name to_message of_message sendable.
Arguments table_name {A} s.
Arguments to_message {A} s a.
Arguments of_message {A} s m.
Arguments sendable {A} s a.

(** What is sendable is described by the table and read back from its content. *)
Definition lawful {A} (s : schema A) : Prop :=
  ∀ a, sendable s a →
    (∃ d, tables (table_name s) = Some (MessageDescriptor d) ∧ message_ok tables d (to_message s a) = true) ∧
    of_message s (to_message s a) = Some a.

(** A structure whose fields are the slots [f a]. *)
Lemma lawful_slots {A} name d (f : A → list slot) back (P : A → Prop) :
  tables name = Some (MessageDescriptor d) →
  (∀ a, P a → slots_ok d 0 [] (f a)) →
  (∀ a, P a → NoDup (f a).*1) →
  (∀ a g, P a → (∀ i, get i g = slot_of i (f a)) → back g = Some a) →
  lawful (mkSchema name (λ a, present (f a)) back P).
Proof.
  intros Hd Hok Hnd Hback a Ha. split.
  - exists d. split; [done|]. apply slots_described. by apply Hok.
  - apply Hback; [done|]. intros i. apply get_present. by apply Hnd.
Qed.

(** A pointer that is NULL or points to something sendable. *)
Definition sendable_ptr {A} (s : schema A) (o : option A) : Prop := ∀ a, o = Some a → sendable s a.

Definition number_range (t : ProtobufCType) (n : Z) : Prop :=
  match t with
  | TYPE_UINT32 => u32 n
  | TYPE_UINT64 => u64 n
  | TYPE_BOOL => 0 ≤ n < 2
  | TYPE_ENUM => - 2 ^ 31 ≤ n < 2 ^ 31
  | _ => False
  end.

Lemma int_ok_true f lo hi n : lo ≤ n < hi → n ≠ 0 ∨ field_flags f = FLAG_ONEOF → int_ok f lo hi n = true.
Proof.
  intros Hn Hset. rw /int_ok (proj2 (Z.leb_le lo n)); [lia|]. rw (proj2 (Z.ltb_lt n hi)); [lia|]. simpl.
  destruct Hset as [Hz|Hf]; [|by rw /is_oneof Hf]. destruct (is_oneof f); [done|]. by destruct (Z.eqb_spec n 0).
Qed.

Lemma described_int f n :
  field_label f = LABEL_NONE → number_range (field_type f) n → n ≠ 0 ∨ field_flags f = FLAG_ONEOF →
  described f (Some (VInt n)).
Proof.
  intros Hl Hr Hset v [= <-]. simpl. rw Hl. destruct (field_type f); try done; by apply int_ok_true.
Qed.

Lemma described_num f n : field_label f = LABEL_NONE → number_range (field_type f) n → described f (num n).
Proof.
  intros Hl Hr. rw /num. destruct (Z.eqb_spec n 0); [by intros ? ?|]. apply described_int; auto.
Qed.

Lemma described_data f b :
  field_label f = LABEL_NONE → field_type f = TYPE_STRING ∨ field_type f = TYPE_BYTES → described f (data b).
Proof. intros Hl Ht. destruct b as [|c b]; intros v [= <-]. simpl. rw Hl. by destruct Ht as [->| ->]; rw orb_true_r. Qed.

Lemma described_text f s : field_label f = LABEL_NONE → field_type f = TYPE_STRING → described f (text s).
Proof. intros Hl Ht. destruct s as [s|]; [|done]. by apply described_data; [|left]. Qed.

Lemma described_nums f l :
  field_label f = LABEL_REPEATED → field_type f = TYPE_UINT32 → Forall u32 l → described f (nums l).
Proof.
  intros Hl Ht Hn. destruct l as [|n l]; intros v [= <-]. cbn [value_ok]. rw Hl Ht [negb _]/=.
  apply forallb_forall. intros m Hm%list_elem_of_In. rw Forall_forall in Hn. specialize (Hn m Hm). rw /u32 in Hn. lia.
Qed.

Lemma described_message f name d m :
  field_label f = LABEL_NONE → field_type f = TYPE_MESSAGE → field_descriptor f = Some name →
  tables name = Some (MessageDescriptor d) → message_ok tables d m = true → described f (Some (VMessage m)).
Proof. intros Hl Ht Hf Hd Hm v [= <-]. cbn [value_ok]. by rw Hl Ht Hf /= Hd. Qed.

Lemma described_sub {A} (s : schema A) f o :
  field_label f = LABEL_NONE → field_type f = TYPE_MESSAGE → field_descriptor f = Some (table_name s) →
  lawful s → sendable_ptr s o → described f (sub (to_message s) o).
Proof.
  intros Hl Ht Hf Hs Ho. destruct o as [a|]; [|done]. destruct (Hs a (Ho a eq_refl)) as [(d & Hd & Hm) _].
  by apply (described_message f (table_name s) d).
Qed.

Lemma as_sub_ptr {A} (s : schema A) o :
  lawful s → sendable_ptr s o → as_sub (of_message s) (sub (to_message s) o) = Some o.
Proof. intros Hs Ho. apply as_sub_sub. intros a Ha. by destruct (Hs a (Ho a Ha)). Qed.

(** * Sizes *)

Lemma varint_short n : (length (varint n) ≤ 10)%nat.
Proof.
  rw /varint. generalize 10%nat. intros k. revert n. induction k as [|k IH]; intros n; [done|]. rw varint_loop_S.
  destruct (n <? 128); simpl; [lia|]. pose proof (IH (n / 128)). lia.
Qed.

Definition slot_size (s : slot) : Z := match s.2 with None => 0 | Some v => Z.of_nat (length (encode_field s.1 v)) end.

Lemma size_present l : packed_size (present l) = foldr (λ s n, slot_size s + n) 0 l.
Proof.
  induction l as [|[i [v|]] l IH]; [done|..]; rw /present /= -/(present l) /slot_size /= -IH //.
  change (list_omap _ _ _ l) with (present l). rw /packed_size length_encode_cons. lia.
Qed.

Lemma delimited_short i b : Z.of_nat (length (tag i 2 ++ delimited b)) ≤ 20 + Z.of_nat (length b).
Proof. rw /tag /delimited !length_app. pose proof (varint_short (8 * i + 2)). pose proof (varint_short (Z.of_nat (length b))). lia. Qed.

Lemma size_int i n : slot_size (i, Some (VInt n)) ≤ 20.
Proof. rw /slot_size /= length_app /tag. pose proof (varint_short (8 * i + 0)). pose proof (varint_short (wrap64 n)). lia. Qed.

Lemma size_num i n : slot_size (i, num n) ≤ 20.
Proof. rw /num. destruct (n =? 0); [rw /slot_size /=; lia|apply size_int]. Qed.

Lemma size_data i b : slot_size (i, data b) ≤ 20 + Z.of_nat (length b).
Proof. destruct b as [|c b]; [rw /slot_size /=; lia|]. apply delimited_short. Qed.

Lemma size_text i s : slot_size (i, text (Some s)) ≤ 20 + Z.of_nat (String.length s).
Proof. rw -length_bytes_of. apply size_data. Qed.

Lemma size_nums i l : slot_size (i, nums l) ≤ 20 + 10 * Z.of_nat (length l).
Proof.
  assert (∀ l, Z.of_nat (length (flat_map varint l)) ≤ 10 * Z.of_nat (length l)) as Hl.
  { clear. induction l as [|n l IH]; simpl; [lia|]. rw length_app. pose proof (varint_short n). lia. }
  destruct l as [|n l]; [rw /slot_size /=; lia|]. pose proof (Hl (n :: l)).
  pose proof (delimited_short i (flat_map varint (n :: l))). rw /slot_size. simpl in *. lia.
Qed.

Lemma size_message i m : slot_size (i, Some (VMessage m)) ≤ 20 + packed_size m.
Proof. apply delimited_short. Qed.

Lemma size_sub {A} i (f : A → message) (o : option A) n :
  0 ≤ n → (∀ a, o = Some a → packed_size (f a) ≤ n) → slot_size (i, sub f o) ≤ 20 + n.
Proof.
  intros Hn Ho. destruct o as [a|]; [|rw /slot_size /=; lia]. pose proof (Ho a eq_refl).
  trans (20 + packed_size (f a)); [apply size_message|lia].
Qed.
