(* ===== verification/MessageSchemas.v ===== *)
(** The schemas of all messages that client and server exchange, against the
    tables of the generated code. *)
From S2P Require Import Prelude Messages Protobuf PbCommon PbRpc PbNfs PbTables ProtobufDecoding MessageContents.

(** * Proof steps *)

Lemma slots_cons d last used i o l f :
  find_field d i = Some f → last < i → field_flags f ≠ FLAG_ONEOF → described f o → slots_ok d i used l →
  slots_ok d last used ((i, o) :: l).
Proof. intros Hf Hi Hflag Ho Hl. simpl. rw Hf. split; [done|]. split; [done|]. by destruct (field_flags f). Qed.

(** The case of the union, the last of the fields. *)
Lemma slots_case d last i o f :
  find_field d i = Some f → last < i → field_flags f = FLAG_ONEOF → described f o → slots_ok d last [] [(i, o)].
Proof.
  intros Hf Hi Hflag Ho. simpl. rw Hf Hflag. split; [done|]. split; [done|]. destruct (quantifier_offset f); [|done].
  split; [apply not_elem_of_nil|done].
Qed.

(** The message a pointer of the union points to. *)
Lemma as_sub_case {A} (s : schema A) a :
  lawful s → sendable s a → as_sub (of_message s) (Some (VMessage (to_message s a))) = Some (Some a).
Proof. intros Hs Ha. destruct (Hs a Ha) as [_ Hb]. by rw /as_sub Hb. Qed.

Lemma slots_nil d last used : slots_ok d last used [].
Proof. done. Qed.

Arguments to_message : simpl never.
Arguments of_message : simpl never.
Arguments as_num : simpl never.
Arguments as_text : simpl never.
Arguments as_data : simpl never.
Arguments as_nums : simpl never.
Arguments as_sub : simpl never.
Arguments num : simpl never.
Arguments text : simpl never.
Arguments data : simpl never.
Arguments nums : simpl never.
Arguments sub : simpl never.
Arguments slots_ok : simpl never.

Create HintDb lawful.
Create HintDb slots.

#[export] Hint Resolve described_num described_text described_nums described_sub described_data slots_nil : slots.
#[export] Hint Extern 1 (slots_ok _ _ _ (_ :: _)) => (eapply slots_cons; [reflexivity|lia|done|..]) : slots.
#[export] Hint Extern 0 (field_label _ = _) => reflexivity : slots.
#[export] Hint Extern 0 (field_type _ = _) => reflexivity : slots.
#[export] Hint Extern 0 (field_descriptor _ = _) => reflexivity : slots.
#[export] Hint Extern 0 (number_range _ _) => (simpl; assumption) : slots.
#[export] Hint Extern 1 (lawful _) => (solve [eauto with lawful]) : slots.

(** The fields of a content that holds the slots. *)
Ltac read_slots Hg :=
  rw ?Hg /slot_of /=; repeat first [rw as_num_num /=|rw as_text_text /=|rw as_data_data /=|rw as_nums_nums /=|rw as_sub_ptr /=; [solve [eauto with lawful]|done|]].

(** Distinct numbers. *)
Ltac distinct := intros; apply (bool_decide_unpack _); vm_compute; exact I.

(** * Enumerations *)

(** The number of a constant, from the table. *)
Definition enum_number (d : ProtobufCEnumDescriptor) (constant : string) : Z :=
  match find_first (λ v : string * string * Z, String.eqb v.1.2 constant) (enum_values d) with Some v => v.2 | None => -1 end.

(** The constant of a number. [None]: a number that is not a constant, which C code
    would keep in the field. *)
Definition of_number {A} (all : list A) (number : A → Z) (n : Z) : option A := find_first (λ a, number a =? n) all.

Definition stat_number (s : Nfs.Stat) : Z :=
  enum_number nfs__stat__descriptor
    match s with
    | Nfs.NFS_OK => "NFS__STAT__NFS_OK" | Nfs.NFSERR_PERM => "NFS__STAT__NFSERR_PERM"
    | Nfs.NFSERR_NOENT => "NFS__STAT__NFSERR_NOENT" | Nfs.NFSERR_IO => "NFS__STAT__NFSERR_IO"
    | Nfs.NFSERR_NXIO => "NFS__STAT__NFSERR_NXIO" | Nfs.NFSERR_ACCES => "NFS__STAT__NFSERR_ACCES"
    | Nfs.NFSERR_EXIST => "NFS__STAT__NFSERR_EXIST" | Nfs.NFSERR_NODEV => "NFS__STAT__NFSERR_NODEV"
    | Nfs.NFSERR_NOTDIR => "NFS__STAT__NFSERR_NOTDIR" | Nfs.NFSERR_ISDIR => "NFS__STAT__NFSERR_ISDIR"
    | Nfs.NFSERR_FBIG => "NFS__STAT__NFSERR_FBIG" | Nfs.NFSERR_NOSPC => "NFS__STAT__NFSERR_NOSPC"
    | Nfs.NFSERR_ROFS => "NFS__STAT__NFSERR_ROFS" | Nfs.NFSERR_NAMETOOLONG => "NFS__STAT__NFSERR_NAMETOOLONG"
    | Nfs.NFSERR_NOTEMPTY => "NFS__STAT__NFSERR_NOTEMPTY" | Nfs.NFSERR_DQUOT => "NFS__STAT__NFSERR_DQUOT"
    | Nfs.NFSERR_STALE => "NFS__STAT__NFSERR_STALE" | Nfs.NFSERR_WFLUSH => "NFS__STAT__NFSERR_WFLUSH"
    end.

Definition all_stats : list Nfs.Stat :=
  [Nfs.NFS_OK; Nfs.NFSERR_PERM; Nfs.NFSERR_NOENT; Nfs.NFSERR_IO; Nfs.NFSERR_NXIO; Nfs.NFSERR_ACCES; Nfs.NFSERR_EXIST;
   Nfs.NFSERR_NODEV; Nfs.NFSERR_NOTDIR; Nfs.NFSERR_ISDIR; Nfs.NFSERR_FBIG; Nfs.NFSERR_NOSPC; Nfs.NFSERR_ROFS;
   Nfs.NFSERR_NAMETOOLONG; Nfs.NFSERR_NOTEMPTY; Nfs.NFSERR_DQUOT; Nfs.NFSERR_STALE; Nfs.NFSERR_WFLUSH].

Definition ftype_number (t : Nfs.FType) : Z :=
  enum_number nfs__ftype__descriptor
    match t with
    | Nfs.NFNON => "NFS__FTYPE__NFNON" | Nfs.NFREG => "NFS__FTYPE__NFREG" | Nfs.NFDIR => "NFS__FTYPE__NFDIR"
    | Nfs.NFBLK => "NFS__FTYPE__NFBLK" | Nfs.NFCHR => "NFS__FTYPE__NFCHR" | Nfs.NFLNK => "NFS__FTYPE__NFLNK"
    end.

Definition all_ftypes : list Nfs.FType := [Nfs.NFNON; Nfs.NFREG; Nfs.NFDIR; Nfs.NFBLK; Nfs.NFCHR; Nfs.NFLNK].

(** A message that holds one number of an enumeration. *)
Definition enum_schema {A} (name : string) (all : list A) (number : A → Z) : schema A :=
  mkSchema name (λ a, present [(1, num (number a))])
    (λ m, n ← as_num (get 1 m); of_number all number n) (λ _, True).

Lemma stat_lawful : lawful (enum_schema "nfs__nfs_stat__descriptor" all_stats stat_number).
Proof.
  apply (lawful_slots _ nfs__nfs_stat__descriptor); [reflexivity| |distinct|].
  - intros a _. eapply slots_cons; [reflexivity|lia|done| |done]. apply described_num; [done|]. by destruct a; vm_compute.
  - intros a g _ Hg. read_slots Hg. by destruct a.
Qed.
#[export] Hint Resolve stat_lawful : lawful.

Lemma ftype_lawful : lawful (enum_schema "nfs__nfs_ftype__descriptor" all_ftypes ftype_number).
Proof.
  apply (lawful_slots _ nfs__nfs_ftype__descriptor); [reflexivity| |distinct|].
  - intros a _. eapply slots_cons; [reflexivity|lia|done| |done]. apply described_num; [done|]. by destruct a; vm_compute.
  - intros a g _ Hg. read_slots Hg. by destruct a.
Qed.
#[export] Hint Resolve ftype_lawful : lawful.

(** * NFS messages *)

Definition nfs_stat_schema := enum_schema "nfs__nfs_stat__descriptor" all_stats stat_number.
Definition nfs_ftype_schema := enum_schema "nfs__nfs_ftype__descriptor" all_ftypes ftype_number.

Definition handle_schema : schema Nfs.NfsFileHandle :=
  mkSchema "nfs_fh__nfs_file_handle__descriptor"
    (λ h, present [(1, num (Nfs.inode_number h)); (2, num (Nfs.timestamp h))])
    (λ m, i ← as_num (get 1 m); t ← as_num (get 2 m); Some (Nfs.mkNfsFileHandle i t))
    (λ h, u64 (Nfs.inode_number h) ∧ u64 (Nfs.timestamp h)).

Lemma handle_lawful : lawful handle_schema.
Proof.
  apply (lawful_slots _ nfs_fh__nfs_file_handle__descriptor); [reflexivity| |distinct|].
  - intros a [??]. eauto 20 with slots.
  - intros [i t] g [??] Hg. by read_slots Hg.
Qed.
#[export] Hint Resolve handle_lawful : lawful.

Definition fhandle_schema (name : string) : schema Nfs.FHandle :=
  mkSchema name (λ h, present [(1, sub (to_message handle_schema) (Nfs.nfs_filehandle h))])
    (λ m, h ← as_sub (of_message handle_schema) (get 1 m); Some (Nfs.mkFHandle h))
    (λ h, sendable_ptr handle_schema (Nfs.nfs_filehandle h)).

Lemma fhandle_lawful : lawful (fhandle_schema "nfs__fhandle__descriptor").
Proof.
  apply (lawful_slots _ nfs__fhandle__descriptor); [reflexivity| |distinct|].
  - intros a Ha. eauto 20 with slots.
  - intros [h] g Hh Hg. by read_slots Hg.
Qed.
#[export] Hint Resolve fhandle_lawful : lawful.

Definition timeval_schema : schema Nfs.TimeVal :=
  mkSchema "nfs__time_val__descriptor"
    (λ t, present [(1, num (Nfs.seconds t)); (2, num (Nfs.useconds t))])
    (λ m, s ← as_num (get 1 m); u ← as_num (get 2 m); Some (Nfs.mkTimeVal s u))
    (λ t, u64 (Nfs.seconds t) ∧ u64 (Nfs.useconds t)).

Lemma timeval_lawful : lawful timeval_schema.
Proof.
  apply (lawful_slots _ nfs__time_val__descriptor); [reflexivity| |distinct|].
  - intros a [??]. eauto 20 with slots.
  - intros [s u] g [??] Hg. by read_slots Hg.
Qed.
#[export] Hint Resolve timeval_lawful : lawful.

Definition fattr_schema : schema Nfs.FAttr :=
  mkSchema "nfs__fattr__descriptor"
    (λ a, present
       [(1, sub (to_message nfs_ftype_schema) (Nfs.fa_ftype a)); (2, num (Nfs.fa_mode a)); (3, num (Nfs.fa_nlink a));
        (4, num (Nfs.fa_uid a)); (5, num (Nfs.fa_gid a)); (6, num (Nfs.fa_size a)); (7, num (Nfs.fa_blocksize a));
        (8, num (Nfs.fa_rdev a)); (9, num (Nfs.fa_blocks a)); (10, num (Nfs.fa_fsid a)); (11, num (Nfs.fa_fileid a));
        (12, sub (to_message timeval_schema) (Nfs.fa_atime a)); (13, sub (to_message timeval_schema) (Nfs.fa_mtime a));
        (14, sub (to_message timeval_schema) (Nfs.fa_ctime a))])
    (λ m, ftype ← as_sub (of_message nfs_ftype_schema) (get 1 m); mode ← as_num (get 2 m); nlink ← as_num (get 3 m);
       uid ← as_num (get 4 m); gid ← as_num (get 5 m); size ← as_num (get 6 m); blocksize ← as_num (get 7 m);
       rdev ← as_num (get 8 m); blocks ← as_num (get 9 m); fsid ← as_num (get 10 m); fileid ← as_num (get 11 m);
       atime ← as_sub (of_message timeval_schema) (get 12 m); mtime ← as_sub (of_message timeval_schema) (get 13 m);
       ctime ← as_sub (of_message timeval_schema) (get 14 m);
       Some (Nfs.mkFAttr ftype mode nlink uid gid size blocksize rdev blocks fsid fileid atime mtime ctime))
    (λ a, sendable_ptr nfs_ftype_schema (Nfs.fa_ftype a) ∧
       (u32 (Nfs.fa_mode a) ∧ u64 (Nfs.fa_nlink a) ∧ u32 (Nfs.fa_uid a) ∧ u32 (Nfs.fa_gid a) ∧ u64 (Nfs.fa_size a)) ∧
       (u64 (Nfs.fa_blocksize a) ∧ u64 (Nfs.fa_rdev a) ∧ u64 (Nfs.fa_blocks a) ∧ u64 (Nfs.fa_fsid a) ∧ u64 (Nfs.fa_fileid a)) ∧
       sendable_ptr timeval_schema (Nfs.fa_atime a) ∧ sendable_ptr timeval_schema (Nfs.fa_mtime a) ∧
       sendable_ptr timeval_schema (Nfs.fa_ctime a)).

Lemma fattr_lawful : lawful fattr_schema.
Proof.
  apply (lawful_slots _ nfs__fattr__descriptor); [reflexivity| |distinct|].
  - intros a (?&(?&?&?&?&?)&(?&?&?&?&?)&?&?&?). eauto 60 with slots.
  - intros a g (?&_&_&?&?&?) Hg. destruct a. by read_slots Hg.
Qed.
#[export] Hint Resolve fattr_lawful : lawful.

Definition sattr_schema : schema Nfs.SAttr :=
  mkSchema "nfs__sattr__descriptor"
    (λ a, present
       [(1, num (Nfs.sa_mode a)); (2, num (Nfs.sa_uid a)); (3, num (Nfs.sa_gid a)); (4, num (Nfs.sa_size a));
        (5, sub (to_message timeval_schema) (Nfs.sa_atime a)); (6, sub (to_message timeval_schema) (Nfs.sa_mtime a))])
    (λ m, mode ← as_num (get 1 m); uid ← as_num (get 2 m); gid ← as_num (get 3 m); size ← as_num (get 4 m);
       atime ← as_sub (of_message timeval_schema) (get 5 m); mtime ← as_sub (of_message timeval_schema) (get 6 m);
       Some (Nfs.mkSAttr mode uid gid size atime mtime))
    (λ a, (u32 (Nfs.sa_mode a) ∧ u32 (Nfs.sa_uid a) ∧ u32 (Nfs.sa_gid a) ∧ u64 (Nfs.sa_size a)) ∧
       sendable_ptr timeval_schema (Nfs.sa_atime a) ∧ sendable_ptr timeval_schema (Nfs.sa_mtime a)).

Lemma sattr_lawful : lawful sattr_schema.
Proof.
  apply (lawful_slots _ nfs__sattr__descriptor); [reflexivity| |distinct|].
  - intros a ((?&?&?&?)&?&?). eauto 40 with slots.
  - intros a g (_&?&?) Hg. destruct a. by read_slots Hg.
Qed.
#[export] Hint Resolve sattr_lawful : lawful.

(** A message that holds one string: NULL arrives as the empty string. *)
Definition text_schema {A} (name : string) (string_of : A → option string) (make : option string → A) : schema A :=
  mkSchema name (λ a, present [(1, text (string_of a))])
    (λ m, s ← as_text (get 1 m); Some (make s)) (λ a, is_Some (string_of a)).

Lemma text_lawful {A} name d f string_of (make : option string → A) :
  tables name = Some (MessageDescriptor d) → find_field d 1 = Some f → field_flags f = NO_FLAG →
  field_label f = LABEL_NONE → field_type f = TYPE_STRING → (∀ a, make (string_of a) = a) →
  lawful (text_schema name string_of make).
Proof.
  intros Hd Hf Hflag Hl Ht Hmake. apply (lawful_slots _ d); [done| |distinct|].
  - intros a _. apply (slots_cons _ _ _ _ _ _ f); [done|lia|by rw Hflag| |done]. by apply described_text.
  - intros a g [s Hs] Hg. rw -{2}(Hmake a) Hs in Hg |- *. by read_slots Hg.
Qed.

Definition filename_schema : schema Nfs.FileName := text_schema "nfs__file_name__descriptor" Nfs.filename Nfs.mkFileName.
Definition path_schema : schema Nfs.Path := text_schema "nfs__path__descriptor" Nfs.path Nfs.mkPath.
Definition dirpath_schema : schema Mount.DirPath := text_schema "mount__dir_path__descriptor" Mount.path Mount.mkDirPath.

Lemma filename_lawful : lawful filename_schema.
Proof. by eapply (text_lawful _ nfs__file_name__descriptor); [reflexivity..|intros []]. Qed.

Lemma path_lawful : lawful path_schema.
Proof. by eapply (text_lawful _ nfs__path__descriptor); [reflexivity..|intros []]. Qed.

Lemma dirpath_lawful : lawful dirpath_schema.
Proof. by eapply (text_lawful _ mount__dir_path__descriptor); [reflexivity..|intros []]. Qed.
#[export] Hint Resolve filename_lawful path_lawful dirpath_lawful : lawful.

(** A message that holds two pointers. *)
Definition pair_schema {A B C} (name : string) (sa : schema A) (sb : schema B) (fst_ : C → option A) (snd_ : C → option B)
    (make : option A → option B → C) : schema C :=
  mkSchema name (λ c, present [(1, sub (to_message sa) (fst_ c)); (2, sub (to_message sb) (snd_ c))])
    (λ m, a ← as_sub (of_message sa) (get 1 m); b ← as_sub (of_message sb) (get 2 m); Some (make a b))
    (λ c, sendable_ptr sa (fst_ c) ∧ sendable_ptr sb (snd_ c)).

Definition pointer_field (f : ProtobufCFieldDescriptor) (name : string) : Prop :=
  field_flags f = NO_FLAG ∧ field_label f = LABEL_NONE ∧ field_type f = TYPE_MESSAGE ∧ field_descriptor f = Some name.

Lemma pair_lawful {A B C} name d f g (sa : schema A) (sb : schema B) fst_ snd_ (make : option A → option B → C) :
  tables name = Some (MessageDescriptor d) → find_field d 1 = Some f → find_field d 2 = Some g →
  pointer_field f (table_name sa) → pointer_field g (table_name sb) → lawful sa → lawful sb →
  (∀ c, make (fst_ c) (snd_ c) = c) → lawful (pair_schema name sa sb fst_ snd_ make).
Proof.
  intros Hd Hf Hg (Hf1&Hf2&Hf3&Hf4) (Hg1&Hg2&Hg3&Hg4) Hsa Hsb Hmake. apply (lawful_slots _ d); [done| |distinct|].
  - intros c [Ha Hb]. apply (slots_cons _ _ _ _ _ _ f); [done|lia|by rw Hf1|by apply described_sub|].
    apply (slots_cons _ _ _ _ _ _ g); [done|lia|by rw Hg1|by apply described_sub|done].
  - intros c m [Ha Hb] Hm. rw !Hm /slot_of /= as_sub_ptr // as_sub_ptr //= Hmake //.
Qed.

Abbreviation nfs_fhandle_schema := (fhandle_schema "nfs__fhandle__descriptor").

Definition dir_op_args_schema : schema Nfs.DirOpArgs :=
  pair_schema "nfs__dir_op_args__descriptor" nfs_fhandle_schema filename_schema Nfs.dir Nfs.name Nfs.mkDirOpArgs.
Definition dir_op_ok_schema : schema Nfs.DirOpOk :=
  pair_schema "nfs__dir_op_ok__descriptor" nfs_fhandle_schema fattr_schema Nfs.file Nfs.attributes Nfs.mkDirOpOk.
Definition sattr_args_schema : schema Nfs.SAttrArgs :=
  pair_schema "nfs__sattr_args__descriptor" nfs_fhandle_schema sattr_schema Nfs.sattr_file Nfs.sattr_attributes Nfs.mkSAttrArgs.
Definition create_args_schema : schema Nfs.CreateArgs :=
  pair_schema "nfs__create_args__descriptor" dir_op_args_schema sattr_schema Nfs.where_ Nfs.create_attributes Nfs.mkCreateArgs.
Definition rename_args_schema : schema Nfs.RenameArgs :=
  pair_schema "nfs__rename_args__descriptor" dir_op_args_schema dir_op_args_schema Nfs.rename_from Nfs.rename_to Nfs.mkRenameArgs.
Definition link_args_schema : schema Nfs.LinkArgs :=
  pair_schema "nfs__link_args__descriptor" nfs_fhandle_schema dir_op_args_schema Nfs.link_from Nfs.link_to Nfs.mkLinkArgs.

Ltac pair_lawful d := eapply (pair_lawful _ d); [reflexivity|reflexivity|reflexivity|by split_and!|by split_and!|auto with lawful|auto with lawful|by intros []].

Lemma dir_op_args_lawful : lawful dir_op_args_schema.
Proof. pair_lawful nfs__dir_op_args__descriptor. Qed.
Lemma dir_op_ok_lawful : lawful dir_op_ok_schema.
Proof. pair_lawful nfs__dir_op_ok__descriptor. Qed.
Lemma sattr_args_lawful : lawful sattr_args_schema.
Proof. pair_lawful nfs__sattr_args__descriptor. Qed.
#[export] Hint Resolve dir_op_args_lawful dir_op_ok_lawful sattr_args_lawful : lawful.
Lemma create_args_lawful : lawful create_args_schema.
Proof. pair_lawful nfs__create_args__descriptor. Qed.
Lemma rename_args_lawful : lawful rename_args_schema.
Proof. pair_lawful nfs__rename_args__descriptor. Qed.
Lemma link_args_lawful : lawful link_args_schema.
Proof. pair_lawful nfs__link_args__descriptor. Qed.
#[export] Hint Resolve create_args_lawful rename_args_lawful link_args_lawful : lawful.

Definition read_args_schema : schema Nfs.ReadArgs :=
  mkSchema "nfs__read_args__descriptor"
    (λ a, present [(1, sub (to_message nfs_fhandle_schema) (Nfs.read_file a)); (2, num (Nfs.read_offset a));
                   (3, num (Nfs.read_count a)); (4, num (Nfs.read_totalcount a))])
    (λ m, file ← as_sub (of_message nfs_fhandle_schema) (get 1 m); offset ← as_num (get 2 m); count ← as_num (get 3 m);
       totalcount ← as_num (get 4 m); Some (Nfs.mkReadArgs file offset count totalcount))
    (λ a, sendable_ptr nfs_fhandle_schema (Nfs.read_file a) ∧
       u32 (Nfs.read_offset a) ∧ u32 (Nfs.read_count a) ∧ u32 (Nfs.read_totalcount a)).

Lemma read_args_lawful : lawful read_args_schema.
Proof.
  apply (lawful_slots _ nfs__read_args__descriptor); [reflexivity| |distinct|].
  - intros a (?&?&?&?). eauto 40 with slots.
  - intros a g (?&_) Hg. destruct a. by read_slots Hg.
Qed.
#[export] Hint Resolve read_args_lawful : lawful.

(** [ProtobufCBinaryData]: [len] bytes from [data]. Data that is empty arrives as a
    NULL pointer. *)
Definition binary_bytes (b : Nfs.BinaryData) : list byte := take (Z.to_nat (Nfs.len b)) (default [] (Nfs.data b)).

Definition binary_of (l : list byte) : Nfs.BinaryData :=
  Nfs.mkBinaryData (Z.of_nat (length l)) (match l with [] => None | _ => Some l end).

Definition sendable_binary (b : Nfs.BinaryData) : Prop := b = binary_of (binary_bytes b).

Definition read_res_body_schema : schema Nfs.ReadResBody :=
  mkSchema "nfs__read_res_body__descriptor"
    (λ r, present [(1, sub (to_message fattr_schema) (Nfs.rr_attributes r)); (2, data (binary_bytes (Nfs.rr_nfsdata r)))])
    (λ m, a ← as_sub (of_message fattr_schema) (get 1 m); b ← as_data (get 2 m); Some (Nfs.mkReadResBody a (binary_of b)))
    (λ r, sendable_ptr fattr_schema (Nfs.rr_attributes r) ∧ sendable_binary (Nfs.rr_nfsdata r)).

Lemma read_res_body_lawful : lawful read_res_body_schema.
Proof.
  apply (lawful_slots _ nfs__read_res_body__descriptor); [reflexivity| |distinct|].
  - intros a (?&?). eapply slots_cons; [reflexivity|lia|done|eauto with slots|].
    eapply slots_cons; [reflexivity|lia|done|apply described_data; [done|by right]|done].
  - intros [a b] g (?&Hb) Hg. simpl in Hb. read_slots Hg. by rw -Hb.
Qed.
#[export] Hint Resolve read_res_body_lawful : lawful.

Definition write_args_schema : schema Nfs.WriteArgs :=
  mkSchema "nfs__write_args__descriptor"
    (λ a, present [(1, sub (to_message nfs_fhandle_schema) (Nfs.write_file a)); (2, num (Nfs.write_beginoffset a));
                   (3, num (Nfs.write_offset a)); (4, num (Nfs.write_totalcount a));
                   (5, data (binary_bytes (Nfs.write_nfsdata a)))])
    (λ m, file ← as_sub (of_message nfs_fhandle_schema) (get 1 m); beginoffset ← as_num (get 2 m);
       offset ← as_num (get 3 m); totalcount ← as_num (get 4 m); b ← as_data (get 5 m);
       Some (Nfs.mkWriteArgs file beginoffset offset totalcount (binary_of b)))
    (λ a, sendable_ptr nfs_fhandle_schema (Nfs.write_file a) ∧
       u32 (Nfs.write_beginoffset a) ∧ u32 (Nfs.write_offset a) ∧ u32 (Nfs.write_totalcount a) ∧
       sendable_binary (Nfs.write_nfsdata a)).

Lemma write_args_lawful : lawful write_args_schema.
Proof.
  apply (lawful_slots _ nfs__write_args__descriptor); [reflexivity| |distinct|].
  - intros a (?&?&?&?&?). do 4 (eapply slots_cons; [reflexivity|lia|done|eauto with slots|]).
    eapply slots_cons; [reflexivity|lia|done|apply described_data; [done|by right]|done].
  - intros [] g (?&_&_&_&Hb) Hg. simpl in Hb. read_slots Hg. by rw -Hb.
Qed.
#[export] Hint Resolve write_args_lawful : lawful.

Definition symlink_args_schema : schema Nfs.SymLinkArgs :=
  mkSchema "nfs__sym_link_args__descriptor"
    (λ a, present [(1, sub (to_message dir_op_args_schema) (Nfs.symlink_from a));
                   (2, sub (to_message path_schema) (Nfs.symlink_to a));
                   (3, sub (to_message sattr_schema) (Nfs.symlink_attributes a))])
    (λ m, from ← as_sub (of_message dir_op_args_schema) (get 1 m); to ← as_sub (of_message path_schema) (get 2 m);
       a ← as_sub (of_message sattr_schema) (get 3 m); Some (Nfs.mkSymLinkArgs from to a))
    (λ a, sendable_ptr dir_op_args_schema (Nfs.symlink_from a) ∧ sendable_ptr path_schema (Nfs.symlink_to a) ∧
       sendable_ptr sattr_schema (Nfs.symlink_attributes a)).

Lemma symlink_args_lawful : lawful symlink_args_schema.
Proof.
  apply (lawful_slots _ nfs__sym_link_args__descriptor); [reflexivity| |distinct|].
  - intros a (?&?&?). eauto 40 with slots.
  - intros [] g (?&?&?) Hg. by read_slots Hg.
Qed.
#[export] Hint Resolve symlink_args_lawful : lawful.

Definition cookie_schema : schema Nfs.NfsCookie :=
  mkSchema "nfs__nfs_cookie__descriptor" (λ c, present [(1, num (Nfs.value c))])
    (λ m, v ← as_num (get 1 m); Some (Nfs.mkNfsCookie v)) (λ c, u64 (Nfs.value c)).

Lemma cookie_lawful : lawful cookie_schema.
Proof.
  apply (lawful_slots _ nfs__nfs_cookie__descriptor); [reflexivity| |distinct|].
  - intros a ?. eauto 20 with slots.
  - intros [] g ? Hg. by read_slots Hg.
Qed.
#[export] Hint Resolve cookie_lawful : lawful.

Definition read_dir_args_schema : schema Nfs.ReadDirArgs :=
  mkSchema "nfs__read_dir_args__descriptor"
    (λ a, present [(1, sub (to_message nfs_fhandle_schema) (Nfs.readdir_dir a));
                   (2, sub (to_message cookie_schema) (Nfs.readdir_cookie a)); (3, num (Nfs.readdir_count a))])
    (λ m, dir ← as_sub (of_message nfs_fhandle_schema) (get 1 m); cookie ← as_sub (of_message cookie_schema) (get 2 m);
       count ← as_num (get 3 m); Some (Nfs.mkReadDirArgs dir cookie count))
    (λ a, sendable_ptr nfs_fhandle_schema (Nfs.readdir_dir a) ∧ sendable_ptr cookie_schema (Nfs.readdir_cookie a) ∧
       u32 (Nfs.readdir_count a)).

Lemma read_dir_args_lawful : lawful read_dir_args_schema.
Proof.
  apply (lawful_slots _ nfs__read_dir_args__descriptor); [reflexivity| |distinct|].
  - intros a (?&?&?). eauto 40 with slots.
  - intros [] g (?&?&_) Hg. by read_slots Hg.
Qed.
#[export] Hint Resolve read_dir_args_lawful : lawful.

Definition fsinfo_schema : schema Nfs.FsInfo :=
  mkSchema "nfs__fs_info__descriptor"
    (λ f, present [(1, num (Nfs.tsize f)); (2, num (Nfs.bsize f)); (3, num (Nfs.blocks f)); (4, num (Nfs.bfree f));
                   (5, num (Nfs.bavail f))])
    (λ m, t ← as_num (get 1 m); s ← as_num (get 2 m); b ← as_num (get 3 m); f ← as_num (get 4 m); a ← as_num (get 5 m);
       Some (Nfs.mkFsInfo t s b f a))
    (λ f, u32 (Nfs.tsize f) ∧ u64 (Nfs.bsize f) ∧ u64 (Nfs.blocks f) ∧ u64 (Nfs.bfree f) ∧ u64 (Nfs.bavail f)).

Lemma fsinfo_lawful : lawful fsinfo_schema.
Proof.
  apply (lawful_slots _ nfs__fs_info__descriptor); [reflexivity| |distinct|].
  - intros a (?&?&?&?&?). eauto 40 with slots.
  - intros [] g _ Hg. by read_slots Hg.
Qed.
#[export] Hint Resolve fsinfo_lawful : lawful.

(** ** The list of directory entries

    A linked list: every entry holds the next one as a message. *)

Definition entry_slots (e : Nfs.DirectoryEntry) : list slot :=
  [(1, num (Nfs.de_fileid e)); (2, sub (to_message filename_schema) (Nfs.de_name e));
   (3, sub (to_message cookie_schema) (Nfs.de_cookie e))].

Fixpoint entries_message (e : Nfs.DirectoryEntry) (l : list Nfs.DirectoryEntry) : message :=
  present (entry_slots e ++ [(4, match l with [] => None | e :: l => Some (VMessage (entries_message e l)) end)]).

Fixpoint entries_of (fuel : nat) (m : message) : option (list Nfs.DirectoryEntry) :=
  match fuel with
  | O => None
  | S fuel =>
      fileid ← as_num (get 1 m);
      name ← as_sub (of_message filename_schema) (get 2 m);
      cookie ← as_sub (of_message cookie_schema) (get 3 m);
      l ← match get 4 m with None => Some [] | Some (VMessage m) => entries_of fuel m | _ => None end;
      Some (Nfs.mkDirectoryEntry fileid name cookie :: l)
  end.

Definition sendable_entry (e : Nfs.DirectoryEntry) : Prop :=
  u64 (Nfs.de_fileid e) ∧ sendable_ptr filename_schema (Nfs.de_name e) ∧ sendable_ptr cookie_schema (Nfs.de_cookie e).

Lemma entries_described l : ∀ e, Forall sendable_entry (e :: l) →
  message_ok tables nfs__directory_entries_list__descriptor (entries_message e l) = true.
Proof.
  induction l as [|e' l IH]; intros e [(?&?&?) Hl]%Forall_cons; apply slots_described;
    do 3 (eapply slots_cons; [reflexivity|lia|done|eauto with slots|]);
    (eapply slots_cons; [reflexivity|lia|done| |done]); [done|].
  eapply described_message; [reflexivity|reflexivity|reflexivity|reflexivity|]. by apply IH.
Qed.

Definition next_slot (l : list Nfs.DirectoryEntry) : slot :=
  (4, match l with [] => None | e :: l => Some (VMessage (entries_message e l)) end).

Lemma entries_message_slots e l : entries_message e l = present (entry_slots e ++ [next_slot l]).
Proof. by destruct l. Qed.

Lemma entries_of_slots fuel e l :
  sendable_entry e →
  entries_of (S fuel) (entries_message e l) =
  (l ← match (next_slot l).2 with None => Some [] | Some (VMessage m) => entries_of fuel m | _ => None end; Some (e :: l)).
Proof.
  intros (?&?&?). rw entries_message_slots. set (s := present _).
  assert (∀ i, get i s = slot_of i (entry_slots e ++ [next_slot l])) as Hs.
  { intros i. apply get_present. destruct l; distinct. }
  cbn [entries_of]. rw !Hs /slot_of /entry_slots /= as_num_num /= as_sub_ptr /=; [auto with lawful|done|].
  rw as_sub_ptr /=; [auto with lawful|done|]. by destruct e.
Qed.

Lemma entries_back l : ∀ e fuel, Forall sendable_entry (e :: l) → (length l < fuel)%nat →
  entries_of fuel (entries_message e l) = Some (e :: l).
Proof.
  induction l as [|e' l IH]; intros e [|fuel] [He Hl]%Forall_cons Hf; try (simpl in Hf; lia); rw entries_of_slots //.
  simpl. rw IH //. simpl in Hf. lia.
Qed.

(** An entry takes at least two bytes of the next: so does the fuel. *)
Lemma entries_length l : ∀ e, Z.of_nat (length l) ≤ packed_size (entries_message e l).
Proof.
  induction l as [|e' l IH]; intros e; [rw /packed_size; simpl; lia|].
  rw entries_message_slots size_present foldr_app. cbn [foldr next_slot]. specialize (IH e').
  assert (∀ s n, n ≤ slot_size s + n) as Hmono by (intros s n; rw /slot_size; destruct s.2; lia).
  trans (slot_size (4, Some (VMessage (entries_message e' l))) + 0).
  - rw /slot_size /= length_app. pose proof (varint_length (8 * 4 + 2)). pose proof (delimited_length (encode (entries_message e' l))).
    rw /packed_size in IH. rw -/(encode (entries_message e' l)) /tag. lia.
  - rw /entry_slots. cbn [foldr]. do 3 (etrans; [|apply Hmono]). apply Z.le_refl.
Qed.

Definition read_dir_ok_schema : schema Nfs.ReadDirOk :=
  mkSchema "nfs__read_dir_ok__descriptor"
    (λ r, present [(1, match Nfs.entries r with [] => None | e :: l => Some (VMessage (entries_message e l)) end);
                   (2, num (Nfs.eof r))])
    (λ m, l ← match get 1 m with
              | None => Some []
              | Some (VMessage m) => entries_of (S (Z.to_nat (packed_size m))) m
              | _ => None
              end;
          eof ← as_num (get 2 m); Some (Nfs.mkReadDirOk l eof))
    (λ r, Forall sendable_entry (Nfs.entries r) ∧ 0 ≤ Nfs.eof r < 2).

Lemma read_dir_ok_lawful : lawful read_dir_ok_schema.
Proof.
  apply (lawful_slots _ nfs__read_dir_ok__descriptor); [reflexivity| |distinct|].
  - intros [[|e l] eof] [??]; (eapply slots_cons; [reflexivity|lia|done| |eauto 20 with slots]); [done|].
    eapply described_message; [reflexivity|reflexivity|reflexivity|reflexivity|]. by apply entries_described.
  - intros [[|e l] eof] g [??] Hg; [by read_slots Hg|]. rw !Hg /slot_of. cbn [find_first fst snd Z.eqb Pos.eqb mbind option_bind Nfs.entries Nfs.eof].
    rw entries_back //; [pose proof (entries_length l e); lia|]. by rw /= as_num_num.
Qed.
#[export] Hint Resolve read_dir_ok_lawful : lawful.

(** * Results

    A status and one case of a union: the result of the procedure, or an empty
    message. *)

Definition empty_schema : schema unit :=
  mkSchema "google__protobuf__empty__descriptor" (λ _, present []) (λ _, Some tt) (λ _, True).

Lemma empty_lawful : lawful empty_schema.
Proof. apply (lawful_slots _ google__protobuf__empty__descriptor); [reflexivity|done|distinct|]. by intros [] g. Qed.
#[export] Hint Resolve empty_lawful : lawful.

(** The pointer of a case: one that is NULL is not sent at all, not even as the
    case. *)
Definition sendable_case {A} (s : schema A) (o : option A) : Prop := ∃ a, o = Some a ∧ sendable s a.

Lemma sendable_case_ptr {A} (s : schema A) o : sendable_case s o → sendable_ptr s o.
Proof. by intros (a & -> & Ha) a' [= <-]. Qed.

Definition body_slots {T} (s : schema T) (b : Nfs.Body T) : list slot :=
  match b with
  | Nfs.BODY__NOT_SET => []
  | Nfs.BODY_OK p => [(2, sub (to_message s) p)]
  | Nfs.BODY_DEFAULT_CASE p => [(3, sub (to_message empty_schema) p)]
  end.

Definition sendable_body {T} (s : schema T) (b : Nfs.Body T) : Prop :=
  match b with
  | Nfs.BODY__NOT_SET => True
  | Nfs.BODY_OK p => sendable_case s p
  | Nfs.BODY_DEFAULT_CASE p => sendable_case empty_schema p
  end.

Definition body_of {T} (s : schema T) (m : message) : option (Nfs.Body T) :=
  match get 2 m, get 3 m with
  | None, None => Some Nfs.BODY__NOT_SET
  | Some v, None => Nfs.BODY_OK <$> as_sub (of_message s) (Some v)
  | None, Some v => Nfs.BODY_DEFAULT_CASE <$> as_sub (of_message empty_schema) (Some v)
  | Some _, Some _ => None
  end.

Definition res_schema {T} (name : string) (s : schema T) : schema (Nfs.Res T) :=
  mkSchema name
    (λ r, present ((1, sub (to_message nfs_stat_schema) (Nfs.nfs_status r)) :: body_slots s (Nfs.body r)))
    (λ m, status ← as_sub (of_message nfs_stat_schema) (get 1 m); body ← body_of s m; Some (Nfs.mkRes status body))
    (λ r, sendable_body s (Nfs.body r)).

(** The fields 1, 2 and 3 of a result. *)
Definition res_table (d : ProtobufCMessageDescriptor) (ok : string) : Prop :=
  ∃ f1 f2 f3, find_field d 1 = Some f1 ∧ find_field d 2 = Some f2 ∧ find_field d 3 = Some f3 ∧
    pointer_field f1 "nfs__nfs_stat__descriptor" ∧
    (field_flags f2 = FLAG_ONEOF ∧ field_label f2 = LABEL_NONE ∧ field_type f2 = TYPE_MESSAGE ∧ field_descriptor f2 = Some ok) ∧
    (field_flags f3 = FLAG_ONEOF ∧ field_label f3 = LABEL_NONE ∧ field_type f3 = TYPE_MESSAGE ∧
     field_descriptor f3 = Some "google__protobuf__empty__descriptor").

Lemma stat_sendable o : sendable_ptr nfs_stat_schema o.
Proof. done. Qed.

Lemma res_lawful {T} name d (s : schema T) :
  tables name = Some (MessageDescriptor d) → res_table d (table_name s) → lawful s → lawful (res_schema name s).
Proof.
  intros Hd (f1&f2&f3&Hf1&Hf2&Hf3&(H1&H1'&H1''&H1n)&(H2&H2'&H2''&H2n)&(H3&H3'&H3''&H3n)) Hs. apply (lawful_slots _ d); [done|..].
  - intros [st b] Hb. simpl in Hb |- *. apply (slots_cons _ _ _ _ _ _ f1); [done|lia|by rw H1| |].
    + by apply described_sub; [..|auto with lawful|apply stat_sendable].
    + destruct b as [|p|p]; [done|..]; (eapply slots_case; [eassumption|lia|done|]); apply sendable_case_ptr in Hb;
        by apply described_sub; auto with lawful.
  - intros [st [|p|p]] _; distinct.
  - intros [st b] g Hb Hg. rw /body_of !Hg /slot_of /=. rw (as_sub_ptr nfs_stat_schema) /=; [auto with lawful|done|].
    destruct b as [|p|p]; [done|..]; destruct Hb as (a & -> & Ha); simpl.
    + by rw as_sub_case.
    + by destruct a.
Qed.

Definition attr_stat_schema : schema Nfs.AttrStat := res_schema "nfs__attr_stat__descriptor" fattr_schema.
Definition dir_op_res_schema : schema Nfs.DirOpRes := res_schema "nfs__dir_op_res__descriptor" dir_op_ok_schema.
Definition read_link_res_schema : schema Nfs.ReadLinkRes := res_schema "nfs__read_link_res__descriptor" path_schema.
Definition read_res_schema : schema Nfs.ReadRes := res_schema "nfs__read_res__descriptor" read_res_body_schema.
Definition read_dir_res_schema : schema Nfs.ReadDirRes := res_schema "nfs__read_dir_res__descriptor" read_dir_ok_schema.
Definition stat_fs_res_schema : schema Nfs.StatFsRes := res_schema "nfs__stat_fs_res__descriptor" fsinfo_schema.

Ltac res_lawful d := apply (res_lawful _ d); [reflexivity|by do 3 eexists|auto with lawful].

Lemma attr_stat_lawful : lawful attr_stat_schema.
Proof. res_lawful nfs__attr_stat__descriptor. Qed.
Lemma dir_op_res_lawful : lawful dir_op_res_schema.
Proof. res_lawful nfs__dir_op_res__descriptor. Qed.
Lemma read_link_res_lawful : lawful read_link_res_schema.
Proof. res_lawful nfs__read_link_res__descriptor. Qed.
Lemma read_res_lawful : lawful read_res_schema.
Proof. res_lawful nfs__read_res__descriptor. Qed.
Lemma read_dir_res_lawful : lawful read_dir_res_schema.
Proof. res_lawful nfs__read_dir_res__descriptor. Qed.
Lemma stat_fs_res_lawful : lawful stat_fs_res_schema.
Proof. res_lawful nfs__stat_fs_res__descriptor. Qed.
#[export] Hint Resolve attr_stat_lawful dir_op_res_lawful read_link_res_lawful read_res_lawful read_dir_res_lawful stat_fs_res_lawful : lawful.
