(* ===== verification/RpcSchemas.v ===== *)
(** The schemas of the Mount and RPC messages, against the tables of the generated
    code. *)
From S2P Require Import Prelude Messages Protobuf PbCommon PbRpc PbNfs PbTables ProtobufDecoding MessageContents MessageSchemas.

(** * Enumerations *)

Definition mnt_stat_number (s : Mount.Stat) : Z :=
  enum_number mount__stat__descriptor
    match s with
    | Mount.MNT_OK => "MOUNT__STAT__MNT_OK" | Mount.MNTERR_NOENT => "MOUNT__STAT__MNTERR_NOENT"
    | Mount.MNTERR_NOTEXP => "MOUNT__STAT__MNTERR_NOTEXP" | Mount.MNTERR_IO => "MOUNT__STAT__MNTERR_IO"
    | Mount.MNTERR_ACCES => "MOUNT__STAT__MNTERR_ACCES" | Mount.MNTERR_NOTDIR => "MOUNT__STAT__MNTERR_NOTDIR"
    end.

Definition all_mnt_stats : list Mount.Stat :=
  [Mount.MNT_OK; Mount.MNTERR_NOENT; Mount.MNTERR_NOTEXP; Mount.MNTERR_IO; Mount.MNTERR_ACCES; Mount.MNTERR_NOTDIR].

Definition msg_type_number (t : Rpc.MsgType) : Z :=
  enum_number rpc__msg_type__descriptor
    match t with Rpc.CALL => "RPC__MSG_TYPE__CALL" | Rpc.REPLY => "RPC__MSG_TYPE__REPLY" end.

Definition all_msg_types : list Rpc.MsgType := [Rpc.CALL; Rpc.REPLY].

Definition reply_stat_number (s : Rpc.ReplyStat) : Z :=
  enum_number rpc__reply_stat__descriptor
    match s with Rpc.MSG_ACCEPTED => "RPC__REPLY_STAT__MSG_ACCEPTED" | Rpc.MSG_DENIED => "RPC__REPLY_STAT__MSG_DENIED" end.

Definition all_reply_stats : list Rpc.ReplyStat := [Rpc.MSG_ACCEPTED; Rpc.MSG_DENIED].

Definition accept_stat_number (s : Rpc.AcceptStat) : Z :=
  enum_number rpc__accept_stat__descriptor
    match s with
    | Rpc.SUCCESS => "RPC__ACCEPT_STAT__SUCCESS" | Rpc.PROG_UNAVAIL => "RPC__ACCEPT_STAT__PROG_UNAVAIL"
    | Rpc.PROG_MISMATCH => "RPC__ACCEPT_STAT__PROG_MISMATCH" | Rpc.PROC_UNAVAIL => "RPC__ACCEPT_STAT__PROC_UNAVAIL"
    | Rpc.GARBAGE_ARGS => "RPC__ACCEPT_STAT__GARBAGE_ARGS" | Rpc.SYSTEM_ERR => "RPC__ACCEPT_STAT__SYSTEM_ERR"
    end.

Definition all_accept_stats : list Rpc.AcceptStat :=
  [Rpc.SUCCESS; Rpc.PROG_UNAVAIL; Rpc.PROG_MISMATCH; Rpc.PROC_UNAVAIL; Rpc.GARBAGE_ARGS; Rpc.SYSTEM_ERR].

Definition reject_stat_number (s : Rpc.RejectStat) : Z :=
  enum_number rpc__reject_stat__descriptor
    match s with Rpc.RPC_MISMATCH => "RPC__REJECT_STAT__RPC_MISMATCH" | Rpc.AUTH_ERROR => "RPC__REJECT_STAT__AUTH_ERROR" end.

Definition all_reject_stats : list Rpc.RejectStat := [Rpc.RPC_MISMATCH; Rpc.AUTH_ERROR].

Definition auth_stat_number (s : Rpc.AuthStat) : Z :=
  enum_number rpc__auth_stat__descriptor
    match s with
    | Rpc.AUTH_OK => "RPC__AUTH_STAT__AUTH_OK" | Rpc.AUTH_BADCRED => "RPC__AUTH_STAT__AUTH_BADCRED"
    | Rpc.AUTH_REJECTEDCRED => "RPC__AUTH_STAT__AUTH_REJECTEDCRED" | Rpc.AUTH_BADVERF => "RPC__AUTH_STAT__AUTH_BADVERF"
    | Rpc.AUTH_REJECTEDVERF => "RPC__AUTH_STAT__AUTH_REJECTEDVERF" | Rpc.AUTH_TOOWEAK => "RPC__AUTH_STAT__AUTH_TOOWEAK"
    | Rpc.AUTH_INVALIDRESP => "RPC__AUTH_STAT__AUTH_INVALIDRESP" | Rpc.AUTH_FAILED => "RPC__AUTH_STAT__AUTH_FAILED"
    | Rpc.AUTH_KERB_GENERIC => "RPC__AUTH_STAT__AUTH_KERB_GENERIC" | Rpc.AUTH_TIMEEXPIRE => "RPC__AUTH_STAT__AUTH_TIMEEXPIRE"
    | Rpc.AUTH_TKT_FILE => "RPC__AUTH_STAT__AUTH_TKT_FILE" | Rpc.AUTH_DECODE => "RPC__AUTH_STAT__AUTH_DECODE"
    | Rpc.AUTH_NET_ADDR => "RPC__AUTH_STAT__AUTH_NET_ADDR"
    | Rpc.RPCSEC_GSS_CREDPROBLEM => "RPC__AUTH_STAT__RPCSEC_GSS_CREDPROBLEM"
    | Rpc.RPCSEC_GSS_CTXPROBLEM => "RPC__AUTH_STAT__RPCSEC_GSS_CTXPROBLEM"
    end.

Definition all_auth_stats : list Rpc.AuthStat :=
  [Rpc.AUTH_OK; Rpc.AUTH_BADCRED; Rpc.AUTH_REJECTEDCRED; Rpc.AUTH_BADVERF; Rpc.AUTH_REJECTEDVERF; Rpc.AUTH_TOOWEAK;
   Rpc.AUTH_INVALIDRESP; Rpc.AUTH_FAILED; Rpc.AUTH_KERB_GENERIC; Rpc.AUTH_TIMEEXPIRE; Rpc.AUTH_TKT_FILE; Rpc.AUTH_DECODE;
   Rpc.AUTH_NET_ADDR; Rpc.RPCSEC_GSS_CREDPROBLEM; Rpc.RPCSEC_GSS_CTXPROBLEM].

Definition auth_flavor_number (f : Rpc.AuthFlavor) : Z :=
  enum_number rpc__auth_flavor__descriptor
    match f with
    | Rpc.AUTH_NONE => "RPC__AUTH_FLAVOR__AUTH_NONE" | Rpc.AUTH_SYS => "RPC__AUTH_FLAVOR__AUTH_SYS"
    | Rpc.AUTH_SHORT => "RPC__AUTH_FLAVOR__AUTH_SHORT" | Rpc.AUTH_DH => "RPC__AUTH_FLAVOR__AUTH_DH"
    | Rpc.RPCSEC_GSS => "RPC__AUTH_FLAVOR__RPCSEC_GSS"
    end.

Definition all_auth_flavors : list Rpc.AuthFlavor :=
  [Rpc.AUTH_NONE; Rpc.AUTH_SYS; Rpc.AUTH_SHORT; Rpc.AUTH_DH; Rpc.RPCSEC_GSS].

(** A number that stands for a constant. *)
Definition as_enum {A} (all : list A) (number : A → Z) (v : option value) : option A := n ← as_num v; of_number all number n.

(** Every constant has a number of its own, which fits in an [int]. *)
Definition numbers {A} (all : list A) (number : A → Z) : Prop :=
  ∀ a, of_number all number (number a) = Some a ∧ - 2 ^ 31 ≤ number a < 2 ^ 31.

Lemma as_enum_num {A} (all : list A) number a : numbers all number → as_enum all number (num (number a)) = Some a.
Proof. intros Hn. rw /as_enum as_num_num /=. apply Hn. Qed.

Lemma described_enum {A} all (number : A → Z) f a :
  numbers all number → field_label f = LABEL_NONE → field_type f = TYPE_ENUM → described f (num (number a)).
Proof. intros Hn Hl Ht. apply described_num; [done|]. rw Ht. apply Hn. Qed.

Lemma mnt_stat_numbers : numbers all_mnt_stats mnt_stat_number.
Proof. by intros []; vm_compute. Qed.
Lemma msg_type_numbers : numbers all_msg_types msg_type_number.
Proof. by intros []; vm_compute. Qed.
Lemma reply_stat_numbers : numbers all_reply_stats reply_stat_number.
Proof. by intros []; vm_compute. Qed.
Lemma accept_stat_numbers : numbers all_accept_stats accept_stat_number.
Proof. by intros []; vm_compute. Qed.
Lemma reject_stat_numbers : numbers all_reject_stats reject_stat_number.
Proof. by intros []; vm_compute. Qed.
Lemma auth_stat_numbers : numbers all_auth_stats auth_stat_number.
Proof. by intros []; vm_compute. Qed.
Lemma auth_flavor_numbers : numbers all_auth_flavors auth_flavor_number.
Proof. by intros []; vm_compute. Qed.

Arguments as_enum : simpl never.

(** The first field of a message, a constant. *)
Ltac enum_slot H := eapply slots_cons; [reflexivity|lia|done|by apply (described_enum _ _ _ _ H)|].

(** A case of the union, or none. *)
Ltac case_slot := (eapply slots_case; [reflexivity|lia|reflexivity|]); (apply described_sub; [reflexivity|reflexivity|reflexivity|auto with lawful|by apply sendable_case_ptr]).

(** * Mount messages *)

Abbreviation mount_fhandle_schema := (fhandle_schema "mount__fhandle__descriptor").

Lemma mount_fhandle_lawful : lawful mount_fhandle_schema.
Proof.
  apply (lawful_slots _ mount__fhandle__descriptor); [reflexivity| |distinct|].
  - intros a Ha. eauto 20 with slots.
  - intros [h] g Hh Hg. by read_slots Hg.
Qed.
#[export] Hint Resolve mount_fhandle_lawful : lawful.

Definition mnt_stat_schema : schema Mount.Stat := enum_schema "mount__mnt_stat__descriptor" all_mnt_stats mnt_stat_number.

Lemma mnt_stat_lawful : lawful mnt_stat_schema.
Proof.
  apply (lawful_slots _ mount__mnt_stat__descriptor); [reflexivity| |distinct|].
  - intros a _. enum_slot mnt_stat_numbers. done.
  - intros a g _ Hg. read_slots Hg. apply mnt_stat_numbers.
Qed.
#[export] Hint Resolve mnt_stat_lawful : lawful.

Definition fh_body_slots (b : Mount.FhStatus_body) : list slot :=
  match b with
  | Mount.FHSTATUS_BODY__NOT_SET => []
  | Mount.FHSTATUS_BODY_DIRECTORY p => [(2, sub (to_message mount_fhandle_schema) p)]
  | Mount.FHSTATUS_BODY_DEFAULT_CASE p => [(3, sub (to_message empty_schema) p)]
  end.

Definition fh_body_of (m : message) : option Mount.FhStatus_body :=
  match get 2 m, get 3 m with
  | None, None => Some Mount.FHSTATUS_BODY__NOT_SET
  | Some v, None => Mount.FHSTATUS_BODY_DIRECTORY <$> as_sub (of_message mount_fhandle_schema) (Some v)
  | None, Some v => Mount.FHSTATUS_BODY_DEFAULT_CASE <$> as_sub (of_message empty_schema) (Some v)
  | Some _, Some _ => None
  end.

Definition fh_status_schema : schema Mount.FhStatus :=
  mkSchema "mount__fh_status__descriptor"
    (λ r, present ((1, sub (to_message mnt_stat_schema) (Mount.mnt_status r)) :: fh_body_slots (Mount.fhstatus_body r)))
    (λ m, status ← as_sub (of_message mnt_stat_schema) (get 1 m); body ← fh_body_of m; Some (Mount.mkFhStatus status body))
    (λ r, match Mount.fhstatus_body r with
          | Mount.FHSTATUS_BODY__NOT_SET => True
          | Mount.FHSTATUS_BODY_DIRECTORY p => sendable_case mount_fhandle_schema p
          | Mount.FHSTATUS_BODY_DEFAULT_CASE p => sendable_case empty_schema p
          end).

(** The union of a message that arrived: its pointer points to what was sent. *)
Ltac read_case H := let a := fresh "a" in destruct H as (a & -> & H); simpl; first [by destruct a|by rw as_sub_case; [auto with lawful|done|]].

Lemma fh_status_lawful : lawful fh_status_schema.
Proof.
  apply (lawful_slots _ mount__fh_status__descriptor); [reflexivity|..].
  - intros [st b] Hb. simpl in Hb |- *. eapply slots_cons; [reflexivity|lia|done|apply described_sub; auto with lawful; done|].
    destruct b; [done|case_slot..].
  - intros [st []] _; distinct.
  - intros [st b] g Hb Hg. rw /fh_body_of !Hg /slot_of /= (as_sub_ptr mnt_stat_schema) /=; [auto with lawful|done|].
    destruct b; [done|read_case Hb..].
Qed.
#[export] Hint Resolve fh_status_lawful : lawful.

(** * RPC messages *)

(** An array without elements arrives as a NULL pointer. *)
Definition auth_sys_schema : schema Rpc.AuthSysParams :=
  mkSchema "rpc__auth_sys_params__descriptor"
    (λ a, present [(1, num (Rpc.timestamp a)); (2, text (Rpc.machinename a)); (3, num (Rpc.uid a)); (4, num (Rpc.gid a));
                   (5, nums (default [] (Rpc.gids a)))])
    (λ m, t ← as_num (get 1 m); n ← as_text (get 2 m); u ← as_num (get 3 m); g ← as_num (get 4 m); l ← as_nums (get 5 m);
       Some (Rpc.mkAuthSysParams t n u g (match l with [] => None | _ => Some l end)))
    (λ a, u64 (Rpc.timestamp a) ∧ is_Some (Rpc.machinename a) ∧ u32 (Rpc.uid a) ∧ u32 (Rpc.gid a) ∧
       Rpc.gids a ≠ Some [] ∧ Forall u32 (default [] (Rpc.gids a))).

Lemma auth_sys_lawful : lawful auth_sys_schema.
Proof.
  apply (lawful_slots _ rpc__auth_sys_params__descriptor); [reflexivity| |distinct|].
  - intros a (?&?&?&?&?&?). eauto 40 with slots.
  - intros [t n u gr l] g (_&[s Hs]&_&_&Hl&_) Hg. simpl in Hs, Hl. subst n. read_slots Hg. by destruct l as [[|x l]|].
Qed.
#[export] Hint Resolve auth_sys_lawful : lawful.

Definition auth_body_slots (b : Rpc.OpaqueAuth_body) : list slot :=
  match b with
  | Rpc.AUTH_BODY__NOT_SET => []
  | Rpc.AUTH_BODY_EMPTY p => [(2, sub (to_message empty_schema) p)]
  | Rpc.AUTH_BODY_AUTH_SYS p => [(3, sub (to_message auth_sys_schema) p)]
  end.

Definition auth_body_of (m : message) : option Rpc.OpaqueAuth_body :=
  match get 2 m, get 3 m with
  | None, None => Some Rpc.AUTH_BODY__NOT_SET
  | Some v, None => Rpc.AUTH_BODY_EMPTY <$> as_sub (of_message empty_schema) (Some v)
  | None, Some v => Rpc.AUTH_BODY_AUTH_SYS <$> as_sub (of_message auth_sys_schema) (Some v)
  | Some _, Some _ => None
  end.

Definition opaque_auth_schema : schema Rpc.OpaqueAuth :=
  mkSchema "rpc__opaque_auth__descriptor"
    (λ a, present ((1, num (auth_flavor_number (Rpc.flavor a))) :: auth_body_slots (Rpc.body a)))
    (λ m, f ← as_enum all_auth_flavors auth_flavor_number (get 1 m); b ← auth_body_of m; Some (Rpc.mkOpaqueAuth f b))
    (λ a, match Rpc.body a with
          | Rpc.AUTH_BODY__NOT_SET => True
          | Rpc.AUTH_BODY_EMPTY p => sendable_case empty_schema p
          | Rpc.AUTH_BODY_AUTH_SYS p => sendable_case auth_sys_schema p
          end).

Lemma opaque_auth_lawful : lawful opaque_auth_schema.
Proof.
  apply (lawful_slots _ rpc__opaque_auth__descriptor); [reflexivity|..].
  - intros [f b] Hb. simpl in Hb |- *. enum_slot auth_flavor_numbers. destruct b; [done|case_slot..].
  - intros [f []] _; distinct.
  - intros [f b] g Hb Hg. rw /auth_body_of !Hg /slot_of /= (as_enum_num _ _ _ auth_flavor_numbers) /=.
    destruct b; [done|read_case Hb..].
Qed.
#[export] Hint Resolve opaque_auth_lawful : lawful.

Definition any_schema : schema Rpc.Any :=
  mkSchema "google__protobuf__any__descriptor"
    (λ a, present [(1, text (Rpc.type_url a)); (2, data (Rpc.value a))])
    (λ m, t ← as_text (get 1 m); v ← as_data (get 2 m); Some (Rpc.mkAny t v))
    (λ a, is_Some (Rpc.type_url a)).

Lemma any_lawful : lawful any_schema.
Proof.
  apply (lawful_slots _ google__protobuf__any__descriptor); [reflexivity| |distinct|].
  - intros a _. eapply slots_cons; [reflexivity|lia|done|eauto with slots|].
    eapply slots_cons; [reflexivity|lia|done|apply described_data; [done|by right]|done].
  - intros [t v] g [s Hs] Hg. simpl in Hs. subst t. by read_slots Hg.
Qed.
#[export] Hint Resolve any_lawful : lawful.

Definition call_body_schema : schema Rpc.CallBody :=
  mkSchema "rpc__call_body__descriptor"
    (λ c, present [(1, num (Rpc.rpcvers c)); (2, num (Rpc.prog_ c)); (3, num (Rpc.vers c)); (4, num (Rpc.proc c));
                   (5, sub (to_message opaque_auth_schema) (Rpc.credential c));
                   (6, sub (to_message opaque_auth_schema) (Rpc.verifier c)); (7, sub (to_message any_schema) (Rpc.params c))])
    (λ m, r ← as_num (get 1 m); p ← as_num (get 2 m); v ← as_num (get 3 m); q ← as_num (get 4 m);
       cred ← as_sub (of_message opaque_auth_schema) (get 5 m); verf ← as_sub (of_message opaque_auth_schema) (get 6 m);
       params ← as_sub (of_message any_schema) (get 7 m); Some (Rpc.mkCallBody r p v q cred verf params))
    (λ c, u32 (Rpc.rpcvers c) ∧ u32 (Rpc.prog_ c) ∧ u32 (Rpc.vers c) ∧ u32 (Rpc.proc c) ∧
       sendable_ptr opaque_auth_schema (Rpc.credential c) ∧ sendable_ptr opaque_auth_schema (Rpc.verifier c) ∧
       sendable_ptr any_schema (Rpc.params c)).

Lemma call_body_lawful : lawful call_body_schema.
Proof.
  apply (lawful_slots _ rpc__call_body__descriptor); [reflexivity| |distinct|].
  - intros a (?&?&?&?&?&?&?). eauto 40 with slots.
  - intros [] g (_&_&_&_&?&?&?) Hg. by read_slots Hg.
Qed.
#[export] Hint Resolve call_body_lawful : lawful.

Definition mismatch_schema : schema Rpc.MismatchInfo :=
  mkSchema "rpc__mismatch_info__descriptor" (λ i, present [(1, num (Rpc.low i)); (2, num (Rpc.high i))])
    (λ m, l ← as_num (get 1 m); h ← as_num (get 2 m); Some (Rpc.mkMismatchInfo l h))
    (λ i, u32 (Rpc.low i) ∧ u32 (Rpc.high i)).

Lemma mismatch_lawful : lawful mismatch_schema.
Proof.
  apply (lawful_slots _ rpc__mismatch_info__descriptor); [reflexivity| |distinct|].
  - intros a (?&?). eauto 20 with slots.
  - intros [] g _ Hg. by read_slots Hg.
Qed.
#[export] Hint Resolve mismatch_lawful : lawful.

Definition accepted_data_slots (b : Rpc.AcceptedReply_data) : list slot :=
  match b with
  | Rpc.REPLY_DATA__NOT_SET => []
  | Rpc.REPLY_DATA_RESULTS p => [(3, sub (to_message any_schema) p)]
  | Rpc.REPLY_DATA_MISMATCH_INFO p => [(4, sub (to_message mismatch_schema) p)]
  | Rpc.REPLY_DATA_DEFAULT_CASE p => [(5, sub (to_message empty_schema) p)]
  end.

Definition accepted_data_of (m : message) : option Rpc.AcceptedReply_data :=
  match get 3 m, get 4 m, get 5 m with
  | None, None, None => Some Rpc.REPLY_DATA__NOT_SET
  | Some v, None, None => Rpc.REPLY_DATA_RESULTS <$> as_sub (of_message any_schema) (Some v)
  | None, Some v, None => Rpc.REPLY_DATA_MISMATCH_INFO <$> as_sub (of_message mismatch_schema) (Some v)
  | None, None, Some v => Rpc.REPLY_DATA_DEFAULT_CASE <$> as_sub (of_message empty_schema) (Some v)
  | _, _, _ => None
  end.

Definition accepted_reply_schema : schema Rpc.AcceptedReply :=
  mkSchema "rpc__accepted_reply__descriptor"
    (λ a, present ((1, sub (to_message opaque_auth_schema) (Rpc.ar_verifier a)) ::
                   (2, num (accept_stat_number (Rpc.ar_stat a))) :: accepted_data_slots (Rpc.ar_reply_data a)))
    (λ m, v ← as_sub (of_message opaque_auth_schema) (get 1 m); s ← as_enum all_accept_stats accept_stat_number (get 2 m);
       d ← accepted_data_of m; Some (Rpc.mkAcceptedReply v s d))
    (λ a, sendable_ptr opaque_auth_schema (Rpc.ar_verifier a) ∧
       match Rpc.ar_reply_data a with
       | Rpc.REPLY_DATA__NOT_SET => True
       | Rpc.REPLY_DATA_RESULTS p => sendable_case any_schema p
       | Rpc.REPLY_DATA_MISMATCH_INFO p => sendable_case mismatch_schema p
       | Rpc.REPLY_DATA_DEFAULT_CASE p => sendable_case empty_schema p
       end).

Lemma accepted_reply_lawful : lawful accepted_reply_schema.
Proof.
  apply (lawful_slots _ rpc__accepted_reply__descriptor); [reflexivity|..].
  - intros [v s d] [Hv Hd]. simpl in Hv, Hd |- *. eapply slots_cons; [reflexivity|lia|done|eauto with slots|].
    enum_slot accept_stat_numbers. destruct d; [done|case_slot..].
  - intros [v s []] _; distinct.
  - intros [v s d] g [Hv Hd] Hg. simpl in Hv, Hd.
    rw /accepted_data_of !Hg /slot_of /= as_sub_ptr /=; [auto with lawful|done|]. rw (as_enum_num _ _ _ accept_stat_numbers) /=.
    destruct d; [done|read_case Hd..].
Qed.
#[export] Hint Resolve accepted_reply_lawful : lawful.

(** The case [auth_stat] of the union is a number: it is sent when it is 0 too. *)
Definition rejected_data_slots (b : Rpc.RejectedReply_data) : list slot :=
  match b with
  | Rpc.RR_DATA__NOT_SET => []
  | Rpc.RR_DATA_MISMATCH_INFO p => [(2, sub (to_message mismatch_schema) p)]
  | Rpc.RR_DATA_AUTH_STAT a => [(3, Some (VInt (auth_stat_number a)))]
  end.

Definition rejected_data_of (m : message) : option Rpc.RejectedReply_data :=
  match get 2 m, get 3 m with
  | None, None => Some Rpc.RR_DATA__NOT_SET
  | Some v, None => Rpc.RR_DATA_MISMATCH_INFO <$> as_sub (of_message mismatch_schema) (Some v)
  | None, Some v => Rpc.RR_DATA_AUTH_STAT <$> as_enum all_auth_stats auth_stat_number (Some v)
  | Some _, Some _ => None
  end.

Definition rejected_reply_schema : schema Rpc.RejectedReply :=
  mkSchema "rpc__rejected_reply__descriptor"
    (λ r, present ((1, num (reject_stat_number (Rpc.rr_stat r))) :: rejected_data_slots (Rpc.rr_reply_data r)))
    (λ m, s ← as_enum all_reject_stats reject_stat_number (get 1 m); d ← rejected_data_of m; Some (Rpc.mkRejectedReply s d))
    (λ r, match Rpc.rr_reply_data r with
          | Rpc.RR_DATA_MISMATCH_INFO p => sendable_case mismatch_schema p
          | _ => True
          end).

Lemma rejected_reply_lawful : lawful rejected_reply_schema.
Proof.
  apply (lawful_slots _ rpc__rejected_reply__descriptor); [reflexivity|..].
  - intros [s d] Hd. simpl in Hd |- *. enum_slot reject_stat_numbers. destruct d as [|p|a]; [done|case_slot|].
    eapply slots_case; [reflexivity|lia|reflexivity|]. apply described_int; [done| |by right]. apply auth_stat_numbers.
  - intros [s []] _; distinct.
  - intros [s d] g Hd Hg. simpl in Hd. rw /rejected_data_of !Hg /slot_of /= (as_enum_num _ _ _ reject_stat_numbers) /=.
    destruct d as [|p|a]; [done|read_case Hd|]. rw /as_enum /as_num /=. by rw (proj1 (auth_stat_numbers a)).
Qed.
#[export] Hint Resolve rejected_reply_lawful : lawful.

Definition reply_slots (b : Rpc.ReplyBody_reply) : list slot :=
  match b with
  | Rpc.REPLY__NOT_SET => []
  | Rpc.REPLY_AREPLY p => [(2, sub (to_message accepted_reply_schema) p)]
  | Rpc.REPLY_RREPLY p => [(3, sub (to_message rejected_reply_schema) p)]
  end.

Definition reply_of (m : message) : option Rpc.ReplyBody_reply :=
  match get 2 m, get 3 m with
  | None, None => Some Rpc.REPLY__NOT_SET
  | Some v, None => Rpc.REPLY_AREPLY <$> as_sub (of_message accepted_reply_schema) (Some v)
  | None, Some v => Rpc.REPLY_RREPLY <$> as_sub (of_message rejected_reply_schema) (Some v)
  | Some _, Some _ => None
  end.

Definition reply_body_schema : schema Rpc.ReplyBody :=
  mkSchema "rpc__reply_body__descriptor"
    (λ r, present ((1, num (reply_stat_number (Rpc.rb_stat r))) :: reply_slots (Rpc.rb_reply r)))
    (λ m, s ← as_enum all_reply_stats reply_stat_number (get 1 m); d ← reply_of m; Some (Rpc.mkReplyBody s d))
    (λ r, match Rpc.rb_reply r with
          | Rpc.REPLY__NOT_SET => True
          | Rpc.REPLY_AREPLY p => sendable_case accepted_reply_schema p
          | Rpc.REPLY_RREPLY p => sendable_case rejected_reply_schema p
          end).

Lemma reply_body_lawful : lawful reply_body_schema.
Proof.
  apply (lawful_slots _ rpc__reply_body__descriptor); [reflexivity|..].
  - intros [s d] Hd. simpl in Hd |- *. enum_slot reply_stat_numbers. destruct d; [done|case_slot..].
  - intros [s []] _; distinct.
  - intros [s d] g Hd Hg. simpl in Hd. rw /reply_of !Hg /slot_of /= (as_enum_num _ _ _ reply_stat_numbers) /=.
    destruct d; [done|read_case Hd..].
Qed.
#[export] Hint Resolve reply_body_lawful : lawful.

Definition msg_body_slots (b : Rpc.RpcMsg_body) : list slot :=
  match b with
  | Rpc.MSG_BODY__NOT_SET => []
  | Rpc.BODY_CBODY p => [(3, sub (to_message call_body_schema) p)]
  | Rpc.BODY_RBODY p => [(4, sub (to_message reply_body_schema) p)]
  end.

Definition msg_body_of (m : message) : option Rpc.RpcMsg_body :=
  match get 3 m, get 4 m with
  | None, None => Some Rpc.MSG_BODY__NOT_SET
  | Some v, None => Rpc.BODY_CBODY <$> as_sub (of_message call_body_schema) (Some v)
  | None, Some v => Rpc.BODY_RBODY <$> as_sub (of_message reply_body_schema) (Some v)
  | Some _, Some _ => None
  end.

Definition rpc_msg_schema : schema Rpc.RpcMsg :=
  mkSchema "rpc__rpc_msg__descriptor"
    (λ r, present ((1, num (Rpc.xid r)) :: (2, num (msg_type_number (Rpc.mtype r))) :: msg_body_slots (Rpc.msg_body r)))
    (λ m, x ← as_num (get 1 m); t ← as_enum all_msg_types msg_type_number (get 2 m); b ← msg_body_of m; Some (Rpc.mkRpcMsg x t b))
    (λ r, u32 (Rpc.xid r) ∧
       match Rpc.msg_body r with
       | Rpc.MSG_BODY__NOT_SET => True
       | Rpc.BODY_CBODY p => sendable_case call_body_schema p
       | Rpc.BODY_RBODY p => sendable_case reply_body_schema p
       end).

Lemma rpc_msg_lawful : lawful rpc_msg_schema.
Proof.
  apply (lawful_slots _ rpc__rpc_msg__descriptor); [reflexivity|..].
  - intros [x t b] [Hx Hb]. simpl in Hx, Hb |- *. eapply slots_cons; [reflexivity|lia|done|eauto with slots|].
    enum_slot msg_type_numbers. destruct b; [done|case_slot..].
  - intros [x t []] _; distinct.
  - intros [x t b] g [Hx Hb] Hg. simpl in Hb. rw /msg_body_of !Hg /slot_of /= as_num_num /= (as_enum_num _ _ _ msg_type_numbers) /=.
    destruct b; [done|read_case Hb..].
Qed.
#[export] Hint Resolve rpc_msg_lawful : lawful.
