(* ===== verification/ReceivedMessages.v ===== *)
(** What can be read from a content that the tables describe can be sent: numbers are
    in the range of their C types, strings are not NULL, the case of a union has its
    message. As protobuf-c unpacks nothing else, this holds of every structure that
    arrives, whoever sent it. *)
From S2P Require Import Prelude Messages Protobuf PbCommon PbRpc PbNfs PbTables ProtobufDecoding MessageContents MessageSchemas RpcSchemas.

(** * Fields *)

Lemma fields_ok_get ok d last used m i v :
  fields_ok ok d last used m = true → get i m = Some v → ∃ f, find_field d i = Some f ∧ ok f v = true.
Proof.
  revert last used. induction m as [|[j w] m IH]; intros last used; [done|]. simpl.
  intros [_ Hm]%andb_true_iff. destruct (find_field d j) as [f|] eqn:Hf; [|done].
  apply andb_true_iff in Hm as [Hw Hm]. rw /get /=. destruct (Z.eqb_spec j i) as [->|Hne].
  - intros [= <-]. eauto.
  - intros Hg. assert (∃ used', fields_ok ok d j used' m = true) as [used' Hm'].
    { destruct (field_flags f); [by exists used..|]. destruct (quantifier_offset f) as [c|]; [|by exists used].
      apply andb_true_iff in Hm as [_ Hm]. by exists (c :: used). }
    exact (IH j used' Hm' Hg).
Qed.

Section fields.
Context (d : ProtobufCMessageDescriptor) (m : message) (Hm : message_ok tables d m = true).

Lemma got_value i f v : get i m = Some v → find_field d i = Some f → value_ok tables f v = true.
Proof. intros Hg Hf. destruct (fields_ok_get _ _ _ _ _ _ _ Hm Hg) as (f' & Hf' & Hv). congruence. Qed.

Lemma got_num i f n :
  find_field d i = Some f → field_label f = LABEL_NONE → as_num (get i m) = Some n → number_range (field_type f) 0 →
  number_range (field_type f) n.
Proof.
  intros Hf Hl Hn H0. destruct (get i m) as [v|] eqn:Hg; [|by injection Hn as <-].
  pose proof (got_value i f v Hg Hf) as Hv. destruct v as [k| | |]; try done. injection Hn as ->. revert Hv. simpl. rw Hl /int_ok.
  destruct (field_type f); try done; intros Hv; c_bools; simpl; rw /u32 /u64; lia.
Qed.

Lemma got_u32 i f n :
  find_field d i = Some f → field_label f = LABEL_NONE → field_type f = TYPE_UINT32 → as_num (get i m) = Some n → u32 n.
Proof. intros Hf Hl Ht Hn. pose proof (got_num i f n Hf Hl Hn) as Hr. rw Ht in Hr. by apply Hr. Qed.

Lemma got_u64 i f n :
  find_field d i = Some f → field_label f = LABEL_NONE → field_type f = TYPE_UINT64 → as_num (get i m) = Some n → u64 n.
Proof. intros Hf Hl Ht Hn. pose proof (got_num i f n Hf Hl Hn) as Hr. rw Ht in Hr. by apply Hr. Qed.

Lemma got_bool i f n :
  find_field d i = Some f → field_label f = LABEL_NONE → field_type f = TYPE_BOOL → as_num (get i m) = Some n → 0 ≤ n < 2.
Proof. intros Hf Hl Ht Hn. pose proof (got_num i f n Hf Hl Hn) as Hr. rw Ht in Hr. by apply Hr. Qed.

Lemma got_text i o : as_text (get i m) = Some o → is_Some o.
Proof. rw /as_text. destruct (as_data _); [|done]. intros [= <-]. by eexists. Qed.

Lemma got_nums i f l :
  find_field d i = Some f → field_label f = LABEL_REPEATED → field_type f = TYPE_UINT32 → as_nums (get i m) = Some l → Forall u32 l.
Proof.
  intros Hf Hl Ht Hn. destruct (get i m) as [v|] eqn:Hg; [|injection Hn as <-; by apply Forall_nil_2].
  pose proof (got_value i f v Hg Hf) as Hv. destruct v as [| |k|]; try done. injection Hn as ->. revert Hv. simpl. rw Hl Ht.
  intros [_ Hall]%andb_true_iff. apply Forall_forall. intros n Hn%list_elem_of_In.
  rw forallb_forall in Hall. specialize (Hall n Hn). rw /u32. c_bools. lia.
Qed.

Lemma got_message i f name d' m' :
  find_field d i = Some f → field_label f = LABEL_NONE → field_type f = TYPE_MESSAGE → field_descriptor f = Some name →
  tables name = Some (MessageDescriptor d') → get i m = Some (VMessage m') → message_ok tables d' m' = true.
Proof. intros Hf Hl Ht Hd Hd' Hg. pose proof (got_value i f _ Hg Hf) as Hv. revert Hv. simpl. by rw Hl Ht Hd /= Hd'. Qed.
End fields.

(** * Sound schemas *)

Definition sound {A} (s : schema A) : Prop :=
  ∀ d m a, tables (table_name s) = Some (MessageDescriptor d) → message_ok tables d m = true →
    of_message s m = Some a → sendable s a.

Lemma sound_table {A} name d to back (P : A → Prop) :
  tables name = Some (MessageDescriptor d) → (∀ m a, message_ok tables d m = true → back m = Some a → P a) →
  sound (mkSchema name to back P).
Proof. intros Hd Hs d' m a Hd' Hm Ha. simpl in Hd'. rw Hd in Hd'. injection Hd' as <-. by apply (Hs m). Qed.

Section pointers.
Context {A : Type} (s : schema A) (d : ProtobufCMessageDescriptor) (m : message) (Hm : message_ok tables d m = true).

Lemma got_case i f d' v o :
  find_field d i = Some f → field_label f = LABEL_NONE → field_type f = TYPE_MESSAGE →
  field_descriptor f = Some (table_name s) → tables (table_name s) = Some (MessageDescriptor d') →
  sound s → get i m = Some v → as_sub (of_message s) (Some v) = Some o → sendable_case s o.
Proof.
  intros Hf Hl Ht Hd Hd' Hs Hg Ho. destruct v as [| | |m']; try done. revert Ho. rw /as_sub.
  destruct (of_message s m') as [a|] eqn:Ha; [|done]. intros [= <-]. exists a. split; [done|].
  apply (Hs d' m'); [done| |done]. by apply (got_message d m Hm i f (table_name s)).
Qed.

Lemma got_sub i f d' o :
  find_field d i = Some f → field_label f = LABEL_NONE → field_type f = TYPE_MESSAGE →
  field_descriptor f = Some (table_name s) → tables (table_name s) = Some (MessageDescriptor d') →
  sound s → as_sub (of_message s) (get i m) = Some o → sendable_ptr s o.
Proof.
  intros Hf Hl Ht Hd Hd' Hs Ho. destruct (get i m) as [v|] eqn:Hg; [|by injection Ho as <-].
  by apply sendable_case_ptr, (got_case i f d' v).
Qed.
End pointers.

(** * The schemas *)

Create HintDb sound.

(** The steps of reading a structure, and what is known of each field. *)
Ltac parts Ha := repeat (let x := fresh "x" in let H := fresh "Hx" in apply bind_Some in Ha as (x & H & Ha)); injection Ha as <-.

Ltac got :=
  cbn; match goal with
  | |- True => exact I
  | |- _ ∧ _ => split; got
  | |- u32 _ => eapply got_u32; [eassumption|..|eassumption]; reflexivity
  | |- u64 _ => eapply got_u64; [eassumption|..|eassumption]; reflexivity
  | |- is_Some _ => eapply got_text; eassumption
  | |- sendable_ptr _ _ =>
      eapply got_sub; [eassumption|..|solve [eauto with sound]|eassumption]; reflexivity
  | _ => idtac
  end.

Ltac sound_fields d := apply (sound_table _ d); [reflexivity|]; let m := fresh "m" in let a := fresh "a" in let Hm := fresh "Hm" in
  let Ha := fresh "Ha" in intros m a Hm Ha; parts Ha; got.

Lemma enum_sound {A} name all (number : A → Z) : sound (enum_schema name all number).
Proof. by intros d m a _ _ _. Qed.
#[export] Hint Resolve enum_sound : sound.
#[export] Hint Extern 1 (sound nfs_stat_schema) => apply enum_sound : sound.
#[export] Hint Extern 1 (sound nfs_ftype_schema) => apply enum_sound : sound.
#[export] Hint Extern 1 (sound mnt_stat_schema) => apply enum_sound : sound.

Lemma handle_sound : sound handle_schema.
Proof. sound_fields nfs_fh__nfs_file_handle__descriptor. Qed.
#[export] Hint Resolve handle_sound : sound.
Lemma fhandle_sound : sound nfs_fhandle_schema.
Proof. sound_fields nfs__fhandle__descriptor. Qed.
Lemma mount_fhandle_sound : sound mount_fhandle_schema.
Proof. sound_fields mount__fhandle__descriptor. Qed.
Lemma timeval_sound : sound timeval_schema.
Proof. sound_fields nfs__time_val__descriptor. Qed.
#[export] Hint Resolve fhandle_sound mount_fhandle_sound timeval_sound : sound.
Lemma fattr_sound : sound fattr_schema.
Proof. sound_fields nfs__fattr__descriptor. Qed.
Lemma sattr_sound : sound sattr_schema.
Proof. sound_fields nfs__sattr__descriptor. Qed.
Lemma filename_sound : sound filename_schema.
Proof. sound_fields nfs__file_name__descriptor. Qed.
Lemma path_sound : sound path_schema.
Proof. sound_fields nfs__path__descriptor. Qed.
Lemma dirpath_sound : sound dirpath_schema.
Proof. sound_fields mount__dir_path__descriptor. Qed.
#[export] Hint Resolve fattr_sound sattr_sound filename_sound path_sound dirpath_sound : sound.
Lemma dir_op_args_sound : sound dir_op_args_schema.
Proof. sound_fields nfs__dir_op_args__descriptor. Qed.
Lemma dir_op_ok_sound : sound dir_op_ok_schema.
Proof. sound_fields nfs__dir_op_ok__descriptor. Qed.
Lemma sattr_args_sound : sound sattr_args_schema.
Proof. sound_fields nfs__sattr_args__descriptor. Qed.
#[export] Hint Resolve dir_op_args_sound dir_op_ok_sound sattr_args_sound : sound.
Lemma create_args_sound : sound create_args_schema.
Proof. sound_fields nfs__create_args__descriptor. Qed.
Lemma rename_args_sound : sound rename_args_schema.
Proof. sound_fields nfs__rename_args__descriptor. Qed.
Lemma link_args_sound : sound link_args_schema.
Proof. sound_fields nfs__link_args__descriptor. Qed.
Lemma read_args_sound : sound read_args_schema.
Proof. sound_fields nfs__read_args__descriptor. Qed.
Lemma symlink_args_sound : sound symlink_args_schema.
Proof. sound_fields nfs__sym_link_args__descriptor. Qed.
Lemma cookie_sound : sound cookie_schema.
Proof. sound_fields nfs__nfs_cookie__descriptor. Qed.
#[export] Hint Resolve create_args_sound rename_args_sound link_args_sound read_args_sound symlink_args_sound cookie_sound : sound.
Lemma read_dir_args_sound : sound read_dir_args_schema.
Proof. sound_fields nfs__read_dir_args__descriptor. Qed.
Lemma fsinfo_sound : sound fsinfo_schema.
Proof. sound_fields nfs__fs_info__descriptor. Qed.
#[export] Hint Resolve read_dir_args_sound fsinfo_sound : sound.

(** Data that arrives: a pointer that is NULL if and only if there are no bytes. *)
Lemma binary_of_sendable l : sendable_binary (binary_of l).
Proof. rw /sendable_binary /binary_bytes /binary_of. cbn [Nfs.len Nfs.data]. rw Nat2Z.id. by destruct l as [|b l]; [|cbn [default id]; rw firstn_all]. Qed.

Lemma read_res_body_sound : sound read_res_body_schema.
Proof. sound_fields nfs__read_res_body__descriptor. apply binary_of_sendable. Qed.
Lemma write_args_sound : sound write_args_schema.
Proof. sound_fields nfs__write_args__descriptor. apply binary_of_sendable. Qed.
Lemma empty_sound : sound empty_schema.
Proof. by intros d m a _ _ _. Qed.
#[export] Hint Resolve read_res_body_sound write_args_sound empty_sound : sound.

Lemma entries_sound fuel : ∀ m l, message_ok tables nfs__directory_entries_list__descriptor m = true →
  entries_of fuel m = Some l → Forall sendable_entry l.
Proof.
  induction fuel as [|fuel IH]; intros m l Hm Hl; [done|]. cbn [entries_of] in Hl. parts Hl. apply Forall_cons_2; [rw /sendable_entry; got|].
  destruct (get 4 m) as [[| | |m']|] eqn:Hg; try done; [|injection Hx2 as <-; by apply Forall_nil_2].
  apply (IH m'); [|done]. eapply (got_message _ _ Hm 4); [reflexivity|reflexivity|reflexivity|reflexivity|reflexivity|done].
Qed.

Lemma read_dir_ok_sound : sound read_dir_ok_schema.
Proof.
  apply (sound_table _ nfs__read_dir_ok__descriptor); [reflexivity|]. intros m a Hm Ha. parts Ha. split.
  - destruct (get 1 m) as [[| | |m']|] eqn:Hg; try done; [|injection Hx as <-; by apply Forall_nil_2].
    refine (entries_sound _ m' _ _ Hx).
    eapply (got_message _ _ Hm 1); [reflexivity|reflexivity|reflexivity|reflexivity|reflexivity|done].
  - eapply got_bool; [eassumption|..|eassumption]; reflexivity.
Qed.
#[export] Hint Resolve read_dir_ok_sound : sound.

(** ** Unions *)

(** The case of the union: its message was there. *)
Ltac got_union Hm :=
  match goal with
  | H : (_ <$> as_sub _ (Some ?v)) = Some _ |- _ =>
      let o := fresh "o" in let Ho := fresh "Ho" in
      apply fmap_Some in H as (o & Ho & ->); eapply got_case; [exact Hm|..|eassumption|exact Ho]; [reflexivity..|solve [eauto with sound]]
  end.

Lemma res_sound {T} name d (s : schema T) d' :
  tables name = Some (MessageDescriptor d) → res_table d (table_name s) →
  tables (table_name s) = Some (MessageDescriptor d') → sound s → sound (res_schema name s).
Proof.
  intros Hd (f1&f2&f3&Hf1&Hf2&Hf3&_&(_&H2&H2'&H2n)&(_&H3&H3'&H3n)) Hd' Hs. apply (sound_table _ d); [done|].
  intros m a Hm Ha. parts Ha. cbn. revert Hx0. rw /body_of.
  destruct (get 2 m) as [v|] eqn:Hg2, (get 3 m) as [w|] eqn:Hg3; [done|..|by intros [= <-]];
    intros (o & Ho & ->)%fmap_Some.
  - exact (got_case s d m Hm 2 f2 d' v o Hf2 H2 H2' H2n Hd' Hs Hg2 Ho).
  - exact (got_case empty_schema d m Hm 3 f3 google__protobuf__empty__descriptor w o Hf3 H3 H3' H3n eq_refl empty_sound Hg3 Ho).
Qed.

Ltac res_sound d := eapply (res_sound _ d); [reflexivity|by do 3 eexists|reflexivity|auto with sound].

Lemma attr_stat_sound : sound attr_stat_schema.
Proof. res_sound nfs__attr_stat__descriptor. Qed.
Lemma dir_op_res_sound : sound dir_op_res_schema.
Proof. res_sound nfs__dir_op_res__descriptor. Qed.
Lemma read_link_res_sound : sound read_link_res_schema.
Proof. res_sound nfs__read_link_res__descriptor. Qed.
Lemma read_res_sound : sound read_res_schema.
Proof. res_sound nfs__read_res__descriptor. Qed.
Lemma read_dir_res_sound : sound read_dir_res_schema.
Proof. res_sound nfs__read_dir_res__descriptor. Qed.
Lemma stat_fs_res_sound : sound stat_fs_res_schema.
Proof. res_sound nfs__stat_fs_res__descriptor. Qed.
#[export] Hint Resolve attr_stat_sound dir_op_res_sound read_link_res_sound read_res_sound read_dir_res_sound stat_fs_res_sound : sound.

Lemma fh_status_sound : sound fh_status_schema.
Proof.
  apply (sound_table _ mount__fh_status__descriptor); [reflexivity|]. intros m a Hm Ha. parts Ha. cbn. revert Hx0. rw /fh_body_of.
  destruct (get 2 m) as [v|] eqn:Hg2, (get 3 m) as [w|] eqn:Hg3; [done|..|by intros [= <-]]; intros Hu; got_union Hm.
Qed.
#[export] Hint Resolve fh_status_sound : sound.

Lemma auth_sys_sound : sound auth_sys_schema.
Proof.
  sound_fields rpc__auth_sys_params__descriptor; [by destruct x3|].
  assert (Forall u32 x3) as Hall by (eapply got_nums; [eassumption|..|eassumption]; reflexivity). by destruct x3.
Qed.
#[export] Hint Resolve auth_sys_sound : sound.

Lemma opaque_auth_sound : sound opaque_auth_schema.
Proof.
  apply (sound_table _ rpc__opaque_auth__descriptor); [reflexivity|]. intros m a Hm Ha. parts Ha. cbn. revert Hx0. rw /auth_body_of.
  destruct (get 2 m) as [v|] eqn:Hg2, (get 3 m) as [w|] eqn:Hg3; [done|..|by intros [= <-]]; intros Hu; got_union Hm.
Qed.
Lemma any_sound : sound any_schema.
Proof. sound_fields google__protobuf__any__descriptor. Qed.
#[export] Hint Resolve opaque_auth_sound any_sound : sound.
Lemma call_body_sound : sound call_body_schema.
Proof. sound_fields rpc__call_body__descriptor. Qed.
Lemma mismatch_sound : sound mismatch_schema.
Proof. sound_fields rpc__mismatch_info__descriptor. Qed.
#[export] Hint Resolve call_body_sound mismatch_sound : sound.

Lemma accepted_reply_sound : sound accepted_reply_schema.
Proof.
  apply (sound_table _ rpc__accepted_reply__descriptor); [reflexivity|]. intros m a Hm Ha. parts Ha. split; [got|].
  cbn. revert Hx1. rw /accepted_data_of.
  destruct (get 3 m) as [v|] eqn:Hg3, (get 4 m) as [w|] eqn:Hg4, (get 5 m) as [u|] eqn:Hg5;
    try done; intros Hu; [got_union Hm..|by injection Hu as <-].
Qed.

Lemma rejected_reply_sound : sound rejected_reply_schema.
Proof.
  apply (sound_table _ rpc__rejected_reply__descriptor); [reflexivity|]. intros m a Hm Ha. parts Ha.
  cbn. revert Hx0. rw /rejected_data_of.
  destruct (get 2 m) as [v|] eqn:Hg2, (get 3 m) as [w|] eqn:Hg3; [done|..|by intros [= <-]]; intros Hu; [got_union Hm|].
  by apply fmap_Some in Hu as (o & _ & ->).
Qed.
#[export] Hint Resolve accepted_reply_sound rejected_reply_sound : sound.

Lemma reply_body_sound : sound reply_body_schema.
Proof.
  apply (sound_table _ rpc__reply_body__descriptor); [reflexivity|]. intros m a Hm Ha. parts Ha. cbn. revert Hx0. rw /reply_of.
  destruct (get 2 m) as [v|] eqn:Hg2, (get 3 m) as [w|] eqn:Hg3; [done|..|by intros [= <-]]; intros Hu; got_union Hm.
Qed.
#[export] Hint Resolve reply_body_sound : sound.

Lemma rpc_msg_sound : sound rpc_msg_schema.
Proof.
  apply (sound_table _ rpc__rpc_msg__descriptor); [reflexivity|]. intros m a Hm Ha. parts Ha. split; [got|].
  cbn. revert Hx1. rw /msg_body_of.
  destruct (get 3 m) as [v|] eqn:Hg3, (get 4 m) as [w|] eqn:Hg4; [done|..|by intros [= <-]]; intros Hu; got_union Hm.
Qed.
#[export] Hint Resolve rpc_msg_sound : sound.
