(* ===== verification/Parsing.v ===== *)
(** Parsing of port numbers and printing of status codes:
    [src/parsing/parsing.c]. *)
From Stdlib Require Import Strings.Ascii.
From S2P Require Import Prelude CStrings Messages.

(** 0 stands for a failure. *)
Definition parse_port_number (port_number_string : string) : Z :=
  let '(port_number, errno_set, endptr) := strtoul (chars port_number_string) in
  if errno_set || (match endptr with [] => false | _ => true end) then 0
  else if port_number >? 65535 then 0
  else port_number.

Definition rpc_accept_stat_to_string (accept_stat : Rpc.AcceptStat) : string :=
  match accept_stat with
  | Rpc.SUCCESS => "SUCCESS"
  | Rpc.PROG_UNAVAIL => "PROG_UNAVAIAL"
  | Rpc.PROG_MISMATCH => "PROG_MISMATCH"
  | Rpc.PROC_UNAVAIL => "PROC_UNAVAIL"
  | Rpc.GARBAGE_ARGS => "GARBAGE_ARGS"
  | Rpc.SYSTEM_ERR => "SYSTEM_ERR"
  end.

Definition auth_stat_to_string (auth_stat : Rpc.AuthStat) : string :=
  match auth_stat with
  | Rpc.AUTH_OK => "AUTH_OK"
  | Rpc.AUTH_BADCRED => "AUTH_BADCRED"
  | Rpc.AUTH_REJECTEDCRED => "AUTH_REJECTEDCRED"
  | Rpc.AUTH_BADVERF => "AUTH_BADVERF"
  | Rpc.AUTH_REJECTEDVERF => "AUTH_REJECTEDVERF"
  | Rpc.AUTH_TOOWEAK => "AUTH_TOOWEAK"
  | Rpc.AUTH_INVALIDRESP => "AUTH_INVALIDRESP"
  | Rpc.AUTH_FAILED => "AUTH_FAILED"
  | Rpc.AUTH_KERB_GENERIC => "AUTH_KERB_GENERIC"
  | Rpc.AUTH_TIMEEXPIRE => "AUTH_TIMEEXPIRE"
  | Rpc.AUTH_TKT_FILE => "AUTH_TKT_FILE"
  | Rpc.AUTH_DECODE => "AUTH_DECODE"
  | Rpc.AUTH_NET_ADDR => "AUTH_NET_ADDR"
  | Rpc.RPCSEC_GSS_CREDPROBLEM => "RPCSEC_GSS_CREDPROBLEM"
  | Rpc.RPCSEC_GSS_CTXPROBLEM => "RPCSEC_GSS_CTXPROBLEM"
  end.

Definition mount_stat_to_string (stat : Mount.Stat) : string :=
  match stat with
  | Mount.MNT_OK => "MNT_OK"
  | Mount.MNTERR_NOENT => "MNTERR_NOENT"
  | Mount.MNTERR_NOTEXP => "MNTERR_NOTEXP"
  | Mount.MNTERR_IO => "MNTERR_IO"
  | Mount.MNTERR_ACCES => "MNTERR_ACCES"
  | Mount.MNTERR_NOTDIR => "MNTERR_NOTDIR"
  end.

Definition nfs_stat_to_string (stat : Nfs.Stat) : string :=
  match stat with
  | Nfs.NFS_OK => "NFS_OK"
  | Nfs.NFSERR_PERM => "NFSERR_PERM"
  | Nfs.NFSERR_NOENT => "NFSERR_NOENT"
  | Nfs.NFSERR_IO => "NFSERR_IO"
  | Nfs.NFSERR_NXIO => "NFSERR_NXIO"
  | Nfs.NFSERR_ACCES => "NFSERR_ACCES"
  | Nfs.NFSERR_EXIST => "NFSERR_EXIST"
  | Nfs.NFSERR_NODEV => "NFSERR_NODEV"
  | Nfs.NFSERR_NOTDIR => "NFSERR_NOTDIR"
  | Nfs.NFSERR_ISDIR => "NFSERR_ISDIR"
  | Nfs.NFSERR_FBIG => "NFSERR_FBIG"
  | Nfs.NFSERR_NOSPC => "NFSERR_NOSPC"
  | Nfs.NFSERR_ROFS => "NFSERR_ROFS"
  | Nfs.NFSERR_NAMETOOLONG => "NFSERR_NAMETOOLONG"
  | Nfs.NFSERR_NOTEMPTY => "NFSERR_NOTEMPTY"
  | Nfs.NFSERR_DQUOT => "NFSERR_DQUOT"
  | Nfs.NFSERR_STALE => "NFSERR_STALE"
  | Nfs.NFSERR_WFLUSH => "NFSERR_WFLUSH"
  end.

(** * What is accepted as a port number *)

(** White space, a sign and digits, and nothing behind them. *)
Definition port_number_syntax (l blanks sign digits : list char) : Prop :=
  l = blanks ++ sign ++ digits ∧ Forall (λ c, isspace c = true) blanks ∧
  (sign = [] ∨ sign = ["+"%char] ∨ sign = ["-"%char]) ∧ is_number digits ∧ digits ≠ [].

Lemma strtoul_syntax l blanks sign digits :
  port_number_syntax l blanks sign digits →
  strtoul l = if number digits >? UINT64_MAX then (UINT64_MAX, true, [])
              else (if decide (sign = ["-"%char]) then wrap64 (- number digits) else number digits, false, []).
Proof.
  intros (-> & Hb & Hs & Hd & Hne). rw /strtoul.
  destruct digits as [|c digits]; [done|]. pose proof (Forall_inv Hd) as Hc.
  assert (drop_while isspace (blanks ++ sign ++ c :: digits) = sign ++ c :: digits) as ->.
  { apply take_while_app; [done|]. intros x Hx. pose proof (digit_not_space c Hc).
    destruct Hs as [->|[->| ->]]; simpl in Hx; by simplify_eq. }
  destruct (take_while_app isdigit (c :: digits) [] Hd ltac:(done)) as [Ht Hdr]. rw app_nil_r in Ht Hdr.
  destruct Hs as [->|[->| ->]]; cbn [app].
  - assert (match c :: digits with
      | "-"%char :: l0 => (true, l0) | "+"%char :: l0 => (false, l0) | _ => (false, c :: digits) end
      = (false, c :: digits)) as Hsign by by destruct c as [[] [] [] [] [] [] [] []].
    rw Hsign Ht Hdr. by destruct (_ >? _).
  - rw Ht Hdr. by destruct (_ >? _).
  - rw Ht Hdr. by destruct (_ >? _).
Qed.

(** Whatever is read to its end has this form. *)
Lemma strtoul_read_all l v : strtoul l = (v, false, []) → l ≠ [] →
  ∃ blanks sign digits, port_number_syntax l blanks sign digits ∧ number digits ≤ UINT64_MAX.
Proof.
  rw /strtoul. intros Hl Hne. destruct (while_split isspace l) as (blanks & l1 & -> & Hb & _ & Hd). rw Hd in Hl.
  assert (∃ sign l2 neg, l1 = sign ++ l2 ∧ (sign = [] ∨ sign = ["+"%char] ∨ sign = ["-"%char]) ∧
    match l1 with "-"%char :: l0 => (true, l0) | "+"%char :: l0 => (false, l0) | _ => (false, l1) end = (neg, l2))
    as (sign & l2 & neg & -> & Hs & Hm).
  { destruct (decide (head l1 = Some "-"%char)) as [Hh|Hh];
      [|destruct (decide (head l1 = Some "+"%char)) as [Hp|Hp]].
    - destruct l1 as [|c l1]; simplify_eq/=. exists ["-"%char], l1, true. auto.
    - destruct l1 as [|c l1]; simplify_eq/=. exists ["+"%char], l1, false. auto.
    - exists [], l1, false. split_and!; [done|by left|]. destruct l1 as [|c l1]; [done|].
      destruct c as [[] [] [] [] [] [] [] []]; done. }
  rw Hm in Hl. exists blanks, sign, l2.
  destruct (while_split isdigit l2) as (digits & rest & -> & Hdig & Ht & Hr). rw Ht Hr in Hl.
  destruct digits as [|c digits].
  { exfalso. simplify_eq. }
  destruct (_ >? _) eqn:E; simplify_eq. rw app_nil_r. c_bools. split; [|lia]. by split_and!.
Qed.

Lemma number_nonneg l : is_number l → 0 ≤ number l.
Proof.
  induction l as [|c l IH] using rev_ind; [done|]. intros [Hl Hc]%Forall_app. apply Forall_inv in Hc.
  rw number_app /=. specialize (IH Hl).
  assert (0 ≤ number [c]).
  { apply andb_prop in Hc as [Hc _]. apply N.leb_le in Hc. rw /number /digit_value /=. lia. }
  lia.
Qed.

Lemma strtoul_nonneg l v e r : strtoul l = (v, e, r) → 0 ≤ v.
Proof.
  rw /strtoul. cbv zeta.
  set (signed := match drop_while isspace l with "-"%char :: _ => _ | _ => _ end). destruct signed as [neg l1].
  pose proof (number_nonneg _ (take_while_Forall isdigit l1)) as Hn.
  destruct (take_while isdigit l1); [by intros; simplify_eq|]. destruct (_ >? _); intros; simplify_eq; [done|].
  destruct neg; [|done]. rw /wrap64. apply Z.mod_pos_bound. lia.
Qed.

(** Ports are in the range of their type. *)
Lemma port_range port_number_string : 0 ≤ parse_port_number port_number_string ≤ 65535.
Proof.
  rw /parse_port_number. destruct (strtoul _) as [[v e] r] eqn:E.
  assert (0 ≤ v) as Hv by exact (strtoul_nonneg _ _ _ _ E).
  destruct (_ || _); [lia|]. destruct (_ >? _) eqn:Hgt; c_bools; lia.
Qed.

(** Printed port numbers are read back. *)
Lemma port_decimal p : 0 ≤ p ≤ 65535 → parse_port_number (decimal p) = p.
Proof.
  intros Hp. destruct (decimal_number p) as (l & Hl & Hd & Hn & Hne); [lia|].
  rw /parse_port_number Hl (strtoul_digits l Hd Hne); [rw Hn /UINT64_MAX; lia|]. rw Hn /=.
  by destruct (_ >? _) eqn:Hgt; c_bools; [lia|].
Qed.

(** * Theorems *)

(** [parse_port_number] never leaves the range of ports, reads
    every printed port number back, and accepts exactly the strings made of white
    space, an optional sign and digits whose value is a port; a minus sign is
    accepted and wraps around in 64 bits, so that -18446744073709551615 is
    port 1. *)
Theorem port_numbers_read_back (port_number_string : string) p :
  0 ≤ parse_port_number port_number_string ≤ 65535 ∧
  (0 ≤ p ≤ 65535 → parse_port_number (decimal p) = p) ∧
  (p ≠ 0 → parse_port_number port_number_string = p ↔
    p ≤ 65535 ∧ ∃ blanks sign digits,
      port_number_syntax (chars port_number_string) blanks sign digits ∧ number digits ≤ UINT64_MAX ∧
      p = (if decide (sign = ["-"%char]) then wrap64 (- number digits) else number digits)).
Proof.
  split; [|split].
  - apply port_range.
  - apply port_decimal.
  - intros Hp. rw /parse_port_number. split.
    + destruct (strtoul _) as [[v e] r] eqn:E. destruct e; [by intros <-|]. destruct r; [|by intros <-].
      simpl. destruct (_ >? _) eqn:Hgt; [by intros <-|]. intros ->. c_bools. split; [lia|].
      destruct (strtoul_read_all _ _ E) as (b & sg & d & Hsyn & Hmax); [by intros Hnil; rw Hnil in E; injection E as <-|].
      exists b, sg, d. split_and!; [done|done|]. rw (strtoul_syntax _ _ _ _ Hsyn) in E.
      by destruct (number d >? UINT64_MAX); simplify_eq.
    + intros (Hp' & b & sg & d & Hsyn & Hmax & ->). rw (strtoul_syntax _ _ _ _ Hsyn).
      rw Z.gtb_ltb (proj2 (Z.ltb_ge _ _) Hmax) /= Z.gtb_ltb (proj2 (Z.ltb_ge _ _) Hp') //.
Qed.
