(* ===== verification/Posix.v ===== *)
(** The interface of the operating system and C library calls the server
    makes on the exported file system: the calls of [sys/stat.h],
    [unistd.h], [stdio.h], [dirent.h] and [time.h] in
    [src/nfs/server] and [src/common_permissions]. The operating system is
    not part of this repository: it is a class over an abstract state [OS],
    every theorem holds for all its instances, and facts about it that a
    theorem needs are stated with that theorem.

    Calls that only read are functions of the state; the others return the
    new state as well. A failing call returns the value of [errno]. *)
From S2P Require Import Prelude.

Inductive errno :=
  | EPERM | ENOENT | EIO | ENXIO | ENOMEM | EACCES | EEXIST | ENOTDIR | EISDIR | EINVAL
  | EFBIG | ENOSPC | EROFS | EMLINK | ENAMETOOLONG | ENOTEMPTY | EDQUOT | ELOOP
  | EOTHER (code : Z).

#[global] Instance errno_eq_dec : EqDecision errno.
Proof. solve_decision. Defined.

Record timespec := mkTimespec { tv_sec : Z; tv_nsec : Z }.

(** [struct stat] *)
Record stat := mkStat {
  st_dev : Z; st_ino : Z; st_mode : Z; st_nlink : Z; st_uid : Z; st_gid : Z; st_rdev : Z;
  st_size : Z; st_blksize : Z; st_blocks : Z;
  st_atim : timespec; st_mtim : timespec; st_ctim : timespec }.

(** [struct statvfs] *)
Record statvfs_buf := mkStatvfs {
  f_bsize : Z; f_frsize : Z; f_blocks : Z; f_bfree : Z; f_bavail : Z }.

(** [struct dirent]: the name is an array of 256 bytes, the last of which is NUL
    at the latest. *)
Record dirent := mkDirent { d_ino : Z; d_name_array : string }.

Definition d_name (e : dirent) : string := String.substring 0 255 (d_name_array e).

Lemma d_name_length e : (String.length (d_name e) ≤ 255)%nat.
Proof.
  rw /d_name. generalize 255%nat (d_name_array e). intros n s. revert n. induction s as [|c s IH]; intros [|n]; simpl; try lia.
  specialize (IH n). lia.
Qed.

(** Results of [readdir]: an entry, the end of the stream, or an error. *)
Inductive readdir_result := RdEntry (e : dirent) | RdEnd | RdError (e : errno).

(** Handles of open files and directory streams. *)
Definition FILE : Type := Z.
Definition DIR : Type := Z.

Class Posix (OS : Type) := {
  lstat : string → OS → errno + stat;
  statvfs : string → OS → errno + statvfs_buf;
  readlink : string → nat → OS → errno + string;
  time : OS → Z;
  (* ./exports, as the lines fgets returns with a buffer of 1024 bytes *)
  read_exports : OS → option (list string);

  chmod : string → Z → OS → (errno + unit) * OS;
  chown : string → Z → Z → OS → (errno + unit) * OS;
  truncate : string → Z → OS → (errno + unit) * OS;
  (* utimes: seconds and microseconds of atime, then of mtime *)
  utimes : string → Z → Z → Z → Z → OS → (errno + unit) * OS;
  (* open with O_CREAT (and O_RDONLY) and close; None: no mode argument *)
  open_creat : string → option Z → OS → (errno + unit) * OS;
  unlink : string → OS → (errno + unit) * OS;
  rename : string → string → OS → (errno + unit) * OS;
  link : string → string → OS → (errno + unit) * OS;
  symlink : string → string → OS → (errno + unit) * OS;
  mkdir : string → Z → OS → (errno + unit) * OS;
  rmdir : string → OS → (errno + unit) * OS;

  fopen : string → string → OS → (errno + FILE) * OS;
  fseek_set : FILE → Z → OS → (errno + unit) * OS;
  (* the bytes read, and whether ferror holds afterwards *)
  fread : FILE → Z → OS → (list byte * bool) * OS;
  (* the number of bytes written *)
  fwrite : FILE → list byte → OS → Z * OS;
  fclose : FILE → OS → (errno + unit) * OS;
  errno_now : OS → errno;

  opendir : string → OS → (errno + DIR) * OS;
  closedir : DIR → OS → (errno + unit) * OS;
  rewinddir : DIR → OS → OS;
  seekdir : DIR → Z → OS → OS;
  readdir : DIR → OS → readdir_result * OS;
  telldir : DIR → OS → Z;
}.

(** * Mode bits of [sys/stat.h] *)

Definition S_IFMT : Z := 61440.  (* 0170000 *)
Definition S_IFREG : Z := 32768. (* 0100000 *)
Definition S_IFDIR : Z := 16384. (* 0040000 *)
Definition S_IFBLK : Z := 24576. (* 0060000 *)
Definition S_IFCHR : Z := 8192.  (* 0020000 *)
Definition S_IFLNK : Z := 40960. (* 0120000 *)

Definition S_ISREG (m : Z) : bool := Z.land m S_IFMT =? S_IFREG.
Definition S_ISDIR (m : Z) : bool := Z.land m S_IFMT =? S_IFDIR.
Definition S_ISBLK (m : Z) : bool := Z.land m S_IFMT =? S_IFBLK.
Definition S_ISCHR (m : Z) : bool := Z.land m S_IFMT =? S_IFCHR.
Definition S_ISLNK (m : Z) : bool := Z.land m S_IFMT =? S_IFLNK.

Definition S_IRUSR : Z := 256. (* 0400 *)
Definition S_IWUSR : Z := 128.
Definition S_IXUSR : Z := 64.
Definition S_IRGRP : Z := 32.
Definition S_IWGRP : Z := 16.
Definition S_IXGRP : Z := 8.
Definition S_IROTH : Z := 4.
Definition S_IWOTH : Z := 2.
Definition S_IXOTH : Z := 1.
