(* ===== verification/InodeCache.v ===== *)
(** [src/nfs/server/inode_cache.c]: the linked list that maps the inode
    number inside a file handle back to an absolute path, and
    [filehandle_management.c]. Nodes are values of a Rocq list whose head is
    the head of the C list; searches stop at the first match.

    The removal functions dereference [*head] before testing it: on an empty
    list they are undefined behaviour ([None]). *)
From stdpp Require Import functions.
From S2P Require Import Prelude Messages.

Record InodeCacheMapping := mkMapping {
  nfs_filehandle : Nfs.NfsFileHandle;
  absolute_path : string }.

Definition InodeCache : Type := list InodeCacheMapping.

Definition mapping_ino (m : InodeCacheMapping) : Z := Nfs.inode_number (nfs_filehandle m).

(** The tests of the loops. *)
Definition has_ino (inode_number : Z) (m : InodeCacheMapping) : bool :=
  mapping_ino m =? inode_number.

Definition has_path (path : string) (m : InodeCacheMapping) : bool :=
  bool_decide (absolute_path m = path).

Definition deep_copy_nfs_filehandle (h : Nfs.NfsFileHandle) : Nfs.NfsFileHandle :=
  Nfs.mkNfsFileHandle (Nfs.inode_number h) (Nfs.timestamp h).

(** Returns the error code and the new list. *)
Definition add_inode_mapping (nfs_filehandle : option Nfs.NfsFileHandle) (absolute_path : string)
    (head : InodeCache) : Z * InodeCache :=
  match nfs_filehandle with
  | None => (1, head)
  | Some h => (0, mkMapping (deep_copy_nfs_filehandle h) absolute_path :: head)
  end.

(** The loop over the rest of the list: [prev] is the node before [curr]. *)
Fixpoint remove_after (p : InodeCacheMapping → bool) (prev : InodeCacheMapping)
    (curr : InodeCache) : Z * InodeCache :=
  match curr with
  | [] => (1, [prev])
  | m :: curr =>
      if p m then (0, prev :: curr)
      else let '(e, l) := remove_after p m curr in (e, prev :: l)
  end.

Definition remove_inode_mapping_by_inode_number (inode_number : Z) (head : InodeCache)
    : option (Z * InodeCache) :=
  match head with
  | [] => None
  | m :: rest =>
      if mapping_ino m =? inode_number then Some (0, rest)
      else Some (remove_after (has_ino inode_number) m rest)
  end.

Definition remove_inode_mapping_by_absolute_path (path : string) (head : InodeCache)
    : option (Z * InodeCache) :=
  match head with
  | [] => None
  | m :: rest =>
      if bool_decide (absolute_path m = path) then Some (0, rest)
      else Some (remove_after (has_path path) m rest)
  end.

Fixpoint update_inode_mapping_absolute_path_by_absolute_path (path new_path : string)
    (curr : InodeCache) : Z * InodeCache :=
  match curr with
  | [] => (1, [])
  | m :: rest =>
      if bool_decide (absolute_path m = path) then (0, mkMapping (nfs_filehandle m) new_path :: rest)
      else let '(e, l) := update_inode_mapping_absolute_path_by_absolute_path path new_path rest in
           (e, m :: l)
  end.

Fixpoint get_absolute_path_from_inode_number (inode_number : Z) (head : InodeCache)
    : option string :=
  match head with
  | [] => None
  | m :: rest =>
      if mapping_ino m =? inode_number then Some (absolute_path m)
      else get_absolute_path_from_inode_number inode_number rest
  end.

Fixpoint get_nfs_filehandle_from_inode_number (inode_number : Z) (head : InodeCache)
    : option Nfs.NfsFileHandle :=
  match head with
  | [] => None
  | m :: rest =>
      if mapping_ino m =? inode_number then Some (nfs_filehandle m)
      else get_nfs_filehandle_from_inode_number inode_number rest
  end.

(** * Lemmas *)

Lemma get_path_find ino c :
  get_absolute_path_from_inode_number ino c = absolute_path <$> find_first (has_ino ino) c.
Proof. induction c as [|m c IH]; simpl; [done|]. rw /has_ino. by destruct (_ =? _). Qed.

Lemma get_fh_find ino c :
  get_nfs_filehandle_from_inode_number ino c = nfs_filehandle <$> find_first (has_ino ino) c.
Proof. induction c as [|m c IH]; simpl; [done|]. rw /has_ino. by destruct (_ =? _). Qed.

Lemma remove_after_spec p prev c :
  remove_after p prev c =
  (match find_first p c with Some _ => 0 | None => 1 end, prev :: remove_first p c).
Proof.
  revert prev. induction c as [|m c IH]; intros prev; simpl; [done|].
  destruct (p m); [done|]. by rw IH.
Qed.

Lemma remove_by_ino_spec ino c :
  c ≠ [] →
  remove_inode_mapping_by_inode_number ino c =
  Some (match find_first (has_ino ino) c with Some _ => 0 | None => 1 end,
        remove_first (has_ino ino) c).
Proof.
  destruct c as [|m c]; [done|]. intros _. rw /= -/(has_ino ino m).
  destruct (has_ino ino m); [done|]. by rw remove_after_spec.
Qed.

Lemma remove_by_path_spec path c :
  c ≠ [] →
  remove_inode_mapping_by_absolute_path path c =
  Some (match find_first (has_path path) c with Some _ => 0 | None => 1 end,
        remove_first (has_path path) c).
Proof.
  destruct c as [|m c]; [done|]. intros _. rw /= -/(has_path path m).
  destruct (has_path path m); [done|]. by rw remove_after_spec.
Qed.

Lemma update_by_path_spec path new_path c :
  update_inode_mapping_absolute_path_by_absolute_path path new_path c =
  (match find_first (has_path path) c with Some _ => 0 | None => 1 end,
   update_first (has_path path) (λ m, mkMapping (nfs_filehandle m) new_path) c).
Proof.
  induction c as [|m c IH]; simpl; [done|]. rw -/(has_path path m).
  destruct (has_path path m); [done|]. by rw IH.
Qed.

Lemma has_ino_true ino m : has_ino ino m = true ↔ mapping_ino m = ino.
Proof. apply Z.eqb_eq. Qed.

Lemma has_path_true path m : has_path path m = true ↔ absolute_path m = path.
Proof. apply bool_decide_eq_true. Qed.

(** A handle that resolves shows the list is not empty. *)
Lemma get_path_nonempty ino c p : get_absolute_path_from_inode_number ino c = Some p → c ≠ [].
Proof. by destruct c. Qed.

Lemma get_fh_ino ino c h :
  get_nfs_filehandle_from_inode_number ino c = Some h → Nfs.inode_number h = ino.
Proof.
  rw get_fh_find. intros (m & Hm & ->)%fmap_Some.
  apply find_first_Some in Hm as [_ Hm%has_ino_true]. done.
Qed.

Lemma get_fh_get_path ino c :
  is_Some (get_nfs_filehandle_from_inode_number ino c) ↔
  is_Some (get_absolute_path_from_inode_number ino c).
Proof. rw get_fh_find get_path_find !fmap_is_Some. done. Qed.

(** Handles of other paths are not affected when a path is removed. *)
Lemma get_path_remove_path path ino p c :
  p ≠ path → get_absolute_path_from_inode_number ino c = Some p →
  get_absolute_path_from_inode_number ino (remove_first (has_path path) c) = Some p.
Proof.
  intros Hne. induction c as [|m c IH]; simpl; [done|]. destruct (mapping_ino m =? ino) eqn:Hm.
  - intros [= <-]. rw /has_path bool_decide_false //= Hm. done.
  - intros Hp. destruct (has_path path m); [done|]. rw /= Hm. by apply IH.
Qed.

(** After a path that occurs once was removed, no handle leads to it. *)
Lemma get_path_removed path ino c :
  NoDup (absolute_path <$> c) →
  get_absolute_path_from_inode_number ino (remove_first (has_path path) c) ≠ Some path.
Proof.
  induction c as [|m c IH]; simpl; [done|]. intros [Hni Hnd]%NoDup_cons.
  destruct (has_path path m) eqn:Hm.
  - apply has_path_true in Hm. rw get_path_find. intros (m' & Hm' & Hp)%fmap_Some.
    apply find_first_Some in Hm' as [Hin _]. apply Hni. rw Hm Hp. by apply list_elem_of_fmap_2.
  - simpl. destruct (mapping_ino m =? ino); [|by apply IH]. intros [= Hp]. by rw -has_path_true Hm in Hp.
Qed.

Lemma mapping_ino_path m p : mapping_ino (mkMapping (nfs_filehandle m) p) = mapping_ino m.
Proof. done. Qed.

(** Renaming a path moves the first handle of the old path and no other. *)
Lemma get_path_rename old new ino p c :
  p ≠ old → get_absolute_path_from_inode_number ino c = Some p →
  get_absolute_path_from_inode_number ino
    (update_first (has_path old) (λ m, mkMapping (nfs_filehandle m) new) c) = Some p.
Proof.
  intros Hne. induction c as [|m c IH]; simpl; [done|]. destruct (mapping_ino m =? ino) eqn:Hm.
  - intros [= <-]. rw /has_path bool_decide_false //= Hm. done.
  - intros Hp. destruct (has_path old m); simpl; [by rw mapping_ino_path Hm|]. rw Hm. by apply IH.
Qed.

Lemma get_path_renamed old new ino c :
  NoDup (absolute_path <$> c) → get_absolute_path_from_inode_number ino c = Some old →
  get_absolute_path_from_inode_number ino
    (update_first (has_path old) (λ m, mkMapping (nfs_filehandle m) new) c) = Some new.
Proof.
  induction c as [|m c IH]; simpl; [done|]. intros [Hni Hnd]%NoDup_cons.
  destruct (mapping_ino m =? ino) eqn:Hm.
  - intros [= Hp]. rw /has_path bool_decide_true //=. by rw mapping_ino_path Hm.
  - intros Hp. destruct (has_path old m) eqn:Hho.
    + exfalso. apply has_path_true in Hho. rw get_path_find in Hp.
      apply fmap_Some in Hp as (m' & Hm' & Hp). apply find_first_Some in Hm' as [Hin _].
      apply Hni. rw Hho Hp. by apply list_elem_of_fmap_2.
    + rw /= Hm. by apply IH.
Qed.

(** * Refinement

    Nothing stops the same inode number from being added twice ([CREATE],
    [MKDIR] and [MNT] add without looking), so that the cache is not a map from
    inode numbers to mappings: it is a stack of mappings for every inode number,
    of which the top one is found. *)

Inductive cache_op :=
  | AddMapping (nfs_filehandle : option Nfs.NfsFileHandle) (absolute_path : string)
  | RemoveByInode (inode_number : Z)
  | RemoveByPath (absolute_path : string)
  | UpdatePath (absolute_path new_absolute_path : string).

(** The operations on the list, one after the other: their error codes and the
    list in the end. [None]: undefined behaviour. *)
Definition cache_step (op : cache_op) (c : InodeCache) : option (Z * InodeCache) :=
  match op with
  | AddMapping h path => Some (add_inode_mapping h path c)
  | RemoveByInode ino => remove_inode_mapping_by_inode_number ino c
  | RemoveByPath path => remove_inode_mapping_by_absolute_path path c
  | UpdatePath path new_path => Some (update_inode_mapping_absolute_path_by_absolute_path path new_path c)
  end.

Fixpoint cache_steps (ops : list cache_op) (c : InodeCache) : option (list Z * InodeCache) :=
  match ops with
  | [] => Some ([], c)
  | op :: ops =>
      '(e, c) ← cache_step op c;
      '(es, c) ← cache_steps ops c;
      Some (e :: es, c)
  end.

(** The specification: a stack for every inode number. *)
Abbreviation stacks := (Z → list InodeCacheMapping).

Definition no_mappings : stacks := λ _, [].

Definition mapped (σ : stacks) (path : string) (ino : Z) : Prop := ∃ m, m ∈ σ ino ∧ absolute_path m = path.

(** Adding pushes; removing by inode number pops; removing and renaming a path
    act on the topmost mapping to that path in one of the stacks that have one.
    A removal when there is no mapping at all has no step. *)
Inductive spec_step : cache_op → stacks → Z → stacks → Prop :=
  | spec_add σ h path :
      spec_step (AddMapping (Some h) path) σ 0
        (<[Nfs.inode_number h := mkMapping h path :: σ (Nfs.inode_number h)]> σ)
  | spec_add_null σ path : spec_step (AddMapping None path) σ 1 σ
  | spec_pop σ ino m ms :
      σ ino = m :: ms → spec_step (RemoveByInode ino) σ 0 (<[ino := ms]> σ)
  | spec_pop_empty σ ino ino' :
      σ ino = [] → σ ino' ≠ [] → spec_step (RemoveByInode ino) σ 1 σ
  | spec_remove σ path ino :
      mapped σ path ino →
      spec_step (RemoveByPath path) σ 0 (<[ino := remove_first (has_path path) (σ ino)]> σ)
  | spec_remove_none σ path ino' :
      (∀ ino, ¬ mapped σ path ino) → σ ino' ≠ [] → spec_step (RemoveByPath path) σ 1 σ
  | spec_rename σ path new_path ino :
      mapped σ path ino →
      spec_step (UpdatePath path new_path) σ 0
        (<[ino := update_first (has_path path) (λ m, mkMapping (nfs_filehandle m) new_path) (σ ino)]> σ)
  | spec_rename_none σ path new_path :
      (∀ ino, ¬ mapped σ path ino) → spec_step (UpdatePath path new_path) σ 1 σ.

Inductive spec_steps : list cache_op → stacks → list Z → stacks → Prop :=
  | spec_done σ : spec_steps [] σ [] σ
  | spec_next op ops σ e σ' es σ'' :
      spec_step op σ e σ' → spec_steps ops σ' es σ'' → spec_steps (op :: ops) σ (e :: es) σ''.

(** The list holds the stacks. *)
Definition stack_of (c : InodeCache) (ino : Z) : list InodeCacheMapping := filter (λ m, mapping_ino m = ino) c.

Definition holds_stacks (c : InodeCache) (σ : stacks) : Prop := ∀ ino, stack_of c ino = σ ino.

Definition removal (op : cache_op) : bool :=
  match op with RemoveByInode _ | RemoveByPath _ => true | _ => false end.

Lemma stack_of_cons m c ino :
  stack_of (m :: c) ino = if decide (mapping_ino m = ino) then m :: stack_of c ino else stack_of c ino.
Proof. rw /stack_of filter_cons. done. Qed.

Lemma stack_of_app c1 c2 ino : stack_of (c1 ++ c2) ino = stack_of c1 ino ++ stack_of c2 ino.
Proof. apply filter_app. Qed.

Lemma stack_of_Forall P c ino : Forall P c → Forall P (stack_of c ino).
Proof. rw !Forall_forall /stack_of. intros Hc m [_ Hm]%list_elem_of_filter. by apply Hc. Qed.

Lemma stack_of_absent c ino : Forall (λ m, has_ino ino m = false) c → stack_of c ino = [].
Proof.
  induction 1 as [|m c Hm _ IH]; [done|]. rw stack_of_cons decide_False //. by rw -has_ino_true Hm.
Qed.

Lemma stack_of_nonempty m c : stack_of (m :: c) (mapping_ino m) ≠ [].
Proof. by rw stack_of_cons decide_True. Qed.

(** Replacing the mapping [m] by [ms], which have the same inode number. *)
Lemma holds_stacks_replace c1 m c2 ms σ :
  holds_stacks (c1 ++ m :: c2) σ → Forall (λ m', mapping_ino m' = mapping_ino m) ms →
  σ (mapping_ino m) = stack_of c1 (mapping_ino m) ++ m :: stack_of c2 (mapping_ino m) ∧
  holds_stacks (c1 ++ ms ++ c2)
    (<[mapping_ino m := stack_of c1 (mapping_ino m) ++ ms ++ stack_of c2 (mapping_ino m)]> σ).
Proof.
  intros Hσ Hms. split; [by rw -Hσ stack_of_app stack_of_cons decide_True|].
  assert (∀ ino, stack_of ms ino = if decide (mapping_ino m = ino) then ms else []) as Hst.
  { induction Hms as [|m' ms Hm' _ IH]; intros ino; [by case_decide|].
    rw stack_of_cons IH Hm'. by case_decide. }
  intros ino. rw !stack_of_app Hst. specialize (Hσ ino). rw stack_of_app stack_of_cons in Hσ.
  case_decide as Hd; [subst ino; by rw fn_lookup_insert|by rw fn_lookup_insert_ne].
Qed.

(** The topmost mapping to a path. *)
Lemma first_with_path path c σ m :
  holds_stacks c σ → find_first (has_path path) c = Some m →
  ∃ c1 c2, c = c1 ++ m :: c2 ∧ mapped σ path (mapping_ino m) ∧ has_path path m = true ∧
    Forall (λ y, has_path path y = false) c1 ∧ Forall (λ y, has_path path y = false) (stack_of c1 (mapping_ino m)).
Proof.
  intros Hσ Hf. destruct (find_first_split _ _ _ Hf) as (c1 & c2 & -> & Hp & Hc1). exists c1, c2.
  split_and!; try done; [|by apply stack_of_Forall].
  exists m. split; [|by apply has_path_true]. rw -Hσ stack_of_app stack_of_cons decide_True //. set_solver.
Qed.

Lemma no_path_mapped path c σ :
  holds_stacks c σ → find_first (has_path path) c = None → ∀ ino, ¬ mapped σ path ino.
Proof.
  intros Hσ Hf ino (m & Hm & Hp). rw -Hσ /stack_of list_elem_of_filter in Hm. destruct Hm as [_ Hm].
  rw find_first_None in Hf. specialize (Hf m Hm). by rw /has_path bool_decide_true in Hf.
Qed.

Lemma remove_path_refines path c σ :
  holds_stacks c σ → c ≠ [] →
  ∃ e c' σ', remove_inode_mapping_by_absolute_path path c = Some (e, c') ∧
    spec_step (RemoveByPath path) σ e σ' ∧ holds_stacks c' σ'.
Proof.
  intros Hσ Hne. rw remove_by_path_spec //. destruct (find_first (has_path path) c) as [m|] eqn:Hf.
  - destruct (first_with_path _ _ _ _ Hσ Hf) as (c1 & c2 & -> & Hm & Hp & Hc1 & Hs1).
    destruct (holds_stacks_replace c1 m c2 [] σ Hσ ltac:(constructor)) as [Htop Hσ'].
    eexists _, _, _. split; [done|]. split; [exact (spec_remove σ path (mapping_ino m) Hm)|]. by rw Htop !remove_first_app.
  - rw remove_first_id //. eexists _, _, σ. split; [done|]. destruct c as [|m c]; [done|].
    split; [|done]. apply (spec_remove_none σ path (mapping_ino m)); [by apply (no_path_mapped path (m :: c))|].
    rw -Hσ. apply stack_of_nonempty.
Qed.

Lemma update_path_refines path new_path c σ :
  holds_stacks c σ →
  ∃ e c' σ', update_inode_mapping_absolute_path_by_absolute_path path new_path c = (e, c') ∧
    spec_step (UpdatePath path new_path) σ e σ' ∧ holds_stacks c' σ'.
Proof.
  intros Hσ. rw update_by_path_spec. destruct (find_first (has_path path) c) as [m|] eqn:Hf.
  - destruct (first_with_path _ _ _ _ Hσ Hf) as (c1 & c2 & -> & Hm & Hp & Hc1 & Hs1).
    destruct (holds_stacks_replace c1 m c2 [mkMapping (nfs_filehandle m) new_path] σ Hσ) as [Htop Hσ']; [by repeat constructor|].
    eexists _, _, _. split; [done|]. split; [exact (spec_rename σ path new_path (mapping_ino m) Hm)|]. by rw Htop !update_first_app.
  - rw update_first_id //. eexists _, _, σ. split; [done|]. split; [|done].
    apply spec_rename_none. by apply (no_path_mapped path c).
Qed.

Lemma remove_ino_refines ino c σ :
  holds_stacks c σ → c ≠ [] →
  ∃ e c' σ', remove_inode_mapping_by_inode_number ino c = Some (e, c') ∧
    spec_step (RemoveByInode ino) σ e σ' ∧ holds_stacks c' σ'.
Proof.
  intros Hσ Hne. rw remove_by_ino_spec //. destruct (find_first (has_ino ino) c) as [m|] eqn:Hf.
  - destruct (find_first_split _ _ _ Hf) as (c1 & c2 & -> & Hp & Hc1).
    destruct (holds_stacks_replace c1 m c2 [] σ Hσ ltac:(constructor)) as [Htop Hσ'].
    assert (stack_of c1 (mapping_ino m) = []) as Hnil.
    { apply has_ino_true in Hp. rw Hp. by apply stack_of_absent. }
    rw Hnil /= in Htop Hσ'. apply has_ino_true in Hp as Hino. rw Hino in Htop Hσ'.
    eexists _, _, _. split; [done|]. split; [exact (spec_pop σ ino m _ Htop)|]. by rw remove_first_app.
  - rw remove_first_id //. eexists _, _, σ. split; [done|]. destruct c as [|m c]; [done|]. split; [|done].
    apply (spec_pop_empty σ ino (mapping_ino m)); [|rw -Hσ; apply stack_of_nonempty].
    rw -Hσ. apply stack_of_absent, Forall_forall. by apply find_first_None.
Qed.

(** Every operation has a step of the specification, except a removal from the
    empty list, which dereferences NULL. *)
Lemma cache_step_refines op c σ :
  holds_stacks c σ →
  match cache_step op c with
  | Some (e, c') => ∃ σ', spec_step op σ e σ' ∧ holds_stacks c' σ'
  | None => removal op = true ∧ c = []
  end.
Proof.
  intros Hσ. destruct op as [[h|] path|ino|path|path new_path]; simpl.
  - eexists. split; [apply spec_add|]. intros ino. rw stack_of_cons /mapping_ino /=.
    rw (_ : deep_copy_nfs_filehandle h = h); [by destruct h|].
    case_decide as Hd; [subst ino; by rw fn_lookup_insert Hσ|by rw fn_lookup_insert_ne].
  - exists σ. by split; [apply spec_add_null|].
  - destruct (decide (c = [])) as [->|Hne]; [done|].
    destruct (remove_ino_refines ino c σ Hσ Hne) as (e & c' & σ' & -> & ? & ?). by exists σ'.
  - destruct (decide (c = [])) as [->|Hne]; [done|].
    destruct (remove_path_refines path c σ Hσ Hne) as (e & c' & σ' & -> & ? & ?). by exists σ'.
  - destruct (update_path_refines path new_path c σ Hσ) as (e & c' & σ' & -> & ? & ?). by exists σ'.
Qed.

Lemma cache_steps_refine ops c σ :
  holds_stacks c σ →
  match cache_steps ops c with
  | Some (es, c') => ∃ σ', spec_steps ops σ es σ' ∧ holds_stacks c' σ'
  | None => ∃ ops1 op ops2 es σ', ops = ops1 ++ op :: ops2 ∧ removal op = true ∧
              spec_steps ops1 σ es σ' ∧ ∀ ino, σ' ino = []
  end.
Proof.
  revert c σ. induction ops as [|op ops IH]; intros c σ Hσ; simpl; [exists σ; by split; [constructor|]|].
  pose proof (cache_step_refines op c σ Hσ) as Hop. destruct (cache_step op c) as [[e c1]|]; simpl; last first.
  { destruct Hop as [Hrem ->]. exists [], op, ops, [], σ. split_and!; [done|done|constructor|]. intros ino. by rw -Hσ. }
  destruct Hop as (σ1 & Hs1 & Hσ1). specialize (IH c1 σ1 Hσ1). destruct (cache_steps ops c1) as [[es c2]|]; simpl.
  - destruct IH as (σ2 & Hs2 & Hσ2). exists σ2. split; [by apply (spec_next _ _ _ _ σ1)|done].
  - destruct IH as (ops1 & op' & ops2 & es & σ2 & -> & Hrem & Hs2 & Hnil).
    exists (op :: ops1), op', ops2, (e :: es), σ2. split_and!; [done|done|by apply (spec_next _ _ _ _ σ1)|done].
Qed.

(** * Theorems *)

(** C14: the linked list implements a stack of mappings for every inode number.
    For every sequence of additions, removals by inode number and by path and
    renamings of paths that starts with the empty cache: the list's error codes
    are those of the specification, in which adding pushes, removing by inode
    number pops, and removing and renaming a path act on the topmost mapping to
    the path in one of the stacks; in the end the searches for the path and for
    the handle of any inode number return those on top of its stack. The only
    exception is a removal when no mapping is left, which dereferences NULL. *)
Theorem inode_cache_refines_map ops :
  match cache_steps ops [] with
  | Some (es, c) =>
      ∃ σ, spec_steps ops no_mappings es σ ∧
        ∀ ino, get_absolute_path_from_inode_number ino c = absolute_path <$> head (σ ino) ∧
               get_nfs_filehandle_from_inode_number ino c = nfs_filehandle <$> head (σ ino)
  | None =>
      ∃ ops1 op ops2 es σ, ops = ops1 ++ op :: ops2 ∧ removal op = true ∧
        spec_steps ops1 no_mappings es σ ∧ ∀ ino, σ ino = []
  end.
Proof.
  pose proof (cache_steps_refine ops [] no_mappings (λ _, eq_refl)) as Hops.
  destruct (cache_steps ops []) as [[es c]|]; [|done]. destruct Hops as (σ & Hs & Hσ). exists σ. split; [done|].
  intros ino. rw get_path_find get_fh_find -Hσ. rw (_ : head (stack_of c ino) = find_first (has_ino ino) c) //.
  clear. induction c as [|m c IH]; [done|]. rw stack_of_cons /= /has_ino.
  case_decide as Hd; [by rw (proj2 (Z.eqb_eq _ _) Hd)|by rw (proj2 (Z.eqb_neq _ _) Hd)].
Qed.
