(* ===== verification/Permissions.v ===== *)
(** Permission checks: [src/common_permissions/common_permissions.c] and
    [src/nfs/server/nfs_permissions.c]. All of them read the file system with
    [lstat] and return -1 on failure, 0 when the caller is allowed and 1 when
    it is not. *)
From S2P Require Import Prelude Messages Posix.

(** * common_permissions.c *)

Definition check_root_user (uid gid : Z) : Z := if uid =? 0 then 0 else 1.

Section common_permissions.
Context `{Posix OS}.
Implicit Types (path : string) (os : OS).

Definition check_read_permission path (caller_uid caller_gid : Z) os : Z :=
  match lstat path os with
  | inl _ => -1
  | inr file_stat =>
      if caller_uid =? st_uid file_stat then
        if Z.land (st_mode file_stat) S_IRUSR !=? 0 then 0 else 1
      else if caller_gid =? st_gid file_stat then
        if Z.land (st_mode file_stat) S_IRGRP !=? 0 then 0 else 1
      else
        if Z.land (st_mode file_stat) S_IROTH !=? 0 then 0 else 1
  end.

Definition check_write_permission path (caller_uid caller_gid : Z) os : Z :=
  match lstat path os with
  | inl _ => -1
  | inr file_stat =>
      if caller_uid =? st_uid file_stat then
        if Z.land (st_mode file_stat) S_IWUSR !=? 0 then 0 else 1
      else if caller_gid =? st_gid file_stat then
        if Z.land (st_mode file_stat) S_IWGRP !=? 0 then 0 else 1
      else
        if Z.land (st_mode file_stat) S_IWOTH !=? 0 then 0 else 1
  end.

Definition check_execute_permission path (caller_uid caller_gid : Z) os : Z :=
  match lstat path os with
  | inl _ => -1
  | inr file_stat =>
      if caller_uid =? st_uid file_stat then
        if Z.land (st_mode file_stat) S_IXUSR !=? 0 then 0 else 1
      else if caller_gid =? st_gid file_stat then
        if Z.land (st_mode file_stat) S_IXGRP !=? 0 then 0 else 1
      else
        if Z.land (st_mode file_stat) S_IXOTH !=? 0 then 0 else 1
  end.

(** * nfs_permissions.c *)

Definition check_mount_proc_permissions path (caller_uid caller_gid : Z) os : Z :=
  if check_root_user caller_uid caller_uid =? 0 then 0 else 0.

Definition check_getattr_proc_permissions path (caller_uid caller_gid : Z) os : Z :=
  if check_root_user caller_uid caller_uid =? 0 then 0 else 0.

(** The time stamps are dereferenced without a test ([None]: a null
    dereference), but only when the fields before them are all -1. *)
Definition check_setattr_proc_permissions path (sattr : option Nfs.SAttr)
    (caller_uid caller_gid : Z) os : option Z :=
  if check_root_user caller_uid caller_uid =? 0 then Some 0 else
  match sattr with
  | None => Some (-1)
  | Some a =>
      if (Nfs.sa_uid a !=? UINT32_MAX) || (Nfs.sa_gid a !=? UINT32_MAX) then
        Some (check_root_user caller_uid caller_gid)
      else if (Nfs.sa_mode a !=? UINT32_MAX) || (Nfs.sa_size a !=? UINT64_MAX) then
        Some (check_write_permission path caller_uid caller_gid os)
      else
        match Nfs.sa_atime a with
        | None => None
        | Some atime =>
            if (Nfs.seconds atime !=? UINT64_MAX) || (Nfs.useconds atime !=? UINT64_MAX) then
              Some (check_write_permission path caller_uid caller_gid os)
            else
              match Nfs.sa_mtime a with
              | None => None
              | Some mtime =>
                  if (Nfs.seconds mtime !=? UINT64_MAX) || (Nfs.useconds mtime !=? UINT64_MAX) then
                    Some (check_write_permission path caller_uid caller_gid os)
                  else Some 0
              end
        end
  end.

Definition check_lookup_proc_permissions path (caller_uid caller_gid : Z) os : Z :=
  if check_root_user caller_uid caller_uid =? 0 then 0
  else check_execute_permission path caller_uid caller_gid os.

Definition check_readlink_proc_permissions path (caller_uid caller_gid : Z) os : Z :=
  if check_root_user caller_uid caller_uid =? 0 then 0
  else check_read_permission path caller_uid caller_gid os.

Definition check_read_proc_permissions path (caller_uid caller_gid : Z) os : Z :=
  if check_root_user caller_uid caller_uid =? 0 then 0
  else check_read_permission path caller_uid caller_gid os.

Definition check_write_proc_permissions path (caller_uid caller_gid : Z) os : Z :=
  if check_root_user caller_uid caller_uid =? 0 then 0
  else check_write_permission path caller_uid caller_gid os.

Definition check_create_proc_permissions path (caller_uid caller_gid : Z) os : Z :=
  if check_root_user caller_uid caller_uid =? 0 then 0
  else check_write_permission path caller_uid caller_gid os.

Definition check_remove_proc_permissions path (caller_uid caller_gid : Z) os : Z :=
  if check_root_user caller_uid caller_uid =? 0 then 0
  else check_write_permission path caller_uid caller_gid os.

Definition check_rename_proc_permissions (from_path to_path : string)
    (caller_uid caller_gid : Z) os : Z :=
  if check_root_user caller_uid caller_uid =? 0 then 0 else
  let stat := check_write_permission from_path caller_uid caller_gid os in
  if stat <? 0 then -1
  else if stat =? 1 then 1
  else check_write_permission to_path caller_uid caller_gid os.

Definition check_link_proc_permissions path (caller_uid caller_gid : Z) os : Z :=
  if check_root_user caller_uid caller_uid =? 0 then 0
  else check_write_permission path caller_uid caller_gid os.

Definition check_symlink_proc_permissions path (caller_uid caller_gid : Z) os : Z :=
  if check_root_user caller_uid caller_uid =? 0 then 0
  else check_write_permission path caller_uid caller_gid os.

Definition check_mkdir_proc_permissions path (caller_uid caller_gid : Z) os : Z :=
  if check_root_user caller_uid caller_uid =? 0 then 0
  else check_write_permission path caller_uid caller_gid os.

Definition check_rmdir_proc_permissions path (caller_uid caller_gid : Z) os : Z :=
  if check_root_user caller_uid caller_uid =? 0 then 0
  else check_write_permission path caller_uid caller_gid os.

Definition check_readdir_proc_permissions path (caller_uid caller_gid : Z) os : Z :=
  if check_root_user caller_uid caller_uid =? 0 then 0
  else check_read_permission path caller_uid caller_gid os.

Definition check_statfs_proc_permissions path (caller_uid caller_gid : Z) os : Z :=
  if check_root_user caller_uid caller_uid =? 0 then 0 else 0.
End common_permissions.

(** * Reference: the UNIX access rule

    Bit [r] (2 for read, 1 for write, 0 for execute) of the permission class
    the caller falls in: 6, 3 or 0 positions up for owner, group and others. *)
Definition class_shift (st : stat) (uid gid : Z) : Z :=
  if decide (uid = st_uid st) then 6 else if decide (gid = st_gid st) then 3 else 0.

Definition unix_access (r : Z) (st : stat) (uid gid : Z) : bool :=
  Z.testbit (st_mode st) (class_shift st uid gid + r).

Inductive access := Read | Write | Execute.

Definition access_bit (a : access) : Z :=
  match a with Read => 2 | Write => 1 | Execute => 0 end.

Definition check_permission `{Posix OS} (a : access) : string → Z → Z → OS → Z :=
  match a with
  | Read => check_read_permission
  | Write => check_write_permission
  | Execute => check_execute_permission
  end.

(** Root may do everything; others need the bit of their class. *)
Definition permitted (a : access) (st : stat) (uid gid : Z) : bool :=
  (uid =? 0) || unix_access (access_bit a) st uid gid.

(** 0 when allowed and 1 when not. *)
Definition verdict (b : bool) : Z := if b then 0 else 1.

(** The caller may access the file at [path]. *)
Definition may `{Posix OS} (a : access) (path : string) (uid gid : Z) (os : OS) : Prop :=
  uid = 0 ∨ ∃ st, lstat path os = inr st ∧ unix_access (access_bit a) st uid gid = true.

(** * Lemmas *)

Section lemmas.
Context `{Posix OS}.

Lemma check_permission_range (a : access) path uid gid (os : OS) :
  check_permission a path uid gid os ∈ [-1; 0; 1].
Proof.
  destruct a; rw /= /check_read_permission /check_write_permission /check_execute_permission;
    repeat case_match; set_solver.
Qed.

Lemma check_permission_access (a : access) path uid gid (os : OS) st :
  lstat path os = inr st →
  check_permission a path uid gid os = if unix_access (access_bit a) st uid gid then 0 else 1.
Proof.
  intros Hst. rw /unix_access /class_shift.
  assert (Hb : ∀ k, 0 ≤ k → Z.testbit (st_mode st) k = (Z.land (st_mode st) (2 ^ k) !=? 0))
    by (intros; by rw land_pow2_testbit).
  destruct a; rw /= /check_read_permission /check_write_permission /check_execute_permission Hst;
    destruct (Z.eqb_spec uid (st_uid st)), (decide (uid = st_uid st)); try done;
    destruct (Z.eqb_spec gid (st_gid st)), (decide (gid = st_gid st)); try done; by rw Hb.
Qed.

Lemma check_permission_fail (a : access) path uid gid (os : OS) e :
  lstat path os = inl e → check_permission a path uid gid os = -1.
Proof.
  intros He. destruct a;
    by rw /= /check_read_permission /check_write_permission /check_execute_permission He.
Qed.

(** SETATTR's check does not dereference a null pointer when the time stamps
    are there. *)
Lemma check_setattr_total path sattr atime mtime uid gid (os : OS) :
  Nfs.sa_atime sattr = Some atime → Nfs.sa_mtime sattr = Some mtime →
  is_Some (check_setattr_proc_permissions path (Some sattr) uid gid os).
Proof.
  intros Ha Hm. rw /check_setattr_proc_permissions Ha Hm. repeat case_match; eauto.
Qed.

(** The shape of the procedures' checks: root passes, others are checked. *)
Lemma root_or_check (a : access) path uid gid (os : OS) st :
  lstat path os = inr st →
  (if check_root_user uid uid =? 0 then 0 else check_permission a path uid gid os) =
  verdict (permitted a st uid gid).
Proof.
  intros Hst. rw /check_root_user /permitted. destruct (uid =? 0); [done|].
  by rw /= (check_permission_access a _ _ _ _ _ Hst).
Qed.

(** A check that passed shows that the caller may access the file. *)
Lemma check_passed (a : access) path uid gid (os : OS) :
  (if check_root_user uid uid =? 0 then 0 else check_permission a path uid gid os) = 0 →
  may a path uid gid os.
Proof.
  rw /check_root_user /may. destruct (Z.eqb_spec uid 0); [by left|]. simpl. intros Hc. right.
  destruct (lstat path os) as [e|st] eqn:Hst.
  - by rw (check_permission_fail a _ _ _ _ _ Hst) in Hc.
  - exists st. split; [done|]. rw (check_permission_access a _ _ _ _ _ Hst) in Hc.
    by destruct (unix_access _ _ _ _).
Qed.

Lemma check_may (a : access) path uid gid (os : OS) :
  may a path uid gid os →
  (if check_root_user uid uid =? 0 then 0 else check_permission a path uid gid os) = 0.
Proof.
  rw /check_root_user. intros [->|(st & Hst & Ha)]; [done|]. destruct (uid =? 0); [done|].
  by rw /= (check_permission_access a _ _ _ _ _ Hst) Ha.
Qed.

Lemma check_rename_passed from_path to_path uid gid (os : OS) :
  check_rename_proc_permissions from_path to_path uid gid os = 0 →
  may Write from_path uid gid os ∧ may Write to_path uid gid os.
Proof.
  intros Hc. split; apply check_passed; revert Hc; rw /check_rename_proc_permissions;
    destruct (check_root_user uid uid =? 0); try done;
    destruct (check_write_permission from_path uid gid os <? 0) eqn:Hneg; try done;
    destruct (check_write_permission from_path uid gid os =? 1) eqn:Hone; try done; simpl.
  pose proof (check_permission_range Write from_path uid gid os) as Hr. simpl in Hr.
  rw !elem_of_cons elem_of_nil in Hr. intros _. lia.
Qed.

Lemma check_rename_range from_path to_path uid gid (os : OS) :
  check_rename_proc_permissions from_path to_path uid gid os ∈ [-1; 0; 1].
Proof.
  pose proof (check_permission_range Write to_path uid gid os) as Hr. rw /check_rename_proc_permissions.
  destruct (check_root_user _ _ =? 0); [by do 2 constructor|].
  destruct (_ <? 0); [by constructor|]. destruct (_ =? 1); [by do 3 constructor|exact Hr].
Qed.

(** SETATTR: changing the owner or the group is for root. *)
Lemma check_setattr_owner path sattr uid gid (os : OS) :
  uid ≠ 0 → Nfs.sa_uid sattr ≠ UINT32_MAX ∨ Nfs.sa_gid sattr ≠ UINT32_MAX →
  check_setattr_proc_permissions path (Some sattr) uid gid os = Some 1.
Proof.
  intros Hu Hs. rw /check_setattr_proc_permissions /check_root_user (proj2 (Z.eqb_neq uid 0)) //=.
  by destruct Hs as [Hs|Hs]; rw (proj2 (Z.eqb_neq _ _) Hs) ?orb_true_r.
Qed.
End lemmas.

(** * Theorems *)

Section theorems.
Context `{Posix OS}.

(** C16: the permission checks of the procedures are the UNIX rule. With [st] the
    attributes of the file or directory the check looks at, a call is allowed
    exactly when the caller is root or the mode bit of the caller's class
    (owner, else group, else others) is set: execute on the directory for
    LOOKUP; read for READLINK, READ and READDIR; write on the file for WRITE;
    write on the directory for CREATE, REMOVE, LINK, SYMLINK, MKDIR and RMDIR;
    RENAME needs write on both directories. *)
Theorem permission_checks_follow_unix_rule path path2 uid gid (os : OS) st st2
    (Hst : lstat path os = inr st) (Hst2 : lstat path2 os = inr st2) :
  check_lookup_proc_permissions path uid gid os = verdict (permitted Execute st uid gid) ∧
  Forall (λ check, check path uid gid os = verdict (permitted Read st uid gid))
    [check_readlink_proc_permissions; check_read_proc_permissions; check_readdir_proc_permissions] ∧
  Forall (λ check, check path uid gid os = verdict (permitted Write st uid gid))
    [check_write_proc_permissions; check_create_proc_permissions; check_remove_proc_permissions;
     check_link_proc_permissions; check_symlink_proc_permissions; check_mkdir_proc_permissions;
     check_rmdir_proc_permissions] ∧
  check_rename_proc_permissions path path2 uid gid os =
    verdict (permitted Write st uid gid && permitted Write st2 uid gid).
Proof.
  split_and!; [apply (root_or_check Execute _ _ _ _ _ Hst)|..].
  - repeat constructor; apply (root_or_check Read _ _ _ _ _ Hst).
  - repeat constructor; apply (root_or_check Write _ _ _ _ _ Hst).
  - pose proof (check_permission_access Write _ uid gid _ _ Hst) as H1.
    pose proof (check_permission_access Write _ uid gid _ _ Hst2) as H2. simpl in H1, H2.
    rw /check_rename_proc_permissions /check_root_user /permitted H1 H2 /verdict /=.
    destruct (uid =? 0); [done|]. by destruct (unix_access 1 st uid gid).
Qed.
End theorems.
