(* ===== verification/SharedInodeCache.v ===== *)
(** The inode cache as the threads of the TCP server share it: the nodes of
    [nfs/server/inode_cache.c] in a heap, with pointers, and the functions on them
    statement by statement, so that the functions of several threads can be
    interleaved. No mutex protects the cache: [handle_client_tcp] runs in a thread
    per connection, and the procedures change the cache wherever they need to.

    Run alone, the functions are the ones on lists in [InodeCache]. Interleaved,
    adding and searching stay within memory and end, but a mapping can be lost, and
    a search next to a removal reads freed memory. *)
From S2P Require Import Prelude Messages InodeCache.

Definition loc := positive.
Definition thread := positive.

(** [struct InodeCacheMapping]: the two fields of a mapping and the pointer to the
    next. *)
Record node := mkNode { mapping : InodeCacheMapping; next : option loc }.

Abbreviation heap := (gmap loc node).

Definition set_next (p : option loc) (n : node) : node := mkNode (mapping n) p.

Definition set_path (path : string) (n : node) : node :=
  mkNode (mkMapping (nfs_filehandle (mapping n)) path) (next n).

(** What a loop compares. *)
Inductive key := ByInode (inode_number : Z) | ByPath (path : string).

Definition matches (k : key) (m : InodeCacheMapping) : bool :=
  match k with ByInode i => has_ino i m | ByPath p => has_path p m end.

(** What the functions return: an error code, or the mapping that was found. *)
Inductive result :=
  | Code (error_code : Z)
  | Found (k : key) (m : option InodeCacheMapping).

(** Where a thread is in one of the functions. *)
Inductive pc :=
  (* add_inode_mapping: before malloc, before new_mapping->next = *head, before *head = new_mapping *)
  | Allocate (m : InodeCacheMapping)
  | Link (new_mapping : loc)
  | Publish (new_mapping : loc)
  (* the two searches: before the head is read, in the loop *)
  | Get (k : key)
  | Search (k : key) (inode_cache_mapping : option loc)
  (* the two removals: at the test of the first node, before its next is read, before it is freed,
     before *head = new_head *)
  | RemoveFirst (k : key)
  | ReadNewHead
  | FreeHead (new_head : option loc)
  | SetHead (new_head : option loc)
  (* ... and behind the first node: before the two pointers are read, in the loop, before
     prev_mapping->next = curr_mapping->next, before the node is freed *)
  | ReadRest (k : key)
  | RemoveLoop (k : key) (prev_mapping : loc) (curr_mapping : option loc)
  | Unlink (prev_mapping curr_mapping : loc)
  | FreeNode (curr_mapping : loc)
  (* the update: before the head is read, in the loop, before the path is freed and replaced (one step) *)
  | Update (path new_path : string)
  | UpdateLoop (path new_path : string) (curr_mapping : option loc)
  | SetPath (curr_mapping : loc) (new_path : string)
  | Returned (r : result).

(** The next statement. [new]: what [malloc] gives. [None]: the thread has
    returned, or it dereferences or frees a pointer that is NULL or freed. *)
Definition advance (new : loc) (p : pc) (h : heap) (head : option loc) : option (pc * heap * option loc) :=
  match p with
  | Allocate m => Some (Link new, <[new := mkNode m None]> h, head)
  | Link l => n ← h !! l; Some (Publish l, <[l := set_next head n]> h, head)
  | Publish l => Some (Returned (Code 0), h, Some l)
  | Get k => Some (Search k head, h, head)
  | Search k None => Some (Returned (Found k None), h, head)
  | Search k (Some l) =>
      n ← h !! l;
      Some (if matches k (mapping n) then Returned (Found k (Some (mapping n))) else Search k (next n), h, head)
  | RemoveFirst k =>
      l ← head; n ← h !! l;
      Some (if matches k (mapping n) then ReadNewHead else ReadRest k, h, head)
  | ReadNewHead => l ← head; n ← h !! l; Some (FreeHead (next n), h, head)
  | FreeHead new_head =>
      match head with
      | None => Some (SetHead new_head, h, head)
      | Some l => _ ← h !! l; Some (SetHead new_head, delete l h, head)
      end
  | SetHead new_head => Some (Returned (Code 0), h, new_head)
  | ReadRest k => l ← head; n ← h !! l; Some (RemoveLoop k l (next n), h, head)
  | RemoveLoop k prev None => Some (Returned (Code 1), h, head)
  | RemoveLoop k prev (Some l) =>
      n ← h !! l;
      Some (if matches k (mapping n) then Unlink prev l else RemoveLoop k l (next n), h, head)
  | Unlink prev curr =>
      n ← h !! curr; p ← h !! prev;
      Some (FreeNode curr, <[prev := set_next (next n) p]> h, head)
  | FreeNode curr => _ ← h !! curr; Some (Returned (Code 0), delete curr h, head)
  | Update path new_path => Some (UpdateLoop path new_path head, h, head)
  | UpdateLoop path new_path None => Some (Returned (Code 1), h, head)
  | UpdateLoop path new_path (Some l) =>
      n ← h !! l;
      Some (if has_path path (mapping n) then SetPath l new_path else UpdateLoop path new_path (next n), h, head)
  | SetPath l new_path => n ← h !! l; Some (Returned (Code 0), <[l := set_path new_path n]> h, head)
  | Returned _ => None
  end.

(** A function that runs alone, from its beginning to its end. *)
Fixpoint run_alone (fuel : nat) (p : pc) (h : heap) (head : option loc) : option (result * heap * option loc) :=
  match p with
  | Returned r => Some (r, h, head)
  | _ =>
      match fuel with
      | O => None
      | S fuel => '(p, h, head) ← advance (fresh (dom h)) p h head; run_alone fuel p h head
      end
  end.

(** * Alone: the functions on lists *)

(** The nodes at [ls], linked in this order from the pointer [p] on, hold the
    mappings [c]. *)
Fixpoint linked (h : heap) (p : option loc) (ls : list loc) (c : InodeCache) : Prop :=
  match ls, c with
  | [], [] => p = None
  | l :: ls, m :: c => p = Some l ∧ ∃ n, h !! l = Some n ∧ mapping n = m ∧ linked h (next n) ls c
  | _, _ => False
  end.

Definition represents (h : heap) (head : option loc) (c : InodeCache) : Prop :=
  ∃ ls, linked h head ls c ∧ NoDup ls.

(** The calls, and what they are on lists. *)
Inductive request :=
  | Add (nfs_filehandle : Nfs.NfsFileHandle) (path : string)
  | Find (k : key)
  | Remove (k : key)
  | Rename (path new_path : string).

Definition begins (r : request) : pc :=
  match r with
  | Add fh path => Allocate (mkMapping (deep_copy_nfs_filehandle fh) path)
  | Find k => Get k
  | Remove k => RemoveFirst k
  | Rename path new_path => Update path new_path
  end.

Definition on_lists (r : request) (c : InodeCache) : option (result * InodeCache) :=
  match r with
  | Add fh path => let '(e, c) := add_inode_mapping (Some fh) path c in Some (Code e, c)
  | Find k => Some (Found k (find_first (matches k) c), c)
  | Remove (ByInode i) => '(e, c) ← remove_inode_mapping_by_inode_number i c; Some (Code e, c)
  | Remove (ByPath p) => '(e, c) ← remove_inode_mapping_by_absolute_path p c; Some (Code e, c)
  | Rename path new_path =>
      let '(e, c) := update_inode_mapping_absolute_path_by_absolute_path path new_path c in Some (Code e, c)
  end.

Lemma linked_ext h h' p ls c : (∀ l, l ∈ ls → h' !! l = h !! l) → linked h p ls c → linked h' p ls c.
Proof.
  revert p c. induction ls as [|l ls IH]; intros p [|m c] Hext; try done. intros (-> & n & Hn & <- & Hc).
  split; [done|]. exists n. split; [by rw Hext; [constructor|]|]. split; [done|].
  apply IH; [|done]. intros l' Hl'. apply Hext. by constructor.
Qed.

Lemma linked_in h p ls c l : linked h p ls c → l ∈ ls → is_Some (h !! l).
Proof.
  revert p c. induction ls as [|l' ls IH]; intros p [|m c]; try done; [by intros _ ?%elem_of_nil|].
  intros (_ & n & Hn & _ & Hc) [->|Hl]%elem_of_cons; [by exists n|exact (IH _ _ Hc Hl)].
Qed.

Lemma run_alone_S fuel p h head :
  (∀ r, p ≠ Returned r) →
  run_alone (S fuel) p h head = ('(p, h, head) ← advance (fresh (dom h)) p h head; run_alone fuel p h head).
Proof. destruct p; intros Hp; try reflexivity. by destruct (Hp r). Qed.

Lemma search_alone k c : ∀ fuel h p ls head, linked h p ls c → (S (length c) ≤ fuel)%nat →
  run_alone fuel (Search k p) h head = Some (Found k (find_first (matches k) c), h, head).
Proof.
  induction c as [|m c IH]; intros [|fuel] h p [|l ls] head Hl Hf; simpl in *; try done; try lia.
  - rw Hl /=. by destruct fuel.
  - destruct Hl as (-> & n & Hn & <- & Hl). rw /= Hn /=. destruct (matches k (mapping n)); [by destruct fuel|].
    exact (IH fuel h (next n) ls head Hl ltac:(lia)).
Qed.

Lemma update_alone path new_path c : ∀ fuel h p ls head, linked h p ls c → NoDup ls → (S (S (length c)) ≤ fuel)%nat →
  ∃ h', run_alone fuel (UpdateLoop path new_path p) h head =
      Some (Code (update_inode_mapping_absolute_path_by_absolute_path path new_path c).1, h', head) ∧
    linked h' p ls (update_inode_mapping_absolute_path_by_absolute_path path new_path c).2 ∧
    (∀ l, l ∉ ls → h' !! l = h !! l).
Proof.
  induction c as [|m c IH]; intros [|[|fuel]] h p [|l ls] head Hl Hnd Hf; simpl in *; try done; try lia.
  - exists h. by rw Hl.
  - destruct Hl as (-> & n & Hn & <- & Hl). apply NoDup_cons in Hnd as [Hnew Hnd].
    rw Hn /= /has_path. case_bool_decide.
    + exists (<[l := set_path new_path n]> h). rw /= Hn /=. split; [by destruct fuel|]. split.
      * split; [done|]. exists (set_path new_path n). rw lookup_insert_eq. split_and!; try done.
        eapply linked_ext; [|exact Hl]. intros l' Hl'. rw lookup_insert_ne //. by intros ->.
      * intros l' Hl'. rw lookup_insert_ne //. intros ->. apply Hl'. by constructor.
    + destruct (IH (S fuel) h (next n) ls head Hl Hnd ltac:(lia)) as (h' & Hrun & Hl' & Hext).
      exists h'. revert Hrun Hl'. destruct (update_inode_mapping_absolute_path_by_absolute_path path new_path c) as [e c'].
      intros Hrun Hl'. split; [exact Hrun|]. split.
      * split; [done|]. exists n. by rw Hext.
      * intros l' Hout. apply Hext. by intros ?; apply Hout; constructor.
Qed.

(** The loop of the removals behind the node [prev]. *)
Lemma remove_loop_alone k c : ∀ fuel h prev n ls head,
  h !! prev = Some n → linked h (next n) ls c → NoDup (prev :: ls) → (S (S (S (length c))) ≤ fuel)%nat →
  ∃ h' ls', run_alone fuel (RemoveLoop k prev (next n)) h head =
      Some (Code (remove_after (matches k) (mapping n) c).1, h', head) ∧
    linked h' (Some prev) (prev :: ls') (remove_after (matches k) (mapping n) c).2 ∧ sublist ls' ls ∧
    (∀ l, l ∉ prev :: ls → h' !! l = h !! l).
Proof.
  induction c as [|m c IH]; intros [|[|[|fuel]]] h prev n [|l ls] head Hp Hl Hnd Hf; simpl in *; try done; try lia.
  - exists h, []. rw Hl /=. split_and!; try done. by exists n.
  - destruct Hl as (Hnext & n' & Hn & <- & Hl). apply NoDup_cons in Hnd as [Hnew Hnd].
    assert (prev ≠ l) as Hne by (intros ->; apply Hnew; constructor).
    rw Hnext /= Hn /=. destruct (matches k (mapping n')).
    + rw /= Hn /= Hp /= lookup_insert_ne // Hn /=. eexists _, ls. split; [by destruct fuel|].
      apply NoDup_cons in Hnd as [Hnew' Hnd].
      assert (∀ l', l' ∉ [prev; l] → delete l (<[prev := set_next (next n') n]> h) !! l' = h !! l') as Hext.
      { intros l' Hl'. rw lookup_delete_ne; [|rw lookup_insert_ne //]; intros ->; apply Hl'; repeat constructor. }
      split_and!; [done| |by constructor|].
      * exists (set_next (next n') n). rw lookup_delete_ne; [by intros ->|]. rw lookup_insert_eq. split_and!; try done.
        eapply linked_ext; [|exact Hl]. intros l' Hl'. apply Hext. intros [->|[->|?%elem_of_nil]%elem_of_cons]%elem_of_cons; [|done..].
        apply Hnew. by constructor.
      * intros l' Hl'. apply Hext. by intros [->|[->|?%elem_of_nil]%elem_of_cons]%elem_of_cons; [..|done]; apply Hl'; repeat constructor.
    + destruct (IH (S (S fuel)) h l n' ls head Hn Hl Hnd ltac:(lia)) as (h' & ls' & Hrun & Hl' & Hsub & Hext).
      exists h', (l :: ls'). revert Hrun Hl'. destruct (remove_after (matches k) (mapping n') c) as [e c'].
      intros Hrun Hl'. split; [exact Hrun|]. split; [|split; [by constructor|]].
      * split; [done|]. exists n. rw Hext; [exact Hnew|]. rw Hnext. split; [done|]. split; [done|exact Hl'].
      * intros l' Hout. apply Hext. by intros ?; apply Hout; constructor.
Qed.

Lemma remove_alone k m c fuel h head :
  represents h head (m :: c) → (S (S (S (S (S (length c))))) ≤ fuel)%nat →
  ∃ h' head', run_alone fuel (RemoveFirst k) h head =
      Some (Code (if matches k m then 0 else (remove_after (matches k) m c).1), h', head') ∧
    represents h' head' (if matches k m then c else (remove_after (matches k) m c).2).
Proof.
  intros ([|l ls] & Hl & Hnd) Hf; [done|]. destruct Hl as (-> & n & Hn & <- & Hl).
  destruct fuel as [|[|[|[|fuel]]]]; try lia. rw run_alone_S // /= Hn /=. destruct (matches k (mapping n)).
  - rw /= Hn /= Hn /=. eexists _, (next n). split; [by destruct fuel|]. apply NoDup_cons in Hnd as [Hnew Hnd].
    exists ls. split; [|done]. eapply linked_ext; [|exact Hl]. intros l' Hl'. rw lookup_delete_ne //. by intros ->.
  - rw /= Hn /=.
    destruct (remove_loop_alone k c (S (S fuel)) h l n ls (Some l) Hn Hl Hnd ltac:(lia)) as (h' & ls' & Hrun & Hl' & Hsub & _).
    exists h', (Some l). split; [exact Hrun|]. exists (l :: ls'). split; [exact Hl'|].
    by apply (sublist_NoDup _ _ Hnd); constructor.
Qed.

(** C15: the functions on linked lists of the inode cache, statement by
    statement on a heap with pointers, are the functions on lists that the rest of
    the development uses: run alone on a heap that holds a cache, every call
    of [add_inode_mapping], the searches, the removals and the update ends within
    as many statements as there are mappings and six more, returns what the function on lists
    returns, and leaves a heap that holds the list it leaves; a removal from
    an empty cache dereferences NULL. *)
Theorem pointers_implement_lists r h head c fuel
    (Hc : represents h head c) (Hfuel : (length c + 6 ≤ fuel)%nat) :
  match on_lists r c with
  | Some (result, c') => ∃ h' head', run_alone fuel (begins r) h head = Some (result, h', head') ∧ represents h' head' c'
  | None => c = [] ∧ ∃ k, r = Remove k ∧ run_alone fuel (begins r) h head = None
  end.
Proof.
  assert (∀ k, c = [] → run_alone fuel (RemoveFirst k) h head = None) as Hempty.
  { intros k ->. destruct Hc as ([|? ?] & Hl & _); [|done]. simpl in Hl. subst head. by destruct fuel. }
  destruct r as [fh path|k|k|path new_path]; simpl.
  - destruct Hc as (ls & Hl & Hnd). destruct fuel as [|[|[|fuel]]]; try lia. simpl. rw lookup_insert_eq /=.
    set (l := fresh (dom h)). assert (l ∉ ls) as Hnew.
    { intros [n Hn]%(linked_in _ _ _ _ _ Hl). apply (is_fresh (dom h)), elem_of_dom. by exists n. }
    eexists _, (Some l). split; [by destruct fuel|]. exists (l :: ls). split; [|by constructor].
    split; [done|]. rw insert_insert_eq. eexists. rw lookup_insert_eq. split; [done|]. split; [done|].
    eapply linked_ext; [|exact Hl]. intros l' Hl'. rw lookup_insert_ne //. by intros <-.
  - destruct Hc as (ls & Hl & Hnd). exists h, head. split; [|by exists ls].
    destruct fuel; [lia|]. exact (search_alone k c fuel h head ls head Hl ltac:(lia)).
  - destruct c as [|m c].
    { destruct k; (split; [done|]); eexists; (split; [done|]); by apply Hempty. }
    destruct (remove_alone k m c fuel h head Hc) as (h' & head' & Hrun & Hc'); [simpl in Hfuel; lia|].
    rw Hrun. clear Hrun. revert Hc'. destruct k as [i|p].
    + change (matches (ByInode i)) with (has_ino i). change (has_ino i m) with (mapping_ino m =? i). simpl.
      destruct (mapping_ino m =? i); simpl; [eauto|]. destruct (remove_after (has_ino i) m c). simpl. eauto.
    + change (matches (ByPath p)) with (has_path p). change (has_path p m) with (bool_decide (absolute_path m = p)). simpl.
      case_bool_decide; simpl; [eauto|]. destruct (remove_after (has_path p) m c). simpl. eauto.
  - destruct Hc as (ls & Hl & Hnd). destruct fuel; [lia|].
    destruct (update_alone path new_path c fuel h head ls head Hl Hnd ltac:(lia)) as (h' & Hrun & Hl' & _).
    destruct (update_inode_mapping_absolute_path_by_absolute_path path new_path c). exists h', head. split; [exact Hrun|by exists ls].
Qed.

(** * The threads *)

Record cache_system := mkSystem { mem : heap; head : option loc; threads : gmap thread pc }.

Definition empty_cache : cache_system := mkSystem ∅ None ∅.

Section interleaving.
(** The calls that the procedures make. *)
Variable asked : request → Prop.

(** A thread calls a function, or carries out the next statement of it. *)
Inductive step : cache_system → thread → cache_system → Prop :=
  | step_call s t r :
      threads s !! t = None → asked r → step s t (mkSystem (mem s) (head s) (<[t := begins r]> (threads s)))
  | step_statement s t p new p' h' head' :
      threads s !! t = Some p → mem s !! new = None →
      advance new p (mem s) (head s) = Some (p', h', head') →
      step s t (mkSystem h' head' (<[t := p']> (threads s))).

Definition reachable (s : cache_system) : Prop := rtc (λ s s', ∃ t, step s t s') empty_cache s.

(** The next statement of the thread dereferences or frees a pointer that is NULL
    or freed. *)
Definition faults (s : cache_system) (t : thread) : Prop :=
  ∃ p new, threads s !! t = Some p ∧ (∀ r, p ≠ Returned r) ∧ mem s !! new = None ∧
    advance new p (mem s) (head s) = None.

(** From one state to another, with [n] steps of the thread [t] and any number of
    steps of the others. *)
Inductive takes (t : thread) : nat → cache_system → cache_system → Prop :=
  | takes_none s : takes t 0 s s
  | takes_other n s t' s' s'' : t' ≠ t → step s t' s' → takes t n s' s'' → takes t n s s''
  | takes_own n s s' s'' : step s t s' → takes t n s' s'' → takes t (S n) s s''.

(** A mapping that a thread was asked to add. *)
Definition was_added (m : InodeCacheMapping) : Prop :=
  ∃ fh path, asked (Add fh path) ∧ m = mkMapping (deep_copy_nfs_filehandle fh) path.

Definition adds_or_finds (r : request) : Prop :=
  match r with Add _ _ | Find _ => True | _ => False end.

(** A pointer that can be followed to the end of the list, along nodes that
    nobody changes any more. *)
Definition followed (s : cache_system) (p : option loc) (ls : list loc) : Prop :=
  (∃ c, linked (mem s) p ls c) ∧ NoDup ls ∧ ∀ t l, threads s !! t = Some (Link l) → l ∉ ls.

(** Where a thread that adds or searches can be. *)
Definition thread_ok (s : cache_system) (p : pc) : Prop :=
  match p with
  | Allocate m => was_added m
  | Link l => is_Some (mem s !! l)
  | Publish l => ∃ ls, followed s (Some l) ls
  | Get _ => True
  | Search _ curr => ∃ ls, followed s curr ls
  | Returned (Code _) => True
  | Returned (Found k None) => True
  | Returned (Found k (Some m)) => matches k m = true ∧ was_added m
  | _ => False
  end.

Record inv (s : cache_system) : Prop := {
  inv_threads : ∀ t p, threads s !! t = Some p → thread_ok s p;
  inv_own : ∀ t t' l, threads s !! t = Some (Link l) → threads s !! t' = Some (Link l) → t = t';
  inv_head : ∃ ls, followed s (head s) ls;
  inv_mappings : ∀ l n, mem s !! l = Some n → was_added (mapping n) }.

Lemma inv_empty : inv empty_cache.
Proof. constructor; simpl; try done. exists []. split; [by exists []|split; [constructor|done]]. Qed.

Hypothesis Hasked : ∀ r, asked r → adds_or_finds r.

Lemma followed_in s p ls l : followed s p ls → l ∈ ls → is_Some (mem s !! l).
Proof. intros [(c & Hl) _]. exact (linked_in _ _ _ _ _ Hl). Qed.

(** What is on the way of a pointer stays as it is. *)
Lemma followed_step s t s' p ls : inv s → step s t s' → followed s p ls → followed s' p ls.
Proof.
  intros Hinv Hstep Hf. pose proof Hf as ([c Hl] & Hnd & Hfree). destruct Hstep as [s t r Hnone Hr|s t q new q' h' hd Hq Hnew Hadv].
  - split; [by exists c|]. split; [done|]. intros t' l. simpl. destruct (decide (t = t')) as [<-|].
    + rw lookup_insert_eq. by destruct r.
    + rw lookup_insert_ne //. apply Hfree.
  - pose proof (inv_threads s Hinv t q Hq) as Hok.
    assert (new ∉ ls) as Hn by (intros [n Hn]%(followed_in _ _ _ _ Hf); by rw Hn in Hnew).
    assert (∀ l, l ∈ ls → h' !! l = mem s !! l) as Hext.
    { intros l Hin. destruct q; simpl in Hadv, Hok; try done; simplify_eq; try done.
      - rw lookup_insert_ne //. by intros ->.
      - destruct Hok as [n Hm]. rw Hm in Hadv. simplify_eq/=. rw lookup_insert_ne //. intros ->. by apply (Hfree t l).
      - destruct inode_cache_mapping as [l'|]; [|by simplify_eq]. destruct (mem s !! l'); by simplify_eq/=. }
    split; [exists c; exact (linked_ext _ _ _ _ _ Hext Hl)|]. split; [done|]. intros t' l. simpl.
    destruct (decide (t = t')) as [<-|]; [|rw lookup_insert_ne //; apply Hfree].
    rw lookup_insert_eq. intros [= ->]. destruct q; simpl in Hadv; try done; try by simplify_eq.
    + destruct Hok as [n Hm]. rw Hm in Hadv. by simplify_eq/=.
    + destruct inode_cache_mapping as [l'|]; [|by simplify_eq]. destruct (mem s !! l'); simplify_eq/=. by destruct (matches _ _).
Qed.

Lemma step_mem s t s' l n :
  step s t s' → inv s → mem s' !! l = Some n → (∃ m, mem s !! l = Some m ∧ mapping m = mapping n) ∨ was_added (mapping n).
Proof.
  intros Hstep Hinv. destruct Hstep as [s t r Hnone Hr|s t q new q' h' hd Hq Hnew Hadv]; simpl; [eauto|].
  pose proof (inv_threads s Hinv t q Hq) as Hok. destruct q; simpl in Hadv, Hok; try done; try (simplify_eq; by eauto).
  - simplify_eq. destruct (decide (new = l)) as [<-|]; [|rw lookup_insert_ne //; eauto].
    rw lookup_insert_eq. intros [= <-]. by right.
  - destruct Hok as [m Hm]. rw Hm in Hadv. simplify_eq/=.
    destruct (decide (new_mapping = l)) as [<-|]; [|rw lookup_insert_ne //; eauto].
    rw lookup_insert_eq. intros [= <-]. left. by exists m.
  - destruct inode_cache_mapping as [l'|]; [|simplify_eq; eauto]. destruct (mem s !! l'); simplify_eq/=. eauto.
Qed.

Lemma thread_ok_step s t s' p : inv s → step s t s' → thread_ok s p → thread_ok s' p.
Proof.
  intros Hinv Hstep. destruct p as [|l|l| |k curr| | | | | | | | | | | |[e|k [m|]]]; simpl; try done.
  - intros [n Hn]. destruct Hstep as [|s t q new q' h' hd Hq Hnew Hadv]; simpl; [by exists n|].
    pose proof (inv_threads s Hinv t q Hq) as Hok. destruct q; simpl in Hadv, Hok; try done; try (simplify_eq; by exists n).
    + simplify_eq. rw lookup_insert_ne; [|by exists n]. by intros ->; rw Hn in Hnew.
    + destruct Hok as [n' Hm]. rw Hm in Hadv. simplify_eq/=. apply lookup_insert_is_Some'. right. by exists n.
    + destruct inode_cache_mapping as [l'|]; [|simplify_eq; by exists n]. destruct (mem s !! l'); simplify_eq/=. by exists n.
  - intros [ls Hf]. exists ls. exact (followed_step s t s' _ ls Hinv Hstep Hf).
  - intros [ls Hf]. exists ls. exact (followed_step s t s' _ ls Hinv Hstep Hf).
Qed.

(** The thread that takes the step. *)
Lemma own_ok s t q new q' h' hd :
  inv s → threads s !! t = Some q → mem s !! new = None → advance new q (mem s) (head s) = Some (q', h', hd) →
  let s' := mkSystem h' hd (<[t := q']> (threads s)) in
  thread_ok s' q' ∧ (∃ ls, followed s' hd ls) ∧
  (∀ l, q' = Link l → l = new).
Proof.
  intros Hinv Hq Hnew Hadv s'. pose proof (inv_threads s Hinv t q Hq) as Hok.
  assert (step s t s') as Hstep by exact (step_statement s t q new q' h' hd Hq Hnew Hadv).
  assert (∃ ls, followed s' (head s) ls) as Hhead.
  { destruct (inv_head s Hinv) as [ls Hf]. exists ls. exact (followed_step s t s' _ ls Hinv Hstep Hf). }
  destruct q as [m|l|l|k|k curr| | | | | | | | | | | |]; simpl in Hadv, Hok; try done.
  - simplify_eq. split; [|split; [done|by intros l [= ->]]]. simpl. rw lookup_insert_eq. by eexists.
  - destruct Hok as [n Hm]. rw Hm in Hadv. simplify_eq/=. split; [|done].
    destruct (inv_head s Hinv) as [ls Hf]. destruct Hf as ([c Hl] & Hnd & Hfree).
    assert (l ∉ ls) as Hnl by by apply (Hfree t).
    exists (l :: ls). split; [|split; [by constructor|]].
    + exists (mapping n :: c). split; [done|]. exists (set_next (head s) n). simpl. rw lookup_insert_eq.
      split; [done|]. split; [done|]. eapply linked_ext; [|exact Hl]. intros l' Hl'. rw lookup_insert_ne //. by intros ->.
    + intros t' l'. simpl. destruct (decide (t = t')) as [<-|Hne]; [by rw lookup_insert_eq|].
      rw lookup_insert_ne //. intros Ht' [->|Hin]%elem_of_cons; [by apply Hne, (inv_own s Hinv t t' l)|by apply (Hfree t' l')].
  - simplify_eq. split; [done|]. split; [|done]. destruct Hok as [ls Hf]. exists ls. exact (followed_step s t s' _ ls Hinv Hstep Hf).
  - simplify_eq. done.
  - destruct curr as [l|]; [|by simplify_eq]. destruct Hok as [ls Hf]. pose proof Hf as ([c Hl] & Hnd & Hfree).
    destruct ls as [|l' ls], c as [|m c]; try done. destruct Hl as ([= <-] & n & Hn & <- & Hl). rw Hn in Hadv. simplify_eq/=.
    destruct (matches k (mapping n)) eqn:Hm; simpl; [split; [split; [done|exact (inv_mappings s Hinv l n Hn)]|done]|].
    split; [|done]. exists ls. apply (followed_step s t s' _ ls Hinv Hstep). apply NoDup_cons in Hnd as [_ Hnd].
    split; [by exists c|]. split; [done|]. intros t' l' Ht' Hin. apply (Hfree t' l' Ht'). by constructor.
Qed.

Lemma cache_step_inv s t s' : inv s → step s t s' → inv s'.
Proof.
  intros Hinv Hstep.
  assert (∀ l n, mem s' !! l = Some n → was_added (mapping n)) as Hmap.
  { intros l n Hn. destruct (step_mem s t s' l n Hstep Hinv Hn) as [(m & Hm & <-)|]; [exact (inv_mappings s Hinv l m Hm)|done]. }
  destruct Hstep as [s t r Hnone Hr|s t q new q' h' hd Hq Hnew Hadv].
  - pose proof (step_call s t r Hnone Hr) as Hstep. constructor; [| | |exact Hmap]; simpl.
    + intros t' p. destruct (decide (t = t')) as [<-|]; 
        [|rw lookup_insert_ne //; intros Hp; exact (thread_ok_step _ _ _ p Hinv Hstep (inv_threads s Hinv t' p Hp))].
      rw lookup_insert_eq. intros [= <-]. pose proof (Hasked r Hr). destruct r; try done. simpl. eexists _, _. split; [exact Hr|done].
    + intros t1 t2 l. destruct (decide (t = t1)) as [<-|], (decide (t = t2)) as [<-|]; try done;
        rw ?lookup_insert_eq ?lookup_insert_ne //; try by destruct r. apply (inv_own s Hinv).
    + destruct (inv_head s Hinv) as [ls Hf]. exists ls. exact (followed_step _ _ _ _ _ Hinv Hstep Hf).
  - pose proof (step_statement s t q new q' h' hd Hq Hnew Hadv) as Hstep.
    destruct (own_ok s t q new q' h' hd Hinv Hq Hnew Hadv) as (Hown & Hhead & Hlink).
    constructor; [| |exact Hhead|exact Hmap]; simpl.
    + intros t' p. destruct (decide (t = t')) as [<-|]; [rw lookup_insert_eq; by intros [= <-]|].
      rw lookup_insert_ne //. intros Hp. exact (thread_ok_step _ _ _ p Hinv Hstep (inv_threads s Hinv t' p Hp)).
    + assert (∀ t' l, threads s !! t' = Some (Link l) → q' = Link l → False) as Hdiff.
      { intros t' l Hl Hq'. destruct (inv_threads s Hinv t' _ Hl) as [n Hn]. by rw (Hlink l Hq') Hnew in Hn. }
      intros t1 t2 l. destruct (decide (t = t1)) as [<-|], (decide (t = t2)) as [<-|]; try done;
        rw ?lookup_insert_eq ?lookup_insert_ne //.
      * intros [= Hq'] Hl. by destruct (Hdiff t2 l Hl).
      * intros Hl [= Hq']. by destruct (Hdiff t1 l Hl).
      * apply (inv_own s Hinv).
Qed.

Lemma cache_inv s : reachable s → inv s.
Proof.
  rw /reachable. intros Hr. pose proof inv_empty as Hinv. revert Hinv.
  induction Hr as [|s1 s2 s3 [t Hstep] _ IH]; [done|]. intros Hinv. exact (IH (cache_step_inv s1 t s2 Hinv Hstep)).
Qed.

(** A statement leaves the other threads where they are. *)
Lemma step_others s t s' t' : step s t s' → t ≠ t' → threads s' !! t' = threads s !! t'.
Proof. intros [] Hne; simpl; by rw lookup_insert_ne. Qed.

Lemma returned_takes t n s s' r : takes t n s s' → threads s !! t = Some (Returned r) → n = 0%nat.
Proof.
  induction 1 as [|n s t' s' s'' Hne Hstep _ IH|n s s' s'' Hstep _ _]; intros Ht; [done| |].
  - apply IH. by rw (step_others _ _ _ _ Hstep Hne).
  - destruct Hstep as [s t r' Hnone|s t q new q' h' hd Hq _ Hadv]; by simplify_eq.
Qed.

(** A search has at most a statement per node on its way, and one for the end. *)
Lemma search_takes t n s s' : takes t n s s' → inv s → ∀ k curr ls,
  threads s !! t = Some (Search k curr) → followed s curr ls → (n ≤ S (length ls))%nat.
Proof.
  induction 1 as [s|n s t' s' s'' Hne Hstep _ IH|n s s' s'' Hstep Htakes IH]; intros Hinv k curr ls Ht Hf; [lia| |].
  - apply (IH (cache_step_inv _ _ _ Hinv Hstep) k curr); [by rw (step_others _ _ _ _ Hstep Hne)|].
    exact (followed_step _ _ _ _ _ Hinv Hstep Hf).
  - pose proof (cache_step_inv _ _ _ Hinv Hstep) as Hinv'. pose proof (followed_step _ _ _ _ _ Hinv Hstep Hf) as Hf'.
    destruct Hstep as [s t r' Hnone|s t q new q' h' hd Hq _ Hadv]; simplify_eq.
    pose proof Hf as ([c Hl] & Hnd & Hfree). destruct curr as [l|]; simpl in Hadv.
    + destruct ls as [|l' ls], c as [|m c]; try done. destruct Hl as ([= <-] & x & Hx & <- & Hl). rw Hx in Hadv. simplify_eq/=.
      destruct (matches k (mapping x)).
      * rw (returned_takes _ _ _ _ (Found k (Some (mapping x))) Htakes); [by rw lookup_insert_eq|lia].
      * apply le_n_S, (IH Hinv' k (next x) ls); [by rw lookup_insert_eq|].
        destruct Hf' as ([c' Hl'] & Hnd' & Hfree'). destruct c' as [|m' c']; [done|].
        destruct Hl' as (_ & y & Hy & _ & Hl'). simpl in Hy. rw Hx in Hy. simplify_eq.
        split; [by exists c'|]. split; [by apply NoDup_cons in Hnd' as [_ ?]|].
        intros t' l' Ht' Hin. apply (Hfree' t' l' Ht'). by constructor.
    + simplify_eq. rw (returned_takes _ _ _ _ (Found k None) Htakes); [by rw /= lookup_insert_eq|lia].
Qed.

Lemma followed_size s p ls : followed s p ls → (length ls ≤ size (mem s))%nat.
Proof.
  intros Hf. destruct Hf as ([c Hl] & Hnd & _). rw -(size_list_to_set (C:=gset loc) ls) // -size_dom. apply subseteq_size.
  intros l Hin%elem_of_list_to_set. apply elem_of_dom. exact (linked_in _ _ _ _ _ Hl Hin).
Qed.

(** C31: without the mutex that the cache does not have, adding and
    searching stay within memory: as long as the threads only add mappings and
    search, then however their statements interleave, none of them follows a NULL or
    dangling pointer, the cache is a list without a cycle, a search that has begun
    ends within a statement per node that there was and one more, whatever
    the other threads do, and what it finds has the inode number or path it searched
    for and was added by one of the threads. *)
Theorem unlocked_searches_are_safe s (Hs : reachable s) :
  (∀ t, ¬ faults s t) ∧
  (∃ c, represents (mem s) (head s) c) ∧
  (∀ t k curr n s', threads s !! t = Some (Search k curr) → takes t n s s' → (n ≤ S (size (mem s)))%nat) ∧
  (∀ t k m, threads s !! t = Some (Returned (Found k (Some m))) → matches k m = true ∧ was_added m).
Proof.
  pose proof (cache_inv s Hs) as Hinv. split; [|split; [|split]].
  - intros t (p & new & Hp & Hret & Hnew & Hadv). pose proof (inv_threads s Hinv t p Hp) as Hok.
    destruct p; simpl in Hadv, Hok; try done.
    + destruct Hok as [n Hn]. by rw Hn in Hadv.
    + destruct inode_cache_mapping as [l|]; [|done]. destruct Hok as ([|l' ls] & ([[|m c] Hl] & _)); try done.
      destruct Hl as ([= <-] & n & Hn & _). by rw Hn in Hadv.
    + by destruct (Hret r).
  - destruct (inv_head s Hinv) as (ls & [c Hl] & Hnd & _). exists c. by exists ls.
  - intros t k curr n s' Ht Htakes. destruct (inv_threads s Hinv t _ Ht) as [ls Hf].
    pose proof (search_takes t n s s' Htakes Hinv k curr ls Ht Hf). pose proof (followed_size s curr ls Hf). lia.
  - intros t k m Ht. exact (inv_threads s Hinv t _ Ht).
Qed.
End interleaving.

(** * Schedules *)

(** A thread calls a function, or carries out its next statement. *)
Definition act (s : cache_system) (e : thread * option request) : option cache_system :=
  let '(t, call) := e in
  match call, threads s !! t with
  | Some r, None => Some (mkSystem (mem s) (head s) (<[t := begins r]> (threads s)))
  | None, Some p =>
      '(p, h, head) ← advance (fresh (dom (mem s))) p (mem s) (head s);
      Some (mkSystem h head (<[t := p]> (threads s)))
  | _, _ => None
  end.

Fixpoint schedule (s : cache_system) (l : list (thread * option request)) : option cache_system :=
  match l with [] => Some s | e :: l => s ← act s e; schedule s l end.

Lemma act_step asked s e s' :
  act s e = Some s' → (∀ r, e.2 = Some r → asked r) → step asked s e.1 s'.
Proof.
  destruct e as [t [r|]]; rw /act; destruct (threads s !! t) as [p|] eqn:Ht; try done.
  - intros [= <-] Hr. constructor; [done|by apply Hr].
  - destruct (advance _ p (mem s) (head s)) as [[[p' h'] hd]|] eqn:Hadv; [|done]. intros [= <-] _.
    apply (step_statement _ s t p (fresh (dom (mem s)))); try done. apply not_elem_of_dom, is_fresh.
Qed.

Lemma schedule_reachable asked l s :
  schedule empty_cache l = Some s → Forall (λ e, ∀ r, e.2 = Some r → asked r) l → reachable asked s.
Proof.
  rw /reachable. generalize empty_cache as s0. induction l as [|e l IH]; simpl; [intros s0 [= <-] _; constructor|].
  intros s0. destruct (act s0 e) as [s1|] eqn:Hact; [|done]. intros Hs [He Hl]%Forall_cons.
  eapply rtc_l; [exists e.1; exact (act_step asked s0 e s1 Hact He)|exact (IH s1 Hs Hl)].
Qed.

Definition file_a : Nfs.NfsFileHandle := Nfs.mkNfsFileHandle 1 0.
Definition file_b : Nfs.NfsFileHandle := Nfs.mkNfsFileHandle 2 0.

(** A mapping can be lost: two threads that add mappings of two files read the
    same head, both calls report success, and the first file's handle does not
    resolve any more. *)
Theorem concurrent_adds_lose_a_mapping :
  ∃ s, reachable (λ r, r = Add file_a "/a" ∨ r = Add file_b "/b") s ∧
    threads s !! 1%positive = Some (Returned (Code 0)) ∧ threads s !! 2%positive = Some (Returned (Code 0)) ∧
    run_alone 9 (begins (Find (ByInode 1))) (mem s) (head s) = Some (Found (ByInode 1) None, mem s, head s).
Proof.
  pose (l := [(1%positive, Some (Add file_a "/a")); (2%positive, Some (Add file_b "/b"));
              (1%positive, None); (2%positive, None); (1%positive, None); (2%positive, None);
              (1%positive, None); (2%positive, None)]).
  destruct (schedule empty_cache l) as [s|] eqn:Hs; [|by vm_compute in Hs].
  exists s. split; [|vm_compute in Hs; injection Hs as <-; by vm_compute].
  apply (schedule_reachable _ l); [done|]. rw /l. repeat (apply Forall_cons_2; [by intros r Hr; simplify_eq/=; auto|]). apply Forall_nil_2.
Qed.

(** A search next to a removal follows a pointer to a node that the removal has
    freed. *)
Theorem search_next_to_removal_reads_freed_memory :
  ∃ s t, reachable (λ _, True) s ∧ faults s t.
Proof.
  pose (l := [(1%positive, Some (Add file_a "/a")); (1%positive, None); (1%positive, None); (1%positive, None);
              (2%positive, Some (Find (ByInode 1))); (2%positive, None);
              (3%positive, Some (Remove (ByPath "/a"))); (3%positive, None); (3%positive, None); (3%positive, None)]).
  destruct (schedule empty_cache l) as [s|] eqn:Hs; [|by vm_compute in Hs].
  exists s, 2%positive. split; [by apply (schedule_reachable _ l), Forall_true|].
  vm_compute in Hs. injection Hs as <-. eexists (Search (ByInode 1) _), 9%positive. split_and!; by vm_compute.
Qed.

(** * Witnesses *)

Definition small_heap : heap := {[ 1%positive := mkNode (mkMapping file_a "/a") (Some 2%positive);
                                   2%positive := mkNode (mkMapping file_b "/b") None ]}.

Lemma pointers_implement_lists_witness :
  ∃ h' head', run_alone 8 (begins (Remove (ByPath "/b"))) small_heap (Some 1%positive) = Some (Code 0, h', head') ∧
    represents h' head' [mkMapping file_a "/a"].
Proof.
  apply (pointers_implement_lists (Remove (ByPath "/b")) small_heap (Some 1%positive) [mkMapping file_a "/a"; mkMapping file_b "/b"] 8).
  - exists [1%positive; 2%positive]. split; [|by apply (bool_decide_unpack _); vm_compute].
    split; [done|]. eexists. split; [done|]. split; [done|]. split; [done|]. eexists. split; [done|]. by split.
  - simpl. lia.
Defined.

(** Two threads add, a third has begun to search between their statements. *)
Definition small_schedule : list (thread * option request) :=
  [(1%positive, Some (Add file_a "/a")); (1%positive, None); (2%positive, Some (Add file_b "/b"));
   (1%positive, None); (2%positive, None); (1%positive, None); (3%positive, Some (Find (ByInode 1)));
   (3%positive, None); (2%positive, None)].

Lemma unlocked_searches_are_safe_witness :
  ∃ s, schedule empty_cache small_schedule = Some s ∧
    is_Some (threads s !! 3%positive) ∧ (∀ t, ¬ faults s t) ∧ ∃ c, represents (mem s) (head s) c.
Proof.
  eexists. split; [by vm_compute|]. split; [eexists; by vm_compute|].
  refine ((λ H, conj (proj1 H) (proj1 (proj2 H))) (unlocked_searches_are_safe adds_or_finds (λ _ H, H) _ _)).
  apply (schedule_reachable adds_or_finds small_schedule); [by vm_compute|].
  rw /small_schedule. repeat (apply Forall_cons_2; [by intros r Hr; simplify_eq/=|]). apply Forall_nil_2.
Defined.
