(* ===== verification/FileManagement.v ===== *)
(** [src/nfs/server/file_management.c] and [src/path_building/path_building.c]:
    file handles, attributes, and reading and writing files. *)
From S2P Require Import Prelude Messages Posix InodeCache.

(** * path_building.c *)

(** [directory_absolute_path/file_name], with no inspection of either. *)
Definition get_file_absolute_path (directory_absolute_path file_name : string) : string :=
  directory_absolute_path +:+ "/" +:+ file_name.

(** * file_management.c *)

(** Reads out the file type from the mode. *)
Definition decode_file_type (st_mode : Z) : Nfs.FType :=
  if S_ISREG st_mode then Nfs.NFREG
  else if S_ISDIR st_mode then Nfs.NFDIR
  else if S_ISBLK st_mode then Nfs.NFBLK
  else if S_ISCHR st_mode then Nfs.NFCHR
  else if S_ISLNK st_mode then Nfs.NFLNK
  else Nfs.NFNON.

Definition time_val_of (t : timespec) : Nfs.TimeVal :=
  Nfs.mkTimeVal (wrap64 (tv_sec t)) (wrap64 (tv_nsec t)).

(** The fields [get_attributes] copies out of [struct stat]. *)
Definition fattr_of_stat (file_stat : stat) : Nfs.FAttr := {|
  Nfs.fa_ftype := Some (decode_file_type (st_mode file_stat));
  Nfs.fa_mode := st_mode file_stat;
  Nfs.fa_nlink := st_nlink file_stat;
  Nfs.fa_uid := st_uid file_stat;
  Nfs.fa_gid := st_gid file_stat;
  Nfs.fa_size := wrap64 (st_size file_stat);
  Nfs.fa_blocksize := wrap64 (st_blksize file_stat);
  Nfs.fa_rdev := st_rdev file_stat;
  Nfs.fa_blocks := wrap64 (st_blocks file_stat);
  Nfs.fa_fsid := st_dev file_stat;
  Nfs.fa_fileid := st_ino file_stat;
  Nfs.fa_atime := Some (time_val_of (st_atim file_stat));
  Nfs.fa_mtime := Some (time_val_of (st_mtim file_stat));
  Nfs.fa_ctime := Some (time_val_of (st_ctim file_stat)) |}.

Section file_management.
Context `{Posix OS}.
Implicit Types (os : OS) (path : string).

(** An error code, or the inode number. *)
Definition get_inode_number path os : Z + Z :=
  match lstat path os with
  | inl _ => inl 1
  | inr file_stat => inr (st_ino file_stat)
  end.

(** NULL on failure; on success the mapping is added to the cache. *)
Definition create_nfs_filehandle path os (inode_number_cache : InodeCache)
    : option Nfs.NfsFileHandle * InodeCache :=
  match get_inode_number path os with
  | inl _ => (None, inode_number_cache)
  | inr inode_number =>
      let nfs_filehandle := Nfs.mkNfsFileHandle inode_number (wrap64 (time os)) in
      let '(error_code, cache) := add_inode_mapping (Some nfs_filehandle) path inode_number_cache in
      if error_code >? 0 then (None, cache) else (Some nfs_filehandle, cache)
  end.

(** An error code, or the attributes. *)
Definition get_attributes path os : Z + Nfs.FAttr :=
  match lstat path os with
  | inl _ => inl 1
  | inr file_stat => inr (fattr_of_stat file_stat)
  end.

(** The error code, the bytes placed in the buffer and the new state. *)
Definition read_from_file (file_absolute_path : option string) (offset byte_count : Z) os
    : Z * list byte * OS :=
  match file_absolute_path with
  | None => (1, [], os)
  | Some path =>
      match fopen path "rb" os with
      | (inl _, os) => (2, [], os)
      | (inr file, os) =>
          match fseek_set file offset os with
          | (inl _, os) => (3, [], (fclose file os).2)
          | (inr _, os) =>
              let '((destination_buffer, ferror), os) := fread file byte_count os in
              if ferror then (4, destination_buffer, (fclose file os).2)
              else (0, destination_buffer, (fclose file os).2)
          end
      end
  end.

(** The error code and the new state. The result of [fclose], which flushes
    the stream's buffer, is not looked at. *)
Definition write_to_file (file_absolute_path : option string) (offset byte_count : Z)
    (source_buffer : list byte) os : Z * OS :=
  match file_absolute_path with
  | None => (1, os)
  | Some path =>
      match fopen path "r+b" os with
      | (inl _, os) => (2, os)
      | (inr file, os) =>
          match fseek_set file offset os with
          | (inl _, os) => (3, (fclose file os).2)
          | (inr _, os) =>
              let '(bytes_written, os) := fwrite file (take (Z.to_nat byte_count) source_buffer) os in
              if bytes_written !=? byte_count then
                let os := (fclose file os).2 in
                (match errno_now os with
                 | EFBIG => 4
                 | EIO => 5
                 | ENOSPC | ENOMEM => 6
                 | _ => 7
                 end, os)
              else (0, (fclose file os).2)
          end
      end
  end.
End file_management.

(** * What stdio documents *)

(** [data] written at [offset]; a gap is filled with zeros. *)
Definition splice (offset : nat) (data content : list byte) : list byte :=
  take offset content ++ replicate (offset - length content) x00 ++ data ++
  drop (offset + length data) content.

(** The file that opening a path reaches, the content of files and the
    position of open streams. Writing through one path shows at every path that
    reaches the same file. The effect of [fwrite] is certain once [fclose],
    which flushes the stream, succeeded. *)
Class Stdio (OS : Type) `{Posix OS} := {
  file_id : string → OS → option Z;
  content : string → OS → option (list byte);
  stream : FILE → OS → option (string * Z);
  fopen_ok path mode o f o' : mode ∈ ["rb"; "r+b"] → fopen path mode o = (inr f, o') →
    stream f o' = Some (path, 0) ∧ ∀ p, content p o' = content p o ∧ file_id p o' = file_id p o;
  fseek_ok f path i pos o o' : stream f o = Some (path, i) → fseek_set f pos o = (inr tt, o') →
    stream f o' = Some (path, pos) ∧ ∀ p, content p o' = content p o ∧ file_id p o' = file_id p o;
  fread_ok f path pos n c o data o' : stream f o = Some (path, pos) → content path o = Some c →
    fread f n o = ((data, false), o') →
    data = take (Z.to_nat n) (drop (Z.to_nat pos) c) ∧ ∀ p, content p o' = content p o;
  fwrite_ok f path pos data c o o' : stream f o = Some (path, pos) → content path o = Some c →
    fwrite f data o = (Z.of_nat (length data), o') →
    content path o' = Some (splice (Z.to_nat pos) data c) ∧
    ∀ p, file_id p o ≠ file_id path o → content p o' = content p o;
  fclose_ok f o o' : fclose f o = (inr tt, o') → ∀ p, content p o' = content p o;
  fread_bound f n o data e o' : 0 ≤ n → fread f n o = ((data, e), o') → Z.of_nat (length data) ≤ n;
}.

(** * Lemmas *)

Lemma splice_read off data c :
  take (length data) (drop off (splice off data c)) = data.
Proof.
  rw /splice. set (pre := take off c ++ replicate (off - length c) x00).
  assert (length pre = off) as Hl by (rw /pre length_app length_take length_replicate; lia).
  rw app_assoc -/pre -{1}Hl drop_app_length. by rw take_app_length.
Qed.

Section lemmas.
Context `{Posix OS}.

Lemma create_nfs_filehandle_Some path (os : OS) cache st :
  lstat path os = inr st →
  create_nfs_filehandle path os cache =
  (Some (Nfs.mkNfsFileHandle (st_ino st) (wrap64 (time os))),
   mkMapping (Nfs.mkNfsFileHandle (st_ino st) (wrap64 (time os))) path :: cache).
Proof. intros Hst. by rw /create_nfs_filehandle /get_inode_number Hst. Qed.

Lemma create_nfs_filehandle_None path (os : OS) cache e :
  lstat path os = inl e → create_nfs_filehandle path os cache = (None, cache).
Proof. intros He. by rw /create_nfs_filehandle /get_inode_number He. Qed.

(** A fresh handle resolves to the path it was made for. *)
Lemma create_nfs_filehandle_resolves path (os : OS) cache h cache' :
  create_nfs_filehandle path os cache = (Some h, cache') →
  get_absolute_path_from_inode_number (Nfs.inode_number h) cache' = Some path.
Proof.
  destruct (lstat path os) as [e|st] eqn:Hst.
  - by rw (create_nfs_filehandle_None _ _ _ _ Hst).
  - rw (create_nfs_filehandle_Some _ _ _ _ Hst). intros; simplify_eq/=.
    by rw /mapping_ino /= Z.eqb_refl.
Qed.

Lemma get_attributes_inr path (os : OS) a :
  get_attributes path os = inr a ↔ ∃ st, lstat path os = inr st ∧ a = fattr_of_stat st.
Proof.
  rw /get_attributes. destruct (lstat path os) as [e|st].
  - split; [done|]. by intros (?&?&?).
  - split; [intros; simplify_eq; eauto|]. by intros (?&?&->); simplify_eq.
Qed.

Lemma get_attributes_inl path (os : OS) c :
  get_attributes path os = inl c ↔ c = 1 ∧ ∃ e, lstat path os = inl e.
Proof.
  rw /get_attributes. destruct (lstat path os) as [e|st].
  - split; [intros; simplify_eq; eauto|]. by intros (->&?&?).
  - split; [done|]. by intros (_&?&?).
Qed.
End lemmas.

Lemma validate_fattr_of_stat st : Validation.validate_nfs_fattr (Some (fattr_of_stat st)) = 0.
Proof. done. Qed.

(** The file type is a directory exactly for the S_IFDIR format. *)
Lemma decode_file_type_dir m :
  decode_file_type m = Nfs.NFDIR ↔ S_ISDIR m = true.
Proof.
  rw /decode_file_type /S_ISREG /S_ISDIR /S_ISBLK /S_ISCHR /S_ISLNK.
  destruct (Z.eqb_spec (Z.land m S_IFMT) S_IFREG) as [->|]; [done|].
  destruct (Z.eqb_spec (Z.land m S_IFMT) S_IFDIR); [done|].
  by repeat case_match.
Qed.

(** * Theorems *)

Section theorems.
Context `{Stdio OS}.

(** The outcome of a successful [write_to_file]. *)
Lemma write_to_file_content path off data c (o o1 : OS) :
  content path o = Some c → (∀ f o, ∃ o', fclose f o = (inr tt, o')) →
  write_to_file (Some path) off (Z.of_nat (length data)) data o = (0, o1) →
  content path o1 = Some (splice (Z.to_nat off) data c) ∧
  ∀ p, file_id p o ≠ file_id path o → content p o1 = content p o.
Proof.
  intros Hc Hclose. rw /write_to_file.
  destruct (fopen path _ o) as [[e|f] oa] eqn:Hopen; [done|].
  destruct (fopen_ok path "r+b" o f oa ltac:(by do 2 constructor) Hopen) as [Hf Ha].
  destruct (fseek_set f off oa) as [[e|[]] ob] eqn:Hseek; [done|].
  destruct (fseek_ok _ _ _ _ _ _ Hf Hseek) as [Hfb Hb].
  rw Nat2Z.id firstn_all. destruct (fwrite f data ob) as [n oc] eqn:Hwrite.
  destruct (Z.eqb_spec n (Z.of_nat (length data))) as [->|]; simpl.
  - destruct (Hclose f oc) as [od Hod]. rw Hod. intros [= <-].
    assert (∀ p, content p ob = content p o ∧ file_id p ob = file_id p o) as Hba.
    { intros p. destruct (Ha p), (Hb p). split; congruence. }
    destruct (fwrite_ok f path off data c ob oc) as [Hw1 Hw2]; [done|by rw (proj1 (Hba path))|done|].
    split; [by rw (fclose_ok _ _ _ Hod)|]. intros p Hp. rw (fclose_ok _ _ _ Hod) Hw2; [by rw !(proj2 (Hba _))|].
    apply Hba.
  - intros [= Hcode _]. by destruct (errno_now _).
Qed.

(** The outcome of a successful [read_from_file]. *)
Lemma read_from_file_content path off n c out (o o1 : OS) :
  content path o = Some c → read_from_file (Some path) off n o = (0, out, o1) →
  out = take (Z.to_nat n) (drop (Z.to_nat off) c).
Proof.
  intros Hc. rw /read_from_file.
  destruct (fopen path _ o) as [[e|f] oa] eqn:Hopen; [done|].
  destruct (fopen_ok path "rb" o f oa ltac:(by constructor) Hopen) as [Hf Ha].
  destruct (fseek_set f off oa) as [[e|[]] ob] eqn:Hseek; [done|].
  destruct (fseek_ok _ _ _ _ _ _ Hf Hseek) as [Hfb Hb].
  destruct (fread f n ob) as [[data e] oc] eqn:Hread. destruct e; [done|]. intros [= <- _].
  destruct (fread_ok f path off n c ob data oc) as [-> _]; [done|by rw (proj1 (Hb path)) (proj1 (Ha path))|done..].
Qed.

(** No more is read than asked for. *)
Lemma read_from_file_length path off n e out (o o1 : OS) :
  0 ≤ n → read_from_file (Some path) off n o = (e, out, o1) → Z.of_nat (length out) ≤ n.
Proof.
  intros Hn. rw /read_from_file. destruct (fopen path _ o) as [[?|f] oa]; [by intros [= <- <- <-]|].
  destruct (fseek_set f off oa) as [[?|?] ob]; [by intros [= <- <- <-]|].
  destruct (fread f n ob) as [[data er] oc] eqn:Hread. pose proof (fread_bound _ _ _ _ _ _ Hn Hread).
  by destruct er; intros [= <- <- <-].
Qed.

Lemma read_from_file_code path off n e out (o o1 : OS) :
  read_from_file (Some path) off n o = (e, out, o1) → 0 ≤ e.
Proof.
  rw /read_from_file. destruct (fopen path _ o) as [[?|f] oa]; [by intros [= <- <- <-]|].
  destruct (fseek_set f off oa) as [[?|?] ob]; [by intros [= <- <- <-]|].
  destruct (fread f n ob) as [[data er] oc]. by destruct er; intros [= <- <- <-].
Qed.

(** What a successful write stored at an offset is what a successful read of
    the same length at that offset returns, for every old content of the file
    (also past its end), and no other file is touched; as long as closing the
    file succeeds, which the code does not check. *)
Theorem write_then_read path off data c (o o1 o2 : OS) out
    (Hc : content path o = Some c) (Hflush : ∀ f o, ∃ o', fclose f o = (inr tt, o'))
    (Hwrite : write_to_file (Some path) off (Z.of_nat (length data)) data o = (0, o1))
    (Hread : read_from_file (Some path) off (Z.of_nat (length data)) o1 = (0, out, o2)) :
  out = data ∧ ∀ p, file_id p o ≠ file_id path o → content p o1 = content p o.
Proof.
  destruct (write_to_file_content path off data c o o1 Hc Hflush Hwrite) as [Hc1 Hother].
  split; [|done]. rw (read_from_file_content _ _ _ _ _ _ _ Hc1 Hread) Nat2Z.id. apply splice_read.
Qed.
End theorems.
