(* ===== verification/ReadDir.v ===== *)
(** [src/nfs/server/directory_reading.c]: READDIR sessions and reading pages
    of directory entries.

    A session is a node of a linked list; both the session pointer of a node
    and the client parameters of a session may be NULL, which the functions
    test for, so they are [option]s. A result of [None] means that the
    function does not produce a result: it dereferences a null pointer, or
    (in the loops) it does not terminate. *)
From S2P Require Import Prelude Messages Posix.

Record ReadDirSession := mkReadDirSession {
  client_authsysparams : option Rpc.AuthSysParams;
  directory_absolute_path : string;
  directory_inode_number : Z;
  directory_stream : DIR;
  last_readdir_rpc_timestamp : Z }.

Definition ReadDirSessionsList : Type := list (option ReadDirSession).

Definition READDIR_SESSION_TIMEOUT : Z := 30.

(** * AUTH_SYS parameters *)

(** [strdup] of the machine name needs it to be there. *)
Definition deep_copy_authsysparams (a : Rpc.AuthSysParams) : option Rpc.AuthSysParams :=
  machinename ← Rpc.machinename a;
  Some (Rpc.mkAuthSysParams (Rpc.timestamp a) (Some machinename) (Rpc.uid a) (Rpc.gid a)
          (Some (default [] (Rpc.gids a)))).

(** The last test compares the second [gid] with itself. *)
Definition compare_authsysparams (a1 a2 : option Rpc.AuthSysParams) : option Z :=
  match a1, a2 with
  | None, _ => Some 1
  | Some _, None => Some 1
  | Some a1, Some a2 =>
      n1 ← Rpc.machinename a1;
      n2 ← Rpc.machinename a2;
      if bool_decide (n1 ≠ n2) then Some 1
      else if Rpc.uid a1 !=? Rpc.uid a2 then Some 1
      else if Rpc.gid a2 !=? Rpc.gid a2 then Some 1
      else Some 0
  end.

(** * The list of sessions *)

(** [readdir_session->directory_inode_number == directory_inode_number &&
    compare_authsysparams(client, session) == 0], the second part evaluated
    only when the first holds. *)
Definition session_matches (client : option Rpc.AuthSysParams) (inode_number : Z)
    (s : ReadDirSession) : option bool :=
  if directory_inode_number s =? inode_number then
    c ← compare_authsysparams client (client_authsysparams s); Some (c =? 0)
  else Some false.

Fixpoint find_readdir_session_loop (client : option Rpc.AuthSysParams) (inode_number : Z)
    (curr : ReadDirSessionsList) : option Z :=
  match curr with
  | [] => Some 1
  | None :: curr => find_readdir_session_loop client inode_number curr
  | Some s :: curr =>
      if Validation.is_null (client_authsysparams s)
      then find_readdir_session_loop client inode_number curr
      else b ← session_matches client inode_number s;
           if (b : bool) then Some 0 else find_readdir_session_loop client inode_number curr
  end.

Definition find_readdir_session (client : option Rpc.AuthSysParams) (inode_number : Z)
    (sessions : ReadDirSessionsList) : option Z :=
  match client with None => Some 1 | Some _ => find_readdir_session_loop client inode_number sessions end.

(** The session is handed out by reference: its position in the list. *)
Fixpoint get_readdir_session_loop (client : option Rpc.AuthSysParams) (inode_number : Z)
    (i : nat) (curr : ReadDirSessionsList) : option (option (nat * ReadDirSession)) :=
  match curr with
  | [] => Some None
  | None :: curr => get_readdir_session_loop client inode_number (S i) curr
  | Some s :: curr =>
      if Validation.is_null (client_authsysparams s)
      then get_readdir_session_loop client inode_number (S i) curr
      else b ← session_matches client inode_number s;
           if (b : bool) then Some (Some (i, s))
           else get_readdir_session_loop client inode_number (S i) curr
  end.

Definition get_readdir_session (client : option Rpc.AuthSysParams) (inode_number : Z)
    (sessions : ReadDirSessionsList) : option (option (nat * ReadDirSession)) :=
  match client with
  | None => Some None
  | Some _ => get_readdir_session_loop client inode_number 0 sessions
  end.

Section directory_reading.
Context `{Posix OS} `{Codec}.
Implicit Types (os : OS).

(** NULL when the directory cannot be opened. *)
Definition create_new_readdir_session (client : option Rpc.AuthSysParams) (path : string)
    (inode_number : Z) os : option (option ReadDirSession * OS) :=
  match client with
  | None => Some (None, os)
  | Some a =>
      copy ← deep_copy_authsysparams a;
      match opendir path os with
      | (inl _, os) => Some (None, os)
      | (inr stream, os) =>
          Some (Some (mkReadDirSession (Some copy) path inode_number stream (wrap64 (time os))), os)
      end
  end.

Definition free_readdir_session (s : ReadDirSession) os : OS := (closedir (directory_stream s) os).2.

(** The error code, the list and the state. *)
Definition add_new_readdir_session (client : option Rpc.AuthSysParams) (path : string)
    (inode_number : Z) (sessions : ReadDirSessionsList) os
    : option (Z * ReadDirSessionsList * OS) :=
  '(s, os) ← create_new_readdir_session client path inode_number os;
  match s with
  | None => Some (2, sessions, os)
  | Some s => Some (0, Some s :: sessions, os)
  end.

(** The loop over the rest of the list; [skipped] are the nodes between
    [prev] and [curr], whose session pointer is NULL and which [prev] does
    not advance over. *)
Fixpoint remove_readdir_session_loop (client : option Rpc.AuthSysParams) (inode_number : Z)
    (prev : option ReadDirSession) (skipped curr : ReadDirSessionsList) os
    : option (Z * ReadDirSessionsList * OS) :=
  match curr with
  | [] => Some (6, prev :: skipped, os)
  | None :: curr =>
      remove_readdir_session_loop client inode_number prev (skipped ++ [None]) curr os
  | Some s :: curr =>
      b ← session_matches client inode_number s;
      if (b : bool) then Some (0, prev :: curr, free_readdir_session s os)
      else '(e, l, os) ← remove_readdir_session_loop client inode_number (Some s) [] curr os;
           Some (e, prev :: skipped ++ l, os)
  end.

Definition remove_readdir_session (client : option Rpc.AuthSysParams) (inode_number : Z)
    (sessions : ReadDirSessionsList) os : option (Z * ReadDirSessionsList * OS) :=
  match client with
  | None => Some (1, sessions, os)
  | Some _ =>
      match sessions with
      | [] => None
      | None :: _ => Some (3, sessions, os)
      | Some first_session :: rest =>
          if Validation.is_null (client_authsysparams first_session) then Some (4, sessions, os)
          else b ← session_matches client inode_number first_session;
               if (b : bool) then Some (0, rest, free_readdir_session first_session os)
               else remove_readdir_session_loop client inode_number (Some first_session) [] rest os
      end
  end.

(** The loop of [clean_up_expired_readdir_sessions]: a NULL session makes it
    spin forever ([continue] without advancing). *)
Fixpoint clean_up_expired_loop (current_time : Z) (curr : ReadDirSessionsList) os
    : option (ReadDirSessionsList * OS) :=
  match curr with
  | [] => Some ([], os)
  | None :: _ => None
  | Some s :: curr =>
      if current_time - last_readdir_rpc_timestamp s >? READDIR_SESSION_TIMEOUT then
        clean_up_expired_loop current_time curr (free_readdir_session s os)
      else '(l, os) ← clean_up_expired_loop current_time curr os; Some (Some s :: l, os)
  end.

Definition clean_up_expired_readdir_sessions (sessions : ReadDirSessionsList) os
    : option (ReadDirSessionsList * OS) :=
  clean_up_expired_loop (time os) sessions os.

(** * Reading a page *)

Definition directory_entry_of (e : dirent) (posix_cookie : Z) : Nfs.DirectoryEntry :=
  Nfs.mkDirectoryEntry (wrap64 (d_ino e)) (Some (Nfs.mkFileName (Some (d_name e))))
    (Some (Nfs.mkNfsCookie (wrap64 posix_cookie))).

(** The [do ... while] loop: error code, entries, end-of-stream flag. [acc]
    is the list built so far and [total_size] its packed size. *)
Fixpoint read_entries (fuel : nat) (d : DIR) (byte_count total_size : Z)
    (acc : list Nfs.DirectoryEntry) os : option (Z * list Nfs.DirectoryEntry * Z * OS) :=
  match fuel with
  | O => None
  | S fuel =>
      match readdir d os with
      | (RdEnd, os) => Some (0, acc, 1, os)
      | (RdError _, os) => Some (5, [], 0, os)
      | (RdEntry directory_entry, os) =>
          let posix_cookie := telldir d os in
          if posix_cookie <? 0 then Some (6, [], 0, os) else
          let new_entry := directory_entry_of directory_entry posix_cookie in
          let packed_size := directory_entry_packed_size new_entry in
          if wrap64 (total_size + packed_size) >? byte_count then Some (0, acc, 0, os) else
          let total_size := wrap32 (total_size + packed_size) in
          let acc := acc ++ [new_entry] in
          if total_size <? byte_count then read_entries fuel d byte_count total_size acc os
          else Some (0, acc, 0, os)
      end
  end.

(** Every iteration that continues adds at least one byte to the page, so
    [byte_count + 1] iterations are enough. *)
Definition read_entries_fuel (byte_count : Z) : nat := S (Z.to_nat byte_count).

Definition set_timestamp (t : Z) (s : ReadDirSession) : ReadDirSession :=
  mkReadDirSession (client_authsysparams s) (directory_absolute_path s) (directory_inode_number s)
    (directory_stream s) t.

(** Error code, entries, end-of-stream flag, and the new list and state. *)
Definition read_from_directory (client : option Rpc.AuthSysParams) (path : string)
    (inode_number : Z) (sessions : ReadDirSessionsList) (offset_cookie byte_count : Z) os
    : option (Z * list Nfs.DirectoryEntry * Z * ReadDirSessionsList * OS) :=
  match client with
  | None => Some (2, [], 0, sessions, os)
  | Some _ =>
      found ← find_readdir_session client inode_number sessions;
      '(e, sessions, os) ←
        (if found !=? 0 then add_new_readdir_session client path inode_number sessions os
         else Some (0, sessions, os));
      if e >? 0 then Some (3, [], 0, sessions, os) else
      r ← get_readdir_session client inode_number sessions;
      match r with
      | None => Some (4, [], 0, sessions, os)
      | Some (i, session) =>
          let d := directory_stream session in
          let os := if offset_cookie =? 0 then rewinddir d os else seekdir d offset_cookie os in
          '(code, entries, eof, os) ←
            read_entries (read_entries_fuel byte_count) d byte_count 0 [] os;
          if code >? 0 then Some (code, [], 0, sessions, os) else
          let sessions := <[i := Some (set_timestamp (wrap64 (time os)) session)]> sessions in
          if eof =? 1 then
            '(e, sessions, os) ← remove_readdir_session client inode_number sessions os;
            if e >? 0 then Some (7, [], eof, sessions, os) else Some (0, entries, eof, sessions, os)
          else Some (0, entries, eof, sessions, os)
      end
  end.
End directory_reading.

(** * Well-formedness of the session list *)

(** A client that passed the credential checks: its machine name is there. *)
Definition client_ok (client : option Rpc.AuthSysParams) : Prop :=
  ∃ a n, client = Some a ∧ Rpc.machinename a = Some n.

Definition session_ok (o : option ReadDirSession) : Prop :=
  ∃ s, o = Some s ∧ client_ok (client_authsysparams s).

Definition sessions_ok (l : ReadDirSessionsList) : Prop := Forall session_ok l.

(** The session belongs to this machine and user (the group is not looked
    at) and reads this directory. *)
Definition is_session (client : option Rpc.AuthSysParams) (inode_number : Z)
    (o : option ReadDirSession) : bool :=
  match client, o with
  | Some a, Some s =>
      match client_authsysparams s with
      | Some b => bool_decide (directory_inode_number s = inode_number ∧
                               Rpc.machinename a = Rpc.machinename b ∧ Rpc.uid a = Rpc.uid b)
      | None => false
      end
  | _, _ => false
  end.

#[global] Arguments is_session : simpl never.
#[global] Arguments remove_readdir_session : simpl never.

(** The sum of the packed sizes of the entries, each taken by itself, as the loop
    adds them up. The page that is sent is larger: its entries are nested. *)
Definition page_size `{Codec} (l : list Nfs.DirectoryEntry) : Z :=
  foldr (λ e n, directory_entry_packed_size e + n) 0 l.

(** Touched within the last [READDIR_SESSION_TIMEOUT] seconds. *)
Definition not_expired (now : Z) (o : option ReadDirSession) : bool :=
  match o with
  | Some s => now - last_readdir_rpc_timestamp s <=? READDIR_SESSION_TIMEOUT
  | None => true
  end.

(** At most one session per client and directory. *)
Fixpoint sessions_unique (l : ReadDirSessionsList) : Prop :=
  match l with
  | [] => True
  | o :: l => (∀ client ino, is_session client ino o = true →
                 find_first (is_session client ino) l = None) ∧ sessions_unique l
  end.

(** An entry of a directory, with a name of at most 255 bytes. *)
Definition wire_entry (e : Nfs.DirectoryEntry) : Prop :=
  ∃ ino name cookie, e = Nfs.mkDirectoryEntry ino (Some (Nfs.mkFileName (Some name))) (Some (Nfs.mkNfsCookie cookie)) ∧
    u64 ino ∧ (String.length name ≤ 255)%nat ∧ u64 cookie.

Lemma directory_entry_wire e cookie : wire_entry (directory_entry_of e cookie).
Proof. eexists _, _, _. split; [done|]. split; [apply wrap64_range|]. split; [apply d_name_length|apply wrap64_range]. Qed.

(** What is known of the packed size of such an entry: it is positive, as the
    entry has a name, and far below 4 GiB. *)
Class PackedSizeBounds `{Codec} := packed_size_bounds e :
  wire_entry e → 1 ≤ directory_entry_packed_size e < 2 ^ 32.

(** * Lemmas *)

Section session_lemmas.
Context `{Posix OS} `{Codec}.
Implicit Types (os : OS) (client : option Rpc.AuthSysParams) (l : ReadDirSessionsList).

Lemma compare_authsysparams_ok a b n m :
  Rpc.machinename a = Some n → Rpc.machinename b = Some m →
  compare_authsysparams (Some a) (Some b) =
  Some (if bool_decide (Rpc.machinename a = Rpc.machinename b ∧ Rpc.uid a = Rpc.uid b)
        then 0 else 1).
Proof.
  intros Ha Hb. rw /= Ha Hb /= Z.eqb_refl /=.
  destruct (Z.eqb_spec (Rpc.uid a) (Rpc.uid b)) as [Hu|Hu], (decide (n = m)) as [->|];
    repeat case_bool_decide; simpl; try done.
  all: exfalso; intuition congruence.
Qed.

Lemma session_matches_ok client ino s :
  client_ok client → client_ok (client_authsysparams s) →
  session_matches client ino s = Some (is_session client ino (Some s)).
Proof.
  intros (a&n&->&Ha) (b&m&Hs&Hb). rw /session_matches /is_session Hs.
  destruct (Z.eqb_spec (directory_inode_number s) ino).
  - rw (compare_authsysparams_ok _ _ _ _ Ha Hb) /=. case_bool_decide as Hc; simpl.
    + by rw bool_decide_true.
    + rw bool_decide_false //. by intros (_&?&?); apply Hc.
  - rw bool_decide_false //. by intros (?&_).
Qed.

Lemma session_ok_not_null s : client_ok (client_authsysparams s) →
  Validation.is_null (client_authsysparams s) = false.
Proof. by intros (?&?&->&_). Qed.

Lemma session_ok_inv o : session_ok o → ∃ s, o = Some s ∧ client_ok (client_authsysparams s).
Proof. done. Qed.


Lemma find_readdir_session_spec client ino l :
  client_ok client → sessions_ok l →
  find_readdir_session client ino l =
  Some (match find_first (is_session client ino) l with Some _ => 0 | None => 1 end).
Proof.
  intros Hc. assert (find_readdir_session client ino l = find_readdir_session_loop client ino l)
    as -> by (by destruct Hc as (?&?&->&_)).
  induction l as [|o l IH]; [done|]. intros [(s & -> & Hs) Hl]%Forall_cons.
  rw /= (session_ok_not_null _ Hs) (session_matches_ok _ _ _ Hc Hs) /=.
  destruct (is_session client ino (Some s)); [done|]. by apply IH.
Qed.

Lemma get_readdir_session_loop_spec client ino k l :
  client_ok client → sessions_ok l →
  ∃ r, get_readdir_session_loop client ino k l = Some r ∧
    match r with
    | None => find_first (is_session client ino) l = None
    | Some (i, s) => ∃ j, i = (k + j)%nat ∧ l !! j = Some (Some s) ∧
                       find_first (is_session client ino) l = Some (Some s) ∧
                       ∀ s', is_session client ino (Some s') = true →
                         find_first (is_session client ino) (<[j := Some s']> l) = Some (Some s') ∧
                         remove_first (is_session client ino) (<[j := Some s']> l) =
                         remove_first (is_session client ino) l
    end.
Proof.
  intros Hc. revert k. induction l as [|o l IH]; intros k; [by eexists|].
  intros [(s & -> & Hs) Hl]%Forall_cons.
  rw /= (session_ok_not_null _ Hs) (session_matches_ok _ _ _ Hc Hs) /=.
  destruct (is_session client ino (Some s)) eqn:Hm.
  - eexists; split; [done|]. exists 0%nat. rw Nat.add_0_r. split_and!; [done..|]. intros s' Hs'. by rw /= Hs'.
  - destruct (IH (S k) Hl) as (r & Hr & Hspec). exists r. split; [done|].
    destruct r as [[i s'']|]; [|done]. destruct Hspec as (j & -> & Hj & Hf & Hrm).
    exists (S j). split_and!; [lia|done..|]. intros s' [? Hrs]%Hrm. by rw /= Hm Hrs.
Qed.

Lemma remove_readdir_session_loop_spec client ino prev l os s :
  client_ok client → sessions_ok l → find_first (is_session client ino) l = Some (Some s) →
  remove_readdir_session_loop client ino prev [] l os =
  Some (0, prev :: remove_first (is_session client ino) l, free_readdir_session s os).
Proof.
  intros Hc. revert prev. induction l as [|o l IH]; intros prev; [done|].
  intros [(s' & -> & Hs) Hl]%Forall_cons. rw /= (session_matches_ok _ _ _ Hc Hs) /=.
  destruct (is_session client ino (Some s')) eqn:Hm; [by intros; simplify_eq|].
  intros Hf. by rw IH.
Qed.

Lemma remove_readdir_session_spec client ino l os s :
  client_ok client → sessions_ok l → find_first (is_session client ino) l = Some (Some s) →
  remove_readdir_session client ino l os =
  Some (0, remove_first (is_session client ino) l, free_readdir_session s os).
Proof.
  intros Hc. destruct l as [|o l]; [done|]. intros [(s' & -> & Hs) Hl]%Forall_cons Hf.
  assert (∃ a, client = Some a) as [a ->] by (destruct Hc as (?&?&->&_); eauto).
  rw /remove_readdir_session (session_ok_not_null _ Hs) (session_matches_ok _ _ _ Hc Hs).
  simpl in Hf |- *. destruct (is_session _ ino (Some s')) eqn:Hm; simpl; [by simplify_eq|].
  rw (remove_readdir_session_loop_spec _ _ _ _ _ _ Hc Hl Hf). done.
Qed.

Lemma create_new_readdir_session_spec client path ino os :
  client_ok client →
  ∃ o os', create_new_readdir_session client path ino os = Some (o, os') ∧
    ∀ s, o = Some s → client_ok (client_authsysparams s) ∧ is_session client ino (Some s) = true.
Proof.
  intros (a & n & -> & Hn). rw /create_new_readdir_session /deep_copy_authsysparams Hn /=.
  destruct (opendir path os) as [[e|d] os']; do 2 eexists; (split; [done|]); [done|].
  intros s ?; simplify_eq/=. split; [by do 2 eexists|]. by rw /is_session /= bool_decide_true.
Qed.
End session_lemmas.

Section page_lemmas.
Context `{Posix OS} `{PackedSizeBounds}.
Implicit Types (os : OS) (l : ReadDirSessionsList).

Lemma page_size_app (l1 l2 : list Nfs.DirectoryEntry) : page_size (l1 ++ l2) = page_size l1 + page_size l2.
Proof. rw /page_size. induction l1 as [|e l1 IH]; simpl; lia. Qed.

Lemma validate_entries_app (l1 l2 : list Nfs.DirectoryEntry) :
  Validation.validate_entries (l1 ++ l2) =
  if Validation.validate_entries l1 =? 0 then Validation.validate_entries l2 else 1.
Proof. induction l1 as [|e l1 IH]; simpl; [done|]. by repeat case_match. Qed.

Lemma read_entries_total fuel d byte_count total acc os :
  u32 byte_count → page_size acc = total → 0 ≤ total ≤ byte_count →
  (Z.to_nat (byte_count - total) < fuel)%nat →
  Validation.validate_entries acc = 0 →
  ∃ code es eof os', read_entries fuel d byte_count total acc os = Some (code, es, eof, os') ∧
    (code = 0 ∨ code = 5 ∨ code = 6) ∧ (eof = 0 ∨ eof = 1) ∧ 0 ≤ page_size es ≤ byte_count ∧
    Validation.validate_entries es = 0.
Proof.
  rw /u32. intros Hu. revert total acc os.
  induction fuel as [|fuel IH]; intros total acc os Hacc Htot Hfuel Hval; [lia|]. simpl.
  destruct (readdir d os) as [[e| |e] os1].
  2: { do 4 eexists; split; [done|]. rw Hacc. split_and!; [lia..|done]. }
  2: { do 4 eexists; split; [done|]. simpl. split_and!; [lia..|done]. }
  destruct (telldir d os1 <? 0).
  { do 4 eexists; split; [done|]. simpl. split_and!; [lia..|done]. }
  set (ne := directory_entry_of e _). pose proof (packed_size_bounds ne (directory_entry_wire _ _)) as Hps.
  rw wrap64_small; [rw /u64; lia|]. destruct (_ >? byte_count) eqn:Hgt.
  { do 4 eexists; split; [done|]. rw Hacc. split_and!; [lia..|done]. }
  assert (page_size (acc ++ [ne]) = total + directory_entry_packed_size ne) as Hacc'.
  { rw page_size_app Hacc /page_size /=. lia. }
  assert (total + directory_entry_packed_size ne ≤ byte_count) by lia.
  assert (Validation.validate_entries (acc ++ [ne]) = 0) by (by rw validate_entries_app Hval).
  rw wrap32_small; [rw /u32; lia|]. case_match.
  - apply IH; [done|lia|lia|done].
  - do 4 eexists; split; [done|]. rw Hacc'. split_and!; [lia..|done].
Qed.
End page_lemmas.

Section unique_lemmas.
Implicit Types (l : ReadDirSessionsList) (client : option Rpc.AuthSysParams).

Lemma is_session_set_timestamp client ino t s :
  is_session client ino (Some (set_timestamp t s)) = is_session client ino (Some s).
Proof. by destruct s. Qed.

(** Two keys that share a session select the same sessions. *)
Lemma is_session_same_key c1 i1 c2 i2 o o' :
  is_session c1 i1 o = true → is_session c2 i2 o = true →
  is_session c1 i1 o' = is_session c2 i2 o'.
Proof.
  rw /is_session. destruct c1 as [a1|], c2 as [a2|], o as [s|]; try done.
  destruct (client_authsysparams s) as [b|]; [|done].
  intros (?&?&?)%bool_decide_eq_true_1 (?&?&?)%bool_decide_eq_true_1.
  destruct o' as [s'|]; [|done]. destruct (client_authsysparams s') as [b'|]; [|done].
  apply bool_decide_ext. intuition congruence.
Qed.

Lemma sessions_unique_sublist l l' : l' `sublist_of` l → sessions_unique l → sessions_unique l'.
Proof.
  induction 1 as [|o l' l Hsub IH|o l' l Hsub IH]; simpl; [done| |by intros []; auto].
  intros [Hn Hu]. split; [|auto]. intros c i Ho. apply find_first_None.
  intros x Hx. apply Hn in Ho. rw find_first_None in Ho. apply Ho. by apply (elem_of_sublist _ _ _ Hx).
Qed.

Lemma sessions_unique_remove p l : sessions_unique l → sessions_unique (remove_first p l).
Proof. apply sessions_unique_sublist, remove_first_sublist. Qed.

Lemma find_first_remove_unique client ino l :
  sessions_unique l →
  find_first (is_session client ino) (remove_first (is_session client ino) l) = None.
Proof.
  induction l as [|o l IH]; simpl; [done|]. intros [Hn Hu].
  destruct (is_session client ino o) eqn:Ho; simpl; [by apply Hn|]. rw Ho. auto.
Qed.

(** Replacing a session by one with the same key. *)
Lemma find_first_insert_same client ino l j s s' :
  l !! j = Some (Some s) →
  (∀ c i, is_session c i (Some s') = is_session c i (Some s)) →
  find_first (is_session client ino) l = None →
  find_first (is_session client ino) (<[j := Some s']> l) = None.
Proof.
  intros Hj Hk. rw !find_first_None. intros Hn x Hx.
  apply list_elem_of_lookup_1 in Hx as [k Hk']. rw list_lookup_insert in Hk'.
  case_decide as Hd; simplify_eq.
  - rw Hk. apply Hn, (list_elem_of_lookup_2 _ _ _ Hj).
  - apply Hn, (list_elem_of_lookup_2 _ _ _ Hk').
Qed.

Lemma sessions_unique_insert l j s s' :
  l !! j = Some (Some s) →
  (∀ c i, is_session c i (Some s') = is_session c i (Some s)) →
  sessions_unique l → sessions_unique (<[j := Some s']> l).
Proof.
  intros Hj Hk. revert j Hj. induction l as [|o l IH]; intros [|j]; simpl; [done..| |].
  - intros Ho [Hn Hu]; simplify_eq. split; [|done]. intros c i. rw Hk. apply Hn.
  - intros Hj [Hn Hu]. split; [|by apply IH]. intros c i Ho.
    eapply find_first_insert_same; eauto.
Qed.
End unique_lemmas.

Section read_from_directory.
Context `{Posix OS} `{PackedSizeBounds}.
Implicit Types (os : OS) (l : ReadDirSessionsList).

(** The session list after looking up or opening the caller's session. *)
Lemma open_session_spec client path ino l os :
  client_ok client → sessions_ok l → sessions_unique l →
  ∃ e l' os',
    (found ← find_readdir_session client ino l;
     if found !=? 0 then add_new_readdir_session client path ino l os else Some (0, l, os))
    = Some (e, l', os') ∧ (e = 0 ∨ e = 2) ∧ sessions_ok l' ∧ sessions_unique l' ∧
    (e = 0 → is_Some (find_first (is_session client ino) l')).
Proof.
  intros Hc Hl Hu. rw find_readdir_session_spec //.
  destruct (find_first (is_session client ino) l) as [o|] eqn:Hf; simpl.
  { do 3 eexists. split; [done|]. split; [by left|]. rw Hf. eauto. }
  destruct (create_new_readdir_session_spec client path ino os Hc) as (o & os' & Hcr & Ho).
  rw /add_new_readdir_session Hcr /=. destruct o as [s|]; simpl.
  - destruct (Ho s eq_refl) as [Hsc Hs]. do 3 eexists. split; [done|].
    split; [by left|]. split; [constructor; [by eexists|done]|]. split; [|rw /= Hs; eauto].
    split; [|done]. intros c i Hci. rw -Hf. apply find_first_ext. intros x _.
    by apply is_session_same_key with (o := Some s).
  - do 3 eexists. split; [done|]. split; [by right|]. done.
Qed.

(** Reading a page from the caller's open session. *)
Lemma read_session_spec client path ino l cookie byte_count os :
  client_ok client → sessions_ok l → sessions_unique l → u32 byte_count →
  ∃ code es eof l' os',
    read_from_directory client path ino l cookie byte_count os = Some (code, es, eof, l', os') ∧
    (code = 0 ∨ code = 3 ∨ code = 5 ∨ code = 6) ∧
    sessions_ok l' ∧ sessions_unique l' ∧ page_size es ≤ byte_count ∧
    Validation.validate_entries es = 0 ∧
    (code = 0 →
       (eof = 1 ∧ find_first (is_session client ino) l' = None) ∨
       (eof = 0 ∧ ∃ s, find_first (is_session client ino) l' = Some (Some s) ∧
                    last_readdir_rpc_timestamp s = wrap64 (time os'))).
Proof.
  intros Hc Hl Hu Hbc. pose proof Hc as (a & n & -> & Hn). rw /read_from_directory.
  assert (Hfuel : (Z.to_nat byte_count < read_entries_fuel byte_count)%nat) by (rw /read_entries_fuel; lia).
  revert Hfuel. generalize (read_entries_fuel byte_count). intros fuel Hfuel.
  destruct (open_session_spec _ path ino l os Hc Hl Hu) as (e & l1 & os1 & Hopen & He & Hl1 & Hu1 & Hf).
  destruct (find_readdir_session _ ino l) as [found|]; simpl in Hopen |- *; [|done].
  rw Hopen /=. destruct He as [-> | ->]; simpl.
  2: { do 5 eexists. split; [done|]. rw /u32 /page_size /= in Hbc |- *. split_and!; [lia|done|done|lia|done|done]. }
  destruct (Hf eq_refl) as [o Ho]. rw /= in Ho.
  destruct (get_readdir_session_loop_spec (Some a) ino 0 l1 Hc Hl1) as (r & Hr & Hspec).
  rw Hr /=. destruct r as [[i s]|]; [|congruence].
  destruct Hspec as (j & -> & Hj & Hfs & Hins). rw /=.
  set (os2 := if _ =? _ then _ else _). clearbody os2.
  destruct (read_entries_total fuel (directory_stream s) byte_count 0 [] os2)
    as (code & es & eof & os3 & Hre & Hcode & Heof & Hps & Hval);
    [done|done|rw /u32 in Hbc; lia|rw /u32 in Hbc; lia|done|].
  rw Hre /=. destruct Hcode as [-> | Hcode].
  2: { assert ((code >? 0) = true) as -> by lia. do 5 eexists. split; [done|].
       rw /u32 /page_size /= in Hbc |- *. split_and!; [lia|done|done|lia|done|lia]. }
  simpl. set (s' := set_timestamp _ s).
  assert (Hsame : ∀ c i, is_session c i (Some s') = is_session c i (Some s))
    by (intros; apply is_session_set_timestamp).
  assert (Hs : is_session (Some a) ino (Some s) = true) by (by apply find_first_Some in Hfs as [_ ?]).
  destruct (Hins s') as [Hfi Hri]; [by rw Hsame|].
  assert (Hl2 : sessions_ok (<[j := Some s']> l1)).
  { apply Forall_insert; [done|]. assert (session_ok (Some s)) as (s0 & ? & Hs0).
    { exact (Forall_lookup_1 _ _ _ _ Hl1 Hj). } simplify_eq. exists s'. by split. }
  assert (Hu2 : sessions_unique (<[j := Some s']> l1)) by (eapply sessions_unique_insert; eauto).
  destruct Heof as [-> | ->]; simpl.
  { do 5 eexists. split; [done|]. split_and!; [lia|done|done|lia|done|]. intros _. right. split; [done|].
    exists s'. by rw Hfi. }
  rw (remove_readdir_session_spec _ _ _ _ s' Hc Hl2 Hfi) /=. do 5 eexists. split; [done|].
  rw Hri. split_and!; [lia| |by apply sessions_unique_remove|lia|done|].
  - by apply remove_first_Forall.
  - intros _. left. split; [done|]. by apply find_first_remove_unique.
Qed.

(** Expired sessions are dropped and the others kept, in order. *)
Lemma clean_up_expired_spec t l os :
  sessions_ok l →
  ∃ os', clean_up_expired_loop t l os =
    Some (filter (λ o, not_expired t o = true) l, os').
Proof.
  intros Hl. revert os. induction l as [|o l IH]; intros os; [by eexists|].
  apply Forall_cons in Hl as [(s & -> & Hs) Hl]. simpl.
  destruct (_ >? _) eqn:Hgt.
  - destruct (IH Hl (free_readdir_session s os)) as [os' ->]. exists os'.
    rw filter_cons_False //=. lia.
  - destruct (IH Hl os) as [os' ->]. exists os'. rw /= filter_cons_True //=. lia.
Qed.
End read_from_directory.

(** * Directory streams *)

(** What POSIX says of an open directory stream whose directory does not change.
    [readdir] walks through the entries. [telldir] returns a number for the place
    of the stream, which means something for this stream only, and only until
    [rewinddir]; [seekdir] with such a number goes back to the place. [been] holds
    of the places at which the stream has been, and [telldir] could be asked, since
    it was opened or rewound. That the numbers behind an entry are positive is not
    in the standard: they are offsets of the file system, on Linux. *)
Class DirStreams (OS : Type) `{Posix OS} := {
  dir_open : DIR → OS → Prop;
  dir_entries : DIR → OS → list dirent;
  dir_pos : DIR → OS → nat;
  been : DIR → OS → nat → Prop;
  tell : DIR → OS → nat → Z;
  been_range d os n : dir_open d os → been d os n → (n ≤ length (dir_entries d os))%nat;
  tell_range d os n : dir_open d os → been d os (S n) → 0 < tell d os (S n) < 2 ^ 63;
  telldir_ok d os : dir_open d os → telldir d os = tell d os (dir_pos d os);
  readdir_next d os : dir_open d os → ∃ os',
    readdir d os = (match dir_entries d os !! dir_pos d os with Some e => RdEntry e | None => RdEnd end, os') ∧
    dir_open d os' ∧ dir_entries d os' = dir_entries d os ∧
    dir_pos d os' = (match dir_entries d os !! dir_pos d os with Some _ => 1 | None => 0 end + dir_pos d os)%nat ∧
    been d os' (dir_pos d os') ∧
    ∀ n, been d os n → been d os' n ∧ tell d os' n = tell d os n;
  seekdir_ok d os n : dir_open d os → been d os n →
    let os' := seekdir d (tell d os n) os in
    dir_open d os' ∧ dir_pos d os' = n ∧ dir_entries d os' = dir_entries d os ∧
    ∀ n, been d os n → been d os' n ∧ tell d os' n = tell d os n;
  rewinddir_ok d os : dir_open d os →
    let os' := rewinddir d os in
    dir_open d os' ∧ dir_pos d os' = O ∧ dir_entries d os' = dir_entries d os;
}.

(** Entries of a directory with the cookies they are sent with. *)
Definition page_of (entries : list dirent) (cookies : list Z) : list Nfs.DirectoryEntry :=
  zip_with directory_entry_of entries cookies.

(** How a page may end when [rest] are the entries that are not in it: the stream
    is at its end and nothing is left out, or the page is full, or the next entry
    does not fit any more, with the cookie it would have got. *)
Definition page_end `{Codec} (byte_count eof : Z) (es : list Nfs.DirectoryEntry) (rest : list dirent) : Prop :=
  (eof = 1 ∧ rest = []) ∨
  (eof = 0 ∧ (page_size es = byte_count ∨
              ∃ e rest' cookie, rest = e :: rest' ∧ 0 < cookie < 2 ^ 63 ∧
                byte_count < page_size es + directory_entry_packed_size (directory_entry_of e cookie))).

(** The cookie stands for the place behind the first [k] entries: it is 0 for the
    beginning, or what [telldir] returned there on this stream. *)
Definition at_place `{DirStreams OS} (d : DIR) (os : OS) (k : nat) (cookie : Z) : Prop :=
  match k with
  | O => cookie = 0
  | S _ => been d os k ∧ cookie = tell d os k
  end.

(** Reading a page keeps what the calls on the stream keep. *)
Definition kept `{Posix OS} (P : OS → Prop) : Prop :=
  (∀ d os, P os → P (rewinddir d os)) ∧ (∀ d c os, P os → P (seekdir d c os)) ∧
  (∀ d os, P os → P (readdir d os).2) ∧ (∀ d os, P os → P (closedir d os).2).

Section pages.
Context `{DirStreams OS} `{PackedSizeBounds}.
Implicit Types (os : OS).

(** The page read is a run of entries from the current position on, with cookies
    for the places behind each of them. *)
Lemma read_entries_page P fuel d byte_count total acc os code es eof os' :
  kept P → P os → u32 byte_count → dir_open d os → page_size acc = total → 0 ≤ total ≤ byte_count →
  read_entries fuel d byte_count total acc os = Some (code, es, eof, os') →
  code = 0 ∧ P os' ∧ dir_open d os' ∧ dir_entries d os' = dir_entries d os ∧
  (∀ n, been d os n → been d os' n ∧ tell d os' n = tell d os n) ∧
  ∃ cookies, es = acc ++ page_of (take (length cookies) (drop (dir_pos d os) (dir_entries d os))) cookies ∧
    (length cookies ≤ length (dir_entries d os) - dir_pos d os)%nat ∧
    (∀ i cookie, cookies !! i = Some cookie → at_place d os' (S (dir_pos d os + i)) cookie) ∧
    page_end byte_count eof es (drop (dir_pos d os + length cookies) (dir_entries d os)).
Proof.
  rw /u32. intros HP Hos Hu. revert total acc os Hos.
  induction fuel as [|fuel IH]; intros total acc os Hos Hopen Hacc Htot; [done|]. simpl.
  assert (P (readdir d os).2) as Hos1 by by apply HP.
  destruct (readdir_next d os Hopen) as (os1 & Hr & Hopen1 & Hes & Hpos & Hbeen & Hkeep). rw Hr in Hos1 |- *.
  destruct (dir_entries d os !! dir_pos d os) as [e|] eqn:He.
  - rw (telldir_ok _ _ Hopen1) Hpos. rw Hpos /= in Hbeen.
    pose proof (tell_range d os1 (dir_pos d os) Hopen1 Hbeen) as Ht.
    rw (proj2 (Z.ltb_ge (tell d os1 (1 + dir_pos d os)) 0)); [simpl; lia|]. cbn [Nat.add].
    set (cookie := tell d os1 (S (dir_pos d os))) in Ht |- *. set (ne := directory_entry_of e cookie).
    pose proof (lookup_lt_Some _ _ _ He) as Hlt. pose proof (drop_S _ _ _ He) as Hdrop.
    pose proof (packed_size_bounds ne (directory_entry_wire _ _)) as Hps. rw wrap64_small; [rw /u64; lia|].
    destruct (_ >? byte_count) eqn:Hgt.
    { intros [= <- <- <- <-]. split_and!; [done..|]. exists []. rw app_nil_r Nat.add_0_r. split_and!; [done|simpl; lia|done|].
      right. split; [done|]. right. exists e, (drop (S (dir_pos d os)) (dir_entries d os)), cookie. split_and!; [done|lia..|].
      rw Hacc -/ne. lia. }
    assert (page_size (acc ++ [ne]) = total + directory_entry_packed_size ne) as Hacc'.
    { rw page_size_app Hacc /page_size /=. lia. }
    rw wrap32_small; [rw /u32; lia|]. destruct (_ <? byte_count) eqn:Hltb.
    + intros Hread. destruct (IH _ _ _ Hos1 Hopen1 Hacc' ltac:(lia) Hread)
        as (-> & Hos' & Hopen' & Hes' & Hkeep' & cookies & Hpage & Hlen & Hplaces & Hend).
      rw Hpos Hes /= in Hpage Hlen Hplaces Hend. split_and!; [done|done|done|by rw Hes' Hes| |].
      { intros n Hn. destruct (Hkeep n Hn) as [Hn1 Ht1]. destruct (Hkeep' n Hn1) as [Hn2 Ht2]. by rw Ht2. }
      exists (cookie :: cookies). rw Hdrop. split_and!; [by rw /= Hpage -app_assoc|simpl; lia| |].
      * intros [|i] x; simpl; [intros [= <-]; rw Nat.add_0_r|rw Nat.add_succ_r; apply Hplaces].
        destruct (Hkeep' _ Hbeen) as [Hb Htell]. by split; [|rw Htell].
      * by rw /= Nat.add_succ_r.
    + intros [= <- <- <- <-]. split_and!; [done..|]. exists [cookie]. rw Hdrop. split_and!; [done|simpl; lia| |].
      * intros [|i] x; simpl; [intros [= <-]|done]. by rw Nat.add_0_r.
      * right. split; [done|]. left. c_bools. lia.
  - intros [= <- <- <- <-]. split_and!; [done..|]. exists []. rw app_nil_r Nat.add_0_r. split_and!; [done|simpl; lia|done|].
    left. split; [done|]. apply drop_ge. by apply lookup_ge_None.
Qed.
End pages.

(** A client without a session gets one with the first page. *)
Lemma read_opens_session `{Posix OS} `{Codec} client path ino l cookie byte_count (os : OS) d os1 :
  client_ok client → sessions_ok l → find_first (is_session client ino) l = None → opendir path os = (inr d, os1) →
  ∃ s, directory_stream s = d ∧ client_ok (client_authsysparams s) ∧ is_session client ino (Some s) = true ∧
    read_from_directory client path ino l cookie byte_count os =
    read_from_directory client path ino (Some s :: l) cookie byte_count os1.
Proof.
  intros Hc Hl Hnone Hopen. destruct (create_new_readdir_session_spec client path ino os Hc) as (o & os' & Hcr & Ho).
  pose proof Hc as (a & n & -> & Hn). pose proof Hcr as Hcr'.
  rw /create_new_readdir_session /deep_copy_authsysparams Hn /= Hopen in Hcr. injection Hcr as <- <-.
  destruct (Ho _ eq_refl) as [Hs1 Hs2].
  match type of Hs2 with is_session _ _ (Some ?s) = _ => exists s end. split_and!; [done..|].
  rw /read_from_directory (find_readdir_session_spec _ _ l) // find_readdir_session_spec //; [constructor; [by eexists|done]|].
  rw Hnone /= /add_new_readdir_session Hcr' /=. by rw Hs2.
Qed.

(** * Theorems *)

Section page_theorems.
Context `{DirStreams OS} `{PackedSizeBounds}.
Implicit Types (os : OS) (l : ReadDirSessionsList).

(** Moving the stream of a session to a cookie. *)
Lemma seek_cookie d k cookie os :
  dir_open d os → at_place d os k cookie →
  let os' := if cookie =? 0 then rewinddir d os else seekdir d cookie os in
  dir_open d os' ∧ dir_pos d os' = k ∧ dir_entries d os' = dir_entries d os ∧ at_place d os' k cookie.
Proof.
  intros Hopen Hk. destruct k as [|k]; simpl in Hk.
  - subst cookie. destruct (rewinddir_ok d os Hopen) as (? & ? & ?). done.
  - destruct Hk as [Hb ->]. pose proof (tell_range d os k Hopen Hb).
    rw (proj2 (Z.eqb_neq (tell d os (S k)) 0)); [lia|].
    destruct (seekdir_ok d os (S k) Hopen Hb) as (? & ? & ? & Hkeep).
    split; [done|]. split; [done|]. split; [done|]. split; [|symmetry]; by apply Hkeep.
Qed.

Lemma at_place_kept d os os' k cookie :
  (∀ n, been d os n → been d os' n ∧ tell d os' n = tell d os n) → at_place d os k cookie → at_place d os' k cookie.
Proof.
  intros Hkeep. destruct k as [|k]; [done|]. intros [Hb ->]. split; [|symmetry]; by apply Hkeep.
Qed.

(** A page of an open session, and what becomes of the session. *)
Lemma read_page P client path ino l k cookie byte_count os s :
  kept P → P os → client_ok client → sessions_ok l →
  find_first (is_session client ino) l = Some (Some s) → u32 byte_count →
  dir_open (directory_stream s) os → at_place (directory_stream s) os k cookie →
  let d := directory_stream s in
  let entries := dir_entries d os in
  ∃ cookies eof l' os',
    let n := length cookies in
    let es := page_of (take n (drop k entries)) cookies in
    read_from_directory client path ino l cookie byte_count os = Some (0, es, eof, l', os') ∧
    (n ≤ length entries - k)%nat ∧ page_end byte_count eof es (drop (k + n) entries) ∧ P os' ∧
    Forall (λ cookie, 0 < cookie < 2 ^ 63) cookies ∧
    (eof = 0 → ∃ s', find_first (is_session client ino) l' = Some (Some s') ∧ directory_stream s' = d ∧
       dir_open d os' ∧ dir_entries d os' = entries ∧ at_place d os' k cookie ∧
       ∀ i cookie', cookies !! i = Some cookie' → at_place d os' (S (k + i)) cookie').
Proof.
  intros HP Hos Hc Hl Hs Hbc Hopen Hk. pose proof Hc as (a & m & -> & Hm). cbv zeta. rw /read_from_directory.
  assert (Hfuel : (Z.to_nat byte_count < read_entries_fuel byte_count)%nat) by (rw /read_entries_fuel; lia).
  revert Hfuel. generalize (read_entries_fuel byte_count). intros fuel Hfuel.
  rw find_readdir_session_spec // Hs /=.
  destruct (get_readdir_session_loop_spec (Some a) ino 0 l Hc Hl) as (r & -> & Hspec).
  destruct r as [[i s1]|]; [|congruence]. destruct Hspec as (j & -> & Hj & Hf1 & Hins). simplify_eq. simpl.
  destruct (seek_cookie (directory_stream s) k cookie os Hopen Hk) as (Hopen2 & Hpos & Hes & Hk2).
  assert (P (if cookie =? 0 then rewinddir (directory_stream s) os else seekdir (directory_stream s) cookie os))
    as Hos2 by (destruct (cookie =? 0); by apply HP).
  set (os2 := if cookie =? 0 then _ else _) in Hopen2, Hpos, Hes, Hk2, Hos2 |- *. clearbody os2.
  destruct (read_entries_total fuel (directory_stream s) byte_count 0 [] os2)
    as (code & es & eof & os3 & Hre & _); [done|done|rw /u32 in Hbc; lia|rw /u32 in Hbc; lia|done|].
  destruct (read_entries_page P fuel (directory_stream s) byte_count 0 [] os2 _ _ _ _ HP Hos2 Hbc Hopen2 eq_refl
    ltac:(rw /u32 in Hbc; lia) Hre) as (-> & Hos3 & Hopen3 & Hes3 & Hkeep & cookies & Hpage & Hlen & Hplaces & Hend).
  rw Hpos Hes app_nil_l in Hpage Hlen Hplaces Hend. subst es.
  rw Hre /=. set (s' := set_timestamp _ s).
  assert (is_session (Some a) ino (Some s) = true) as His by (by apply find_first_Some in Hs as [_ ?]).
  destruct (Hins s') as [Hfi _]; [by rw /s' is_session_set_timestamp|]. exists cookies, eof.
  assert (Forall (λ cookie, 0 < cookie < 2 ^ 63) cookies) as Hrange.
  { apply Forall_lookup. intros i x Hx. destruct (Hplaces i x Hx) as [Hb ->]. by apply (tell_range _ os3). }
  destruct Hend as [[-> Hend]|[-> Hend]]; simpl.
  - assert (sessions_ok (<[j := Some s']> l)) as Hl2.
    { apply Forall_insert; [done|]. exists s'. split; [done|].
      destruct (Forall_lookup_1 _ _ _ _ Hl Hj) as (s0 & [= <-] & Hs0). exact Hs0. }
    rw (remove_readdir_session_spec _ _ _ _ s' Hc Hl2 Hfi) /=. eexists _, _.
    split_and!; [reflexivity|done|by left|by apply HP|done|done].
  - eexists _, _. split_and!; [reflexivity|done|by right|done|done|]. intros _. exists s'.
    split_and!; [done|done|done|by rw Hes3|by apply (at_place_kept _ os2)|done].
Qed.

(** C26: in an open session on a directory that does not change, READDIR with the
    cookie of a place (0 for the beginning, or a number that [telldir] returned for
    the place on the stream of this session since it was last rewound) returns the
    entries from that place on, in order and without gaps; the page ends with the
    end-of-stream flag only when no entry is left out, and without it only when the
    sum of the entries' sizes has reached the limit or the next entry would exceed
    it. In the latter case the session goes on with the same stream, and the cookie
    sent with each entry is that of the place right behind it, so that the next
    call can continue there. *)
Theorem readdir_continues_at_cookie client path ino l k cookie byte_count os s
    (Hc : client_ok client) (Hl : sessions_ok l)
    (Hs : find_first (is_session client ino) l = Some (Some s)) (Hbc : u32 byte_count)
    (Hopen : dir_open (directory_stream s) os) (Hk : at_place (directory_stream s) os k cookie) :
  let d := directory_stream s in
  let entries := dir_entries d os in
  ∃ cookies eof l' os',
    let n := length cookies in
    let es := page_of (take n (drop k entries)) cookies in
    read_from_directory client path ino l cookie byte_count os = Some (0, es, eof, l', os') ∧
    (n ≤ length entries - k)%nat ∧ page_end byte_count eof es (drop (k + n) entries) ∧
    (eof = 0 → ∃ s', find_first (is_session client ino) l' = Some (Some s') ∧ directory_stream s' = d ∧
       dir_open d os' ∧ dir_entries d os' = entries ∧
       ∀ i cookie', cookies !! i = Some cookie' → at_place d os' (S (k + i)) cookie').
Proof.
  destruct (read_page (λ _, True) client path ino l k cookie byte_count os s) as (cookies & eof & l' & os' & Hrun & Hn & Hend & _ & _ & Hs');
    [done..|]. exists cookies, eof, l', os'. split_and!; [done..|]. intros He.
  destruct (Hs' He) as (s' & ? & ? & ? & ? & _ & ?). by exists s'.
Qed.

End page_theorems.

Section session_theorems.
Context `{Posix OS} `{PackedSizeBounds}.
Implicit Types (os : OS) (l : ReadDirSessionsList).

(** Every READDIR call ends, with one of the documented error codes or a
    page whose entries' sizes add up to no more than the client asked for, whatever
    the directory stream does; it keeps the list of sessions well formed with at most one session
    per client and directory, and on success either the end of the stream was
    reached and the session is gone, or the session is there with a fresh time
    stamp. *)
Theorem readdir_keeps_sessions client path ino l cookie byte_count os
    (Hc : client_ok client) (Hl : sessions_ok l) (Hu : sessions_unique l) (Hbc : u32 byte_count) :
  ∃ code es eof l' os',
    read_from_directory client path ino l cookie byte_count os = Some (code, es, eof, l', os') ∧
    (code = 0 ∨ code = 3 ∨ code = 5 ∨ code = 6) ∧
    sessions_ok l' ∧ sessions_unique l' ∧ page_size es ≤ byte_count ∧
    (code = 0 →
       (eof = 1 ∧ find_first (is_session client ino) l' = None) ∨
       (eof = 0 ∧ ∃ s, find_first (is_session client ino) l' = Some (Some s) ∧
                    last_readdir_rpc_timestamp s = wrap64 (time os'))).
Proof.
  destruct (read_session_spec client path ino l cookie byte_count os Hc Hl Hu Hbc)
    as (code & es & eof & l' & os' & ? & ? & ? & ? & ? & _ & ?).
  by exists code, es, eof, l', os'.
Qed.

(** The periodic clean-up ends and removes exactly the sessions that were not
    used within the last 30 seconds, keeping the others in order; what is left
    is well formed and has no duplicate. *)
Theorem clean_up_keeps_fresh_sessions l os (Hl : sessions_ok l) (Hu : sessions_unique l) :
  ∃ os', clean_up_expired_readdir_sessions l os =
           Some (filter (λ o, not_expired (time os) o = true) l, os') ∧
         sessions_ok (filter (λ o, not_expired (time os) o = true) l) ∧
         sessions_unique (filter (λ o, not_expired (time os) o = true) l).
Proof.
  destruct (clean_up_expired_spec (time os) l os Hl) as [os' Hos]. exists os'. split_and!; [done|..].
  - apply Forall_forall. intros x [_ Hx]%list_elem_of_filter.
    exact (proj1 (Forall_forall _ _) Hl x Hx).
  - eapply sessions_unique_sublist; [apply sublist_filter|done].
Qed.

(** The sessions as the threads of the server share them, with the operating
    system. *)
Record shared_sessions := mkShared { shared_list : ReadDirSessionsList; shared_os : OS }.

(** [readdir_sessions_mutex] is held throughout both functions, so that each is
    one step: a READDIR call of any of the connections' threads, a round of
    [readdir_periodic_cleanup_thread], and whatever else happens to the operating
    system, time included. *)
Inductive session_step : shared_sessions → shared_sessions → Prop :=
  | step_readdir client path ino cookie byte_count code es eof l os l' os' :
      client_ok client → u32 byte_count →
      read_from_directory client path ino l cookie byte_count os = Some (code, es, eof, l', os') →
      session_step (mkShared l os) (mkShared l' os')
  | step_clean_up l os l' os' :
      clean_up_expired_readdir_sessions l os = Some (l', os') →
      session_step (mkShared l os) (mkShared l' os')
  | step_elsewhere l os os' : session_step (mkShared l os) (mkShared l os').

Lemma session_step_ok s s' :
  session_step s s' → sessions_ok (shared_list s) ∧ sessions_unique (shared_list s) →
  sessions_ok (shared_list s') ∧ sessions_unique (shared_list s').
Proof.
  intros [client path ino cookie byte_count code es eof l os l' os' Hc Hb Hr|l os l' os' Hr|]; simpl; [| |done]; intros [Hl Hu].
  - destruct (readdir_keeps_sessions client path ino l cookie byte_count os Hc Hl Hu Hb)
      as (? & ? & ? & ? & ? & Hr' & _ & ? & ? & _). by simplify_eq.
  - destruct (clean_up_keeps_fresh_sessions l os Hl Hu) as (? & Hr' & ? & ?). by simplify_eq.
Qed.

(** C27: the READDIR sessions survive every interleaving of the threads
    that serve connections with the thread of the periodic clean-up. In every state
    they can reach the list of sessions is well formed with at most one session per
    client and directory; the next READDIR call of any client ends, with one of the
    documented error codes or with a page whose entries' sizes, each entry taken by
    itself, add up to no more than the client asked for (the page itself may be
    larger), and on success either the end of the stream was reached and the
    session is gone, or the session is there with a fresh time stamp; and the next
    clean-up ends and
    leaves exactly the sessions that were used within the last 30 seconds. *)
Theorem sessions_survive_interleaving os0 s (Hs : rtc session_step (mkShared [] os0) s) :
  sessions_ok (shared_list s) ∧ sessions_unique (shared_list s) ∧
  (∀ client path ino cookie byte_count os, client_ok client → u32 byte_count →
     ∃ code es eof l' os',
       read_from_directory client path ino (shared_list s) cookie byte_count os = Some (code, es, eof, l', os') ∧
       (code = 0 ∨ code = 3 ∨ code = 5 ∨ code = 6) ∧ page_size es ≤ byte_count ∧
       (code = 0 →
          (eof = 1 ∧ find_first (is_session client ino) l' = None) ∨
          (eof = 0 ∧ ∃ s, find_first (is_session client ino) l' = Some (Some s) ∧
                       last_readdir_rpc_timestamp s = wrap64 (time os')))) ∧
  (∀ os, ∃ os', clean_up_expired_readdir_sessions (shared_list s) os =
     Some (filter (λ o, not_expired (time os) o = true) (shared_list s), os')).
Proof.
  assert (sessions_ok (shared_list s) ∧ sessions_unique (shared_list s)) as [Hl Hu].
  { revert s Hs. apply (rtc_ind_r (λ s, sessions_ok (shared_list s) ∧ sessions_unique (shared_list s)) (mkShared [] os0)).
    - split; [constructor|done].
    - intros s1 s2 _ Hstep Hok. exact (session_step_ok s1 s2 Hstep Hok). }
  split; [done|]. split; [done|]. split.
  - intros client path ino cookie byte_count os Hc Hb.
    destruct (readdir_keeps_sessions client path ino _ cookie byte_count os Hc Hl Hu Hb)
      as (code & es & eof & l' & os' & ? & ? & _ & _ & ? & ?). by exists code, es, eof, l', os'.
  - intros os. destruct (clean_up_keeps_fresh_sessions _ os Hl Hu) as (os' & ? & _). by exists os'.
Qed.

(** The group of a client is not compared: a client with the same machine
    name and user but another group continues the session (and the stream
    position) that was opened for the first one. *)
Theorem readdir_session_shared_across_groups (a b : Rpc.AuthSysParams) n s ino
    (Ha : Rpc.machinename a = Some n) (Hb : Rpc.machinename b = Some n)
    (Huid : Rpc.uid a = Rpc.uid b)
    (Hs : client_authsysparams s = Some a) (Hino : directory_inode_number s = ino) :
  find_readdir_session (Some b) ino [Some s] = Some 0.
Proof.
  rw find_readdir_session_spec; [by exists b, n| |].
  - constructor; [|done]. exists s. split; [done|]. by exists a, n.
  - rw /= /is_session Hs bool_decide_true //. split_and!; congruence.
Qed.
End session_theorems.
