(* ===== verification/ServerState.v ===== *)
(** The state of the Nfs+Mount server ([src/nfs/server/server.c]) and the
    fragments that the procedures of [src/nfs/server/procedures] repeat: the
    test of the parameters' type, the error replies of each result type, the
    block that checks permissions for AUTH_SYS credentials, and file system
    calls. *)
From S2P Require Import Prelude Messages Posix InodeCache Permissions FileManagement ReadDir.

(** The globals [inode_cache], [mount_list] and [readdir_sessions_list],
    beside the operating system. *)
Record server_state (OS : Type) := mkServerState {
  os : OS;
  inode_cache : InodeCache;
  mount_list : list Mount.MountListEntry;
  readdir_sessions_list : ReadDirSessionsList }.

Arguments mkServerState {OS} os inode_cache mount_list readdir_sessions_list.
Arguments os {OS} s.
Arguments inode_cache {OS} s.
Arguments mount_list {OS} s.
Arguments readdir_sessions_list {OS} s.

(** A pointer to an AcceptedReply. *)
Definition reply : Type := option Rpc.AcceptedReply.

(** A part of a procedure: [return_] leaves the procedure with a reply. *)
Definition handler (OS A : Type) : Type := prog (server_state OS) reply A.

Definition set_os {OS} (o : OS) (s : server_state OS) : server_state OS :=
  mkServerState o (inode_cache s) (mount_list s) (readdir_sessions_list s).

Definition set_inode_cache {OS} (c : InodeCache) (s : server_state OS) : server_state OS :=
  mkServerState (os s) c (mount_list s) (readdir_sessions_list s).

Definition set_mount_list {OS} (l : list Mount.MountListEntry) (s : server_state OS) : server_state OS :=
  mkServerState (os s) (inode_cache s) l (readdir_sessions_list s).

Definition set_sessions {OS} (l : ReadDirSessionsList) (o : OS) (s : server_state OS) : server_state OS :=
  mkServerState o (inode_cache s) (mount_list s) l.

(** [mount_list.c]: a new entry at the head of the list. *)
Definition add_mount_list_entry (client_hostname directory_absolute_path : string)
    (current_list_head : list Mount.MountListEntry) : list Mount.MountListEntry :=
  Mount.mkMountListEntry client_hostname directory_absolute_path :: current_list_head.

Definition NFS_MAXDATA : Z := 8192.
Definition NFS_MAXPATHLEN : Z := 1024.
Definition NFS_MAXNAMLEN : Z := 255.

(** [strlen(name) > NFS_MAXNAMLEN] *)
Definition name_too_long (file_name : string) : bool :=
  Z.of_nat (String.length file_name) >? NFS_MAXNAMLEN.

(** [credential->auth_sys]: reading the member of the union that was not
    stored, or a NULL pointer, gives [None]. *)
Definition auth_sys (credential : Rpc.OpaqueAuth) : option Rpc.AuthSysParams :=
  match Rpc.body credential with
  | Rpc.AUTH_BODY_AUTH_SYS p => p
  | _ => None
  end.

Section fragments.
Context `{Posix OS} `{Codec}.

Definition garbage_args : reply := Rpc.create_garbage_args_accepted_reply.
Definition system_error : reply := Rpc.create_system_error_accepted_reply.

Definition success (results_buffer : list byte) (results_type : string) : reply :=
  Some (Rpc.wrap_procedure_results_in_successful_accepted_reply results_buffer results_type).

(** [parameters->type_url == NULL || strcmp(parameters->type_url, expected) != 0] *)
Definition check_type (parameters : option Rpc.Any) (expected : string) : handler OS Rpc.Any :=
  p ← deref parameters;
  return_if (negb (bool_decide (Rpc.type_url p = Some expected))) garbage_args;;
  mret p.

(** [if (p == NULL) { ... }] where the block leaves the procedure. *)
Definition unless {A} (o : option A) (block : handler OS A) : handler OS A :=
  match o with Some a => mret a | None => block end.

(** Build, serialise and return a result with a non-OK status. *)
Definition attr_stat_error {A} (st : Nfs.Stat) : handler OS A :=
  r ← deref (Nfs.create_default_case_attr_stat st);
  return_ (success (pack_AttrStat r) "nfs/AttrStat").

Definition dir_op_res_error {A} (st : Nfs.Stat) : handler OS A :=
  r ← deref (Nfs.create_default_case_dir_op_res st);
  return_ (success (pack_DirOpRes r) "nfs/DirOpRes").

Definition read_link_res_error {A} (st : Nfs.Stat) : handler OS A :=
  r ← deref (Nfs.create_default_case_read_link_res st);
  return_ (success (pack_ReadLinkRes r) "nfs/ReadLinkRes").

Definition read_res_error {A} (st : Nfs.Stat) : handler OS A :=
  r ← deref (Nfs.create_default_case_read_res st);
  return_ (success (pack_ReadRes r) "nfs/ReadRes").

Definition read_dir_res_error {A} (st : Nfs.Stat) : handler OS A :=
  r ← deref (Nfs.create_default_case_read_dir_res st);
  return_ (success (pack_ReadDirRes r) "nfs/ReadDirRes").

Definition stat_fs_res_error {A} (st : Nfs.Stat) : handler OS A :=
  r ← deref (Nfs.create_default_case_stat_fs_res st);
  return_ (success (pack_StatFsRes r) "nfs/StatFsRes").

Definition nfs_stat_reply (st : Nfs.Stat) : reply := success (pack_NfsStat (Nfs.create_nfs_stat st)) "nfs/NfsStat".

Definition nfs_stat_error {A} (st : Nfs.Stat) : handler OS A := return_ (nfs_stat_reply st).

Definition fh_status_error {A} (st : Mount.Stat) : handler OS A :=
  return_ (success (pack_FhStatus (Mount.create_default_case_fh_status st)) "mount/FhStatus").

(** The block "check permissions" of every procedure. *)
Definition check_permissions (credential : Rpc.OpaqueAuth) (check : Z → Z → OS → option Z)
    (acces : handler OS unit) : handler OS unit :=
  if decide (Rpc.flavor credential = Rpc.AUTH_SYS) then
    a ← deref (auth_sys credential);
    o ← gets os;
    stat ← deref (check (Rpc.uid a) (Rpc.gid a) o);
    return_if (stat <? 0) system_error;;
    (if stat =? 1 then acces else mret tt)
  else mret tt.

(** A file system call. *)
Definition sys {A} (f : OS → A * OS) : handler OS A :=
  λ s, let '(a, o) := f (os s) in Val a (set_os o s).

(** [create_nfs_filehandle(path, &inode_cache)] *)
Definition new_filehandle (path : string) : handler OS (option Nfs.NfsFileHandle) :=
  λ s, let '(h, c) := create_nfs_filehandle path (os s) (inode_cache s) in Val h (set_inode_cache c s).

(** Undo of the previous: [remove_inode_mapping_by_inode_number(..., &inode_cache)],
    whose result is ignored. *)
Definition drop_filehandle (inode_number : Z) : handler OS unit :=
  c ← gets inode_cache;
  r ← deref (remove_inode_mapping_by_inode_number inode_number c);
  modify (set_inode_cache r.2).

(** [get_absolute_path_from_inode_number(inode_number, inode_cache)] *)
Definition resolve (inode_number : Z) : handler OS (option string) :=
  gets (λ s, get_absolute_path_from_inode_number inode_number (inode_cache s)).

(** [get_attributes(path, &fattr)], with SYSTEM_ERR on failure. *)
Definition attributes_or_system_error (path : string) : handler OS Nfs.FAttr :=
  o ← gets os;
  match get_attributes path o with
  | inl _ => return_ system_error
  | inr a => mret a
  end.
End fragments.

(** * Well-formed replies *)

(** What the client gets of a READ result: protobuf-c leaves the data pointer
    of an empty [bytes] field NULL when it unpacks it. *)
Definition received_binary (d : Nfs.BinaryData) : Nfs.BinaryData :=
  if Nfs.len d =? 0 then Nfs.mkBinaryData 0 None else d.

Definition received_read_res (r : Nfs.ReadRes) : Nfs.ReadRes :=
  Nfs.mkRes (Nfs.nfs_status r)
    (match Nfs.body r with
     | Nfs.BODY_OK (Some b) =>
         Nfs.BODY_OK (Some (Nfs.mkReadResBody (Nfs.rr_attributes b) (received_binary (Nfs.rr_nfsdata b))))
     | b => b
     end).

(** The results of a procedure: a type name with the encoding of a message of
    that type, which passes the check that the clients make of it. (STATFS
    results are not checked by the clients: here, the body must be there.) *)
Inductive result_ok `{Codec} : string → list byte → Prop :=
  | none_ok type_url : type_url ∈ ["nfs/None"; "mount/None"] → result_ok type_url []
  | nfs_stat_ok m :
      Validation.validate_nfs_nfs_stat (Some m) = 0 → result_ok "nfs/NfsStat" (pack_NfsStat m)
  | attr_stat_ok m :
      Validation.validate_nfs_attr_stat (Some m) = Some 0 → result_ok "nfs/AttrStat" (pack_AttrStat m)
  | dir_op_res_ok m :
      Validation.validate_nfs_dir_op_res (Some m) = Some 0 → result_ok "nfs/DirOpRes" (pack_DirOpRes m)
  | read_link_res_ok m :
      Validation.validate_nfs_read_link_res (Some m) = Some 0 →
      result_ok "nfs/ReadLinkRes" (pack_ReadLinkRes m)
  | read_res_ok m :
      Validation.validate_nfs_read_res (Some (received_read_res m)) = Some 0 →
      result_ok "nfs/ReadRes" (pack_ReadRes m)
  | read_dir_res_ok m :
      Validation.validate_nfs_read_dir_res (Some m) = Some 0 →
      result_ok "nfs/ReadDirRes" (pack_ReadDirRes m)
  | stat_fs_res_ok m :
      Validation.validate_res (λ p, Some (if Validation.is_null p then 1 else 0)) (Some m) = Some 0 →
      result_ok "nfs/StatFsRes" (pack_StatFsRes m)
  | fh_status_ok m :
      Validation.validate_mount_fh_status (Some m) = 0 → result_ok "mount/FhStatus" (pack_FhStatus m).

(** A reply that the client's checks accept: its structure, and the results
    in it when the call succeeded. *)
Definition reply_ok `{Codec} (r : reply) : Prop :=
  Validation.validate_accepted_reply r = Some 0 ∧
  ∀ a p, r = Some a → Rpc.ar_reply_data a = Rpc.REPLY_DATA_RESULTS p →
    ∃ type_url bytes, p = Some (Rpc.mkAny (Some type_url) bytes) ∧ result_ok type_url bytes.

(** The sessions are well formed, one per client and directory. *)
Definition sessions_inv (l : ReadDirSessionsList) : Prop := sessions_ok l ∧ sessions_unique l.

(** What every procedure guarantees: no undefined behaviour, a well-formed
    reply and well-formed sessions. *)
Definition safe_post {OS} `{Codec} (r : reply) (s : server_state OS) : Prop :=
  reply_ok r ∧ sessions_inv (readdir_sessions_list s).

Definition safe {OS} `{Codec} (h : handler OS reply) (s : server_state OS) : Prop :=
  sessions_inv (readdir_sessions_list s) → wp h safe_post safe_post s.

(** The parameters are the encoding of the message [m] of the given type. *)
Definition carries {M} (unpack : list byte → option M) (type_url : string) (params : Rpc.Any) (m : M) : Prop :=
  Rpc.type_url params = Some type_url ∧ unpack (Rpc.value params) = Some m.

(** Messages with all their fields. *)
Definition full_fhandle (h : Nfs.NfsFileHandle) : Nfs.FHandle := Nfs.mkFHandle (Some h).

Definition full_dir_op (h : Nfs.NfsFileHandle) (name : string) : Nfs.DirOpArgs :=
  Nfs.mkDirOpArgs (Some (full_fhandle h)) (Some (Nfs.mkFileName (Some name))).

(** The path behind a file handle. *)
Definition resolves {OS} (s : server_state OS) (h : Nfs.NfsFileHandle) (path : string) : Prop :=
  get_absolute_path_from_inode_number (Nfs.inode_number h) (inode_cache s) = Some path.

(** [path] is a directory. *)
Definition is_directory `{Posix OS} (path : string) (o : OS) : Prop :=
  ∃ st, lstat path o = inr st ∧ S_ISDIR (st_mode st) = true.

(** An AUTH_SYS credential carrying the parameters [a]. *)
Definition auth_sys_cred (credential : Rpc.OpaqueAuth) (a : Rpc.AuthSysParams) : Prop :=
  Rpc.flavor credential = Rpc.AUTH_SYS ∧ auth_sys credential = Some a.

(** * Weakest preconditions of the fragments *)

Section wp_fragments.
Context `{Posix OS} `{Codec}.
Implicit Types (s : server_state OS) (E : reply → server_state OS → Prop).

Lemma wp_sys {A} (f : OS → A * OS) (Q : A → server_state OS → Prop) E s :
  (∀ a o, f (os s) = (a, o) → Q a (set_os o s)) → wp (sys f) Q E s.
Proof. rw /wp /sys. destruct (f (os s)); auto. Qed.

Lemma wp_unless {A} (o : option A) (block : handler OS A) Q E s :
  (o = None → wp block Q E s) → (∀ a, o = Some a → Q a s) → wp (unless o block) Q E s.
Proof. intros H1 H2. destruct o; [apply wp_mret|]; auto. Qed.

Lemma wp_check_type parameters expected (Q : Rpc.Any → server_state OS → Prop) E s :
  is_Some parameters → E garbage_args s →
  (∀ p, parameters = Some p → Rpc.type_url p = Some expected → Q p s) →
  wp (check_type parameters expected) Q E s.
Proof.
  intros [p ->] HE HQ. rw /check_type. wp_auto.
  apply wp_deref; [done|]. intros ? [= <-]. wp_auto; c_bools; [done|].
  apply HQ; [done|]. by case_bool_decide.
Qed.

Lemma wp_check_permissions credential a check c acces (Q : unit → server_state OS → Prop) E s :
  auth_sys_cred credential a → check (Rpc.uid a) (Rpc.gid a) (os s) = Some c →
  (c < 0 → E system_error s) → (c = 1 → wp acces Q E s) → (0 ≤ c → c ≠ 1 → Q tt s) →
  wp (check_permissions credential check acces) Q E s.
Proof.
  intros [Hf Ha] Hc HE Hacces HQ. rw /check_permissions decide_True // Ha.
  rw /wp /= /mbind /prog_bind /= Hc /=. rw /return_if. destruct (c <? 0) eqn:?; simpl.
  - apply HE. lia.
  - destruct (c =? 1) eqn:?; [apply Hacces; lia|]. apply HQ; lia.
Qed.

Lemma wp_resolve ino (Q : option string → server_state OS → Prop) E s :
  Q (get_absolute_path_from_inode_number ino (inode_cache s)) s → wp (resolve ino) Q E s.
Proof. done. Qed.

Lemma wp_attributes path (Q : Nfs.FAttr → server_state OS → Prop) E s :
  (∀ e, lstat path (os s) = inl e → E system_error s) →
  (∀ st, lstat path (os s) = inr st → Q (fattr_of_stat st) s) →
  wp (attributes_or_system_error path) Q E s.
Proof.
  intros HE HQ. rw /attributes_or_system_error. wp_auto.
  - apply get_attributes_inl in Hm as (_ & e & He). eauto.
  - apply get_attributes_inr in Hm as (st & Hst & ->). eauto.
Qed.

Lemma wp_attr_stat_error {A} st (Q : A → server_state OS → Prop) E s :
  st ≠ Nfs.NFS_OK →
  E (success (pack_AttrStat (Nfs.mkRes (Some st) (Nfs.BODY_DEFAULT_CASE (Some tt)))) "nfs/AttrStat") s →
  wp (attr_stat_error st) Q E s.
Proof.
  intros Hst HE. rw /attr_stat_error /Nfs.create_default_case_attr_stat create_default_case_Some //.
Qed.

Lemma wp_dir_op_res_error {A} st (Q : A → server_state OS → Prop) E s :
  st ≠ Nfs.NFS_OK →
  E (success (pack_DirOpRes (Nfs.mkRes (Some st) (Nfs.BODY_DEFAULT_CASE (Some tt)))) "nfs/DirOpRes") s →
  wp (dir_op_res_error st) Q E s.
Proof.
  intros Hst HE. rw /dir_op_res_error /Nfs.create_default_case_dir_op_res create_default_case_Some //.
Qed.

Lemma wp_read_link_res_error {A} st (Q : A → server_state OS → Prop) E s :
  st ≠ Nfs.NFS_OK →
  E (success (pack_ReadLinkRes (Nfs.mkRes (Some st) (Nfs.BODY_DEFAULT_CASE (Some tt)))) "nfs/ReadLinkRes") s →
  wp (read_link_res_error st) Q E s.
Proof.
  intros Hst HE. rw /read_link_res_error /Nfs.create_default_case_read_link_res create_default_case_Some //.
Qed.

Lemma wp_read_res_error {A} st (Q : A → server_state OS → Prop) E s :
  st ≠ Nfs.NFS_OK →
  E (success (pack_ReadRes (Nfs.mkRes (Some st) (Nfs.BODY_DEFAULT_CASE (Some tt)))) "nfs/ReadRes") s →
  wp (read_res_error st) Q E s.
Proof.
  intros Hst HE. rw /read_res_error /Nfs.create_default_case_read_res create_default_case_Some //.
Qed.

Lemma wp_read_dir_res_error {A} st (Q : A → server_state OS → Prop) E s :
  st ≠ Nfs.NFS_OK →
  E (success (pack_ReadDirRes (Nfs.mkRes (Some st) (Nfs.BODY_DEFAULT_CASE (Some tt)))) "nfs/ReadDirRes") s →
  wp (read_dir_res_error st) Q E s.
Proof.
  intros Hst HE. rw /read_dir_res_error /Nfs.create_default_case_read_dir_res create_default_case_Some //.
Qed.

Lemma wp_stat_fs_res_error {A} st (Q : A → server_state OS → Prop) E s :
  st ≠ Nfs.NFS_OK →
  E (success (pack_StatFsRes (Nfs.mkRes (Some st) (Nfs.BODY_DEFAULT_CASE (Some tt)))) "nfs/StatFsRes") s →
  wp (stat_fs_res_error st) Q E s.
Proof.
  intros Hst HE. rw /stat_fs_res_error /Nfs.create_default_case_stat_fs_res create_default_case_Some //.
Qed.
End wp_fragments.

(** * Replies are well formed *)

Section replies.
Context `{Codec}.

Lemma reply_ok_success type_url bytes : result_ok type_url bytes → reply_ok (success bytes type_url).
Proof. intros Hr. split; [done|]. intros a p [= <-] [= <-]. eauto. Qed.

Lemma reply_ok_garbage_args : reply_ok garbage_args.
Proof. split; [done|]. by intros a p [= <-]. Qed.

Lemma reply_ok_system_error : reply_ok system_error.
Proof. split; [done|]. by intros a p [= <-]. Qed.

Lemma reply_ok_default st r :
  Rpc.create_default_case_accepted_reply st = Some r → reply_ok (Some r).
Proof.
  rw /Rpc.create_default_case_accepted_reply. case_decide as Hst; [done|]. intros [= <-].
  split; [|by intros a p [= <-]]. destruct st; simpl; try done; destruct Hst; auto.
Qed.

Lemma reply_ok_nfs_stat st : reply_ok (nfs_stat_reply st).
Proof. by apply reply_ok_success, nfs_stat_ok. Qed.
End replies.

#[export] Hint Resolve reply_ok_garbage_args reply_ok_system_error reply_ok_nfs_stat : c_wp.

(** * Automation for [safe] *)

Section safe_rules.
Context `{Posix OS} `{Codec}.
Implicit Types (s : server_state OS) (E : reply → server_state OS → Prop).

(** Every outcome of a permission check is handled. *)
Lemma wp_check_permissions_any credential a check acces (Q : unit → server_state OS → Prop) E s :
  auth_sys_cred credential a → is_Some (check (Rpc.uid a) (Rpc.gid a) (os s)) →
  E system_error s → wp acces Q E s → Q tt s →
  wp (check_permissions credential check acces) Q E s.
Proof. intros Ha [c Hc] ???. eapply wp_check_permissions; [exact Ha|exact Hc|done..]. Qed.

Lemma wp_new_filehandle path (Q : option Nfs.NfsFileHandle → server_state OS → Prop) E s :
  (∀ e, lstat path (os s) = inl e → Q None s) →
  (∀ st, lstat path (os s) = inr st →
     let h := Nfs.mkNfsFileHandle (st_ino st) (wrap64 (time (os s))) in
     Q (Some h) (set_inode_cache (mkMapping h path :: inode_cache s) s)) →
  wp (new_filehandle path) Q E s.
Proof.
  intros HN HS. rw /new_filehandle /wp. destruct (lstat path (os s)) as [e|st] eqn:Hst.
  - rw (create_nfs_filehandle_None _ _ _ _ Hst). destruct s. by apply (HN e).
  - rw (create_nfs_filehandle_Some _ _ _ _ Hst). by apply HS.
Qed.

Lemma wp_drop_filehandle ino (Q : unit → server_state OS → Prop) E s :
  inode_cache s ≠ [] → Q tt (set_inode_cache (remove_first (has_ino ino) (inode_cache s)) s) →
  wp (drop_filehandle ino) Q E s.
Proof.
  intros Hne HQ. rw /drop_filehandle. wp_auto. apply wp_deref; [by rw remove_by_ino_spec; [done|eauto]|].
  intros r Hr. rw remove_by_ino_spec // in Hr. injection Hr as <-. by wp_auto.
Qed.

Lemma wp_nfs_stat_error {A} st (Q : A → server_state OS → Prop) E s :
  E (nfs_stat_reply st) s → wp (nfs_stat_error st) Q E s.
Proof. done. Qed.

Lemma wp_fh_status_error {A} st (Q : A → server_state OS → Prop) E s :
  E (success (pack_FhStatus (Mount.create_default_case_fh_status st)) "mount/FhStatus") s →
  wp (fh_status_error st) Q E s.
Proof. done. Qed.
End safe_rules.

(** A reply at the end of a path through a procedure. *)
Ltac solve_reply :=
  repeat match goal with
         | H : get_attributes _ _ = inr _ |- _ => apply get_attributes_inr in H as (? & _ & ->)
         end;
  split; [first [by auto with c_wp nocore | apply reply_ok_success; by constructor] | assumption].

(** One fragment of a procedure. *)
Ltac safe_step :=
  lazymatch goal with
  | |- safe_post _ _ => solve_reply
  | |- wp (check_type _ _) _ _ _ => apply wp_check_type; [done | | intros ? ? ?]
  | |- wp (unless _ _) _ _ _ => apply wp_unless; [intros _ | intros ? ?]
  | |- wp (resolve _) _ _ _ => apply wp_resolve
  | |- wp (attributes_or_system_error _) _ _ _ => apply wp_attributes; [intros ? _ | intros ? ?]
  | |- wp (check_permissions _ _ _) _ _ _ => eapply wp_check_permissions_any; [eassumption| | | |]
  | |- wp (sys _) _ _ _ => apply wp_sys; intros ? ? ?
  | |- wp (new_filehandle _) _ _ _ => apply wp_new_filehandle; [intros ? _ | intros ? ?; cbv zeta]
  | |- wp (drop_filehandle _) _ _ _ => apply wp_drop_filehandle
  | |- wp (attr_stat_error _) _ _ _ => apply wp_attr_stat_error; [done|]
  | |- wp (dir_op_res_error _) _ _ _ => apply wp_dir_op_res_error; [done|]
  | |- wp (read_link_res_error _) _ _ _ => apply wp_read_link_res_error; [done|]
  | |- wp (read_res_error _) _ _ _ => apply wp_read_res_error; [done|]
  | |- wp (read_dir_res_error _) _ _ _ => apply wp_read_dir_res_error; [done|]
  | |- wp (stat_fs_res_error _) _ _ _ => apply wp_stat_fs_res_error; [done|]
  | |- wp (nfs_stat_error _) _ _ _ => apply wp_nfs_stat_error
  | |- wp (fh_status_error _) _ _ _ => apply wp_fh_status_error
  | |- wp _ _ _ _ => wp_step
  | |- is_Some (Some _) => done
  | |- inode_cache _ ≠ [] => first [done | eapply get_path_nonempty; eassumption]
  end.

Ltac safe_auto := repeat safe_step.

(** * Outcomes of the fragments *)

Section outcomes.
Context `{Posix OS} `{Codec}.
Implicit Types (s : server_state OS).

Lemma check_type_val p expected s :
  Rpc.type_url p = Some expected → check_type (OS:=OS) (Some p) expected s = Val p s.
Proof. intros Ht. rw /check_type /mbind /prog_bind /= bool_decide_true //. Qed.

Lemma check_permissions_val credential a check acces s :
  auth_sys_cred credential a → check (Rpc.uid a) (Rpc.gid a) (os s) = Some 0 →
  check_permissions credential check acces s = Val tt s.
Proof. intros [Hf Ha] Hc. rw /check_permissions decide_True // Ha /mbind /prog_bind /= Hc //. Qed.

Lemma check_permissions_ret credential a check acces r s :
  auth_sys_cred credential a → check (Rpc.uid a) (Rpc.gid a) (os s) = Some 1 →
  acces s = Ret r s → check_permissions credential check acces s = Ret r s.
Proof. intros [Hf Ha] Hc Hr. rw /check_permissions decide_True // Ha /mbind /prog_bind /= Hc /= Hr //. Qed.

Lemma attributes_val path st s :
  lstat path (os s) = inr st → attributes_or_system_error path s = Val (fattr_of_stat st) s.
Proof. intros Hst. by rw /attributes_or_system_error /mbind /prog_bind /= /get_attributes Hst. Qed.

Lemma sys_val {A} (f : OS → A * OS) a o s : f (os s) = (a, o) → sys f s = Val a (set_os o s).
Proof. rw /sys. by intros ->. Qed.

Lemma new_filehandle_val path st s :
  lstat path (os s) = inr st →
  let h := Nfs.mkNfsFileHandle (st_ino st) (wrap64 (time (os s))) in
  new_filehandle path s = Val (Some h) (set_inode_cache (mkMapping h path :: inode_cache s) s).
Proof. intros Hst. by rw /new_filehandle (create_nfs_filehandle_Some _ _ _ _ Hst). Qed.

Lemma fattr_is_directory st :
  S_ISDIR (st_mode st) = true → Nfs.fa_ftype (fattr_of_stat st) = Some Nfs.NFDIR.
Proof. intros Hd. rw /fattr_of_stat /=. by rw (proj2 (decode_file_type_dir _) Hd). Qed.

Lemma fattr_not_directory st :
  S_ISDIR (st_mode st) = false → Nfs.fa_ftype (fattr_of_stat st) ≠ Some Nfs.NFDIR.
Proof. intros Hd. rw /fattr_of_stat /=. intros [= Hf%decode_file_type_dir]. congruence. Qed.
End outcomes.
