(* ===== verification/ProcAttr.v ===== *)
(** The procedures GETATTR, SETATTR, LOOKUP and STATFS:
    [nfsproc_getattr.c], [nfsproc_setattr.c], [nfsproc_lookup.c] and
    [nfsproc_statfs.c], and the NULL procedures. *)
From S2P Require Import Prelude Messages Posix InodeCache Permissions FileManagement ReadDir ServerState.

Section procedures.
Context `{Posix OS} `{Codec}.
Implicit Types (credential verifier : Rpc.OpaqueAuth) (parameters : option Rpc.Any).

(** * NULL *)

Definition serve_nfs_procedure_0_do_nothing credential verifier parameters : handler OS reply :=
  mret (success [] "nfs/None").

Definition serve_mnt_procedure_0_do_nothing credential verifier parameters : handler OS reply :=
  mret (success [] "mount/None").

(** * GETATTR *)

(** The parameters of GETATTR, READLINK and STATFS are an FHandle. *)
Definition getattr_args parameters : handler OS Nfs.NfsFileHandle :=
  p ← check_type parameters "nfs/FHandle";
  fhandle ← orelse (unpack_FHandle (Rpc.value p)) garbage_args;
  orelse (Nfs.nfs_filehandle fhandle) garbage_args.

Definition serve_nfs_procedure_1_get_file_attributes credential verifier parameters
    : handler OS reply :=
  nfs_filehandle ← getattr_args parameters;
  path ← resolve (Nfs.inode_number nfs_filehandle);
  file_absolute_path ← unless path (attr_stat_error Nfs.NFSERR_NOENT);
  check_permissions credential
    (λ uid gid o, Some (check_getattr_proc_permissions file_absolute_path uid gid o))
    (attr_stat_error Nfs.NFSERR_ACCES);;
  fattr ← attributes_or_system_error file_absolute_path;
  mret (success (pack_AttrStat (Nfs.ok_res fattr)) "nfs/AttrStat").

(** * SETATTR *)

(** The handle, the attributes to set and their two time stamps. *)
Definition setattr_args parameters
    : handler OS (Nfs.NfsFileHandle * Nfs.SAttr * Nfs.TimeVal * Nfs.TimeVal) :=
  p ← check_type parameters "nfs/SAttrArgs";
  sattrargs ← orelse (unpack_SAttrArgs (Rpc.value p)) garbage_args;
  fhandle ← orelse (Nfs.sattr_file sattrargs) garbage_args;
  nfs_filehandle ← orelse (Nfs.nfs_filehandle fhandle) garbage_args;
  sattr ← orelse (Nfs.sattr_attributes sattrargs) garbage_args;
  atime ← orelse (Nfs.sa_atime sattr) garbage_args;
  mtime ← orelse (Nfs.sa_mtime sattr) garbage_args;
  mret (nfs_filehandle, sattr, atime, mtime).

(** A call that must succeed, SYSTEM_ERR otherwise. *)
Definition must (f : OS → (errno + unit) * OS) : handler OS unit :=
  r ← sys f;
  match r with inl _ => return_ system_error | inr _ => mret tt end.

(** [if (field != -1 && call(...) < 0) return SYSTEM_ERR;] *)
Definition must_if (b : bool) (f : OS → (errno + unit) * OS) : handler OS unit :=
  if b then must f else mret tt.

(** All four time fields are different from -1. *)
Definition times_given (atime mtime : Nfs.TimeVal) : bool :=
  (Nfs.seconds atime !=? UINT64_MAX) && (Nfs.useconds atime !=? UINT64_MAX) &&
  (Nfs.seconds mtime !=? UINT64_MAX) && (Nfs.useconds mtime !=? UINT64_MAX).

Definition set_times (path : string) (atime mtime : Nfs.TimeVal) : handler OS unit :=
  must_if (times_given atime mtime)
    (utimes path (to_int64 (Nfs.seconds atime)) (to_int64 (Nfs.useconds atime))
       (to_int64 (Nfs.seconds mtime)) (to_int64 (Nfs.useconds mtime))).

(** The updates of SETATTR, in order; the ones before a failing one stay. *)
Definition setattr_updates (path : string) (sattr : Nfs.SAttr) (atime mtime : Nfs.TimeVal)
    : handler OS unit :=
  must_if (Nfs.sa_mode sattr !=? UINT32_MAX) (chmod path (Nfs.sa_mode sattr));;
  must (chown path (Nfs.sa_uid sattr) (Nfs.sa_gid sattr));;
  must_if (Nfs.sa_size sattr !=? UINT64_MAX) (truncate path (to_int64 (Nfs.sa_size sattr)));;
  set_times path atime mtime.

Definition serve_nfs_procedure_2_set_file_attributes credential verifier parameters
    : handler OS reply :=
  '(nfs_filehandle, sattr, atime, mtime) ← setattr_args parameters;
  path ← resolve (Nfs.inode_number nfs_filehandle);
  file_absolute_path ← unless path (attr_stat_error Nfs.NFSERR_NOENT);
  check_permissions credential
    (λ uid gid o, check_setattr_proc_permissions file_absolute_path (Some sattr) uid gid o)
    (attr_stat_error Nfs.NFSERR_ACCES);;
  setattr_updates file_absolute_path sattr atime mtime;;
  fattr ← attributes_or_system_error file_absolute_path;
  mret (success (pack_AttrStat (Nfs.ok_res fattr)) "nfs/AttrStat").

(** * LOOKUP *)

(** The checks of a DirOpArgs message: the handle and the name. *)
Definition dir_op_args (diropargs : Nfs.DirOpArgs) : handler OS (Nfs.NfsFileHandle * string) :=
  directory_fhandle ← orelse (Nfs.dir diropargs) garbage_args;
  nfs_filehandle ← orelse (Nfs.nfs_filehandle directory_fhandle) garbage_args;
  file_name ← orelse (Nfs.name diropargs) garbage_args;
  filename ← orelse (Nfs.filename file_name) garbage_args;
  mret (nfs_filehandle, filename).

Definition lookup_args parameters : handler OS (Nfs.NfsFileHandle * string) :=
  p ← check_type parameters "nfs/DirOpArgs";
  diropargs ← orelse (unpack_DirOpArgs (Rpc.value p)) garbage_args;
  dir_op_args diropargs.

(** The directory of a directory operation: its path, or an error reply made
    by [err] for NOENT and NOTDIR. *)
Definition resolve_directory (err : Nfs.Stat → handler OS string) (inode_number : Z)
    : handler OS string :=
  path ← resolve inode_number;
  directory_absolute_path ← unless path (err Nfs.NFSERR_NOENT);
  fattr ← attributes_or_system_error directory_absolute_path;
  if decide (Nfs.fa_ftype fattr = Some Nfs.NFDIR) then mret directory_absolute_path
  else err Nfs.NFSERR_NOTDIR.

(** [lstat] of a file that must exist: ENOENT is an NFS error, every other
    failure a SYSTEM_ERR. *)
Definition lstat_existing (err : Nfs.Stat → handler OS stat) (path : string) : handler OS stat :=
  o ← gets os;
  match lstat path o with
  | inl ENOENT => err Nfs.NFSERR_NOENT
  | inl _ => return_ system_error
  | inr st => mret st
  end.

(** The second half of LOOKUP: find or create the handle of the file, read its
    attributes and reply. *)
Definition lookup_reply (file_absolute_path : string) (st_ino : Z) : handler OS reply :=
  c ← gets inode_cache;
  file_nfs_filehandle ←
    match get_nfs_filehandle_from_inode_number st_ino c with
    | Some h => mret h
    | None => h ← new_filehandle file_absolute_path; orelse h system_error
    end;
  o ← gets os;
  match get_attributes file_absolute_path o with
  | inl _ =>
      drop_filehandle (Nfs.inode_number file_nfs_filehandle);;
      return_ system_error
  | inr fattr =>
      mret (success (pack_DirOpRes
        (Nfs.ok_res (Nfs.mkDirOpOk (Some (Nfs.mkFHandle (Some file_nfs_filehandle))) (Some fattr))))
        "nfs/DirOpRes")
  end.

Definition serve_nfs_procedure_4_look_up_file_name credential verifier parameters
    : handler OS reply :=
  '(directory_nfs_filehandle, filename) ← lookup_args parameters;
  directory_absolute_path ←
    resolve_directory dir_op_res_error (Nfs.inode_number directory_nfs_filehandle);
  let file_absolute_path := get_file_absolute_path directory_absolute_path filename in
  file_stat ← lstat_existing dir_op_res_error file_absolute_path;
  check_permissions credential
    (λ uid gid o, Some (check_lookup_proc_permissions directory_absolute_path uid gid o))
    (dir_op_res_error Nfs.NFSERR_ACCES);;
  lookup_reply file_absolute_path (st_ino file_stat).

(** * STATFS *)

Definition serve_nfs_procedure_17_get_filesystem_attributes credential verifier parameters
    : handler OS reply :=
  nfs_filehandle ← getattr_args parameters;
  path ← resolve (Nfs.inode_number nfs_filehandle);
  file_absolute_path ← unless path (stat_fs_res_error Nfs.NFSERR_NOENT);
  check_permissions credential
    (λ uid gid o, Some (check_statfs_proc_permissions file_absolute_path uid gid o))
    (stat_fs_res_error Nfs.NFSERR_ACCES);;
  o ← gets os;
  match statvfs file_absolute_path o with
  | inl EIO => stat_fs_res_error Nfs.NFSERR_IO
  | inl _ => return_ system_error
  | inr fs_stat =>
      mret (success (pack_StatFsRes (Nfs.ok_res
        (Nfs.mkFsInfo (wrap32 (f_bsize fs_stat)) (f_frsize fs_stat) (f_blocks fs_stat)
           (f_bfree fs_stat) (f_bavail fs_stat)))) "nfs/StatFsRes")
  end.
End procedures.

(** * Safety *)

Section safety.
Context `{Posix OS} `{Codec}.
Implicit Types (s : server_state OS).

Lemma null_safe credential verifier parameters s :
  safe (serve_nfs_procedure_0_do_nothing credential verifier parameters) s.
Proof. intros Hs. apply wp_mret. split; [|done]. apply reply_ok_success, none_ok. set_solver. Qed.

Lemma mnt_null_safe credential verifier parameters s :
  safe (serve_mnt_procedure_0_do_nothing credential verifier parameters) s.
Proof. intros Hs. apply wp_mret. split; [|done]. apply reply_ok_success, none_ok. set_solver. Qed.

Variables (credential verifier : Rpc.OpaqueAuth) (a : Rpc.AuthSysParams) (params : Rpc.Any).
Hypothesis Hcred : auth_sys_cred credential a.

Lemma getattr_safe s :
  safe (serve_nfs_procedure_1_get_file_attributes credential verifier (Some params)) s.
Proof.
  intros Hs. rw /serve_nfs_procedure_1_get_file_attributes /getattr_args. safe_auto.
Qed.

Lemma setattr_safe s :
  safe (serve_nfs_procedure_2_set_file_attributes credential verifier (Some params)) s.
Proof.
  intros Hs. rw /serve_nfs_procedure_2_set_file_attributes /setattr_args. safe_auto.
  { eapply check_setattr_total; eassumption. }
  rw /setattr_updates /set_times /must_if /must. safe_auto.
Qed.

Lemma lookup_safe s :
  safe (serve_nfs_procedure_4_look_up_file_name credential verifier (Some params)) s.
Proof.
  intros Hs. rw /serve_nfs_procedure_4_look_up_file_name /lookup_args /dir_op_args /resolve_directory
    /lstat_existing /lookup_reply. safe_auto.
Qed.

Lemma statfs_safe s :
  safe (serve_nfs_procedure_17_get_filesystem_attributes credential verifier (Some params)) s.
Proof.
  intros Hs. rw /serve_nfs_procedure_17_get_filesystem_attributes /getattr_args. safe_auto.
Qed.
End safety.

(** * Behaviour *)

(** The reply to a LOOKUP, CREATE or MKDIR that succeeded. *)
Definition dir_op_ok_reply `{Codec} (h : Nfs.NfsFileHandle) (st : stat) : reply :=
  success (pack_DirOpRes (Nfs.ok_res (Nfs.mkDirOpOk (Some (full_fhandle h)) (Some (fattr_of_stat st)))))
    "nfs/DirOpRes".

Definition attr_stat_error_reply `{Codec} (st : Nfs.Stat) : reply :=
  success (pack_AttrStat (Nfs.mkRes (Some st) (Nfs.BODY_DEFAULT_CASE (Some tt)))) "nfs/AttrStat".

Definition dir_op_error_reply `{Codec} (st : Nfs.Stat) : reply :=
  success (pack_DirOpRes (Nfs.mkRes (Some st) (Nfs.BODY_DEFAULT_CASE (Some tt)))) "nfs/DirOpRes".

Section behaviour.
Context `{Posix OS} `{Codec}.
Implicit Types (s : server_state OS).

Lemma getattr_args_val params h s :
  carries unpack_FHandle "nfs/FHandle" params (full_fhandle h) →
  getattr_args (OS:=OS) (Some params) s = Val h s.
Proof.
  intros [Ht Hu]. rw /getattr_args. run_step (check_type_val params _ s Ht).
  by rw /mbind /prog_bind Hu.
Qed.

Lemma dir_op_args_val h name s : dir_op_args (OS:=OS) (full_dir_op h name) s = Val (h, name) s.
Proof. done. Qed.

Lemma lookup_args_val params h name s :
  carries unpack_DirOpArgs "nfs/DirOpArgs" params (full_dir_op h name) →
  lookup_args (OS:=OS) (Some params) s = Val (h, name) s.
Proof.
  intros [Ht Hu]. rw /lookup_args. run_step (check_type_val params _ s Ht).
  by rw /mbind /prog_bind Hu.
Qed.

Lemma resolve_directory_val err h d s :
  resolves s h d → is_directory d (os s) → resolve_directory err (Nfs.inode_number h) s = Val d s.
Proof.
  intros Hr (st & Hst & Hd). rw /resolve_directory.
  run_step (eq_refl : resolve (Nfs.inode_number h) s = Val _ s). rw Hr /=.
  rw {1}/mbind /prog_bind /=. run_step (attributes_val d st s Hst).
  rw decide_True //. by apply fattr_is_directory.
Qed.

Lemma lstat_existing_val err path st s :
  lstat path (os s) = inr st → lstat_existing err path s = Val st s.
Proof. intros Hst. by rw /lstat_existing /mbind /prog_bind /= Hst. Qed.

(** The second half of LOOKUP: a known inode keeps its handle. *)
Lemma lookup_reply_val path st s :
  lstat path (os s) = inr st →
  let h := match get_nfs_filehandle_from_inode_number (st_ino st) (inode_cache s) with
           | Some h => h | None => Nfs.mkNfsFileHandle (st_ino st) (wrap64 (time (os s))) end in
  let c := match get_nfs_filehandle_from_inode_number (st_ino st) (inode_cache s) with
           | Some _ => inode_cache s | None => mkMapping h path :: inode_cache s end in
  lookup_reply path (st_ino st) s = Val (dir_op_ok_reply h st) (set_inode_cache c s).
Proof.
  intros Hst. rw /lookup_reply. rw {1}/mbind /prog_bind /=.
  destruct (get_nfs_filehandle_from_inode_number _ _) as [h|].
  - rw /mbind /prog_bind /= /get_attributes Hst /=. by destruct s.
  - rw /mbind /prog_bind /= /new_filehandle (create_nfs_filehandle_Some _ _ _ _ Hst) /=.
    by rw /get_attributes Hst.
Qed.

(** SETATTR's arguments. *)
Definition full_sattr_args h (sattr : Nfs.SAttr) : Nfs.SAttrArgs :=
  Nfs.mkSAttrArgs (Some (full_fhandle h)) (Some sattr).

Lemma setattr_args_val params h sattr atime mtime s :
  carries unpack_SAttrArgs "nfs/SAttrArgs" params (full_sattr_args h sattr) →
  Nfs.sa_atime sattr = Some atime → Nfs.sa_mtime sattr = Some mtime →
  setattr_args (OS:=OS) (Some params) s = Val (h, sattr, atime, mtime) s.
Proof.
  intros [Ht Hu] Ha Hm. rw /setattr_args. run_step (check_type_val params _ s Ht).
  by rw /mbind /prog_bind Hu /= Ha /= Hm.
Qed.

(** One successful LOOKUP. *)
Lemma lookup_run credential verifier a params dh d name st s :
  auth_sys_cred credential a →
  carries unpack_DirOpArgs "nfs/DirOpArgs" params (full_dir_op dh name) →
  resolves s dh d → is_directory d (os s) →
  lstat (get_file_absolute_path d name) (os s) = inr st →
  may Execute d (Rpc.uid a) (Rpc.gid a) (os s) →
  run (serve_nfs_procedure_4_look_up_file_name credential verifier (Some params)) s =
  run (lookup_reply (get_file_absolute_path d name) (st_ino st)) s.
Proof.
  intros Hcred Hp Hr Hd Hst Hmay. rw {1}/run /serve_nfs_procedure_4_look_up_file_name.
  run_step (lookup_args_val params dh name s Hp).
  run_step (resolve_directory_val dir_op_res_error dh d s Hr Hd).
  run_step (lstat_existing_val dir_op_res_error (get_file_absolute_path d name) st s Hst).
  rw (bind_val _ _ s tt s) //.
  eapply check_permissions_val; [exact Hcred|]. f_equal. by apply (check_may Execute).
Qed.
End behaviour.

(** * Theorems *)

Section theorems.
Context `{Posix OS} `{Codec}.
Implicit Types (s : server_state OS).

(** GETATTR on every branch: for a handle that does not resolve the reply is
    NOENT; for one that does it is the attributes of the file at its path, or
    SYSTEM_ERR when the file has gone; and nothing changes. *)
Theorem getattr_behaviour credential verifier a params h s
    (Hcred : auth_sys_cred credential a)
    (Hp : carries unpack_FHandle "nfs/FHandle" params (full_fhandle h)) :
  run (serve_nfs_procedure_1_get_file_attributes credential verifier (Some params)) s =
  Some (match get_absolute_path_from_inode_number (Nfs.inode_number h) (inode_cache s) with
        | None => attr_stat_error_reply Nfs.NFSERR_NOENT
        | Some path =>
            match lstat path (os s) with
            | inl _ => system_error
            | inr st => success (pack_AttrStat (Nfs.ok_res (fattr_of_stat st))) "nfs/AttrStat"
            end
        end, s).
Proof.
  rw /run /serve_nfs_procedure_1_get_file_attributes.
  run_step (getattr_args_val params h s Hp). rw {1}/mbind /prog_bind /=.
  destruct (get_absolute_path_from_inode_number _ _) as [path|]; [|done].
  rw {1}/mbind /prog_bind /=.
  rw (bind_val _ _ s tt s).
  { eapply check_permissions_val; [exact Hcred|]. by rw /check_getattr_proc_permissions; case_match. }
  rw /mbind /prog_bind /= /attributes_or_system_error /= /mbind /prog_bind /= /get_attributes.
  by destruct (lstat path (os s)).
Qed.

(** C32: LOOKUP of an existing name in a directory the caller may search
    returns a handle for the file's inode with its attributes. The handle
    resolves from now on: to the file's path, or to the path an earlier handle
    of the same inode has. The file system does not change, no handle loses
    its path, and asking again gives the same reply and changes nothing. *)
Theorem lookup_returns_stable_handle credential verifier a params dh d name st s
    (Hcred : auth_sys_cred credential a)
    (Hp : carries unpack_DirOpArgs "nfs/DirOpArgs" params (full_dir_op dh name))
    (Hr : resolves s dh d) (Hd : is_directory d (os s))
    (Hst : lstat (get_file_absolute_path d name) (os s) = inr st)
    (Hmay : may Execute d (Rpc.uid a) (Rpc.gid a) (os s)) :
  ∃ h s',
    run (serve_nfs_procedure_4_look_up_file_name credential verifier (Some params)) s =
      Some (dir_op_ok_reply h st, s') ∧
    Nfs.inode_number h = st_ino st ∧ os s' = os s ∧
    (∃ p, resolves s' h p ∧ (p = get_file_absolute_path d name ∨ resolves s h p)) ∧
    (∀ h' p, resolves s h' p → resolves s' h' p) ∧
    run (serve_nfs_procedure_4_look_up_file_name credential verifier (Some params)) s' =
      Some (dir_op_ok_reply h st, s').
Proof.
  pose proof (run_val _ _ _ _ (lookup_reply_val _ _ _ Hst)) as Hrun.
  rw (lookup_run credential verifier a params dh d name st s) //.
  destruct (get_nfs_filehandle_from_inode_number (st_ino st) (inode_cache s)) as [h|] eqn:Hg.
  - exists h, s. rw Hrun. rw (lookup_run credential verifier a params dh d name st s) // Hrun.
    pose proof (get_fh_ino _ _ _ Hg) as Hino. assert (set_inode_cache (inode_cache s) s = s) as -> by (by destruct s).
    split_and!; try done. destruct (proj1 (get_fh_get_path (st_ino st) (inode_cache s))) as [p Hpth]; [by rw Hg|].
    rw -Hino in Hpth. exists p. split; [done|by right].
  - set (h := Nfs.mkNfsFileHandle _ _) in Hrun. set (s1 := set_inode_cache _ s) in Hrun.
    assert (∀ h' p, resolves s h' p → resolves s1 h' p) as Hmono.
    { intros h' p. rw /resolves /s1 /=. destruct (Z.eqb_spec (mapping_ino (mkMapping h (get_file_absolute_path d name)))
        (Nfs.inode_number h')) as [He|]; [|done]. intros Hs'.
      assert (is_Some (get_absolute_path_from_inode_number (st_ino st) (inode_cache s))) as Hsome.
      { rw /mapping_ino /h /= in He. rw He Hs'. eauto. }
      apply get_fh_get_path in Hsome as [? Hsome]. congruence. }
    assert (get_nfs_filehandle_from_inode_number (st_ino st) (inode_cache s1) = Some h) as Hg1.
    { by rw /s1 /= /mapping_ino /h /= Z.eqb_refl. }
    exists h, s1. rw Hrun. rw (lookup_run credential verifier a params dh d name st s1) //.
    { by apply Hmono. }
    pose proof (run_val _ _ _ _ (lookup_reply_val _ _ s1 Hst)) as Hrun1. rw Hg1 in Hrun1. rw Hrun1.
    split_and!; try done.
    exists (get_file_absolute_path d name). split; [|by left]. by rw /resolves /s1 /= /mapping_ino /h /= Z.eqb_refl.
Qed.

(** SETATTR by a caller who is not root and who asks for a new owner or
    group is refused with ACCES and changes nothing, whatever else it asks
    for and whoever owns the file. *)
Theorem setattr_owner_is_for_root credential verifier a params h path sattr atime mtime s
    (Hcred : auth_sys_cred credential a)
    (Hp : carries unpack_SAttrArgs "nfs/SAttrArgs" params (full_sattr_args h sattr))
    (Ha : Nfs.sa_atime sattr = Some atime) (Hm : Nfs.sa_mtime sattr = Some mtime)
    (Hr : resolves s h path) (Huid : Rpc.uid a ≠ 0)
    (Howner : Nfs.sa_uid sattr ≠ UINT32_MAX ∨ Nfs.sa_gid sattr ≠ UINT32_MAX) :
  run (serve_nfs_procedure_2_set_file_attributes credential verifier (Some params)) s =
  Some (attr_stat_error_reply Nfs.NFSERR_ACCES, s).
Proof.
  rw /run /serve_nfs_procedure_2_set_file_attributes.
  run_step (setattr_args_val params h sattr atime mtime s Hp Ha Hm). rw {1}/mbind /prog_bind /= Hr.
  rw {1}/mbind /prog_bind /=. rw (bind_ret _ _ s (attr_stat_error_reply Nfs.NFSERR_ACCES) s) //.
  eapply check_permissions_ret; [exact Hcred| |done]. by apply check_setattr_owner.
Qed.
End theorems.
