(* ===== verification/ProcFile.v ===== *)
(** The procedures READLINK, READ, WRITE and READDIR: [nfsproc_readlink.c],
    [nfsproc_read.c], [nfsproc_write.c] and [nfsproc_readdir.c]. *)
From S2P Require Import Prelude Messages Posix InodeCache Permissions FileManagement ReadDir.
From S2P Require Import ServerState ProcAttr.

Section procedures.
Context `{Posix OS} `{Codec}.
Implicit Types (credential verifier : Rpc.OpaqueAuth) (parameters : option Rpc.Any).

(** * READLINK *)

Definition serve_nfs_procedure_5_read_from_symbolic_link credential verifier parameters
    : handler OS reply :=
  symlink_nfs_filehandle ← getattr_args parameters;
  path ← resolve (Nfs.inode_number symlink_nfs_filehandle);
  symlink_absolute_path ← unless path (read_link_res_error Nfs.NFSERR_NOENT);
  fattr ← attributes_or_system_error symlink_absolute_path;
  (if decide (Nfs.fa_ftype fattr = Some Nfs.NFLNK) then mret tt
   else read_link_res_error Nfs.NFSERR_STALE);;
  check_permissions credential
    (λ uid gid o, Some (check_readlink_proc_permissions symlink_absolute_path uid gid o))
    (read_link_res_error Nfs.NFSERR_ACCES);;
  o ← gets os;
  match readlink symlink_absolute_path (Z.to_nat NFS_MAXPATHLEN) o with
  | inl EIO => read_link_res_error Nfs.NFSERR_IO
  | inl _ => return_ system_error
  | inr target_path =>
      mret (success (pack_ReadLinkRes (Nfs.ok_res (Nfs.mkPath (Some target_path)))) "nfs/ReadLinkRes")
  end.

(** * READ *)

Definition read_args parameters : handler OS (Nfs.NfsFileHandle * Nfs.ReadArgs) :=
  p ← check_type parameters "nfs/ReadArgs";
  readargs ← orelse (unpack_ReadArgs (Rpc.value p)) garbage_args;
  file_fhandle ← orelse (Nfs.read_file readargs) garbage_args;
  nfs_filehandle ← orelse (Nfs.nfs_filehandle file_fhandle) garbage_args;
  mret (nfs_filehandle, readargs).

(** The path behind a handle, which must not be a directory. *)
Definition resolve_file (err : Nfs.Stat → handler OS string) (inode_number : Z)
    : handler OS string :=
  path ← resolve inode_number;
  file_absolute_path ← unless path (err Nfs.NFSERR_NOENT);
  fattr ← attributes_or_system_error file_absolute_path;
  if decide (Nfs.fa_ftype fattr = Some Nfs.NFDIR) then err Nfs.NFSERR_ISDIR
  else mret file_absolute_path.

(** [read_from_file] with the operating system of the server. *)
Definition read_from_file_sys (path : string) (offset count : Z) : handler OS (Z * list byte) :=
  sys (read_from_file (Some path) offset count).

(** A request for more than NFS_MAXDATA bytes is cut down. *)
Definition clamp_count (count : Z) : Z := if count >? NFS_MAXDATA then NFS_MAXDATA else count.

Definition serve_nfs_procedure_6_read_from_file credential verifier parameters
    : handler OS reply :=
  '(file_nfs_filehandle, readargs) ← read_args parameters;
  file_absolute_path ← resolve_file read_res_error (Nfs.inode_number file_nfs_filehandle);
  check_permissions credential
    (λ uid gid o, Some (check_read_proc_permissions file_absolute_path uid gid o))
    (read_res_error Nfs.NFSERR_ACCES);;
  '(error_code, read_data) ←
    read_from_file_sys file_absolute_path (Nfs.read_offset readargs)
      (clamp_count (Nfs.read_count readargs));
  return_if (error_code >? 0) system_error;;
  fattr_after_read ← attributes_or_system_error file_absolute_path;
  mret (success (pack_ReadRes (Nfs.ok_res
    (Nfs.mkReadResBody (Some fattr_after_read)
       (Nfs.mkBinaryData (Z.of_nat (length read_data)) (Some read_data))))) "nfs/ReadRes").

(** * WRITE *)

(** The handle, the arguments and the data, which must be there. *)
Definition write_args parameters : handler OS (Nfs.NfsFileHandle * Nfs.WriteArgs * list byte) :=
  p ← check_type parameters "nfs/WriteArgs";
  writeargs ← orelse (unpack_WriteArgs (Rpc.value p)) garbage_args;
  file_fhandle ← orelse (Nfs.write_file writeargs) garbage_args;
  nfs_filehandle ← orelse (Nfs.nfs_filehandle file_fhandle) garbage_args;
  data ← orelse (Nfs.data (Nfs.write_nfsdata writeargs)) garbage_args;
  mret (nfs_filehandle, writeargs, data).

(** The status for the error codes of [write_to_file]; 0 is success and the
    others are SYSTEM_ERR. *)
Definition write_status (error_code : Z) : handler OS unit :=
  if error_code =? 4 then attr_stat_error Nfs.NFSERR_FBIG
  else if error_code =? 5 then attr_stat_error Nfs.NFSERR_IO
  else if error_code =? 6 then attr_stat_error Nfs.NFSERR_NOSPC
  else return_if (error_code >? 0) system_error.

Definition serve_nfs_procedure_8_write_to_file credential verifier parameters
    : handler OS reply :=
  '(file_nfs_filehandle, writeargs, data) ← write_args parameters;
  file_absolute_path ← resolve_file attr_stat_error (Nfs.inode_number file_nfs_filehandle);
  (if Nfs.len (Nfs.write_nfsdata writeargs) >? NFS_MAXDATA
   then attr_stat_error Nfs.NFSERR_FBIG else mret tt);;
  check_permissions credential
    (λ uid gid o, Some (check_write_proc_permissions file_absolute_path uid gid o))
    (attr_stat_error Nfs.NFSERR_ACCES);;
  error_code ← sys (write_to_file (Some file_absolute_path) (Nfs.write_offset writeargs)
                      (Nfs.len (Nfs.write_nfsdata writeargs)) data);
  write_status error_code;;
  fattr_after_write ← attributes_or_system_error file_absolute_path;
  mret (success (pack_AttrStat (Nfs.ok_res fattr_after_write)) "nfs/AttrStat").

(** * READDIR *)

Definition readdir_args parameters
    : handler OS (Nfs.NfsFileHandle * Nfs.NfsCookie * Nfs.ReadDirArgs) :=
  p ← check_type parameters "nfs/ReadDirArgs";
  readdirargs ← orelse (unpack_ReadDirArgs (Rpc.value p)) garbage_args;
  directory_fhandle ← orelse (Nfs.readdir_dir readdirargs) garbage_args;
  cookie ← orelse (Nfs.readdir_cookie readdirargs) garbage_args;
  nfs_filehandle ← orelse (Nfs.nfs_filehandle directory_fhandle) garbage_args;
  mret (nfs_filehandle, cookie, readdirargs).

(** [read_from_directory(credential->auth_sys, ..., &readdir_sessions_list, ...)] *)
Definition read_directory_sys (client : option Rpc.AuthSysParams) (path : string)
    (inode_number cookie count : Z) : handler OS (Z * list Nfs.DirectoryEntry * Z) :=
  λ s, match read_from_directory client path inode_number (readdir_sessions_list s) cookie count (os s) with
       | None => Fault
       | Some (code, entries, eof, sessions, o) => Val (code, entries, eof) (set_sessions sessions o s)
       end.

Definition serve_nfs_procedure_16_read_from_directory credential verifier parameters
    : handler OS reply :=
  '(directory_nfs_filehandle, cookie, readdirargs) ← readdir_args parameters;
  let inode_number := Nfs.inode_number directory_nfs_filehandle in
  directory_absolute_path ← resolve_directory read_dir_res_error inode_number;
  check_permissions credential
    (λ uid gid o, Some (check_readdir_proc_permissions directory_absolute_path uid gid o))
    (read_dir_res_error Nfs.NFSERR_ACCES);;
  client ← deref (auth_sys credential);
  '(error_code, directory_entries, end_of_stream) ←
    read_directory_sys (Some client) directory_absolute_path inode_number
      (to_int64 (Nfs.value cookie)) (Nfs.readdir_count readdirargs);
  return_if (error_code >? 0) system_error;;
  mret (success (pack_ReadDirRes (Nfs.ok_res (Nfs.mkReadDirOk directory_entries end_of_stream)))
          "nfs/ReadDirRes").
End procedures.

(** protobuf-c decodes a [uint32] field to a 32-bit value. *)
Class CountRange `{Codec} := count_range bytes r :
  unpack_ReadDirArgs bytes = Some r → u32 (Nfs.readdir_count r).

(** * Safety *)

Section safety.
Context `{Posix OS} `{PackedSizeBounds, !CountRange}.
Implicit Types (s : server_state OS).

Variables (credential verifier : Rpc.OpaqueAuth) (a : Rpc.AuthSysParams) (params : Rpc.Any).
Hypothesis Hcred : auth_sys_cred credential a.

Lemma readlink_safe s :
  safe (serve_nfs_procedure_5_read_from_symbolic_link credential verifier (Some params)) s.
Proof.
  intros Hs. rw /serve_nfs_procedure_5_read_from_symbolic_link /getattr_args. safe_auto.
Qed.

(** A READ result is well formed whatever was read. *)
Lemma read_result_ok st data :
  result_ok "nfs/ReadRes" (pack_ReadRes (Nfs.ok_res
    (Nfs.mkReadResBody (Some (fattr_of_stat st))
       (Nfs.mkBinaryData (Z.of_nat (length data)) (Some data))))).
Proof.
  apply read_res_ok. rw /received_read_res /received_binary /=.
  by destruct data as [|b data].
Qed.

Lemma read_safe s : safe (serve_nfs_procedure_6_read_from_file credential verifier (Some params)) s.
Proof.
  intros Hs. rw /serve_nfs_procedure_6_read_from_file /read_args /resolve_file /read_from_file_sys.
  safe_auto. split; [by apply reply_ok_success, read_result_ok|done].
Qed.

Lemma write_safe s : safe (serve_nfs_procedure_8_write_to_file credential verifier (Some params)) s.
Proof.
  intros Hs. rw /serve_nfs_procedure_8_write_to_file /write_args /resolve_file /write_status. safe_auto.
Qed.

Lemma wp_read_directory_sys client path ino cookie count
    (Q : Z * list Nfs.DirectoryEntry * Z → server_state OS → Prop) E s :
  client_ok client → sessions_inv (readdir_sessions_list s) → u32 count →
  (∀ code es eof l o, sessions_inv l → Validation.validate_entries es = 0 →
     read_from_directory client path ino (readdir_sessions_list s) cookie count (os s) =
       Some (code, es, eof, l, o) →
     Q (code, es, eof) (set_sessions l o s)) →
  wp (read_directory_sys client path ino cookie count) Q E s.
Proof.
  intros Hc [Hl Hu] Hn HQ. rw /wp /read_directory_sys.
  destruct (read_session_spec client path ino _ cookie count (os s) Hc Hl Hu Hn)
    as (code & es & eof & l & o & Hr & _ & Hl' & Hu' & _ & Hval & _).
  rw Hr. by apply HQ.
Qed.

Lemma readdir_safe s n :
  Rpc.machinename a = Some n →
  safe (serve_nfs_procedure_16_read_from_directory credential verifier (Some params)) s.
Proof.
  intros Hn Hs. rw /serve_nfs_procedure_16_read_from_directory /readdir_args /resolve_directory.
  safe_auto. apply wp_deref; [by rw (proj2 Hcred)|]. intros client Hcl. safe_auto.
  rw (proj2 Hcred) in Hcl. injection Hcl as <-.
  apply wp_read_directory_sys; [by exists a, n|done|eapply count_range; eassumption|].
  intros code es eof l o Hinv Hval _. safe_auto. split; [|done].
  apply reply_ok_success, read_dir_res_ok, validate_res_ok. by rw /= Hval.
Qed.
End safety.

(** * Behaviour *)

Definition read_error_reply `{Codec} (st : Nfs.Stat) : reply :=
  success (pack_ReadRes (Nfs.mkRes (Some st) (Nfs.BODY_DEFAULT_CASE (Some tt)))) "nfs/ReadRes".

Definition read_ok_reply `{Codec} (st : stat) (data : list byte) : reply :=
  success (pack_ReadRes (Nfs.ok_res (Nfs.mkReadResBody (Some (fattr_of_stat st))
    (Nfs.mkBinaryData (Z.of_nat (length data)) (Some data))))) "nfs/ReadRes".

Section behaviour.
Context `{Posix OS} `{Codec}.
Implicit Types (s : server_state OS).

(** READ's and WRITE's arguments. *)
Definition full_read_args h offset count : Nfs.ReadArgs := Nfs.mkReadArgs (Some (full_fhandle h)) offset count 0.

Definition full_write_args h offset data : Nfs.WriteArgs :=
  Nfs.mkWriteArgs (Some (full_fhandle h)) 0 offset 0
    (Nfs.mkBinaryData (Z.of_nat (length data)) (Some data)).

Lemma read_args_val params h offset count s :
  carries unpack_ReadArgs "nfs/ReadArgs" params (full_read_args h offset count) →
  read_args (OS:=OS) (Some params) s = Val (h, full_read_args h offset count) s.
Proof.
  intros [Ht Hu]. rw /read_args. run_step (check_type_val params _ s Ht). by rw /mbind /prog_bind Hu.
Qed.

Lemma write_args_val params h offset data s :
  carries unpack_WriteArgs "nfs/WriteArgs" params (full_write_args h offset data) →
  write_args (OS:=OS) (Some params) s = Val (h, full_write_args h offset data, data) s.
Proof.
  intros [Ht Hu]. rw /write_args. run_step (check_type_val params _ s Ht). by rw /mbind /prog_bind Hu.
Qed.

Lemma resolve_file_val err h path st s :
  resolves s h path → lstat path (os s) = inr st → S_ISDIR (st_mode st) = false →
  resolve_file err (Nfs.inode_number h) s = Val path s.
Proof.
  intros Hr Hst Hd. rw /resolve_file.
  run_step (eq_refl : resolve (Nfs.inode_number h) s = Val _ s). rw Hr /=.
  rw {1}/mbind /prog_bind /=. run_step (attributes_val path st s Hst).
  rw decide_False //. by apply fattr_not_directory.
Qed.

(** READ of a file the caller may read, up to the outcome of the read. *)
Lemma read_run credential verifier a params h path offset count st e data o' s :
  auth_sys_cred credential a → carries unpack_ReadArgs "nfs/ReadArgs" params (full_read_args h offset count) →
  resolves s h path → lstat path (os s) = inr st → S_ISDIR (st_mode st) = false →
  may Read path (Rpc.uid a) (Rpc.gid a) (os s) →
  read_from_file (Some path) offset (clamp_count count) (os s) = (e, data, o') →
  run (serve_nfs_procedure_6_read_from_file credential verifier (Some params)) s =
  Some (if e >? 0 then system_error else match lstat path o' with inl _ => system_error | inr st' => read_ok_reply st' data end,
        set_os o' s).
Proof.
  intros Hcred Hp Hr Hst Hfile Hmay Hread. rw {1}/run /serve_nfs_procedure_6_read_from_file.
  run_step (read_args_val params h offset count s Hp).
  run_step (resolve_file_val read_res_error h path st s Hr Hst Hfile).
  rw (bind_val _ _ s tt s).
  { eapply check_permissions_val; [exact Hcred|]. f_equal. by apply (check_may Read). }
  rw /read_from_file_sys. run_step (sys_val _ _ _ s Hread). destruct (e >? 0); [done|].
  rw {1}/mbind /prog_bind /=. destruct (lstat path o') as [er|st'] eqn:Hst'.
  - by rw /attributes_or_system_error /mbind /prog_bind /= /get_attributes Hst'.
  - by run_step (attributes_val path st' (set_os o' s) Hst').
Qed.

(** WRITE of a file the caller may write, when the write succeeds. *)
Lemma write_run credential verifier a params h path offset data st o1 st1 s :
  auth_sys_cred credential a → carries unpack_WriteArgs "nfs/WriteArgs" params (full_write_args h offset data) →
  resolves s h path → lstat path (os s) = inr st → S_ISDIR (st_mode st) = false →
  Z.of_nat (length data) ≤ NFS_MAXDATA → may Write path (Rpc.uid a) (Rpc.gid a) (os s) →
  write_to_file (Some path) offset (Z.of_nat (length data)) data (os s) = (0, o1) → lstat path o1 = inr st1 →
  run (serve_nfs_procedure_8_write_to_file credential verifier (Some params)) s =
  Some (success (pack_AttrStat (Nfs.ok_res (fattr_of_stat st1))) "nfs/AttrStat", set_os o1 s).
Proof.
  intros Hcred Hp Hr Hst Hfile Hsmall Hmay Hwrite Hst1. rw {1}/run /serve_nfs_procedure_8_write_to_file.
  run_step (write_args_val params h offset data s Hp).
  run_step (resolve_file_val attr_stat_error h path st s Hr Hst Hfile).
  cbn [full_write_args Nfs.write_nfsdata Nfs.len Nfs.write_offset].
  rw (_ : (Z.of_nat (length data) >? NFS_MAXDATA) = false); [lia|]. rw {1}/mbind /prog_bind /=.
  rw (bind_val _ _ s tt s).
  { eapply check_permissions_val; [exact Hcred|]. f_equal. by apply (check_may Write). }
  run_step (sys_val _ _ _ s Hwrite). rw {1}/mbind /prog_bind /=.
  by run_step (attributes_val path st1 (set_os o1 s) Hst1).
Qed.

(** READDIR of a directory the caller may read, when a page is read. *)
Definition full_readdir_args h cookie count : Nfs.ReadDirArgs :=
  Nfs.mkReadDirArgs (Some (full_fhandle h)) (Some (Nfs.mkNfsCookie cookie)) count.

Lemma readdir_run credential verifier a params h d cookie count es eof l' o' s :
  auth_sys_cred credential a →
  carries unpack_ReadDirArgs "nfs/ReadDirArgs" params (full_readdir_args h cookie count) →
  resolves s h d → is_directory d (os s) → may Read d (Rpc.uid a) (Rpc.gid a) (os s) →
  read_from_directory (Some a) d (Nfs.inode_number h) (readdir_sessions_list s) (to_int64 cookie) count (os s) =
    Some (0, es, eof, l', o') →
  run (serve_nfs_procedure_16_read_from_directory credential verifier (Some params)) s =
  Some (success (pack_ReadDirRes (Nfs.ok_res (Nfs.mkReadDirOk es eof))) "nfs/ReadDirRes", set_sessions l' o' s).
Proof.
  intros Hcred [Ht Hu] Hr Hd Hmay Hread. rw {1}/run /serve_nfs_procedure_16_read_from_directory.
  rw (bind_val _ _ s (h, Nfs.mkNfsCookie cookie, full_readdir_args h cookie count) s).
  { rw /readdir_args. run_step (check_type_val params _ s Ht). by rw /mbind /prog_bind Hu. }
  cbv zeta. run_step (resolve_directory_val read_dir_res_error h d s Hr Hd).
  rw (bind_val _ _ s tt s).
  { eapply check_permissions_val; [exact Hcred|]. f_equal. by apply (check_may Read). }
  rw (proj2 Hcred) (bind_val _ _ s a s) //. rw (bind_val _ _ s (0, es, eof) (set_sessions l' o' s)) //.
  by rw /read_directory_sys Hread.
Qed.

Lemma clamp_count_bounds n : 0 ≤ n → 0 ≤ clamp_count n ≤ n ∧ clamp_count n ≤ NFS_MAXDATA.
Proof. intros Hn. rw /clamp_count /NFS_MAXDATA. destruct (n >? 8192) eqn:Hc; lia. Qed.
End behaviour.

(** * Theorems *)

Section theorems.
Context `{Stdio OS} `{Codec}.
Implicit Types (s : server_state OS).

(** READ of a file the caller may read ends in SYSTEM_ERR or returns data:
    never more bytes than asked for nor than the protocol's limit of 8192, with
    the length field equal to their number, and, when the file's content is
    known, exactly the bytes of the file from the offset on. *)
Theorem read_returns_file_data credential verifier a params h path offset count st s
    (Hcred : auth_sys_cred credential a)
    (Hp : carries unpack_ReadArgs "nfs/ReadArgs" params (full_read_args h offset count))
    (Hr : resolves s h path) (Hst : lstat path (os s) = inr st) (Hfile : S_ISDIR (st_mode st) = false)
    (Hmay : may Read path (Rpc.uid a) (Rpc.gid a) (os s)) (Hcount : 0 ≤ count) :
  ∃ r s', run (serve_nfs_procedure_6_read_from_file credential verifier (Some params)) s = Some (r, s') ∧
    (r = system_error ∨
     ∃ data st', r = read_ok_reply st' data ∧
       Z.of_nat (length data) ≤ count ∧ Z.of_nat (length data) ≤ NFS_MAXDATA ∧
       ∀ c, content path (os s) = Some c →
         data = take (Z.to_nat (clamp_count count)) (drop (Z.to_nat offset) c)).
Proof.
  destruct (clamp_count_bounds count Hcount) as [[Hc0 Hc1] Hc2].
  destruct (read_from_file (Some path) offset (clamp_count count) (os s)) as [[e data] o'] eqn:Hread.
  rw (read_run credential verifier a params h path offset count st e data o' s) //. eexists _, _. split; [done|].
  destruct (e >? 0) eqn:He; [by left|]. destruct (lstat path o') as [er|st'] eqn:Hst'; [by left|right].
  exists data, st'. split; [done|].
  pose proof (read_from_file_length _ _ _ _ _ _ _ Hc0 Hread) as Hlen. split_and!; [lia|lia|].
  intros c Hcont. assert (e = 0) as -> by (pose proof (read_from_file_code _ _ _ _ _ _ _ Hread); lia).
  by apply (read_from_file_content path offset (clamp_count count) c data (os s) o').
Qed.

(** A WRITE of more than 8192 bytes is refused with FBIG before the
    permissions are looked at, and changes nothing. *)
Theorem write_too_large_refused credential verifier params h path offset data st s
    (Hp : carries unpack_WriteArgs "nfs/WriteArgs" params (full_write_args h offset data))
    (Hr : resolves s h path) (Hst : lstat path (os s) = inr st) (Hfile : S_ISDIR (st_mode st) = false)
    (Hlarge : NFS_MAXDATA < Z.of_nat (length data)) :
  run (serve_nfs_procedure_8_write_to_file credential verifier (Some params)) s =
  Some (attr_stat_error_reply Nfs.NFSERR_FBIG, s).
Proof.
  rw {1}/run /serve_nfs_procedure_8_write_to_file. run_step (write_args_val params h offset data s Hp).
  run_step (resolve_file_val attr_stat_error h path st s Hr Hst Hfile).
  cbn [full_write_args Nfs.write_nfsdata Nfs.len]. rw (_ : (Z.of_nat (length data) >? NFS_MAXDATA) = true) //; lia.
Qed.

(** A WRITE within the limit by a caller who may write the file, whose write
    succeeds, replies with the attributes of the file after the write; the
    file then holds the old content with the data at the offset, and no other
    file changes. *)
Theorem write_stores_data credential verifier a params h path offset data c st o1 st1 s
    (Hcred : auth_sys_cred credential a)
    (Hp : carries unpack_WriteArgs "nfs/WriteArgs" params (full_write_args h offset data))
    (Hr : resolves s h path) (Hst : lstat path (os s) = inr st) (Hfile : S_ISDIR (st_mode st) = false)
    (Hsmall : Z.of_nat (length data) ≤ NFS_MAXDATA)
    (Hmay : may Write path (Rpc.uid a) (Rpc.gid a) (os s))
    (Hc : content path (os s) = Some c) (Hflush : ∀ f o, ∃ o', fclose f o = (inr tt, o'))
    (Hwrite : write_to_file (Some path) offset (Z.of_nat (length data)) data (os s) = (0, o1))
    (Hst1 : lstat path o1 = inr st1) :
  run (serve_nfs_procedure_8_write_to_file credential verifier (Some params)) s =
    Some (success (pack_AttrStat (Nfs.ok_res (fattr_of_stat st1))) "nfs/AttrStat", set_os o1 s) ∧
  content path o1 = Some (splice (Z.to_nat offset) data c) ∧
  ∀ p, file_id p (os s) ≠ file_id path (os s) → content p o1 = content p (os s).
Proof.
  split; [by apply (write_run credential verifier a params h path offset data st o1 st1 s)|].
  by apply (write_to_file_content path offset data c (os s) o1).
Qed.
End theorems.
