(* ===== verification/ProcCreate.v ===== *)
(** The procedures that create directory entries: CREATE, MKDIR, LINK and
    SYMLINK ([nfsproc_create.c], [nfsproc_mkdir.c], [nfsproc_link.c] and
    [nfsproc_symlink.c]). *)
From S2P Require Import Prelude Messages Posix InodeCache Permissions FileManagement ReadDir.
From S2P Require Import ServerState ProcAttr.

Section procedures.
Context `{Posix OS} `{Codec}.
Implicit Types (credential verifier : Rpc.OpaqueAuth) (parameters : option Rpc.Any).

(** [lstat] of a file that must not exist: success is EXIST, a failure other
    than ENOENT is a SYSTEM_ERR. *)
Definition lstat_absent (err : Nfs.Stat → handler OS unit) (path : string) : handler OS unit :=
  o ← gets os;
  match lstat path o with
  | inr _ => err Nfs.NFSERR_EXIST
  | inl ENOENT => mret tt
  | inl _ => return_ system_error
  end.

(** * CREATE *)

(** The arguments of CREATE and MKDIR. *)
Definition create_args parameters
    : handler OS (Nfs.NfsFileHandle * string * Nfs.SAttr * Nfs.TimeVal * Nfs.TimeVal) :=
  p ← check_type parameters "nfs/CreateArgs";
  createargs ← orelse (unpack_CreateArgs (Rpc.value p)) garbage_args;
  diropargs ← orelse (Nfs.where_ createargs) garbage_args;
  '(nfs_filehandle, filename) ← dir_op_args diropargs;
  sattr ← orelse (Nfs.create_attributes createargs) garbage_args;
  atime ← orelse (Nfs.sa_atime sattr) garbage_args;
  mtime ← orelse (Nfs.sa_mtime sattr) garbage_args;
  mret (nfs_filehandle, filename, sattr, atime, mtime).

(** The checks before the file is created; the path of the new file. *)
Definition create_checks credential (directory_nfs_filehandle : Nfs.NfsFileHandle)
    (filename : string) : handler OS string :=
  directory_absolute_path ←
    resolve_directory dir_op_res_error (Nfs.inode_number directory_nfs_filehandle);
  (if name_too_long filename then dir_op_res_error Nfs.NFSERR_NAMETOOLONG else mret tt);;
  let file_absolute_path := get_file_absolute_path directory_absolute_path filename in
  lstat_absent dir_op_res_error file_absolute_path;;
  check_permissions credential
    (λ uid gid o, Some (check_create_proc_permissions directory_absolute_path uid gid o))
    (dir_op_res_error Nfs.NFSERR_ACCES);;
  mret file_absolute_path.

(** [open] with O_CREAT and the statuses for its failures. *)
Definition create_open (path : string) (sattr : Nfs.SAttr) : handler OS unit :=
  r ← sys (open_creat path
             (if Nfs.sa_mode sattr !=? UINT32_MAX then Some (Nfs.sa_mode sattr) else None));
  match r with
  | inr _ => mret tt
  | inl EIO => dir_op_res_error Nfs.NFSERR_IO
  | inl ENAMETOOLONG => dir_op_res_error Nfs.NFSERR_NAMETOOLONG
  | inl ENOSPC => dir_op_res_error Nfs.NFSERR_NOSPC
  | inl ENXIO => dir_op_res_error Nfs.NFSERR_NXIO
  | inl _ => return_ system_error
  end.

(** The handle and attributes of what was created, and the reply. *)
Definition created_reply (path : string) : handler OS reply :=
  h ← new_filehandle path;
  nfs_filehandle ← orelse h system_error;
  o ← gets os;
  match get_attributes path o with
  | inl _ =>
      drop_filehandle (Nfs.inode_number nfs_filehandle);;
      return_ system_error
  | inr fattr =>
      mret (success (pack_DirOpRes
        (Nfs.ok_res (Nfs.mkDirOpOk (Some (Nfs.mkFHandle (Some nfs_filehandle))) (Some fattr))))
        "nfs/DirOpRes")
  end.

Definition serve_nfs_procedure_9_create_file credential verifier parameters : handler OS reply :=
  '(directory_nfs_filehandle, filename, sattr, atime, mtime) ← create_args parameters;
  file_absolute_path ← create_checks credential directory_nfs_filehandle filename;
  create_open file_absolute_path sattr;;
  must (chown file_absolute_path (Nfs.sa_uid sattr) (Nfs.sa_gid sattr));;
  must_if (Nfs.sa_size sattr !=? UINT64_MAX)
    (truncate file_absolute_path (to_int64 (Nfs.sa_size sattr)));;
  set_times file_absolute_path atime mtime;;
  created_reply file_absolute_path.

(** * MKDIR *)

Definition mkdir_checks credential (directory_nfs_filehandle : Nfs.NfsFileHandle)
    (filename : string) : handler OS string :=
  directory_absolute_path ←
    resolve_directory dir_op_res_error (Nfs.inode_number directory_nfs_filehandle);
  (if name_too_long filename then dir_op_res_error Nfs.NFSERR_NAMETOOLONG else mret tt);;
  let child_directory_absolute_path := get_file_absolute_path directory_absolute_path filename in
  lstat_absent dir_op_res_error child_directory_absolute_path;;
  check_permissions credential
    (λ uid gid o, Some (check_mkdir_proc_permissions directory_absolute_path uid gid o))
    (dir_op_res_error Nfs.NFSERR_ACCES);;
  mret child_directory_absolute_path.

Definition mkdir_call (path : string) (sattr : Nfs.SAttr) : handler OS unit :=
  r ← sys (mkdir path
             (if Nfs.sa_mode sattr !=? UINT32_MAX then Nfs.sa_mode sattr else 448 (* 0700 *)));
  match r with
  | inr _ => mret tt
  | inl EDQUOT => dir_op_res_error Nfs.NFSERR_DQUOT
  | inl ENAMETOOLONG => dir_op_res_error Nfs.NFSERR_NAMETOOLONG
  | inl ENOSPC => dir_op_res_error Nfs.NFSERR_NOSPC
  | inl EROFS => dir_op_res_error Nfs.NFSERR_ROFS
  | inl _ => return_ system_error
  end.

(** A size is refused, after the directory was created. *)
Definition serve_nfs_procedure_14_create_directory credential verifier parameters
    : handler OS reply :=
  '(directory_nfs_filehandle, filename, sattr, atime, mtime) ← create_args parameters;
  child_directory_absolute_path ← mkdir_checks credential directory_nfs_filehandle filename;
  mkdir_call child_directory_absolute_path sattr;;
  must (chown child_directory_absolute_path (Nfs.sa_uid sattr) (Nfs.sa_gid sattr));;
  (if Nfs.sa_size sattr !=? UINT64_MAX then dir_op_res_error Nfs.NFSERR_ISDIR else mret tt);;
  set_times child_directory_absolute_path atime mtime;;
  created_reply child_directory_absolute_path.

(** * LINK *)

Definition link_args parameters : handler OS (Nfs.NfsFileHandle * Nfs.NfsFileHandle * string) :=
  p ← check_type parameters "nfs/LinkArgs";
  linkargs ← orelse (unpack_LinkArgs (Rpc.value p)) garbage_args;
  target_file_fhandle ← orelse (Nfs.link_from linkargs) garbage_args;
  target_nfs_filehandle ← orelse (Nfs.nfs_filehandle target_file_fhandle) garbage_args;
  to ← orelse (Nfs.link_to linkargs) garbage_args;
  '(nfs_filehandle, filename) ← dir_op_args to;
  mret (target_nfs_filehandle, nfs_filehandle, filename).

(** The target must be a regular file. *)
Definition link_target (inode_number : Z) : handler OS string :=
  path ← resolve inode_number;
  target_file_absolute_path ← unless path (nfs_stat_error Nfs.NFSERR_NOENT);
  fattr ← attributes_or_system_error target_file_absolute_path;
  if decide (Nfs.fa_ftype fattr = Some Nfs.NFREG) then mret target_file_absolute_path
  else nfs_stat_error Nfs.NFSERR_ISDIR.

Definition link_checks credential (directory_nfs_filehandle : Nfs.NfsFileHandle)
    (filename : string) : handler OS string :=
  directory_absolute_path ←
    resolve_directory nfs_stat_error (Nfs.inode_number directory_nfs_filehandle);
  (if name_too_long filename then nfs_stat_error Nfs.NFSERR_NAMETOOLONG else mret tt);;
  let file_absolute_path := get_file_absolute_path directory_absolute_path filename in
  lstat_absent nfs_stat_error file_absolute_path;;
  check_permissions credential
    (λ uid gid o, Some (check_link_proc_permissions directory_absolute_path uid gid o))
    (nfs_stat_error Nfs.NFSERR_ACCES);;
  mret file_absolute_path.

Definition link_call (target path : string) : handler OS unit :=
  r ← sys (link target path);
  match r with
  | inr _ => mret tt
  | inl EDQUOT => nfs_stat_error Nfs.NFSERR_DQUOT
  | inl EIO => nfs_stat_error Nfs.NFSERR_IO
  | inl ENAMETOOLONG => nfs_stat_error Nfs.NFSERR_NAMETOOLONG
  | inl ENOENT => nfs_stat_error Nfs.NFSERR_NOENT
  | inl ENOSPC => nfs_stat_error Nfs.NFSERR_NOSPC
  | inl EROFS => nfs_stat_error Nfs.NFSERR_ROFS
  | inl _ => return_ system_error
  end.

Definition serve_nfs_procedure_12_create_link_to_file credential verifier parameters
    : handler OS reply :=
  '(target_nfs_filehandle, directory_nfs_filehandle, filename) ← link_args parameters;
  target_file_absolute_path ← link_target (Nfs.inode_number target_nfs_filehandle);
  file_absolute_path ← link_checks credential directory_nfs_filehandle filename;
  link_call target_file_absolute_path file_absolute_path;;
  mret (nfs_stat_reply Nfs.NFS_OK).

(** * SYMLINK *)

(** The directory handle, the name and the target; the attributes are checked
    for their shape and not used. *)
Definition symlink_args parameters : handler OS (Nfs.NfsFileHandle * string * string) :=
  p ← check_type parameters "nfs/SymLinkArgs";
  symlinkargs ← orelse (unpack_SymLinkArgs (Rpc.value p)) garbage_args;
  from ← orelse (Nfs.symlink_from symlinkargs) garbage_args;
  '(nfs_filehandle, filename) ← dir_op_args from;
  to ← orelse (Nfs.symlink_to symlinkargs) garbage_args;
  path ← orelse (Nfs.path to) garbage_args;
  sattr ← orelse (Nfs.symlink_attributes symlinkargs) garbage_args;
  atime ← orelse (Nfs.sa_atime sattr) garbage_args;
  mtime ← orelse (Nfs.sa_mtime sattr) garbage_args;
  mret (nfs_filehandle, filename, path).

Definition symlink_checks credential (directory_nfs_filehandle : Nfs.NfsFileHandle)
    (filename : string) : handler OS string :=
  directory_absolute_path ←
    resolve_directory nfs_stat_error (Nfs.inode_number directory_nfs_filehandle);
  (if name_too_long filename then nfs_stat_error Nfs.NFSERR_NAMETOOLONG else mret tt);;
  let file_absolute_path := get_file_absolute_path directory_absolute_path filename in
  lstat_absent nfs_stat_error file_absolute_path;;
  check_permissions credential
    (λ uid gid o, Some (check_symlink_proc_permissions directory_absolute_path uid gid o))
    (nfs_stat_error Nfs.NFSERR_ACCES);;
  mret file_absolute_path.

Definition symlink_call (target path : string) : handler OS unit :=
  r ← sys (symlink target path);
  match r with
  | inr _ => mret tt
  | inl EIO => nfs_stat_error Nfs.NFSERR_IO
  | inl ENAMETOOLONG => nfs_stat_error Nfs.NFSERR_NAMETOOLONG
  | inl ENOENT => nfs_stat_error Nfs.NFSERR_NOENT
  | inl ENOSPC => nfs_stat_error Nfs.NFSERR_NOSPC
  | inl EROFS => nfs_stat_error Nfs.NFSERR_ROFS
  | inl _ => return_ system_error
  end.

Definition serve_nfs_procedure_13_create_symbolic_link credential verifier parameters
    : handler OS reply :=
  '(directory_nfs_filehandle, filename, target) ← symlink_args parameters;
  file_absolute_path ← symlink_checks credential directory_nfs_filehandle filename;
  symlink_call target file_absolute_path;;
  mret (nfs_stat_reply Nfs.NFS_OK).
End procedures.

(** * Safety *)

Section safety.
Context `{Posix OS} `{Codec}.
Implicit Types (s : server_state OS).

Variables (credential verifier : Rpc.OpaqueAuth) (a : Rpc.AuthSysParams) (params : Rpc.Any).
Hypothesis Hcred : auth_sys_cred credential a.

Lemma create_safe s : safe (serve_nfs_procedure_9_create_file credential verifier (Some params)) s.
Proof.
  intros Hs. rw /serve_nfs_procedure_9_create_file /create_args /dir_op_args /create_checks
    /resolve_directory /lstat_absent /create_open /set_times /must_if /must /created_reply. safe_auto.
Qed.

Lemma mkdir_safe s :
  safe (serve_nfs_procedure_14_create_directory credential verifier (Some params)) s.
Proof.
  intros Hs. rw /serve_nfs_procedure_14_create_directory /create_args /dir_op_args /mkdir_checks
    /resolve_directory /lstat_absent /mkdir_call /set_times /must_if /must /created_reply. safe_auto.
Qed.

Lemma link_safe s :
  safe (serve_nfs_procedure_12_create_link_to_file credential verifier (Some params)) s.
Proof.
  intros Hs. rw /serve_nfs_procedure_12_create_link_to_file /link_args /dir_op_args /link_target
    /link_checks /resolve_directory /lstat_absent /link_call. safe_auto.
Qed.

Lemma symlink_safe s :
  safe (serve_nfs_procedure_13_create_symbolic_link credential verifier (Some params)) s.
Proof.
  intros Hs. rw /serve_nfs_procedure_13_create_symbolic_link /symlink_args /dir_op_args
    /symlink_checks /resolve_directory /lstat_absent /symlink_call. safe_auto.
Qed.
End safety.

(** * Behaviour *)

Section behaviour.
Context `{Posix OS} `{Codec}.
Implicit Types (s : server_state OS).

(** CREATE's and MKDIR's arguments. *)
Definition full_create_args dh name (sattr : Nfs.SAttr) : Nfs.CreateArgs :=
  Nfs.mkCreateArgs (Some (full_dir_op dh name)) (Some sattr).

Lemma create_args_val params dh name sattr atime mtime s :
  carries unpack_CreateArgs "nfs/CreateArgs" params (full_create_args dh name sattr) →
  Nfs.sa_atime sattr = Some atime → Nfs.sa_mtime sattr = Some mtime →
  create_args (OS:=OS) (Some params) s = Val (dh, name, sattr, atime, mtime) s.
Proof.
  intros [Ht Hu] Ha Hm. rw /create_args. run_step (check_type_val params _ s Ht).
  by rw /mbind /prog_bind Hu /= Ha /= Hm.
Qed.

(** The checks common to CREATE and MKDIR. *)
Definition creatable (a : Rpc.AuthSysParams) dh d name s : Prop :=
  resolves s dh d ∧ is_directory d (os s) ∧ name_too_long name = false ∧
  lstat (get_file_absolute_path d name) (os s) = inl ENOENT ∧
  may Write d (Rpc.uid a) (Rpc.gid a) (os s).

Lemma lstat_absent_val err path s :
  lstat path (os s) = inl ENOENT → lstat_absent err path s = Val tt s.
Proof. intros Hst. by rw /lstat_absent /mbind /prog_bind /= Hst. Qed.

Lemma create_checks_val credential a dh d name s :
  auth_sys_cred credential a → creatable a dh d name s →
  create_checks credential dh name s = Val (get_file_absolute_path d name) s.
Proof.
  intros Hcred (Hr & Hd & Hn & Hst & Hmay). rw /create_checks.
  run_step (resolve_directory_val dir_op_res_error dh d s Hr Hd). rw Hn {1}/mbind /prog_bind /=.
  run_step (lstat_absent_val dir_op_res_error _ s Hst).
  rw (bind_val _ _ s tt s) //. eapply check_permissions_val; [exact Hcred|].
  f_equal. by apply (check_may Write).
Qed.

Lemma mkdir_checks_val credential a dh d name s :
  auth_sys_cred credential a → creatable a dh d name s →
  mkdir_checks credential dh name s = Val (get_file_absolute_path d name) s.
Proof.
  intros Hcred (Hr & Hd & Hn & Hst & Hmay). rw /mkdir_checks.
  run_step (resolve_directory_val dir_op_res_error dh d s Hr Hd). rw Hn {1}/mbind /prog_bind /=.
  run_step (lstat_absent_val dir_op_res_error _ s Hst).
  rw (bind_val _ _ s tt s) //. eapply check_permissions_val; [exact Hcred|].
  f_equal. by apply (check_may Write).
Qed.

Lemma created_reply_val path st s :
  lstat path (os s) = inr st →
  let h := Nfs.mkNfsFileHandle (st_ino st) (wrap64 (time (os s))) in
  created_reply path s = Val (dir_op_ok_reply h st) (set_inode_cache (mkMapping h path :: inode_cache s) s).
Proof.
  intros Hst. pose proof (new_filehandle_val path st s Hst) as Hn. cbv zeta in Hn.
  rw /created_reply. run_step Hn.
  by rw /mbind /prog_bind /= /get_attributes Hst.
Qed.

Lemma must_val (f : OS → (errno + unit) * OS) o s :
  f (os s) = (inr tt, o) → must f s = Val tt (set_os o s).
Proof. intros Hf. rw /must. by run_step (sys_val _ _ _ s Hf). Qed.

(** The updates after a file was created: owner, size when given, and times
    when given. *)
Definition create_updates path (sattr : Nfs.SAttr) (atime mtime : Nfs.TimeVal) : handler OS unit :=
  must (chown path (Nfs.sa_uid sattr) (Nfs.sa_gid sattr));;
  must_if (Nfs.sa_size sattr !=? UINT64_MAX) (truncate path (to_int64 (Nfs.sa_size sattr)));;
  set_times path atime mtime.
End behaviour.

(** * Theorems *)

Section theorems.
Context `{Posix OS} `{Codec}.
Implicit Types (s : server_state OS).

(** C33: CREATE of a new name in a directory the caller may write, when the
    system calls succeed, replies with a handle and the attributes of the file
    that now exists at the name's path. The handle resolves to that path and
    no handle of another inode is affected. *)
Theorem create_returns_handle credential verifier a params dh d name sattr atime mtime o1 o2 st s
    (Hcred : auth_sys_cred credential a)
    (Hp : carries unpack_CreateArgs "nfs/CreateArgs" params (full_create_args dh name sattr))
    (Ha : Nfs.sa_atime sattr = Some atime) (Hm : Nfs.sa_mtime sattr = Some mtime)
    (Hok : creatable a dh d name s)
    (Hopen : open_creat (get_file_absolute_path d name)
               (if Nfs.sa_mode sattr !=? UINT32_MAX then Some (Nfs.sa_mode sattr) else None) (os s)
             = (inr tt, o1))
    (Hupd : create_updates (get_file_absolute_path d name) sattr atime mtime (set_os o1 s)
            = Val tt (set_os o2 s))
    (Hst : lstat (get_file_absolute_path d name) o2 = inr st) :
  ∃ h s', run (serve_nfs_procedure_9_create_file credential verifier (Some params)) s =
            Some (dir_op_ok_reply h st, s') ∧
          os s' = o2 ∧ Nfs.inode_number h = st_ino st ∧
          resolves s' h (get_file_absolute_path d name) ∧
          (∀ h' p, Nfs.inode_number h' ≠ st_ino st → resolves s h' p → resolves s' h' p).
Proof.
  rw /run /serve_nfs_procedure_9_create_file.
  run_step (create_args_val params dh name sattr atime mtime s Hp Ha Hm).
  run_step (create_checks_val credential a dh d name s Hcred Hok).
  rw /create_open (bind_val _ _ s tt (set_os o1 s)).
  { run_step (sys_val _ _ _ s Hopen). done. }
  set (path := get_file_absolute_path d name) in *.
  rw /create_updates /mbind /prog_bind in Hupd |- *.
  destruct (must _ (set_os o1 s)) as [[] s1| |]; [|done..].
  destruct (must_if _ _ s1) as [[] s2| |]; [|done..]. rw Hupd.
  rw (created_reply_val path st (set_os o2 s) Hst).
  eexists _, _. split_and!; [done|done|done| |].
  - by rw /resolves /= /mapping_ino /= Z.eqb_refl.
  - intros h' p Hne Hh. rw /resolves /= /mapping_ino /=. by destruct (Z.eqb_spec (st_ino st) (Nfs.inode_number h')); [congruence|].
Qed.

(** A MKDIR that asks for a size is answered with the error ISDIR, but only
    after the directory was made and its owner set: the request fails for the
    client and the directory stays, with no handle for it. *)
Theorem mkdir_with_size_fails_after_creating credential verifier a params dh d name sattr atime mtime o1 o2 s
    (Hcred : auth_sys_cred credential a)
    (Hp : carries unpack_CreateArgs "nfs/CreateArgs" params (full_create_args dh name sattr))
    (Ha : Nfs.sa_atime sattr = Some atime) (Hm : Nfs.sa_mtime sattr = Some mtime)
    (Hok : creatable a dh d name s) (Hsize : Nfs.sa_size sattr ≠ UINT64_MAX)
    (Hmkdir : mkdir (get_file_absolute_path d name)
                (if Nfs.sa_mode sattr !=? UINT32_MAX then Nfs.sa_mode sattr else 448) (os s) = (inr tt, o1))
    (Hchown : chown (get_file_absolute_path d name) (Nfs.sa_uid sattr) (Nfs.sa_gid sattr) o1 = (inr tt, o2)) :
  run (serve_nfs_procedure_14_create_directory credential verifier (Some params)) s =
  Some (dir_op_error_reply Nfs.NFSERR_ISDIR, set_os o2 s).
Proof.
  rw /run /serve_nfs_procedure_14_create_directory.
  run_step (create_args_val params dh name sattr atime mtime s Hp Ha Hm).
  run_step (mkdir_checks_val credential a dh d name s Hcred Hok).
  rw /mkdir_call (bind_val _ _ s tt (set_os o1 s)).
  { run_step (sys_val _ _ _ s Hmkdir). done. }
  run_step (must_val _ _ (set_os o1 s) Hchown).
  by rw (proj2 (Z.eqb_neq _ _) Hsize).
Qed.
End theorems.
