(* ===== verification/ProcRemove.v ===== *)
(** The procedures that remove or move directory entries: REMOVE, RENAME and
    RMDIR ([nfsproc_remove.c], [nfsproc_rename.c] and [nfsproc_rmdir.c]). *)
From S2P Require Import Prelude Messages Posix InodeCache Permissions FileManagement ReadDir.
From S2P Require Import ServerState ProcAttr.

Section procedures.
Context `{Posix OS} `{Codec}.
Implicit Types (credential verifier : Rpc.OpaqueAuth) (parameters : option Rpc.Any).

(** [remove_inode_mapping_by_absolute_path(path, &inode_cache)], where only a
    code above 1 is an error. *)
Definition forget_path (path : string) : handler OS unit :=
  c ← gets inode_cache;
  '(error_code, c) ← deref (remove_inode_mapping_by_absolute_path path c);
  modify (set_inode_cache c);;
  return_if (error_code >? 1) system_error.

(** * REMOVE *)

Definition remove_args parameters : handler OS (Nfs.NfsFileHandle * string) :=
  p ← check_type parameters "nfs/DirOpArgs";
  diropargs ← orelse (unpack_DirOpArgs (Rpc.value p)) garbage_args;
  dir_op_args diropargs.

(** The checks before the file is deleted; the path of the file. *)
Definition remove_checks credential (directory_nfs_filehandle : Nfs.NfsFileHandle)
    (filename : string) : handler OS string :=
  directory_absolute_path ←
    resolve_directory nfs_stat_error (Nfs.inode_number directory_nfs_filehandle);
  let file_absolute_path := get_file_absolute_path directory_absolute_path filename in
  lstat_existing nfs_stat_error file_absolute_path;;
  fattr ← attributes_or_system_error file_absolute_path;
  (if decide (Nfs.fa_ftype fattr = Some Nfs.NFDIR) then nfs_stat_error Nfs.NFSERR_ISDIR else mret tt);;
  check_permissions credential
    (λ uid gid o, Some (check_remove_proc_permissions directory_absolute_path uid gid o))
    (nfs_stat_error Nfs.NFSERR_ACCES);;
  mret file_absolute_path.

Definition remove_call (path : string) : handler OS unit :=
  r ← sys (unlink path);
  match r with
  | inr _ => mret tt
  | inl EIO => nfs_stat_error Nfs.NFSERR_IO
  | inl ENAMETOOLONG => nfs_stat_error Nfs.NFSERR_NAMETOOLONG
  | inl EROFS => nfs_stat_error Nfs.NFSERR_ROFS
  | inl _ => return_ system_error
  end.

Definition serve_nfs_procedure_10_remove_file credential verifier parameters : handler OS reply :=
  '(directory_nfs_filehandle, filename) ← remove_args parameters;
  file_absolute_path ← remove_checks credential directory_nfs_filehandle filename;
  remove_call file_absolute_path;;
  forget_path file_absolute_path;;
  mret (nfs_stat_reply Nfs.NFS_OK).

(** * RMDIR *)

Definition rmdir_args parameters : handler OS (Nfs.NfsFileHandle * string) :=
  p ← check_type parameters "nfs/DirOpArgs";
  diropargs ← orelse (unpack_DirOpArgs (Rpc.value p)) garbage_args;
  dir_op_args diropargs.

Definition rmdir_checks credential (directory_nfs_filehandle : Nfs.NfsFileHandle)
    (filename : string) : handler OS string :=
  directory_absolute_path ←
    resolve_directory nfs_stat_error (Nfs.inode_number directory_nfs_filehandle);
  let child_directory_absolute_path := get_file_absolute_path directory_absolute_path filename in
  lstat_existing nfs_stat_error child_directory_absolute_path;;
  fattr ← attributes_or_system_error child_directory_absolute_path;
  (if decide (Nfs.fa_ftype fattr = Some Nfs.NFDIR) then mret tt else nfs_stat_error Nfs.NFSERR_NOTDIR);;
  check_permissions credential
    (λ uid gid o, Some (check_rmdir_proc_permissions directory_absolute_path uid gid o))
    (nfs_stat_error Nfs.NFSERR_ACCES);;
  mret child_directory_absolute_path.

Definition rmdir_call (path : string) : handler OS unit :=
  r ← sys (rmdir path);
  match r with
  | inr _ => mret tt
  | inl ENAMETOOLONG => nfs_stat_error Nfs.NFSERR_NAMETOOLONG
  | inl ENOTEMPTY => nfs_stat_error Nfs.NFSERR_NOTEMPTY
  | inl EROFS => nfs_stat_error Nfs.NFSERR_ROFS
  | inl _ => return_ system_error
  end.

Definition serve_nfs_procedure_15_remove_directory credential verifier parameters
    : handler OS reply :=
  '(directory_nfs_filehandle, filename) ← rmdir_args parameters;
  child_directory_absolute_path ← rmdir_checks credential directory_nfs_filehandle filename;
  rmdir_call child_directory_absolute_path;;
  forget_path child_directory_absolute_path;;
  mret (nfs_stat_reply Nfs.NFS_OK).

(** * RENAME *)

(** The two directory handles and names. *)
Definition rename_args parameters
    : handler OS ((Nfs.NfsFileHandle * string) * (Nfs.NfsFileHandle * string)) :=
  p ← check_type parameters "nfs/RenameArgs";
  renameargs ← orelse (unpack_RenameArgs (Rpc.value p)) garbage_args;
  from ← orelse (Nfs.rename_from renameargs) garbage_args;
  from_args ← dir_op_args from;
  to ← orelse (Nfs.rename_to renameargs) garbage_args;
  to_args ← dir_op_args to;
  mret (from_args, to_args).

(** The directory and the path of the file to be renamed, which must exist. *)
Definition rename_source (directory_nfs_filehandle : Nfs.NfsFileHandle) (filename : string)
    : handler OS (string * string) :=
  from_directory_absolute_path ←
    resolve_directory nfs_stat_error (Nfs.inode_number directory_nfs_filehandle);
  let old_file_absolute_path := get_file_absolute_path from_directory_absolute_path filename in
  lstat_existing nfs_stat_error old_file_absolute_path;;
  mret (from_directory_absolute_path, old_file_absolute_path).

(** The target directory and the permissions; the new path. *)
Definition rename_target credential (from_directory_absolute_path : string)
    (directory_nfs_filehandle : Nfs.NfsFileHandle) (filename : string) : handler OS string :=
  to_directory_absolute_path ←
    resolve_directory nfs_stat_error (Nfs.inode_number directory_nfs_filehandle);
  check_permissions credential
    (λ uid gid o, Some (check_rename_proc_permissions from_directory_absolute_path
                          to_directory_absolute_path uid gid o))
    (nfs_stat_error Nfs.NFSERR_ACCES);;
  mret (get_file_absolute_path to_directory_absolute_path filename).

Definition rename_call (old_path new_path : string) : handler OS unit :=
  r ← sys (rename old_path new_path);
  match r with
  | inr _ => mret tt
  | inl EDQUOT => nfs_stat_error Nfs.NFSERR_DQUOT
  | inl EINVAL => nfs_stat_error Nfs.NFSERR_EXIST
  | inl ENAMETOOLONG => nfs_stat_error Nfs.NFSERR_NAMETOOLONG
  | inl ENOENT => nfs_stat_error Nfs.NFSERR_NOENT
  | inl ENOSPC => nfs_stat_error Nfs.NFSERR_NOSPC
  | inl ENOTEMPTY => nfs_stat_error Nfs.NFSERR_NOTEMPTY
  | inl EROFS => nfs_stat_error Nfs.NFSERR_ROFS
  | inl _ => return_ system_error
  end.

(** [update_inode_mapping_absolute_path_by_absolute_path(..., &inode_cache)],
    where only a code above 1 is an error. *)
Definition move_path (old_path new_path : string) : handler OS unit :=
  c ← gets inode_cache;
  let '(error_code, c) := update_inode_mapping_absolute_path_by_absolute_path old_path new_path c in
  modify (set_inode_cache c);;
  return_if (error_code >? 1) system_error.

Definition serve_nfs_procedure_11_rename_file credential verifier parameters : handler OS reply :=
  '((from_directory_nfs_filehandle, from_filename), (to_directory_nfs_filehandle, to_filename)) ←
    rename_args parameters;
  '(from_directory_absolute_path, old_file_absolute_path) ←
    rename_source from_directory_nfs_filehandle from_filename;
  new_file_absolute_path ←
    rename_target credential from_directory_absolute_path to_directory_nfs_filehandle to_filename;
  rename_call old_file_absolute_path new_file_absolute_path;;
  move_path old_file_absolute_path new_file_absolute_path;;
  mret (nfs_stat_reply Nfs.NFS_OK).
End procedures.

(** * Safety *)

Section safety.
Context `{Posix OS} `{Codec}.
Implicit Types (s : server_state OS).

(** Only codes 0 and 1 come out of the removal, and the list is not empty
    when some handle resolves. *)
Lemma wp_forget_path path (Q : unit → server_state OS → Prop) E s :
  inode_cache s ≠ [] → Q tt (set_inode_cache (remove_first (has_path path) (inode_cache s)) s) →
  wp (forget_path path) Q E s.
Proof.
  intros Hne HQ. rw /forget_path. wp_auto. apply wp_deref; [rw remove_by_path_spec //; eauto|].
  intros r Hr. rw remove_by_path_spec // in Hr. injection Hr as <-.
  by destruct (find_first _ _); wp_auto.
Qed.

Lemma wp_move_path old_path new_path (Q : unit → server_state OS → Prop) E s :
  Q tt (set_inode_cache
          (update_first (has_path old_path) (λ m, mkMapping (nfs_filehandle m) new_path) (inode_cache s)) s) →
  wp (move_path old_path new_path) Q E s.
Proof.
  intros HQ. rw /move_path. wp_step. wp_step. rw update_by_path_spec.
  by destruct (find_first _ _); wp_auto.
Qed.

Variables (credential verifier : Rpc.OpaqueAuth) (a : Rpc.AuthSysParams) (params : Rpc.Any).
Hypothesis Hcred : auth_sys_cred credential a.

Lemma remove_safe s : safe (serve_nfs_procedure_10_remove_file credential verifier (Some params)) s.
Proof.
  intros Hs. rw /serve_nfs_procedure_10_remove_file /remove_args /dir_op_args /remove_checks
    /resolve_directory /lstat_existing /remove_call. safe_auto. apply wp_forget_path; safe_auto.
Qed.

Lemma rmdir_safe s :
  safe (serve_nfs_procedure_15_remove_directory credential verifier (Some params)) s.
Proof.
  intros Hs. rw /serve_nfs_procedure_15_remove_directory /rmdir_args /dir_op_args /rmdir_checks
    /resolve_directory /lstat_existing /rmdir_call. safe_auto. apply wp_forget_path; safe_auto.
Qed.

Lemma rename_safe s : safe (serve_nfs_procedure_11_rename_file credential verifier (Some params)) s.
Proof.
  intros Hs. rw /serve_nfs_procedure_11_rename_file /rename_args /dir_op_args /rename_source
    /rename_target /resolve_directory /lstat_existing /rename_call. safe_auto.
  apply wp_move_path. safe_auto.
Qed.
End safety.

(** * Behaviour *)

Section behaviour.
Context `{Posix OS} `{Codec}.
Implicit Types (s : server_state OS).

Lemma remove_args_val params h name s :
  carries unpack_DirOpArgs "nfs/DirOpArgs" params (full_dir_op h name) →
  remove_args (OS:=OS) (Some params) s = Val (h, name) s.
Proof. exact (lookup_args_val params h name s). Qed.

(** RENAME's arguments. *)
Definition full_rename_args fh fname th tname : Nfs.RenameArgs :=
  Nfs.mkRenameArgs (Some (full_dir_op fh fname)) (Some (full_dir_op th tname)).

Lemma rename_args_val params fh fname th tname s :
  carries unpack_RenameArgs "nfs/RenameArgs" params (full_rename_args fh fname th tname) →
  rename_args (OS:=OS) (Some params) s = Val ((fh, fname), (th, tname)) s.
Proof.
  intros [Ht Hu]. rw /rename_args. run_step (check_type_val params _ s Ht). by rw /mbind /prog_bind Hu.
Qed.

Lemma remove_checks_val credential a dh d name st s :
  auth_sys_cred credential a → resolves s dh d → is_directory d (os s) →
  lstat (get_file_absolute_path d name) (os s) = inr st → S_ISDIR (st_mode st) = false →
  may Write d (Rpc.uid a) (Rpc.gid a) (os s) →
  remove_checks credential dh name s = Val (get_file_absolute_path d name) s.
Proof.
  intros Hcred Hr Hd Hst Hnd Hmay. rw /remove_checks.
  run_step (resolve_directory_val nfs_stat_error dh d s Hr Hd).
  run_step (lstat_existing_val nfs_stat_error _ st s Hst). run_step (attributes_val _ st s Hst).
  rw decide_False; [by apply fattr_not_directory|]. rw {1}/mbind /prog_bind /=.
  rw (bind_val _ _ s tt s) //. eapply check_permissions_val; [exact Hcred|].
  f_equal. by apply (check_may Write).
Qed.

Lemma forget_path_val path s :
  inode_cache s ≠ [] →
  forget_path path s = Val tt (set_inode_cache (remove_first (has_path path) (inode_cache s)) s).
Proof.
  intros Hne. rw /forget_path /mbind /prog_bind /= remove_by_path_spec //=.
  by destruct (find_first _ _).
Qed.

Lemma move_path_val old new s :
  move_path old new s =
  Val tt (set_inode_cache (update_first (has_path old) (λ m, mkMapping (nfs_filehandle m) new) (inode_cache s)) s).
Proof. rw /move_path /mbind /prog_bind /= update_by_path_spec. by destruct (find_first _ _). Qed.

(** The checks of a RENAME that goes through. *)
Definition renamable (a : Rpc.AuthSysParams) fh fdir fname st th tdir s : Prop :=
  resolves s fh fdir ∧ is_directory fdir (os s) ∧
  lstat (get_file_absolute_path fdir fname) (os s) = inr st ∧
  resolves s th tdir ∧ is_directory tdir (os s) ∧
  may Write fdir (Rpc.uid a) (Rpc.gid a) (os s) ∧ may Write tdir (Rpc.uid a) (Rpc.gid a) (os s).

Lemma rename_checks_val credential a fh fd_ fname st th td tname s :
  auth_sys_cred credential a → resolves s fh fd_ → is_directory fd_ (os s) →
  lstat (get_file_absolute_path fd_ fname) (os s) = inr st →
  resolves s th td → is_directory td (os s) →
  may Write fd_ (Rpc.uid a) (Rpc.gid a) (os s) → may Write td (Rpc.uid a) (Rpc.gid a) (os s) →
  rename_source fh fname s = Val (fd_, get_file_absolute_path fd_ fname) s ∧
  rename_target credential fd_ th tname s = Val (get_file_absolute_path td tname) s.
Proof.
  intros Hcred Hr Hd Hst Hr2 Hd2 Hm1 Hm2. split.
  - rw /rename_source. run_step (resolve_directory_val nfs_stat_error fh fd_ s Hr Hd).
    by run_step (lstat_existing_val nfs_stat_error _ st s Hst).
  - rw /rename_target. run_step (resolve_directory_val nfs_stat_error th td s Hr2 Hd2).
    rw (bind_val _ _ s tt s) //. eapply check_permissions_val; [exact Hcred|].
    f_equal. rw /check_rename_proc_permissions.
    apply (check_may Write) in Hm1, Hm2. simpl in Hm1, Hm2.
    destruct (check_root_user _ _ =? 0); [done|]. by rw Hm1 Hm2.
Qed.
End behaviour.

(** * Theorems *)

Section theorems.
Context `{Posix OS} `{Codec}.
Implicit Types (s : server_state OS).

(** REMOVE of an existing file that is not a directory, by a caller who may
    write the directory, unlinks exactly that path and replies NFS_OK; the
    handles of all other paths keep resolving, and when no two cached handles
    share a path the removed path is no longer reachable through any handle. *)
Theorem remove_unlinks_and_forgets credential verifier a params dh d name st o' s
    (Hcred : auth_sys_cred credential a)
    (Hp : carries unpack_DirOpArgs "nfs/DirOpArgs" params (full_dir_op dh name))
    (Hr : resolves s dh d) (Hd : is_directory d (os s))
    (Hst : lstat (get_file_absolute_path d name) (os s) = inr st)
    (Hfile : S_ISDIR (st_mode st) = false)
    (Hmay : may Write d (Rpc.uid a) (Rpc.gid a) (os s))
    (Hunlink : unlink (get_file_absolute_path d name) (os s) = (inr tt, o')) :
  ∃ s', run (serve_nfs_procedure_10_remove_file credential verifier (Some params)) s =
          Some (nfs_stat_reply Nfs.NFS_OK, s') ∧ os s' = o' ∧
        (∀ h p, resolves s h p → p ≠ get_file_absolute_path d name → resolves s' h p) ∧
        (NoDup (absolute_path <$> inode_cache s) →
         ∀ h, ¬ resolves s' h (get_file_absolute_path d name)).
Proof.
  rw /run /serve_nfs_procedure_10_remove_file. run_step (remove_args_val params dh name s Hp).
  run_step (remove_checks_val credential a dh d name st s Hcred Hr Hd Hst Hfile Hmay).
  rw /remove_call (bind_val _ _ s tt (set_os o' s)).
  { run_step (sys_val _ _ _ s Hunlink). done. }
  run_step (forget_path_val (get_file_absolute_path d name) (set_os o' s) (get_path_nonempty _ _ _ Hr)).
  eexists. split_and!; [done|done| |].
  - intros h p Hh Hne. by apply get_path_remove_path.
  - intros Hnd h. by apply get_path_removed.
Qed.

(** The outcome of a RENAME that passes the checks and whose system call
    succeeds. *)
Lemma rename_run credential verifier a params fh fdir fname st th tdir tname o' s :
  auth_sys_cred credential a →
  carries unpack_RenameArgs "nfs/RenameArgs" params (full_rename_args fh fname th tname) →
  renamable a fh fdir fname st th tdir s →
  rename (get_file_absolute_path fdir fname) (get_file_absolute_path tdir tname) (os s) = (inr tt, o') →
  run (serve_nfs_procedure_11_rename_file credential verifier (Some params)) s =
  Some (nfs_stat_reply Nfs.NFS_OK,
        set_inode_cache (update_first (has_path (get_file_absolute_path fdir fname))
          (λ m, mkMapping (nfs_filehandle m) (get_file_absolute_path tdir tname)) (inode_cache s))
          (set_os o' s)).
Proof.
  intros Hcred Hp (Hr & Hd & Hst & Hr2 & Hd2 & Hmay & Hmay2) Hrename.
  destruct (rename_checks_val credential a fh fdir fname st th tdir tname s) as [Hsrc Htgt]; [done..|].
  rw /run /serve_nfs_procedure_11_rename_file. run_step (rename_args_val params fh fname th tname s Hp).
  run_step Hsrc. run_step Htgt. rw /rename_call (bind_val _ _ s tt (set_os o' s)).
  { run_step (sys_val _ _ _ s Hrename). done. }
  by run_step (move_path_val (get_file_absolute_path fdir fname) (get_file_absolute_path tdir tname) (set_os o' s)).
Qed.

(** RENAME of an existing file between two directories the caller may write
    renames it and replies NFS_OK. When no two cached handles share a path,
    the handle of the old path now resolves to the new one; handles of all
    other paths are unchanged. *)
Theorem rename_moves_handle credential verifier a params fh fdir fname st th tdir tname o' s
    (Hcred : auth_sys_cred credential a)
    (Hp : carries unpack_RenameArgs "nfs/RenameArgs" params (full_rename_args fh fname th tname))
    (Hok : renamable a fh fdir fname st th tdir s)
    (Hrename : rename (get_file_absolute_path fdir fname) (get_file_absolute_path tdir tname) (os s) = (inr tt, o')) :
  ∃ s', run (serve_nfs_procedure_11_rename_file credential verifier (Some params)) s =
          Some (nfs_stat_reply Nfs.NFS_OK, s') ∧ os s' = o' ∧
        (NoDup (absolute_path <$> inode_cache s) →
         ∀ h, resolves s h (get_file_absolute_path fdir fname) → resolves s' h (get_file_absolute_path tdir tname)) ∧
        (∀ h p, resolves s h p → p ≠ get_file_absolute_path fdir fname → resolves s' h p).
Proof.
  eexists. split; [by apply (rename_run _ _ a _ fh fdir fname st th tdir tname o')|].
  split_and!; [done| |].
  - intros Hnd h. by apply get_path_renamed.
  - intros h p Hh Hne. by apply get_path_rename.
Qed.

(** RENAME onto a name that exists keeps the handle of the file that was
    replaced: afterwards that handle and the handle of the renamed file, which
    are handles of different inodes, resolve to the same path, so requests with
    the handle of the deleted file reach the other file instead of getting
    STALE. *)
Theorem rename_over_existing_confuses_handles credential verifier a params fh fdir fname st th tdir tname o' s h1 h2
    (Hcred : auth_sys_cred credential a)
    (Hp : carries unpack_RenameArgs "nfs/RenameArgs" params (full_rename_args fh fname th tname))
    (Hok : renamable a fh fdir fname st th tdir s)
    (Hrename : rename (get_file_absolute_path fdir fname) (get_file_absolute_path tdir tname) (os s) = (inr tt, o'))
    (Hnd : NoDup (absolute_path <$> inode_cache s))
    (H1 : resolves s h1 (get_file_absolute_path fdir fname))
    (H2 : resolves s h2 (get_file_absolute_path tdir tname))
    (Hne : get_file_absolute_path tdir tname ≠ get_file_absolute_path fdir fname) :
  ∃ s', run (serve_nfs_procedure_11_rename_file credential verifier (Some params)) s =
          Some (nfs_stat_reply Nfs.NFS_OK, s') ∧
        Nfs.inode_number h1 ≠ Nfs.inode_number h2 ∧
        resolves s' h1 (get_file_absolute_path tdir tname) ∧ resolves s' h2 (get_file_absolute_path tdir tname).
Proof.
  eexists. split; [by apply (rename_run _ _ a _ fh fdir fname st th tdir tname o')|].
  split_and!.
  - intros He. rw /resolves He in H1 H2. congruence.
  - by apply get_path_renamed.
  - by apply get_path_rename.
Qed.
End theorems.
