(* ===== verification/ProcMount.v ===== *)
(** The MNT procedure of the Mount program ([mntproc_mnt.c]). *)
From S2P Require Import Prelude Messages Posix InodeCache Permissions FileManagement ReadDir.
From S2P Require Import ServerState.

Definition newline : Ascii.ascii := Ascii.ascii_of_nat 10.
Definition tab : Ascii.ascii := Ascii.ascii_of_nat 9.
Definition space : Ascii.ascii := Ascii.ascii_of_nat 32.

(** [line[strcspn(line, "\n")] = '\0'] *)
Fixpoint cut_newline (line : string) : string :=
  match line with
  | EmptyString => EmptyString
  | String c line => if decide (c = newline) then EmptyString else String c (cut_newline line)
  end.

(** [line + n], for an [n] within the string. *)
Definition string_drop (n : nat) (s : string) : string := String.substring n (String.length s - n) s.

(** [*options_start == ' ' || *options_start == '\t'] *)
Definition starts_with_blank (s : string) : bool :=
  match s with
  | String c _ => bool_decide (c = space) || bool_decide (c = tab)
  | EmptyString => false
  end.

(** [strstr(s, t) != NULL] *)
Definition contains (s t : string) : bool := negb (bool_decide (String.index 0 t s = None)).

(** The test of one line of the file. *)
Definition line_exports (absolute_path line : string) : bool :=
  let line := cut_newline line in
  String.prefix absolute_path line &&
  let options_start := string_drop (String.length absolute_path) line in
  starts_with_blank options_start && contains options_start "*(rw)".

(** The loop of [fgets], which stops at the first matching line. *)
Fixpoint exported_in (absolute_path : string) (lines : list string) : Z :=
  match lines with
  | [] => 0
  | line :: lines => if line_exports absolute_path line then 1 else exported_in absolute_path lines
  end.

Section procedures.
Context `{Posix OS} `{Codec}.
Implicit Types (credential verifier : Rpc.OpaqueAuth) (parameters : option Rpc.Any).

Definition is_directory_exported (absolute_path : option string) (o : OS) : Z :=
  match absolute_path with
  | None => 0
  | Some absolute_path =>
      match read_exports o with
      | None => 0
      | Some lines => exported_in absolute_path lines
      end
  end.

Definition mnt_args parameters : handler OS string :=
  p ← check_type parameters "mount/DirPath";
  dirpath ← orelse (unpack_DirPath (Rpc.value p)) garbage_args;
  orelse (Mount.path dirpath) garbage_args.

(** The directory must exist, be a directory and be exported, and the client
    must be allowed to mount it. *)
Definition mnt_checks credential (directory_absolute_path : string) : handler OS unit :=
  o ← gets os;
  (match lstat directory_absolute_path o with
   | inl ENOENT => fh_status_error Mount.MNTERR_NOENT
   | inl _ => return_ system_error
   | inr _ => mret tt
   end);;
  directory_fattr ← attributes_or_system_error directory_absolute_path;
  (if decide (Nfs.fa_ftype directory_fattr = Some Nfs.NFDIR) then mret tt
   else fh_status_error Mount.MNTERR_NOTDIR);;
  (if is_directory_exported (Some directory_absolute_path) o =? 0
   then fh_status_error Mount.MNTERR_NOTEXP else mret tt);;
  check_permissions credential
    (λ uid gid o, Some (check_mount_proc_permissions directory_absolute_path uid gid o))
    (fh_status_error Mount.MNTERR_ACCES).

Definition serve_mnt_procedure_1_add_mount_entry credential verifier parameters
    : handler OS reply :=
  directory_absolute_path ← mnt_args parameters;
  mnt_checks credential directory_absolute_path;;
  h ← new_filehandle directory_absolute_path;
  directory_nfs_filehandle ← orelse h system_error;
  client ← deref (auth_sys credential);
  machinename ← deref (Rpc.machinename client);
  modify (λ s, set_mount_list (add_mount_list_entry machinename directory_absolute_path (mount_list s)) s);;
  mret (success (pack_FhStatus (Mount.mkFhStatus (Some Mount.MNT_OK)
          (Mount.FHSTATUS_BODY_DIRECTORY (Some (Nfs.mkFHandle (Some directory_nfs_filehandle))))))
          "mount/FhStatus").
End procedures.

#[global] Arguments is_directory_exported : simpl never.

(** What it means for a line to export a directory: the path, a blank, and
    the option somewhere after it. *)
Definition exports_line (absolute_path line : string) : Prop :=
  ∃ c before after, (c = space ∨ c = tab) ∧
    cut_newline line = absolute_path +:+ String c (before +:+ "*(rw)" +:+ after).

(** * Safety *)

Section safety.
Context `{Posix OS} `{Codec}.
Implicit Types (s : server_state OS).

Variables (credential verifier : Rpc.OpaqueAuth) (a : Rpc.AuthSysParams) (params : Rpc.Any).
Hypothesis Hcred : auth_sys_cred credential a.

Lemma mnt_safe s n :
  Rpc.machinename a = Some n →
  safe (serve_mnt_procedure_1_add_mount_entry credential verifier (Some params)) s.
Proof.
  intros Hn Hs. rw /serve_mnt_procedure_1_add_mount_entry /mnt_args /mnt_checks. safe_auto.
  all: apply wp_deref; [by rw (proj2 Hcred)|]; intros client Hcl; rw (proj2 Hcred) in Hcl; injection Hcl as <-.
  all: safe_auto; apply wp_deref; [by rw Hn|]; intros ? _; safe_auto.
Qed.
End safety.

(** * Strings *)

Lemma prefix_cons c p d s :
  String.prefix (String c p) (String d s) = true ↔ c = d ∧ String.prefix p s = true.
Proof.
  cbn [String.prefix]. destruct (Ascii.ascii_dec c d) as [->|Hne]; split; try done; by intros [].
Qed.

Lemma prefix_true p s : String.prefix p s = true ↔ ∃ r, s = p +:+ r.
Proof.
  revert s. induction p as [|c p IH]; intros s.
  - split; [by exists s|]. by destruct s.
  - destruct s as [|d s]; [split; [done|by intros [r ?]]|]. rw prefix_cons IH. split.
    + intros [-> [r ->]]. by exists r.
    + intros [r [= -> ->]]. split; [done|by exists r].
Qed.

Lemma length_string_app s t : String.length (s +:+ t) = (String.length s + String.length t)%nat.
Proof. induction s as [|c s IH]; simpl; [done|]. by rw IH. Qed.

Lemma substring_all s : String.substring 0 (String.length s) s = s.
Proof. induction s as [|c s IH]; simpl; [done|]. by rw IH. Qed.

Lemma string_drop_app s t : string_drop (String.length s) (s +:+ t) = t.
Proof.
  rw /string_drop length_string_app (_ : (_ + _ - _ = String.length t)%nat); [lia|].
  induction s as [|c s IH]; [apply substring_all|exact IH].
Qed.

Lemma contains_true s t : contains s t = true ↔ ∃ before after, s = before +:+ t +:+ after.
Proof.
  rw /contains negb_true_iff bool_decide_eq_false. induction s as [|c s IH].
  - split.
    + destruct t; [intros _; by exists "", ""|done].
    + intros (b & a & Heq). destruct b; [|done]. destruct t; [done|done].
  - cbn [String.index]. destruct (String.prefix t (String c s)) eqn:Hp.
    + split; [intros _|done]. apply prefix_true in Hp as [r Hr]. by exists "", r.
    + split.
      * destruct (String.index 0 t s) as [k|]; [|done]. intros _.
        destruct (proj1 IH) as (b & a & ->); [done|]. by exists (String c b), a.
      * intros (b & a & Heq). destruct b as [|c' b].
        { exfalso. apply not_true_iff_false in Hp. apply Hp, prefix_true. by exists a. }
        injection Heq as -> ->. destruct (String.index 0 t _); [done|]. exfalso.
        by apply (proj2 IH); [eauto|].
Qed.

Lemma line_exports_true p line : line_exports p line = true ↔ exports_line p line.
Proof.
  rw /line_exports andb_true_iff prefix_true /exports_line. split.
  - intros [[r ->] Hr]. rw string_drop_app in Hr. apply andb_true_iff in Hr as [Hb Hc].
    destruct r as [|c r]; [done|]. simpl in Hb. apply orb_true_iff in Hb.
    rw !bool_decide_eq_true in Hb. apply contains_true in Hc as (b & a & Heq).
    destruct b as [|c' b]; [simpl in Heq; injection Heq as -> _; by destruct Hb|].
    injection Heq as <- ->. by exists c, b, a.
  - intros (c & b & a & Hc & ->). split; [by eexists|]. rw string_drop_app. apply andb_true_iff. split.
    + simpl. apply orb_true_iff. by rw !bool_decide_eq_true.
    + apply contains_true. by exists (String c b), a.
Qed.

Lemma exported_in_cases p lines : exported_in p lines = 0 ∨ exported_in p lines = 1.
Proof. induction lines as [|l lines IH]; simpl; [by left|]. by destruct (line_exports p l); [right|]. Qed.

Lemma exported_in_true p lines :
  exported_in p lines = 1 ↔ ∃ line, line ∈ lines ∧ exports_line p line.
Proof.
  setoid_rewrite <-line_exports_true. induction lines as [|l lines IH]; simpl.
  - split; [done|]. by intros (? & []%not_elem_of_nil & _).
  - destruct (line_exports p l) eqn:Hl.
    + split; [intros _|done]. exists l. split; [apply list_elem_of_here|done].
    + rw IH. split; intros (line & Hin & Hline); exists line; (split; [|done]).
      * by apply list_elem_of_further.
      * apply elem_of_cons in Hin as [->|]; [congruence|done].
Qed.

(** * Theorems *)

Section theorems.
Context `{Posix OS} `{Codec}.
Implicit Types (s : server_state OS).

(** MNT's argument. *)
Definition full_dir_path (path : string) : Mount.DirPath := Mount.mkDirPath (Some path).

Definition fh_status_error_reply (st : Mount.Stat) : reply :=
  success (pack_FhStatus (Mount.create_default_case_fh_status st)) "mount/FhStatus".

Definition mnt_ok_reply (h : Nfs.NfsFileHandle) : reply :=
  success (pack_FhStatus (Mount.mkFhStatus (Some Mount.MNT_OK)
    (Mount.FHSTATUS_BODY_DIRECTORY (Some (full_fhandle h))))) "mount/FhStatus".

Lemma mnt_args_val params path s :
  carries unpack_DirPath "mount/DirPath" params (full_dir_path path) →
  mnt_args (OS:=OS) (Some params) s = Val path s.
Proof.
  intros [Ht Hu]. rw /mnt_args. run_step (check_type_val params _ s Ht). by rw /mbind /prog_bind Hu.
Qed.

(** A directory counts as exported exactly when the exports file can be read
    and one of its lines, up to the newline, is the directory's path, a space
    or tab, and somewhere behind it the option "*(rw)". *)
Theorem is_directory_exported_iff path (o : OS) :
  is_directory_exported (Some path) o ≠ 0 ↔
  ∃ lines line, read_exports o = Some lines ∧ line ∈ lines ∧ exports_line path line.
Proof.
  rw /is_directory_exported. destruct (read_exports o) as [lines|].
  - destruct (exported_in_cases path lines) as [He|He].
    + rw He. split; [done|]. intros (? & line & [= <-] & Hin & Hl).
      assert (exported_in path lines = 1) by (apply exported_in_true; eauto). congruence.
    + rw He. split; [|done]. intros _. apply exported_in_true in He as (line & Hin & Hl). by exists lines, line.
  - split; [done|]. by intros (? & ? & ? & _).
Qed.

(** MNT on every branch for a well-formed request with AUTH_SYS credentials: a
    path that is not there, is not a directory or is not exported gets its
    error and changes nothing; otherwise the reply is a handle for the
    directory that resolves to its path, the mount list has a new first entry
    for the client, and the file system is untouched. *)
Theorem mnt_behaviour credential verifier a params path machine s
    (Hcred : auth_sys_cred credential a) (Hmachine : Rpc.machinename a = Some machine)
    (Hp : carries unpack_DirPath "mount/DirPath" params (full_dir_path path)) :
  ∃ r s', run (serve_mnt_procedure_1_add_mount_entry credential verifier (Some params)) s = Some (r, s') ∧
    match lstat path (os s) with
    | inl ENOENT => r = fh_status_error_reply Mount.MNTERR_NOENT ∧ s' = s
    | inl _ => r = system_error ∧ s' = s
    | inr st =>
        if negb (S_ISDIR (st_mode st)) then r = fh_status_error_reply Mount.MNTERR_NOTDIR ∧ s' = s
        else if is_directory_exported (Some path) (os s) =? 0
        then r = fh_status_error_reply Mount.MNTERR_NOTEXP ∧ s' = s
        else ∃ h, r = mnt_ok_reply h ∧ Nfs.inode_number h = st_ino st ∧ resolves s' h path ∧
                  mount_list s' = Mount.mkMountListEntry machine path :: mount_list s ∧ os s' = os s
    end.
Proof.
  rw {1}/run /serve_mnt_procedure_1_add_mount_entry. run_step (mnt_args_val params path s Hp).
  rw /mnt_checks. rw {1}/mbind /prog_bind /= /mbind /prog_bind /=.
  destruct (lstat path (os s)) as [e|st] eqn:Hst; [destruct e; eexists _, _; (split; [reflexivity|done])|]. simpl.
  rw (attributes_val path st s Hst).
  destruct (S_ISDIR (st_mode st)) eqn:Hdir; simpl.
  2: { rw decide_False; [by apply fattr_not_directory|]. eexists _, _; (split; [reflexivity|done]). }
  rw decide_True; [by apply fattr_is_directory|]. simpl.
  destruct (is_directory_exported (Some path) (os s) =? 0); [eexists _, _; (split; [reflexivity|done])|]. simpl.
  rw (check_permissions_val credential a _ _ s Hcred); [by rw /check_mount_proc_permissions; case_match|].
  pose proof (new_filehandle_val path st s Hst) as Hn. cbv zeta in Hn. rw Hn /=.
  rw (proj2 Hcred) /= Hmachine /=. eexists _, _. split; [reflexivity|]. eexists. split_and!; [reflexivity|reflexivity| |reflexivity|reflexivity].
  by rw /resolves /= /mapping_ino /= Z.eqb_refl.
Qed.
End theorems.
