(* ===== verification/RecordMarking.v ===== *)
(** Record Marking (RFC 5531) over TCP:
    [src/transport/tcp/tcp_record_marking.c]. A record is sent as a sequence
    of fragments, each with a 4-byte header: the top bit marks the last
    fragment, the other 31 bits are the length of the data.

    The kernel's side of a socket is not part of this repository: it is the
    class [Socket], and [StreamSocket] states what send(2) and recv(2)
    document for a connected stream socket. *)
From S2P Require Import Prelude.

Definition RM_FRAGMENT_HEADER_SIZE : Z := 4.
Definition RM_MAX_FRAGMENT_DATA_SIZE : Z := 2147483647. (* 0x7FFFFFFF *)

(** * The environment *)

(** Memory the C library hands out: whether an allocation of a size
    succeeds, and what uninitialised memory holds. *)
Class Memory := {
  alloc_ok : Z → bool;
  uninit : nat → list byte;
  uninit_length n : length (uninit n) = n;
}.

(** Results of [send] and [recv] are [ssize_t]: -1 on error. *)
Class Socket (W : Type) := {
  send : Z → list byte → W → Z * W;
  recv : Z → Z → W → Z * list byte * W;
}.

(** [outgoing fd w] are the bytes accepted for transmission so far and
    [incoming fd w] those that will still be delivered, both in order. *)
Class StreamSocket (W : Type) `{Socket W} := {
  outgoing : Z → W → list byte;
  incoming : Z → W → list byte;
  send_ok fd buf w r w' : send fd buf w = (r, w') → r ≠ -1 →
    0 ≤ r ≤ Z.of_nat (length buf) ∧
    outgoing fd w' = outgoing fd w ++ take (Z.to_nat r) buf ∧ incoming fd w' = incoming fd w;
  recv_ok fd n w r data w' : 0 ≤ n → recv fd n w = (r, data, w') → r ≠ -1 →
    0 ≤ r ≤ n ∧ data = take (Z.to_nat r) (incoming fd w) ∧ length data = Z.to_nat r ∧
    incoming fd w' = drop (Z.to_nat r) (incoming fd w) ∧ outgoing fd w' = outgoing fd w;
}.

(** A connection that stays up: a blocking [send] transmits something, and a
    blocking [recv] with data to come returns some of it. *)
Class LiveSocket (W : Type) `{Socket W, !StreamSocket W} := {
  send_progress fd buf w r w' : buf ≠ [] → send fd buf w = (r, w') → 0 < r;
  recv_progress fd n w r data w' : 0 < n → incoming fd w ≠ [] → recv fd n w = (r, data, w') → 0 < r;
}.

(** [realloc(p, n)]: the old contents, then uninitialised bytes. *)
Definition realloc `{Memory} (p : option (list byte)) (n : Z) : option (list byte) :=
  if alloc_ok n
  then let b := take (Z.to_nat n) (default [] p) in Some (b ++ uninit (Z.to_nat n - length b))
  else None.

(** [memcpy(buffer + offset, data, length)] *)
Definition write_at (offset : nat) (data buffer : list byte) : list byte :=
  take offset buffer ++ data ++ drop (offset + length data) buffer.

(** * Fragment headers *)

(** [htonl] and [memcpy] of a 32-bit value: its bytes, most significant first. *)
Definition htonl_bytes (h : Z) : list byte :=
  [byte_of_Z (Z.shiftr h 24); byte_of_Z (Z.shiftr h 16); byte_of_Z (Z.shiftr h 8); byte_of_Z h].

(** [memcpy] and [ntohl] of four bytes. *)
Definition ntohl_bytes (l : list byte) : Z :=
  fold_left (λ acc b, acc * 256 + Z_of_byte b) l 0.

(** [(last ? 0x80000000 : 0) | fragment_size], as a [uint32_t]. *)
Definition fragment_header (is_last : bool) (fragment_size : Z) : Z :=
  wrap32 (Z.lor (if is_last then 2147483648 else 0) fragment_size).

(** [(fragment_header & 0x80000000) != 0] *)
Definition header_is_last (h : Z) : bool := Z.land h 2147483648 !=? 0.

(** [fragment_header & 0x7FFFFFFF] *)
Definition header_size (h : Z) : Z := Z.land h 2147483647.

(** The size of the next fragment when [bytes_left] bytes of the record are
    not sent yet. *)
Definition next_fragment_size (bytes_left : Z) : Z :=
  if bytes_left <? RM_MAX_FRAGMENT_DATA_SIZE then bytes_left else RM_MAX_FRAGMENT_DATA_SIZE.

Section tcp.
Context `{Socket W} `{Memory}.
Implicit Types (w : W) (fd : Z).

(** * Sending *)

(** The loop of [send_bytes_tcp]. [send] returns a [ssize_t], which is stored
    in a [size_t]. [None]: out of fuel. *)
Fixpoint send_bytes_tcp (fuel : nat) fd (source_buffer : list byte) (buffer_size total_bytes_sent : Z) w
    : option (Z * W) :=
  if total_bytes_sent <? buffer_size then
    match fuel with
    | O => None
    | S fuel =>
        let '(r, w) := send fd (drop (Z.to_nat total_bytes_sent) source_buffer) w in
        let bytes_sent := wrap64 r in
        if bytes_sent <? 0 then Some (1, w)
        else if bytes_sent =? 0 then Some (2, w)
        else send_bytes_tcp fuel fd source_buffer buffer_size (wrap64 (total_bytes_sent + bytes_sent)) w
    end
  else Some (0, w).

(** The whole of a buffer. *)
Definition send_all_tcp fd (source_buffer : list byte) w : option (Z * W) :=
  send_bytes_tcp (length source_buffer) fd source_buffer (Z.of_nat (length source_buffer)) 0 w.

(** The loop of [send_rm_record_tcp]; [data] is what is left of the record. *)
Fixpoint send_rm_record_loop (fuel : nat) fd (data : list byte) w : option (Z * W) :=
  match data with
  | [] => Some (0, w)
  | _ =>
      match fuel with
      | O => None
      | S fuel =>
          let bytes_left := Z.of_nat (length data) in
          let fragment_size := next_fragment_size bytes_left in
          '(error_code, w) ←
            send_all_tcp fd (htonl_bytes (fragment_header (bytes_left =? fragment_size) fragment_size)) w;
          if error_code >? 0 then Some (1, w) else
          '(error_code, w) ← send_all_tcp fd (take (Z.to_nat fragment_size) data) w;
          if error_code >? 0 then Some (2, w) else
          send_rm_record_loop fuel fd (drop (Z.to_nat fragment_size) data) w
      end
  end.

(** Every fragment carries at least one byte. *)
Definition send_rm_record_tcp fd (rm_record_data : list byte) w : option (Z * W) :=
  send_rm_record_loop (length rm_record_data) fd rm_record_data w.

(** * Receiving *)

(** The loop of [receive_bytes_tcp]: [buffer] is the destination from its
    first byte on. *)
Fixpoint receive_bytes_tcp (fuel : nat) fd (bytes_to_read total_bytes_read : Z) (buffer : list byte) w
    : option (Z * list byte * W) :=
  if total_bytes_read <? bytes_to_read then
    match fuel with
    | O => None
    | S fuel =>
        let bytes_left := bytes_to_read - total_bytes_read in
        let '(r, data, w) := recv fd bytes_left w in
        let bytes_read := wrap64 r in
        if bytes_read <? 0 then Some (1, buffer, w)
        else if bytes_read =? 0 then Some (2, buffer, w)
        else receive_bytes_tcp fuel fd bytes_to_read (wrap64 (total_bytes_read + bytes_read))
               (write_at (Z.to_nat total_bytes_read) data buffer) w
    end
  else Some (0, buffer, w).

Definition receive_all_tcp fd (bytes_to_read : Z) (buffer : list byte) w : option (Z * list byte * W) :=
  receive_bytes_tcp (Z.to_nat bytes_to_read) fd bytes_to_read 0 buffer w.

(** The second half of an iteration: grow the record's buffer and read the
    data of the fragment behind what is already there. A null buffer that
    data would have to be stored in is [None]. *)
Definition receive_fragment_data fd (buffer : option (list byte)) (bytes_read fragment_size : Z) w
    : option (Z * option (list byte) * W) :=
  match realloc buffer (bytes_read + fragment_size) with
  | None => if 0 <? fragment_size then None else Some (0, None, w)
  | Some b =>
      '(error_code, data, w) ← receive_all_tcp fd fragment_size (drop (Z.to_nat bytes_read) b) w;
      Some (error_code, Some (take (Z.to_nat bytes_read) b ++ data), w)
  end.

(** The loop of [receive_rm_record_tcp], one fragment per iteration: the
    buffer (NULL on failure) with the size of the record. *)
Fixpoint receive_rm_record_loop (fuel : nat) fd (buffer : option (list byte)) (bytes_read : Z) w
    : option (option (list byte) * Z * W) :=
  match fuel with
  | O => None
  | S fuel =>
      '(error_code, fragment_header_buffer, w) ←
        receive_all_tcp fd RM_FRAGMENT_HEADER_SIZE (uninit (Z.to_nat RM_FRAGMENT_HEADER_SIZE)) w;
      if error_code >? 0 then Some (None, bytes_read, w) else
      let fragment_header := ntohl_bytes fragment_header_buffer in
      let is_last_fragment := header_is_last fragment_header in
      let fragment_size := header_size fragment_header in
      '(error_code, buffer, w) ← receive_fragment_data fd buffer bytes_read fragment_size w;
      if error_code >? 0 then Some (None, bytes_read, w) else
      let bytes_read := bytes_read + fragment_size in
      if is_last_fragment then Some (buffer, bytes_read, w)
      else receive_rm_record_loop fuel fd buffer bytes_read w
  end.

Definition receive_rm_record_tcp (fuel : nat) fd w : option (option (list byte) * Z * W) :=
  receive_rm_record_loop fuel fd None 0 w.
End tcp.

(** * The wire format *)

(** The encoding of a record split into the given fragments. *)
Fixpoint encode_fragments (fs : list (list byte)) : list byte :=
  match fs with
  | [] => []
  | f :: fs' =>
      htonl_bytes (fragment_header (bool_decide (fs' = [])) (Z.of_nat (length f))) ++ f ++
      encode_fragments fs'
  end.

(** Fragments the header can describe. *)
Definition fragment_ok (f : list byte) : Prop := Z.of_nat (length f) ≤ RM_MAX_FRAGMENT_DATA_SIZE.

(** The fragments a sender makes of a record: none is empty. *)
Definition sendable_fragments (fs : list (list byte)) : Prop := Forall fragment_ok fs ∧ Forall (.≠ []) fs.

(** * Lemmas *)

Lemma ntohl_htonl h : u32 h → ntohl_bytes (htonl_bytes h) = h.
Proof.
  rw /u32 /ntohl_bytes /htonl_bytes /= !Z_of_byte_of_Z !Z.shiftr_div_pow2 //.
  intros. Z.to_euclidean_division_equations; lia.
Qed.

(** A number below [2^31] has bit 31 clear. *)
Lemma testbit_31_small n : 0 ≤ n < 2 ^ 31 → Z.testbit n 31 = false.
Proof.
  intros Hn. destruct (decide (n = 0)) as [->|]; [done|].
  apply Z.bits_above_log2; [lia|]. apply Z.log2_lt_pow2; lia.
Qed.

Lemma land_31_small n : 0 ≤ n < 2 ^ 31 → Z.land (2 ^ 31) n = 0.
Proof.
  intros Hn. apply Z.bits_inj'. intros k Hk. rw Z.land_spec Z.bits_0.
  destruct (decide (k = 31)) as [->|Hne].
  - by rw (testbit_31_small n Hn) andb_false_r.
  - rw Z.pow2_bits_false; [congruence|done].
Qed.

Lemma fragment_header_eq (b : bool) n :
  0 ≤ n < 2 ^ 31 → fragment_header b n = (if b then 2 ^ 31 else 0) + n.
Proof.
  intros Hn. rw /fragment_header.
  assert (Hl : Z.lor (if b then 2147483648 else 0) n = (if b then 2 ^ 31 else 0) + n).
  { destruct b; [|by rw Z.lor_0_l].
    pose proof (Z.add_lor_land (2 ^ 31) n) as Ha. rw land_31_small // Z.add_0_r in Ha. done. }
  rw Hl wrap32_small // /u32. destruct b; lia.
Qed.

Lemma fragment_header_u32 b n : u32 (fragment_header b n).
Proof. by apply Z.mod_pos_bound. Qed.

Lemma header_size_fragment_header b n :
  0 ≤ n < 2 ^ 31 → header_size (fragment_header b n) = n.
Proof.
  intros Hn. rw fragment_header_eq // /header_size (_ : 2147483647 = Z.ones 31) // Z.land_ones //.
  destruct b; Z.to_euclidean_division_equations; lia.
Qed.

Lemma header_is_last_fragment_header b n :
  0 ≤ n < 2 ^ 31 → header_is_last (fragment_header b n) = b.
Proof.
  intros Hn. rw /header_is_last (_ : 2147483648 = 2 ^ 31) // land_pow2_testbit //.
  rw /fragment_header /wrap32 Z.mod_pow2_bits_low // Z.lor_spec (testbit_31_small n Hn) orb_false_r.
  by destruct b.
Qed.

Lemma header_roundtrip b n :
  0 ≤ n < 2 ^ 31 →
  let h := ntohl_bytes (htonl_bytes (fragment_header b n)) in
  header_is_last h = b ∧ header_size h = n.
Proof.
  intros Hn. rw /= ntohl_htonl; [apply fragment_header_u32|].
  by rw header_size_fragment_header // header_is_last_fragment_header.
Qed.

Lemma take_write_at off data buf :
  (off ≤ length buf)%nat → take (off + length data) (write_at off data buf) = take off buf ++ data.
Proof.
  intros Ho. rw /write_at app_assoc take_app_length' // length_app length_take_le //.
Qed.

Lemma length_write_at off data buf :
  (off + length data ≤ length buf)%nat → length (write_at off data buf) = length buf.
Proof. intros. rw /write_at !length_app length_take_le ?length_drop; lia. Qed.

(** Sizes that fit [ssize_t]. *)
Definition small (l : list byte) : Prop := Z.of_nat (length l) < 2 ^ 63.

(** Equations of the two transfer loops. *)
Section loop_equations.
Context `{Socket W} `{Memory}.

Lemma send_bytes_tcp_S fuel fd buf n total (w : W) :
  send_bytes_tcp (S fuel) fd buf n total w =
  if total <? n then
    let '(r, w) := send fd (drop (Z.to_nat total) buf) w in
    if wrap64 r <? 0 then Some (1, w) else if wrap64 r =? 0 then Some (2, w)
    else send_bytes_tcp fuel fd buf n (wrap64 (total + wrap64 r)) w
  else Some (0, w).
Proof. done. Qed.

Lemma send_bytes_tcp_done fuel fd buf n total (w : W) :
  n ≤ total → send_bytes_tcp fuel fd buf n total w = Some (0, w).
Proof. intros ?%Z.ltb_ge. destruct fuel; by rw /= (_ : (total <? n) = false). Qed.

Lemma receive_bytes_tcp_S fuel fd n total buf (w : W) :
  receive_bytes_tcp (S fuel) fd n total buf w =
  if total <? n then
    let '(r, data, w) := recv fd (n - total) w in
    if wrap64 r <? 0 then Some (1, buf, w) else if wrap64 r =? 0 then Some (2, buf, w)
    else receive_bytes_tcp fuel fd n (wrap64 (total + wrap64 r)) (write_at (Z.to_nat total) data buf) w
  else Some (0, buf, w).
Proof. done. Qed.

Lemma receive_bytes_tcp_done fuel fd n total buf (w : W) :
  n ≤ total → receive_bytes_tcp fuel fd n total buf w = Some (0, buf, w).
Proof. intros ?%Z.ltb_ge. destruct fuel; by rw /= (_ : (total <? n) = false). Qed.
End loop_equations.

Section tcp_lemmas.
Context `{LiveSocket W} `{Memory}.
Implicit Types (w : W) (fd : Z) (buf data s : list byte).

Lemma send_bytes_live fuel fd buf total w :
  0 ≤ total ≤ Z.of_nat (length buf) → small buf → Z.of_nat (length buf) - total ≤ Z.of_nat fuel →
  ∃ w', send_bytes_tcp fuel fd buf (Z.of_nat (length buf)) total w = Some (0, w') ∧
        outgoing fd w' = outgoing fd w ++ drop (Z.to_nat total) buf ∧
        incoming fd w' = incoming fd w.
Proof.
  rw /small. intros Ht Hs. revert total w Ht.
  induction fuel as [|fuel IH]; intros total w Ht Hf; simpl.
  all: destruct (total <? Z.of_nat (length buf)) eqn:Hlt; c_bools; [|exists w; split_and!; [done|rw drop_ge ?app_nil_r //; lia|done]].
  { lia. }
  destruct (send fd (drop (Z.to_nat total) buf) w) as [r w1] eqn:Hsend.
  assert (drop (Z.to_nat total) buf ≠ []) as Hne.
  { intros Hd%(f_equal length). rw length_drop /= in Hd. lia. }
  pose proof (send_progress _ _ _ _ _ Hne Hsend) as Hr.
  destruct (send_ok _ _ _ _ _ Hsend) as (Hrb & Hout & Hin); [lia|]. rw length_drop in Hrb.
  rw (wrap64_small r); [rw /u64; lia|].
  rw (proj2 (Z.ltb_ge r 0)) ?(proj2 (Z.eqb_neq r 0)); [lia..|].
  rw wrap64_small; [rw /u64; lia|].
  destruct (IH (total + r) w1) as (w' & -> & Hout' & Hin'); [lia..|].
  exists w'. split_and!; [done| |congruence]. rw Hout' Hout -app_assoc. f_equal.
  rw Z2Nat.inj_add; [lia..|]. rw -drop_drop. apply take_drop.
Qed.

Lemma send_all_live fd buf w :
  small buf →
  ∃ w', send_all_tcp fd buf w = Some (0, w') ∧ outgoing fd w' = outgoing fd w ++ buf ∧
        incoming fd w' = incoming fd w.
Proof. intros. apply send_bytes_live; [lia|done|lia]. Qed.

Lemma receive_bytes_live fuel fd n total buf w s :
  0 ≤ total ≤ n → n < 2 ^ 63 → n - total ≤ Z.of_nat fuel → length buf = Z.to_nat n →
  (∃ s', incoming fd w = drop (Z.to_nat total) s ++ s') → Z.of_nat (length s) = n →
  ∃ w', receive_bytes_tcp fuel fd n total buf w =
          Some (0, take (Z.to_nat total) buf ++ drop (Z.to_nat total) s, w') ∧
        incoming fd w' = drop (Z.to_nat (n - total)) (incoming fd w) ∧
        outgoing fd w' = outgoing fd w.
Proof.
  intros Ht Hn. revert total buf w Ht.
  induction fuel as [|fuel IH]; intros total buf w Ht Hf Hbuf (s' & Hin) Hs; simpl.
  all: destruct (total <? n) eqn:Hlt; c_bools;
    [|exists w; assert (total = n) as -> by lia; split_and!;
      [rw take_ge ?(drop_ge s) ?app_nil_r //; lia|by rw Z.sub_diag|done]].
  { lia. }
  destruct (recv fd (n - total) w) as [[r data] w1] eqn:Hrecv.
  assert (incoming fd w ≠ []) as Hne.
  { rw Hin. intros Hd%(f_equal length). rw length_app length_drop /= in Hd. lia. }
  assert (0 < n - total) as Hpos by lia.
  pose proof (recv_progress _ _ _ _ _ _ Hpos Hne Hrecv) as Hr.
  destruct (recv_ok _ _ _ _ _ _ (Z.lt_le_incl _ _ Hpos) Hrecv) as (Hrb & Hdata & Hlen & Hin1 & Hout1); [lia|].
  rw (wrap64_small r); [rw /u64; lia|].
  rw (proj2 (Z.ltb_ge r 0)) ?(proj2 (Z.eqb_neq r 0)); [lia..|].
  rw wrap64_small; [rw /u64; lia|].
  assert (data = take (Z.to_nat r) (drop (Z.to_nat total) s)) as Hd.
  { rw Hdata Hin take_app_le // length_drop. lia. }
  destruct (IH (total + r) (write_at (Z.to_nat total) data buf) w1) as (w' & -> & Hin' & Hout');
    [lia..|rw length_write_at //; lia| |done|].
  { exists s'. rw Hin1 Hin drop_app_le ?length_drop; [lia|]. rw drop_drop. do 2 f_equal. lia. }
  exists w'. split_and!; [|rw Hin' Hin1 drop_drop; f_equal; lia|congruence].
  rw (_ : Z.to_nat (total + r) = (Z.to_nat total + length data)%nat); [lia|].
  rw take_write_at; [lia|]. do 3 f_equal.
  rw -app_assoc. f_equal. rw Hlen -drop_drop Hd. apply take_drop.
Qed.

(** Reading [length s] bytes of a stream that starts with [s]. *)
Lemma receive_all_live fd s s' buf w :
  small s → length buf = length s → incoming fd w = s ++ s' →
  ∃ w', receive_all_tcp fd (Z.of_nat (length s)) buf w = Some (0, s, w') ∧
        incoming fd w' = s' ∧ outgoing fd w' = outgoing fd w.
Proof.
  rw /small. intros Hs Hb Hin.
  destruct (receive_bytes_live (Z.to_nat (Z.of_nat (length s))) fd (Z.of_nat (length s)) 0 buf w s)
    as (w' & Heq & Hin' & Hout'); [lia..|by exists s'|done|].
  exists w'. split_and!; [exact Heq| |done].
  rw Hin' Hin drop_app_length' //. lia.
Qed.
(** Memory is not exhausted. *)
Definition memory_available : Prop := ∀ n, 0 < n → alloc_ok n = true.

(** The bytes a pointer to a buffer stands for: NULL holds none, and a buffer
    with bytes in it is not NULL. *)
Definition holds (b : option (list byte)) (s : list byte) : Prop :=
  default [] b = s ∧ (s ≠ [] → is_Some b).

Lemma receive_fragment_data_live fd b acc f s' w :
  memory_available → holds b acc → small f → incoming fd w = f ++ s' →
  ∃ b' w', receive_fragment_data fd b (Z.of_nat (length acc)) (Z.of_nat (length f)) w =
             Some (0, b', w') ∧
           holds b' (acc ++ f) ∧ incoming fd w' = s' ∧ outgoing fd w' = outgoing fd w.
Proof.
  intros Hmem [Hacc Hb] Hf Hin. rw /receive_fragment_data /realloc.
  destruct (alloc_ok _) eqn:Ha.
  - set (b1 := take _ (default [] b)).
    assert (b1 = acc) as -> by (rw /b1 Hacc take_ge //; lia).
    rw Nat2Z.id drop_app_length take_app_length.
    destruct (receive_all_live fd f s' (uninit (Z.to_nat (Z.of_nat (length acc) + Z.of_nat (length f)) - length acc)) w)
      as (w' & -> & ? & ?); [done|rw uninit_length; lia|done|].
    simpl. eexists _, _. split_and!; [done| |done|done]. by split; [|eauto].
  - assert (acc ++ f = []) as Hnil.
    { destruct (decide (acc ++ f = [])) as [|Hne]; [done|]. rw Hmem // in Ha.
      destruct (acc ++ f) eqn:E; [done|]. apply (f_equal length) in E. rw length_app /= in E. lia. }
    apply app_eq_nil in Hnil as [-> ->]. simpl. eexists _, _. by split_and!.
Qed.

Lemma encode_fragments_cons f fs :
  encode_fragments (f :: fs) =
  htonl_bytes (fragment_header (bool_decide (fs = [])) (Z.of_nat (length f))) ++ f ++
  encode_fragments fs.
Proof. done. Qed.

Lemma receive_rm_record_loop_S fuel fd b n w :
  receive_rm_record_loop (S fuel) fd b n w =
  '(e, hd, w) ← receive_all_tcp fd RM_FRAGMENT_HEADER_SIZE (uninit (Z.to_nat RM_FRAGMENT_HEADER_SIZE)) w;
  if e >? 0 then Some (None, n, w) else
  '(e, b, w) ← receive_fragment_data fd b n (header_size (ntohl_bytes hd)) w;
  if e >? 0 then Some (None, n, w) else
  if header_is_last (ntohl_bytes hd) then Some (b, n + header_size (ntohl_bytes hd), w)
  else receive_rm_record_loop fuel fd b (n + header_size (ntohl_bytes hd)) w.
Proof. done. Qed.

Lemma receive_rm_record_loop_live fuel fd b acc fs rest w :
  memory_available → fs ≠ [] → Forall fragment_ok fs → (length fs ≤ fuel)%nat →
  holds b acc → incoming fd w = encode_fragments fs ++ rest →
  ∃ b' w', receive_rm_record_loop fuel fd b (Z.of_nat (length acc)) w =
             Some (b', Z.of_nat (length (acc ++ concat fs)), w') ∧
           holds b' (acc ++ concat fs) ∧ incoming fd w' = rest ∧ outgoing fd w' = outgoing fd w.
Proof.
  intros Hmem. revert fuel b acc w.
  induction fs as [|f fs IH]; intros fuel b acc w Hne Hok Hfuel Hb Hin; [done|].
  apply Forall_cons in Hok as [Hf Hok]. destruct fuel as [|fuel]; [simpl in Hfuel; lia|].
  assert (0 ≤ Z.of_nat (length f) < 2 ^ 31) as Hlen
    by (rw /fragment_ok /RM_MAX_FRAGMENT_DATA_SIZE in Hf; lia).
  rw encode_fragments_cons -!app_assoc in Hin.
  set (hd := htonl_bytes _) in Hin.
  destruct (receive_all_live fd hd (f ++ encode_fragments fs ++ rest) (uninit (Z.to_nat RM_FRAGMENT_HEADER_SIZE)) w)
    as (w1 & Hr & Hin1 & Hout1); [done|apply uninit_length|done|].
  rw receive_rm_record_loop_S -{1}(_ : Z.of_nat (length hd) = RM_FRAGMENT_HEADER_SIZE) // Hr.
  rw /fst /snd /mbind /option_bind. rw (_ : (0 >? 0) = false) //.
  destruct (header_roundtrip (bool_decide (fs = [])) _ Hlen) as [Hl1 Hl2].
  rw -/hd in Hl1 Hl2. rw Hl1 Hl2.
  destruct (receive_fragment_data_live fd b acc f (encode_fragments fs ++ rest) w1)
    as (b2 & w2 & -> & Hb2 & Hin2 & Hout2); [done..|rw /small; lia|done|]. simpl.
  rw -Nat2Z.inj_add -length_app. case_bool_decide as Hlast.
  - subst fs. rw /= app_nil_r. eexists _, _. split_and!; [done|done|done|congruence].
  - destruct (IH fuel b2 (acc ++ f) w2) as (b3 & w3 & -> & Hb3 & Hin3 & Hout3);
      [done|done|simpl in Hfuel; lia|done|done|].
    rw -app_assoc. rw -app_assoc in Hb3. eexists _, _. split_and!; [done|done|done|congruence].
Qed.

Lemma next_fragment_size_bounds n :
  0 < n → 0 < next_fragment_size n ≤ n ∧ next_fragment_size n ≤ RM_MAX_FRAGMENT_DATA_SIZE.
Proof.
  intros Hn. rw /next_fragment_size.
  destruct (_ <? _) eqn:Hc; c_bools; rw /RM_MAX_FRAGMENT_DATA_SIZE in Hc |- *; lia.
Qed.

Lemma send_rm_record_loop_S fuel fd data w :
  data ≠ [] →
  send_rm_record_loop (S fuel) fd data w =
  let n := next_fragment_size (Z.of_nat (length data)) in
  '(e, w) ← send_all_tcp fd (htonl_bytes (fragment_header (Z.of_nat (length data) =? n) n)) w;
  if e >? 0 then Some (1, w) else
  '(e, w) ← send_all_tcp fd (take (Z.to_nat n) data) w;
  if e >? 0 then Some (2, w) else send_rm_record_loop fuel fd (drop (Z.to_nat n) data) w.
Proof. by destruct data. Qed.

(** Fragments that are not empty are no more than the bytes in them. *)
Lemma fragments_count (fs : list (list byte)) : Forall (.≠ []) fs → (length fs ≤ length (concat fs))%nat.
Proof.
  induction 1 as [|f fs Hf Hfs IH]; simpl; [done|]. rw length_app.
  destruct f; simpl; [done|lia].
Qed.

(** The fragments the sender makes of a record. *)
Lemma send_rm_record_loop_live fuel fd data w :
  small data → (length data ≤ fuel)%nat →
  ∃ w' fs, send_rm_record_loop fuel fd data w = Some (0, w') ∧
           concat fs = data ∧ Forall fragment_ok fs ∧ Forall (.≠ []) fs ∧
           outgoing fd w' = outgoing fd w ++ encode_fragments fs ∧ incoming fd w' = incoming fd w.
Proof.
  revert data w. induction fuel as [|fuel IH]; intros data w Hs Hf.
  { destruct data; [|simpl in Hf; lia]. exists w, []. rw app_nil_r. by split_and!. }
  destruct (decide (data = [])) as [->|Hne]; [exists w, []; rw app_nil_r; by split_and!|].
  assert (0 < length data)%nat as Hpos by (destruct data; simpl; [done|lia]).
  rw /small in Hs.
  rw send_rm_record_loop_S //. cbv zeta.
  destruct (next_fragment_size_bounds (Z.of_nat (length data))) as [Hn Hmax]; [lia|].
  set (n := next_fragment_size _) in Hn, Hmax |- *.
  set (hd := htonl_bytes (fragment_header (Z.of_nat (length data) =? n) n)).
  destruct (send_all_live fd hd w) as (w1 & Hs1 & Hout1 & Hin1); [done|].
  destruct (send_all_live fd (take (Z.to_nat n) data) w1) as (w2 & Hs2 & Hout2 & Hin2);
    [rw /small length_take; lia|].
  destruct (IH (drop (Z.to_nat n) data) w2) as (w3 & fs & Hs3 & Hcat & Hok & Hnn & Hout3 & Hin3);
    [rw /small length_drop; lia|rw length_drop; lia|].
  exists w3, (take (Z.to_nat n) data :: fs). split_and!.
  - by rw -/hd Hs1 /= Hs2.
  - by rw /= Hcat take_drop.
  - constructor; [|done]. rw /fragment_ok length_take. lia.
  - constructor; [|done]. intros Hd%(f_equal length). rw length_take /= in Hd. lia.
  - rw Hout3 Hout2 Hout1 encode_fragments_cons -!app_assoc. do 2 f_equal. rw /hd. do 2 f_equal; [|rw length_take; lia].
    apply eq_true_iff_eq. rw bool_decide_eq_true Z.eqb_eq. split.
    + intros Heq. destruct fs as [|f fs]; [done|]. exfalso. apply Forall_cons in Hnn as [Hnn _].
      rw drop_ge in Hcat; [lia|]. by apply app_eq_nil in Hcat as [-> _].
    + intros ->. apply (f_equal length) in Hcat. rw length_drop /= in Hcat. lia.
  - congruence.
Qed.
End tcp_lemmas.

(** * Theorems *)

Section theorems.
Context `{LiveSocket W} `{Memory}.
Implicit Types (w : W) (fd : Z).

Lemma no_fragments (fs : list (list byte)) : Forall (.≠ []) fs → concat fs = [] → fs = [].
Proof. destruct 1 as [|f fs Hf]; [done|]. by intros [? _]%app_eq_nil. Qed.

(** C10: over connections that stay up, and with memory for the record,
    whatever sizes the kernel splits the transfers into, a record of at least
    one byte sent by [send_rm_record_tcp] puts bytes on the wire from which
    [receive_rm_record_tcp] returns exactly that record and its size, and leaves
    the bytes behind it unread. An empty record is reported as sent but puts
    nothing on the wire: the receiver gets the next record instead. *)
Theorem rm_record_roundtrip_tcp fd data w (Hsmall : small data) (Hmem : memory_available) :
  ∃ w' wire,
    send_rm_record_tcp fd data w = Some (0, w') ∧ outgoing fd w' = outgoing fd w ++ wire ∧
    if decide (data = []) then wire = [] else
    ∀ fuel fd2 w2 rest, (length data ≤ fuel)%nat → incoming fd2 w2 = wire ++ rest →
      ∃ w2', receive_rm_record_tcp fuel fd2 w2 = Some (Some data, Z.of_nat (length data), w2') ∧
             incoming fd2 w2' = rest.
Proof.
  destruct (send_rm_record_loop_live (length data) fd data w)
    as (w' & fs & Hs & Hcat & Hok & Hnn & Hout & _); [done|done|].
  exists w', (encode_fragments fs). split_and!; [done|done|]. case_decide as Hdata.
  { subst data. by rw (no_fragments fs). }
  intros fuel fd2 w2 rest Hfuel Hin.
  destruct (receive_rm_record_loop_live fuel fd2 None [] fs rest w2)
    as (b & w2' & Hr & [Hb1 Hb2] & Hin' & _); [done| |done| |done|done|].
  { intros ->. by rw -Hcat in Hdata. }
  { etrans; [by apply fragments_count|]. by rw Hcat. }
  exists w2'. split; [|done]. rw /receive_rm_record_tcp Hr. rw Hcat /= in Hb1 Hb2 |- *.
  destruct (Hb2 Hdata) as [b' ->]. simpl in Hb1. by subst b'.
Qed.
End theorems.

Section error_theorems.
Context `{Socket W} `{Memory}.

(** A failing [send] is not noticed. [send] returns -1, which becomes
    the largest [size_t]: the test for a negative result never holds, and the
    total wraps around so that the loop ends with the code for success
    although nothing was transmitted. *)
Theorem send_error_reported_as_success fd buf (w w' : W) (Hbuf : buf ≠ []) (Hsmall : small buf)
    (Herr : send fd buf w = (-1, w')) :
  send_all_tcp fd buf w = Some (0, w').
Proof.
  rw /small in Hsmall. destruct buf as [|b buf]; [done|].
  rw /send_all_tcp. set (n := Z.of_nat (length (b :: buf))) in *.
  assert (0 < n) by (rw /n /=; lia).
  rw (send_bytes_tcp_S (length buf)) (proj2 (Z.ltb_lt 0 n)) // Z2Nat.inj_0 drop_0 Herr.
  rw (_ : wrap64 (-1) = 2 ^ 64 - 1) // (_ : (2 ^ 64 - 1 <? 0) = false) // (_ : (2 ^ 64 - 1 =? 0) = false) //.
  rw Z.add_0_l (_ : wrap64 (2 ^ 64 - 1) = 2 ^ 64 - 1) //. apply send_bytes_tcp_done. lia.
Qed.

(** In the same way a failing [recv] is reported as success, with the
    destination left as it was before the call. *)
Theorem recv_error_reported_as_success fd n buf (w w' : W) (Hn : 0 < n < 2 ^ 63)
    (Hbuf : n ≤ Z.of_nat (length buf)) (Herr : recv fd n w = (-1, [], w')) :
  receive_all_tcp fd n buf w = Some (0, buf, w').
Proof.
  rw /receive_all_tcp (_ : Z.to_nat n = S (Z.to_nat (n - 1))); [lia|].
  rw receive_bytes_tcp_S (proj2 (Z.ltb_lt 0 n)); [lia|]. rw Z.sub_0_r Herr.
  rw (_ : wrap64 (-1) = 2 ^ 64 - 1) // (_ : (2 ^ 64 - 1 <? 0) = false) // (_ : (2 ^ 64 - 1 =? 0) = false) //.
  rw Z.add_0_l (_ : wrap64 (2 ^ 64 - 1) = 2 ^ 64 - 1) //. rw receive_bytes_tcp_done; [lia|].
  by rw /write_at /= drop_0.
Qed.
End error_theorems.

(** * Instances

    A connection that transmits at most three bytes per call and delivers at
    most two, and one whose every call fails. *)
Module Loopback.

Record wire := mkWire { out : list byte; inc : list byte }.

#[global] Instance wire_socket : Socket wire := {
  send fd buf w := (Z.of_nat (length (take 3 buf)), mkWire (out w ++ take 3 buf) (inc w));
  recv fd n w :=
    let data := take (Z.to_nat (Z.min 2 n)) (inc w) in
    (Z.of_nat (length data), data, mkWire (out w) (drop (length data) (inc w))) }.

Lemma take_length_take {A} n (l : list A) : take (length (take n l)) l = take n l.
Proof.
  rw length_take. destruct (decide (n ≤ length l)%nat).
  - by rw Nat.min_l.
  - rw Nat.min_r; [lia|]. rw !take_ge //; lia.
Qed.

#[global] Instance wire_stream : StreamSocket wire.
Proof.
  refine {| outgoing _ := out; incoming _ := inc |}.
  - intros fd buf w r w' [= <- <-] _. rw Nat2Z.id take_length_take. cbn -[take Z.min].
    split_and!; [lia|rw length_take; lia|rw ?take_length_take; done..].
  - intros fd n w r data w' Hn [= <- <- <-] Hr. rw Nat2Z.id take_length_take. cbn -[take Z.min].
    split_and!; [lia|rw length_take; lia|rw ?take_length_take; done..].
Defined.

#[global] Instance wire_live : LiveSocket wire.
Proof.
  split.
  - intros fd [|b buf] w r w' Hne [= <- _]; [done|]. rw length_take /=. lia.
  - intros fd n w r data w' Hn Hne [= <- _ _]. rw length_take.
    destruct (inc w) eqn:E; [by rw /= E in Hne|]. simpl. lia.
Qed.

(** Every allocation succeeds and fresh memory holds zeros. *)
#[global] Instance zero_memory : Memory.
Proof.
  refine {| alloc_ok _ := true; uninit n := replicate n x00 |}. intros. apply length_replicate.
Defined.

Inductive broken := Broken.

#[global] Instance broken_socket : Socket broken := {
  send fd buf w := (-1, w);
  recv fd n w := (-1, [], w) }.

End Loopback.

(** * Witnesses *)

Section witnesses.
Import Loopback.

Definition hello : list byte := [x68; x65; x6c; x6c; x6f].

Lemma rm_record_roundtrip_tcp_witness :
  ∃ w' wire, send_rm_record_tcp 7 hello (mkWire [] []) = Some (0, w') ∧
    outgoing 7 w' = outgoing 7 (mkWire [] []) ++ wire ∧
    if decide (hello = []) then wire = [] else
    ∀ fuel fd2 w2 rest, (length hello ≤ fuel)%nat → incoming fd2 w2 = wire ++ rest →
      ∃ w2', receive_rm_record_tcp fuel fd2 w2 = Some (Some hello, Z.of_nat (length hello), w2') ∧
             incoming fd2 w2' = rest.
Proof. apply (rm_record_roundtrip_tcp 7 hello (mkWire [] [])); done. Defined.

Lemma send_error_reported_as_success_witness : send_all_tcp 7 hello Broken = Some (0, Broken).
Proof. apply (send_error_reported_as_success 7 hello Broken Broken); done. Defined.

Lemma recv_error_reported_as_success_witness : receive_all_tcp 7 5 hello Broken = Some (0, hello, Broken).
Proof. apply (recv_error_reported_as_success 7 5 hello Broken Broken); done. Defined.

(** The encoding of one record, computed. *)
Example send_hello :
  send_rm_record_tcp 7 hello (mkWire [] []) = Some (0, mkWire ([x80; x00; x00; x05] ++ hello) []).
Proof. vm_compute. reflexivity. Qed.
End witnesses.
