(* ===== verification/RecordMarkingQuic.v ===== *)
(** Record Marking over QUIC streams:
    [src/transport/quic/quic_record_marking.c]. Sending is as over TCP; a
    record is received by a state machine, the receiving context of the
    stream, which is fed the data of a stream in whatever pieces it arrives
    in.

    The QUIC library (TQUIC) is not part of this repository: it is the class
    [QuicStream]. *)
From S2P Require Import Prelude RecordMarking.

Definition READ_BUF_SIZE : Z := 10000.

(** Results are [ssize_t]: negative when there is nothing to read or write. *)
Class QuicStream (W : Type) := {
  quic_stream_write : Z → Z → list byte → W → Z * W;
  quic_stream_read : Z → Z → Z → W → Z * list byte * W;
}.

(** [malloc(n)] *)
Definition malloc `{Memory} (n : Z) : option (list byte) :=
  if alloc_ok n then Some (uninit (Z.to_nat n)) else None.

(** * Sending *)

Section sending.
Context `{QuicStream W}.
Implicit Types (w : W) (conn stream_id : Z).

(** The loop of [send_bytes_quic]; [None]: out of fuel. *)
Fixpoint send_bytes_quic (fuel : nat) conn stream_id (source_buffer : list byte)
    (buffer_size total_bytes_sent : Z) w : option (Z * W) :=
  if total_bytes_sent <? buffer_size then
    match fuel with
    | O => None
    | S fuel =>
        let '(r, w) :=
          quic_stream_write conn stream_id (drop (Z.to_nat total_bytes_sent) source_buffer) w in
        let bytes_sent := wrap64 r in
        if bytes_sent <? 0 then Some (1, w)
        else if bytes_sent =? 0 then Some (2, w)
        else send_bytes_quic fuel conn stream_id source_buffer buffer_size
               (wrap64 (total_bytes_sent + bytes_sent)) w
    end
  else Some (0, w).

Definition send_all_quic conn stream_id (source_buffer : list byte) w : option (Z * W) :=
  send_bytes_quic (length source_buffer) conn stream_id source_buffer
    (Z.of_nat (length source_buffer)) 0 w.

(** The loop of [send_rm_record_quic]; [data] is what is left of the record. *)
Fixpoint send_rm_record_quic_loop (fuel : nat) conn stream_id (data : list byte) w : option (Z * W) :=
  match data with
  | [] => Some (0, w)
  | _ =>
      match fuel with
      | O => None
      | S fuel =>
          let bytes_left := Z.of_nat (length data) in
          let fragment_size := next_fragment_size bytes_left in
          '(error_code, w) ←
            send_all_quic conn stream_id
              (htonl_bytes (fragment_header (bytes_left =? fragment_size) fragment_size)) w;
          if error_code >? 0 then Some (1, w) else
          '(error_code, w) ← send_all_quic conn stream_id (take (Z.to_nat fragment_size) data) w;
          if error_code >? 0 then Some (2, w) else
          send_rm_record_quic_loop fuel conn stream_id (drop (Z.to_nat fragment_size) data) w
      end
  end.

Definition send_rm_record_quic conn stream_id (rm_record_data : list byte) w : option (Z * W) :=
  send_rm_record_quic_loop (length rm_record_data) conn stream_id rm_record_data w.
End sending.

(** * Receiving contexts *)

Record RecordMarkingReceivingContext := mkContext {
  quic_connection : Z;
  stream_id : Z;
  accumulated_payloads_size : Z;
  accumulated_payloads : option (list byte);
  num_received_header_bytes : Z;
  received_header_bytes : option (list byte);
  is_last_fragment : bool;
  expected_size : Z;
  num_received_payload_bytes : Z;
  received_payload_bytes : option (list byte);
  record_fully_received : bool }.

Definition create_rm_receiving_context (conn id : Z) : RecordMarkingReceivingContext :=
  mkContext conn id 0 None 0 None false 0 0 None false.

Definition reset_rm_receiving_context_for_next_rm_fragment (c : RecordMarkingReceivingContext)
    : RecordMarkingReceivingContext :=
  mkContext (quic_connection c) (stream_id c) (accumulated_payloads_size c) (accumulated_payloads c)
    0 None false 0 0 None false.

(** ** The list of contexts

    A node's context pointer may be NULL; adding can fail for lack of memory. *)
Definition RecordMarkingReceivingContextsList : Type := list (option RecordMarkingReceivingContext).

(** [memory]: whether the two allocations succeed. *)
Definition add_new_rm_receiving_context (memory : bool * bool) (conn id : Z)
    (l : RecordMarkingReceivingContextsList) : Z * RecordMarkingReceivingContextsList :=
  if negb memory.1 then (2, l)
  else if negb memory.2 then (3, l)
  else (0, Some (create_rm_receiving_context conn id) :: l).

Definition context_of (conn id : Z) (c : RecordMarkingReceivingContext) : bool :=
  (quic_connection c =? conn) && (stream_id c =? id).

Fixpoint find_rm_receiving_context (conn id : Z) (l : RecordMarkingReceivingContextsList) : Z :=
  match l with
  | [] => 1
  | None :: l => find_rm_receiving_context conn id l
  | Some c :: l => if context_of conn id c then 0 else find_rm_receiving_context conn id l
  end.

Fixpoint get_rm_receiving_context (conn id : Z) (l : RecordMarkingReceivingContextsList)
    : option RecordMarkingReceivingContext :=
  match l with
  | [] => None
  | None :: _ => None
  | Some c :: l => if context_of conn id c then Some c else get_rm_receiving_context conn id l
  end.

(** The loop over the rest of the list: [prev] is the node before [curr]. *)
Fixpoint remove_rm_receiving_context_loop (conn id : Z) (prev : option RecordMarkingReceivingContext)
    (curr : RecordMarkingReceivingContextsList) : Z * RecordMarkingReceivingContextsList :=
  match curr with
  | [] => (4, [prev])
  | None :: _ => (3, prev :: curr)
  | Some c :: rest =>
      if context_of conn id c then (0, prev :: rest)
      else let '(e, l) := remove_rm_receiving_context_loop conn id (Some c) rest in (e, prev :: l)
  end.

(** [None]: the empty list is dereferenced. *)
Definition remove_rm_receiving_context (conn id : Z) (l : RecordMarkingReceivingContextsList)
    : option (Z * RecordMarkingReceivingContextsList) :=
  match l with
  | [] => None
  | None :: _ => Some (2, l)
  | Some c :: rest =>
      if context_of conn id c then Some (0, rest)
      else Some (remove_rm_receiving_context_loop conn id (Some c) rest)
  end.

(** * Receiving

    The parts of an iteration of the inner loop. [chunk] is what is left of
    the data read; [return_] leaves [receive_available_bytes_quic] with an
    error code. *)

(** A part of [receive_available_bytes_quic] acting on the context. *)
Definition rx (A : Type) : Type := prog RecordMarkingReceivingContext Z A.

Section receiving.
Context `{Memory}.
Implicit Types (chunk : list byte).

(** Store the bytes of the header that have arrived; decode it when it is
    complete. *)
Definition receive_header chunk : rx (list byte) :=
  c ← gets id;
  buffer ← orelse (match received_header_bytes c with
                   | Some b => Some b
                   | None => malloc RM_FRAGMENT_HEADER_SIZE
                   end) 3;
  let n := num_received_header_bytes c in
  let k := Z.to_nat (Z.min (RM_FRAGMENT_HEADER_SIZE - n) (Z.of_nat (length chunk))) in
  let buffer := write_at (Z.to_nat n) (take k chunk) buffer in
  let n := n + Z.of_nat k in
  let h := ntohl_bytes buffer in
  let complete := n =? RM_FRAGMENT_HEADER_SIZE in
  modify (λ c, mkContext (quic_connection c) (stream_id c) (accumulated_payloads_size c)
    (accumulated_payloads c) n (Some buffer)
    (if complete then header_is_last h else is_last_fragment c)
    (if complete then header_size h else expected_size c)
    (num_received_payload_bytes c) (received_payload_bytes c) (record_fully_received c));;
  mret (drop k chunk).

(** Store the bytes of the payload that have arrived. After the allocation
    the header's pointer is tested, not the payload's: a failed allocation is
    dereferenced. *)
Definition receive_payload chunk : rx (list byte) :=
  c ← gets id;
  let buffer := match received_payload_bytes c with
                | Some b => Some b
                | None => malloc (expected_size c)
                end in
  return_if (bool_decide (received_header_bytes c = None)) 3;;
  buffer ← deref buffer;
  let n := num_received_payload_bytes c in
  let k := Z.to_nat (Z.min (expected_size c - n) (Z.of_nat (length chunk))) in
  let buffer := write_at (Z.to_nat n) (take k chunk) buffer in
  modify (λ c, mkContext (quic_connection c) (stream_id c) (accumulated_payloads_size c)
    (accumulated_payloads c) (num_received_header_bytes c) (received_header_bytes c)
    (is_last_fragment c) (expected_size c) (n + Z.of_nat k) (Some buffer) (record_fully_received c));;
  mret (drop k chunk).

(** The fragment is complete: append its payload to the record. [true] when
    it was the last one. The buffers of the fragment are freed; after the last
    one the pointers to them are kept, so that finishing a fragment of a record
    that is complete already reads the payload after it was freed. *)
Definition finish_fragment : rx bool :=
  c ← gets id;
  let n := num_received_payload_bytes c in
  let size := accumulated_payloads_size c in
  let allocated := match accumulated_payloads c with
                   | None => malloc n
                   | Some b => realloc (Some b) (size + n)
                   end in
  modify (λ c, mkContext (quic_connection c) (stream_id c) size allocated
    (num_received_header_bytes c) (received_header_bytes c) (is_last_fragment c) (expected_size c) n
    (received_payload_bytes c) (record_fully_received c));;
  buffer ← orelse allocated 3;
  (if record_fully_received c then fault else mret tt);;
  let payload := take (Z.to_nat n) (default [] (received_payload_bytes c)) in
  let c' := mkContext (quic_connection c) (stream_id c) (size + n)
    (Some (write_at (Z.to_nat size) payload buffer)) (num_received_header_bytes c)
    (received_header_bytes c) (is_last_fragment c) (expected_size c) n (received_payload_bytes c)
    (if is_last_fragment c then true else record_fully_received c) in
  modify (λ _, if is_last_fragment c then c' else reset_rm_receiving_context_for_next_rm_fragment c');;
  mret (is_last_fragment c).

(** The inner loop; what is left of the chunk when it ends. Every iteration
    consumes data or completes an empty fragment. Out of fuel is a [fault]. *)
Fixpoint process_chunk (fuel : nat) chunk : rx (list byte) :=
  match chunk with
  | [] => mret []
  | _ =>
      match fuel with
      | O => fault
      | S fuel =>
          c ← gets id;
          if num_received_header_bytes c <? RM_FRAGMENT_HEADER_SIZE then
            chunk ← receive_header chunk; process_chunk fuel chunk
          else
            chunk ← (if num_received_payload_bytes c <? expected_size c
                     then receive_payload chunk else mret chunk);
            c ← gets id;
            if num_received_payload_bytes c =? expected_size c then
              is_last ← finish_fragment;
              if (is_last : bool) then mret chunk else process_chunk fuel chunk
            else process_chunk fuel chunk
      end
  end.

Definition chunk_fuel chunk : nat := S (2 * length chunk).

Context `{QuicStream W}.

(** The outer loop: error code, context and state. [None]: undefined
    behaviour or out of fuel. *)
Fixpoint receive_available_loop (fuel : nat) (c : RecordMarkingReceivingContext) (w : W)
    : option (Z * RecordMarkingReceivingContext * W) :=
  match fuel with
  | O => None
  | S fuel =>
      let '(bytes_read, data, w) :=
        quic_stream_read (quic_connection c) (stream_id c) READ_BUF_SIZE w in
      if bytes_read <? 0 then Some (0, c, w)
      else if bytes_read =? 0 then Some (2, c, w)
      else
        match process_chunk (chunk_fuel data) data c with
        | Fault => None
        | Ret error_code c => Some (error_code, c, w)
        | Val rest c =>
            if record_fully_received c then
              if bool_decide (rest ≠ []) then Some (4, c, w) else Some (0, c, w)
            else receive_available_loop fuel c w
        end
  end.

(** A NULL context is refused. *)
Definition receive_available_bytes_quic (fuel : nat) (c : option RecordMarkingReceivingContext) (w : W)
    : option (Z * option RecordMarkingReceivingContext * W) :=
  match c with
  | None => Some (1, None, w)
  | Some c => '(e, c, w) ← receive_available_loop fuel c w; Some (e, Some c, w)
  end.
End receiving.

(** * The receiving invariant *)

Section invariant.
Context `{Memory}.
Implicit Types (c : RecordMarkingReceivingContext) (s p acc : list byte) (fs : list (list byte)).

(** A buffer of [n] bytes, allocated or not, of which the first have arrived. *)
Definition filled (b : option (list byte)) (n : Z) (received : list byte) : Prop :=
  match b with
  | None => received = []
  | Some b => length b = Z.to_nat n ∧ take (length received) b = received
  end.

(** The payloads of the complete fragments are [acc]. *)
Definition accumulated c acc : Prop :=
  holds (accumulated_payloads c) acc ∧ accumulated_payloads_size c = Z.of_nat (length acc) ∧
  length (default [] (accumulated_payloads c)) = length acc.

(** The context has received part of the header of the next fragment and
    expects [s], after which the record will be [p]. *)
Definition expects_header c s p : Prop :=
  ∃ acc h fs,
    accumulated c acc ∧ filled (received_header_bytes c) 4 h ∧
    num_received_header_bytes c = Z.of_nat (length h) ∧ (length h < 4)%nat ∧
    expected_size c = 0 ∧ num_received_payload_bytes c = 0 ∧ received_payload_bytes c = None ∧
    fs ≠ [] ∧ sendable_fragments fs ∧ h ++ s = encode_fragments fs ∧ p = acc ++ concat fs.

(** It has received a header and the part [r] of the payload [r ++ r'], which
    is followed by the fragments [fs]. *)
Definition expects_payload c s p : Prop :=
  ∃ acc r r' fs,
    accumulated c acc ∧ is_Some (received_header_bytes c) ∧ num_received_header_bytes c = 4 ∧
    is_last_fragment c = bool_decide (fs = []) ∧
    expected_size c = Z.of_nat (length (r ++ r')) ∧
    filled (received_payload_bytes c) (expected_size c) r ∧
    num_received_payload_bytes c = Z.of_nat (length r) ∧ r' ≠ [] ∧
    sendable_fragments fs ∧ s = r' ++ encode_fragments fs ∧ p = acc ++ (r ++ r') ++ concat fs.

Definition expects c s p : Prop :=
  record_fully_received c = false ∧ (expects_header c s p ∨ expects_payload c s p).

(** The record is complete. *)
Definition complete c p : Prop :=
  record_fully_received c = true ∧ accumulated_payloads c = Some p ∧
  accumulated_payloads_size c = Z.of_nat (length p).

Lemma expects_fresh conn id fs :
  fs ≠ [] → sendable_fragments fs →
  expects (create_rm_receiving_context conn id) (encode_fragments fs) (concat fs).
Proof.
  intros Hne Hs. split; [done|]. left. exists [], [], fs. split_and!; try done; simpl; lia.
Qed.

Lemma encode_fragments_nonempty fs : fs ≠ [] → (4 ≤ length (encode_fragments fs))%nat.
Proof. destruct fs as [|f fs]; [done|]. intros _. rw encode_fragments_cons length_app. simpl. lia. Qed.

(** Something is always missing from a record that is not complete. *)
Lemma expects_nonempty c s p : expects c s p → s ≠ [].
Proof.
  intros [_ [(acc & h & fs & _ & _ & _ & Hh & _ & _ & _ & Hne & _ & Hs & _)|
             (acc & r & r' & fs & _ & _ & _ & _ & _ & _ & _ & Hr' & _ & -> & _)]].
  - intros ->. rw app_nil_r in Hs. apply encode_fragments_nonempty in Hne. rw -Hs in Hne. lia.
  - destruct r'; [done|]. done.
Qed.

Lemma write_at_filled b n r d :
  length b = n → take (length r) b = r → (length r + length d ≤ n)%nat →
  take (length (r ++ d)) (write_at (length r) d b) = r ++ d ∧ length (write_at (length r) d b) = n.
Proof.
  intros Hb Hr Hn. rw length_app take_write_at; [lia|]. rw length_write_at; [lia|]. by rw Hr.
Qed.
(** The buffer of [receive_header] and [receive_payload]: allocated on first use. *)
Lemma filled_alloc b n r :
  memory_available → 0 < n → filled b n r →
  ∃ b', match b with Some b => Some b | None => malloc n end = Some b' ∧
        length b' = Z.to_nat n ∧ take (length r) b' = r.
Proof.
  intros Hmem Hn Hf. destruct b as [b|]; [by exists b|]. simpl in Hf. subst r.
  rw /malloc Hmem //. eexists. split_and!; [done|apply uninit_length|done].
Qed.

Lemma receive_header_ok c chunk s' p :
  memory_available → record_fully_received c = false → expects_header c (chunk ++ s') p → chunk ≠ [] →
  wp (receive_header chunk)
    (λ rest c', (length rest < length chunk)%nat ∧ expects c' (rest ++ s') p) (λ _ _, False) c.
Proof.
  intros Hmem Hrec (acc & h & fs & Hacc & Hh & Hn & Hlt & He & Hpn & Hpb & Hne & Hs & Henc & Hp) Hc.
  rw /receive_header. wp_step. wp_step. wp_step.
  destruct (filled_alloc _ _ _ Hmem (ltac:(done) : 0 < 4) Hh) as (b & Hb & Hbl & Hbt).
  rw /id Hb. wp_step; [done|]. injection Hsome as <-. cbv zeta.
  rw Hn /RM_FRAGMENT_HEADER_SIZE.
  set (k := Z.to_nat (Z.min _ _)).
  assert (length chunk ≠ 0)%nat as Hcl by (destruct chunk; simpl; done).
  assert (0 < k ≤ length chunk ∧ length h + k ≤ 4)%nat as Hk by lia.
  assert (length (take k chunk) = k) as Hlk by (rw length_take; lia).
  destruct (write_at_filled b 4 h (take k chunk)) as [Hw1 Hw2]; [done|done|lia|].
  rw Nat2Z.id. set (b' := write_at _ _ b) in Hw1, Hw2 |- *.
  wp_step. wp_step. wp_step. rw length_drop. split; [lia|]. split; [done|].
  rw -(take_drop k chunk) -app_assoc app_assoc in Henc.
  set (h' := h ++ take k chunk) in Hw1, Henc.
  assert (length h' = (length h + k)%nat) as Hh' by (rw /h' length_app; lia).
  destruct (Z.eqb_spec (Z.of_nat (length h) + Z.of_nat k) 4) as [H4|H4].
  - right. destruct fs as [|f fs]; [done|].
    destruct Hs as [[Hf Hok]%Forall_cons [Hfne Hnn]%Forall_cons].
    rw encode_fragments_cons in Henc. apply app_inj_1 in Henc as [Hhd Hrest]; [|simpl; lia].
    rw take_ge in Hw1; [lia|]. rw Hw1 Hhd.
    destruct (header_roundtrip (bool_decide (fs = [])) (Z.of_nat (length f))) as [-> ->];
      [rw /fragment_ok /RM_MAX_FRAGMENT_DATA_SIZE in Hf; lia|].
    exists acc, [], f, fs. rw Hpb Hpn. split_and!; simpl; try done; by eauto.
  - left. exists acc, h', fs. rw Hpb Hpn He. split_and!; simpl; try done; lia.
Qed.
(** The payload [f] of the current fragment has arrived, [fs] follow it. *)
Definition payload_full c acc f fs : Prop :=
  accumulated c acc ∧ received_payload_bytes c = Some f ∧
  num_received_payload_bytes c = Z.of_nat (length f) ∧ expected_size c = Z.of_nat (length f) ∧
  is_last_fragment c = bool_decide (fs = []) ∧ record_fully_received c = false.

Lemma receive_payload_ok c chunk s' p :
  memory_available → record_fully_received c = false → expects_payload c (chunk ++ s') p → chunk ≠ [] →
  wp (receive_payload chunk)
    (λ rest c', (length rest < length chunk)%nat ∧
       ((∃ acc f fs, payload_full c' acc f fs ∧ f ≠ [] ∧ sendable_fragments fs ∧ rest ++ s' = encode_fragments fs ∧
                     p = acc ++ f ++ concat fs) ∨
        (num_received_payload_bytes c' < expected_size c' ∧ rest = [] ∧ expects c' s' p)))
    (λ _ _, False) c.
Proof.
  intros Hmem Hrec
    (acc & r & r' & fs & Hacc & Hhd & Hhn & Hlast & He & Hfill & Hn & Hr' & Hs & Henc & Hp) Hc.
  assert (length r' ≠ 0)%nat as Hrl by (destruct r'; simpl; done).
  assert (length chunk ≠ 0)%nat as Hcl by (destruct chunk; simpl; done).
  rw length_app in He.
  destruct (filled_alloc _ _ _ Hmem (ltac:(rw He; lia) : 0 < expected_size c) Hfill)
    as (b & Hb & Hbl & Hbt).
  rw /receive_payload. wp_step. wp_step. wp_step. rw /id Hb.
  wp_step; [case_bool_decide; [by destruct Hhd as [? Hhd]; rw Hhd in H0|done]|].
  wp_step. apply wp_deref; [done|]. intros ? [= <-]. cbv zeta. rw Hn He.
  set (k := Z.to_nat (Z.min _ _)).
  assert (0 < k ≤ length chunk ∧ k ≤ length r')%nat as Hk by lia.
  assert (length (take k chunk) = k) as Hlk by (rw length_take; lia).
  destruct (write_at_filled b (Z.to_nat (expected_size c)) r (take k chunk)) as [Hw1 Hw2]; [done|done|lia|].
  rw Nat2Z.id. set (b' := write_at _ _ b) in Hw1, Hw2 |- *.
  wp_step. wp_step. wp_step. rw length_drop. split; [lia|].
  assert (take k chunk = take k r') as Htk.
  { apply (f_equal (take k)) in Henc. by rw !take_app_le in Henc; [lia..|]. }
  rw Htk in Hw1. assert (drop k chunk ++ s' = drop k r' ++ encode_fragments fs) as Hdk.
  { apply (f_equal (drop k)) in Henc. by rw !drop_app_le in Henc; [lia..|]. }
  destruct (decide (k = length r')) as [Hkr|Hkr].
  - left. exists acc, (r ++ r'), fs. rw (drop_ge r' k) in Hdk; [lia|]. rw (take_ge r' k) in Hw1; [lia|].
    rw take_ge in Hw1; [rw length_app; lia|].
    assert (r ++ r' ≠ []) by (destruct r; [done|by destruct r']).
    split_and!; simpl; [|done..]. rw /payload_full /= Hw1 length_app. split_and!; try done; lia.
  - right. rw (drop_ge chunk k) in Hdk; [lia|]. rw drop_ge; [lia|]. simpl. split_and!; [lia|done|].
    split; [done|]. right. exists acc, (r ++ take k r'), (drop k r'), fs.
    assert ((r ++ take k r') ++ drop k r' = r ++ r') as -> by (by rw -app_assoc take_drop).
    split_and!; try done; simpl.
    + by rw He length_app.
    + rw length_app length_take. lia.
    + intros Hd%(f_equal length). rw length_drop /= in Hd. lia.
Qed.

Lemma finish_fragment_ok c acc f fs :
  memory_available → payload_full c acc f fs → f ≠ [] → sendable_fragments fs →
  wp finish_fragment
    (λ is_last c', is_last = bool_decide (fs = []) ∧
       if decide (fs = []) then complete c' (acc ++ f)
       else expects c' (encode_fragments fs) (acc ++ f ++ concat fs)) (λ _ _, False) c.
Proof.
  intros Hmem ([[Ha1 Ha2] [Hsz Hlen]] & Hb & Hn & He & Hlast & Hrec) Hf Hs.
  assert (length f ≠ 0)%nat as Hfl by (destruct f; simpl; done).
  assert (∃ t, length t = length f ∧
    match accumulated_payloads c with
    | None => malloc (num_received_payload_bytes c)
    | Some b => realloc (Some b) (accumulated_payloads_size c + num_received_payload_bytes c)
    end = Some (acc ++ t)) as (t & Ht & Halloc).
  { rw Hn Hsz /malloc /realloc. destruct (accumulated_payloads c) as [b|]; simpl in Ha1; subst acc.
    - rw Hmem; [lia|]. simpl. rw take_ge; [lia|]. eexists. split; [|done]. rw uninit_length. lia.
    - rw Hmem; [lia|]. eexists. split; [|done]. rw uninit_length. lia. }
  rw /finish_fragment. wp_step. wp_step. cbv zeta. rw /id Halloc Hrec. wp_step. wp_step. wp_step.
  wp_step; [done|]. injection Hsome as <-. wp_step. wp_step. wp_step. wp_step. wp_step.
  rw Hn Hsz Hb Hlast !Nat2Z.id. simpl. rw take_ge //.
  assert (write_at (length acc) f (acc ++ t) = acc ++ f) as ->.
  { rw /write_at take_app_length drop_ge ?app_nil_r // length_app. lia. }
  split; [done|]. case_bool_decide as Hd; [rw decide_True //|rw decide_False //].
  - split_and!; simpl; [done..|]. rw length_app. lia.
  - split; [done|]. left. exists (acc ++ f), [], fs. rw -app_assoc.
    split_and!; simpl; try done; try lia.
    split_and!; simpl; [split; [done|eauto]|rw length_app; lia|done].
Qed.

Lemma process_chunk_nil fuel c : process_chunk fuel [] c = Val [] c.
Proof. by destruct fuel. Qed.

Lemma process_chunk_S fuel chunk :
  chunk ≠ [] →
  process_chunk (S fuel) chunk =
  (c ← gets id;
   if num_received_header_bytes c <? RM_FRAGMENT_HEADER_SIZE then
     chunk ← receive_header chunk; process_chunk fuel chunk
   else
     chunk ← (if num_received_payload_bytes c <? expected_size c
              then receive_payload chunk else mret chunk);
     c ← gets id;
     if num_received_payload_bytes c =? expected_size c then
       is_last ← finish_fragment; if (is_last : bool) then mret chunk else process_chunk fuel chunk
     else process_chunk fuel chunk).
Proof. by destruct chunk. Qed.

(** Data all of which the record still needs is consumed, and the record is
    complete exactly when nothing is missing any more. *)
Definition chunk_result (s' p rest : list byte) c : Prop :=
  rest = [] ∧ if decide (s' = []) then complete c p else expects c s' p.

Lemma process_chunk_ok fuel c chunk s' p :
  memory_available → (length chunk ≤ fuel)%nat → expects c (chunk ++ s') p →
  wp (process_chunk fuel chunk) (chunk_result s' p) (λ _ _, False) c.
Proof.
  intros Hmem. revert c chunk. induction fuel as [|fuel IH]; intros c chunk Hfuel Hexp.
  all: destruct (decide (chunk = [])) as [->|Hc];
    [rw /wp process_chunk_nil; split; [done|]; rw decide_False //;
     intros ->; by apply expects_nonempty in Hexp|].
  { destruct chunk; [done|simpl in Hfuel; lia]. }
  rw process_chunk_S //. wp_step. wp_step. rw /id. destruct Hexp as [Hrec [Hexp|Hexp]].
  - rw (proj2 (Z.ltb_lt _ _)).
    { destruct Hexp as (acc & h & fs & _ & _ & -> & Hlt & _). rw /RM_FRAGMENT_HEADER_SIZE. lia. }
    wp_step. eapply wp_mono; [by apply (receive_header_ok c chunk s' p)| |done].
    intros rest c' [Hlt Hexp']. apply IH; [lia|done].
  - rw (_ : (num_received_header_bytes c <? RM_FRAGMENT_HEADER_SIZE) = false).
    { by destruct Hexp as (acc & r & r' & fs & _ & _ & -> & _). }
    rw (proj2 (Z.ltb_lt (num_received_payload_bytes c) (expected_size c))).
    { destruct Hexp as (acc & r & r' & fs & _ & _ & _ & _ & -> & _ & -> & Hr' & _).
      rw length_app. destruct r'; [done|]. simpl. lia. }
    wp_step. eapply wp_mono; [by apply (receive_payload_ok c chunk s' p)| |done].
    intros rest c' [Hlt Hcase]. wp_step. wp_step.
    destruct Hcase as [(acc & f & fs & Hfull & Hf & Hs & Henc & ->)|(Hlt' & -> & Hexp')].
    + pose proof Hfull as (_ & _ & Hn & He & _).
      rw Hn He Z.eqb_refl. wp_step.
      eapply wp_mono; [by apply (finish_fragment_ok c' acc f fs)| |done].
      intros is_last c'' [-> Hres]. case_bool_decide as Hlast; case_decide; try done.
      * subst fs. apply app_eq_nil in Henc as [-> ->]. split; [done|]. by rw /= app_nil_r.
      * apply IH; [lia|]. by rw Henc.
    + rw (proj2 (Z.eqb_neq (num_received_payload_bytes c') (expected_size c'))); [lia|].
      rw /wp process_chunk_nil. split; [done|]. rw decide_False //.
      intros ->. by apply expects_nonempty in Hexp'.
Qed.
End invariant.

(** A stream of the QUIC library: the pieces it will hand out, one per read,
    until there is nothing more to read for now. *)
Class PendingStream (W : Type) `{QuicStream W} := {
  pending : Z → Z → W → list (list byte);
  read_nothing conn id w : pending conn id w = [] →
    ∃ r data w', quic_stream_read conn id READ_BUF_SIZE w = (r, data, w') ∧ r < 0 ∧
                 pending conn id w' = [];
  read_piece conn id w data pieces : pending conn id w = data :: pieces →
    data ≠ [] ∧ ∃ w', quic_stream_read conn id READ_BUF_SIZE w = (Z.of_nat (length data), data, w') ∧
                      pending conn id w' = pieces;
}.

(** The context keeps its stream. *)
Definition for_stream (conn id : Z) (c : RecordMarkingReceivingContext) : Prop :=
  quic_connection c = conn ∧ stream_id c = id.

Section for_stream.
Context `{Memory}.

Definition keeps_stream {A} (m : rx A) : Prop :=
  ∀ conn id c, for_stream conn id c →
    match m c with Val _ c' => for_stream conn id c' | Ret _ c' => for_stream conn id c' | Fault => True end.

Lemma keeps_stream_bind {A B} (m : rx A) (k : A → rx B) :
  keeps_stream m → (∀ a, keeps_stream (k a)) → keeps_stream (m ≫= k).
Proof.
  intros Hm Hk conn id c Hc. rw /mbind /prog_bind. specialize (Hm conn id c Hc).
  destruct (m c) as [a c'|r c'|]; [by apply Hk|done|done].
Qed.

Lemma keeps_stream_orelse {A B} (o : option A) r (k : A → rx B) conn id c :
  for_stream conn id c → (∀ a, match k a c with
    | Val _ c' => for_stream conn id c' | Ret _ c' => for_stream conn id c' | Fault => True end) →
  match (orelse o r ≫= k) c with
  | Val _ c' => for_stream conn id c' | Ret _ c' => for_stream conn id c' | Fault => True end.
Proof. intros Hc Hk. destruct o; [apply Hk|done]. Qed.

Lemma keeps_stream_receive_header chunk : keeps_stream (receive_header chunk).
Proof. intros conn id c Hc. rw /receive_header. by apply keeps_stream_orelse. Qed.

Lemma keeps_stream_deref {A} (o : option A) : keeps_stream (deref o).
Proof. by destruct o. Qed.

Lemma keeps_stream_receive_payload chunk : keeps_stream (receive_payload chunk).
Proof.
  rw /receive_payload. apply keeps_stream_bind; [done|]. intros c0.
  apply keeps_stream_bind; [by intros ????; rw /return_if; destruct (bool_decide _)|]. intros _.
  apply keeps_stream_bind; [apply keeps_stream_deref|]. intros b.
  apply keeps_stream_bind; [by intros ????|by intros ?????].
Qed.

Lemma keeps_stream_finish_fragment : keeps_stream finish_fragment.
Proof.
  intros conn id c Hc. rw /finish_fragment /mbind /prog_bind /=. rw /Datatypes.id.
  set (allocated := match accumulated_payloads c with Some b => _ | None => _ end). destruct allocated; [|done].
  simpl. destruct (record_fully_received c); [done|]. by simpl; destruct (is_last_fragment c).
Qed.

Lemma keeps_stream_process_chunk fuel chunk : keeps_stream (process_chunk fuel chunk).
Proof.
  revert chunk. induction fuel as [|fuel IH]; intros chunk.
  { by destruct chunk. }
  destruct (decide (chunk = [])) as [->|Hne]; [by intros ??? Hc; rw process_chunk_nil|].
  rw process_chunk_S //. apply keeps_stream_bind; [done|]. intros c. case_match.
  - apply keeps_stream_bind; [apply keeps_stream_receive_header|done].
  - apply keeps_stream_bind; [case_match; [apply keeps_stream_receive_payload|done]|].
    intros rest. apply keeps_stream_bind; [done|]. intros c'. case_match; [|done].
    apply keeps_stream_bind; [apply keeps_stream_finish_fragment|]. by intros [].
Qed.
End for_stream.

Section theorems.
Context `{PendingStream W} `{Memory}.
Implicit Types (c : RecordMarkingReceivingContext) (w : W).

Lemma receive_available_loop_S fuel c w :
  receive_available_loop (S fuel) c w =
  let '(n, data, w) := quic_stream_read (quic_connection c) (stream_id c) READ_BUF_SIZE w in
  if n <? 0 then Some (0, c, w) else if n =? 0 then Some (2, c, w) else
  match process_chunk (chunk_fuel data) data c with
  | Fault => None
  | Ret error_code c => Some (error_code, c, w)
  | Val rest c =>
      if record_fully_received c then if bool_decide (rest ≠ []) then Some (4, c, w) else Some (0, c, w)
      else receive_available_loop fuel c w
  end.
Proof. done. Qed.

(** One call, with data to come that is part of the record. *)
Lemma receive_available_ok conn id c w pieces s' p fuel :
  memory_available → for_stream conn id c → pending conn id w = pieces →
  expects c (concat pieces ++ s') p → (length pieces < fuel)%nat →
  ∃ c' w', receive_available_loop fuel c w = Some (0, c', w') ∧ pending conn id w' = [] ∧
           for_stream conn id c' ∧ if decide (s' = []) then complete c' p else expects c' s' p.
Proof.
  intros Hmem. revert c w fuel. induction pieces as [|d pieces IH]; intros c w fuel Hst Hpend Hexp Hfuel.
  all: destruct fuel as [|fuel]; [simpl in Hfuel; lia|]; pose proof Hst as [Hconn Hid];
    rw receive_available_loop_S Hconn Hid.
  - destruct (read_nothing _ _ _ Hpend) as (r & data & w' & -> & Hr & Hp').
    rw (proj2 (Z.ltb_lt r 0)) //. eexists _, _. split_and!; try done.
    rw decide_False //. intros ->. by apply expects_nonempty in Hexp.
  - destruct (read_piece _ _ _ _ _ Hpend) as (Hd & w' & -> & Hp').
    assert (length d ≠ 0)%nat as Hdl by (destruct d; simpl; done).
    rw (proj2 (Z.ltb_ge (Z.of_nat (length d)) 0)) ?(proj2 (Z.eqb_neq (Z.of_nat (length d)) 0)); [lia..|].
    simpl in Hexp. rw -app_assoc in Hexp.
    pose proof (process_chunk_ok (chunk_fuel d) c d _ p Hmem (ltac:(rw /chunk_fuel; lia)) Hexp) as Hwp.
    pose proof (keeps_stream_process_chunk (chunk_fuel d) d conn id c Hst) as Hst'.
    rw /wp in Hwp. destruct (process_chunk _ d c) as [rest c'|?|]; [|done..].
    destruct Hwp as [-> Hres]. case_decide as Hnil.
    + apply app_eq_nil in Hnil as [Hnil ->]. destruct Hres as [Hrec Hres]. rw Hrec.
      eexists _, _. split_and!; [done| |done|done]. rw Hp'.
      destruct pieces as [|d2 pieces]; [done|].
      destruct (read_piece _ _ _ _ _ Hp') as (Hd2 & _). simpl in Hnil. by apply app_eq_nil in Hnil as [? _].
    + rw (proj1 Hres). apply IH; [done..|simpl in Hfuel; lia].
Qed.

(** Calls one after the other, each made when the stream has come to one of
    the states [ws]: for each call whether the record was complete after it, and
    the context in the end. [None] when a call fails. *)
Fixpoint receive_calls (fuel : nat) c (ws : list W) : option (list bool * RecordMarkingReceivingContext) :=
  match ws with
  | [] => Some ([], c)
  | w :: ws =>
      match receive_available_bytes_quic fuel (Some c) w with
      | Some (0, Some c, _) => '(bs, c') ← receive_calls fuel c ws; Some (record_fully_received c :: bs, c')
      | _ => None
      end
  end.

(** The bytes that arrive on the stream for each of the calls. *)
Definition arriving (conn id : Z) (ws : list W) : list byte := concat ((λ w, concat (pending conn id w)) <$> ws).

Lemma receive_calls_ok conn id ws w c p fuel :
  memory_available → for_stream conn id c → concat (pending conn id w) ≠ [] →
  expects c (arriving conn id (ws ++ [w])) p →
  Forall (λ w, length (pending conn id w) < fuel)%nat (ws ++ [w]) →
  ∃ c', receive_calls fuel c (ws ++ [w]) = Some (replicate (length ws) false ++ [true], c') ∧ complete c' p.
Proof.
  intros Hmem Hst Hne. revert c Hst. induction ws as [|w0 ws IH]; intros c Hst Hexp Hfuel.
  all: rw /= /arriving fmap_cons concat_cons -/(arriving conn id _) in Hexp; apply Forall_cons in Hfuel as [Hf Hfuel].
  all: destruct (receive_available_ok conn id c _ _ _ p fuel Hmem Hst eq_refl Hexp Hf) as (c1 & w' & Hr & _ & Hst1 & Hres).
  all: rw /= Hr /=.
  - exists c1. by rw (proj1 Hres).
  - rw decide_False in Hres.
    { rw /arriving fmap_app concat_app /= app_nil_r. intros [_ Hw]%app_eq_nil. done. }
    destruct (IH c1 Hst1 Hres Hfuel) as (c2 & -> & Hc2). exists c2. by rw /= (proj1 Hres).
Qed.

(** C11: a record sent in fragments none of which is empty is put together
    again however the stream cuts its bytes into pieces and however the pieces
    are spread over any number of calls of the receiver, when its allocations
    succeed: every call succeeds, the record is incomplete after each call
    before the one that reads the last byte and complete after that one, and
    then it holds exactly the concatenation of the fragments and its size. *)
Theorem receive_record_quic conn id fs (ws : list W) w fuel
    (Hmem : memory_available) (Hfs : fs ≠ []) (Hs : sendable_fragments fs)
    (Hbytes : arriving conn id (ws ++ [w]) = encode_fragments fs) (Hmore : concat (pending conn id w) ≠ [])
    (Hfuel : Forall (λ w, length (pending conn id w) < fuel)%nat (ws ++ [w])) :
  ∃ c, receive_calls fuel (create_rm_receiving_context conn id) (ws ++ [w]) =
         Some (replicate (length ws) false ++ [true], c) ∧
       accumulated_payloads c = Some (concat fs) ∧
       accumulated_payloads_size c = Z.of_nat (length (concat fs)).
Proof.
  pose proof (expects_fresh conn id fs Hfs Hs) as Hexp. rw -Hbytes in Hexp.
  destruct (receive_calls_ok conn id ws w (create_rm_receiving_context conn id) (concat fs) fuel)
    as (c & Hr & _ & Hacc & Hsize); [done..|].
  by exists c.
Qed.
End theorems.

(** * An instance and a witness *)

Module Pieces.

(** The pieces that have arrived, each with its first byte, the same for
    every stream. *)
Definition stream : Type := list (byte * list byte).

#[global] Instance stream_quic : QuicStream stream := {
  quic_stream_write conn id buf w := (Z.of_nat (length buf), w);
  quic_stream_read conn id n w :=
    match w with
    | [] => (-1, [], [])
    | (b, d) :: w => (Z.of_nat (length (b :: d)), b :: d, w)
    end }.

#[global] Instance stream_pending : PendingStream stream.
Proof.
  refine {| pending _ _ w := map (λ x, x.1 :: x.2) w |}.
  - intros conn id w Hw. exists (-1), [], []. by destruct w as [|[b d] w].
  - intros conn id w data pieces Hw. destruct w as [|[b d] w]; [done|]. injection Hw as <- <-.
    split; [done|]. by exists w.
Defined.

End Pieces.

Section witnesses.
Import Loopback Pieces.

(** Two fragments, cut inside the first header, inside the second header and
    inside the second payload, in three calls. *)
Definition three_calls : list stream :=
  [[(x00, [x00])]; [(x00, [x02; x68; x65; x80; x00]); (x00, [x03; x6c])]].

Lemma receive_record_quic_witness :
  ∃ c, receive_calls 9 (create_rm_receiving_context 1 4) (three_calls ++ [[(x6c, [x6f])]]) =
         Some ([false; false; true], c) ∧
       accumulated_payloads c = Some hello ∧ accumulated_payloads_size c = Z.of_nat (length hello).
Proof.
  apply (receive_record_quic 1 4 [[x68; x65]; [x6c; x6c; x6f]] three_calls [(x6c, [x6f])] 9); try done.
  - split; repeat constructor; done.
  - repeat constructor; simpl; lia.
Defined.

(** The error code and whether the record is complete. *)
Definition outcome_of (r : option (Z * option RecordMarkingReceivingContext * stream)) : option (Z * bool) :=
  match r with Some (e, Some c, _) => Some (e, record_fully_received c) | _ => None end.

(** An empty last fragment is not noticed until another byte arrives, and
    then that byte is an error. *)
Example empty_last_fragment_waits :
  let c := Some (create_rm_receiving_context 1 4) in
  outcome_of (receive_available_bytes_quic 9 c [(x80, [x00; x00; x00])]) = Some (0, false) ∧
  outcome_of (receive_available_bytes_quic 9 c [(x80, [x00; x00; x00; x00])]) = Some (4, true).
Proof. split; vm_compute; reflexivity. Qed.

(** A byte behind a complete record is an error that leaves the context in
    place; the next byte makes the receiver read the payload it has freed. *)
Example trailing_bytes_use_freed_memory :
  match receive_available_bytes_quic 9 (Some (create_rm_receiving_context 1 4)) [(x80, [x00; x00; x01; x68; x00])] with
  | Some (e, c, _) => e = 4 ∧ receive_available_bytes_quic 9 c [(x00, [])] = None
  | None => False
  end.
Proof. by vm_compute. Qed.
End witnesses.
