(* ===== verification/QuicStreams.v ===== *)
(** Streams of QUIC connections as the server and the clients use them: what
    sending a record does to a stream, what receiving leaves alone, and the
    list of receiving contexts as a finite map. The code is that of
    [RecordMarkingQuic]. *)
From S2P Require Import Prelude RecordMarking RecordMarkingQuic.

(** A stream is named by its connection and its number. *)
Abbreviation key := (Z * Z)%type.

(** Streams with room to send: a write takes at least a byte and affects no other
    stream; a read affects no other stream and sends nothing. So no write is blocked
    by flow control, which [quic_stream_write] reports with a result of 0 or less and
    the callers take for a failure. *)
Class LiveStreams (W : Type) `{QuicStream W, !PendingStream W} := {
  written : key → W → list byte;
  write_progress conn id buf w r w' :
    buf ≠ [] → quic_stream_write conn id buf w = (r, w') →
    0 < r ≤ Z.of_nat (length buf) ∧
    written (conn, id) w' = written (conn, id) w ++ take (Z.to_nat r) buf ∧
    (∀ k, k ≠ (conn, id) → written k w' = written k w) ∧ (∀ c i, pending c i w' = pending c i w);
  read_keeps conn id n w r data w' :
    quic_stream_read conn id n w = (r, data, w') →
    (∀ k, written k w' = written k w) ∧ (∀ c i, (c, i) ≠ (conn, id) → pending c i w' = pending c i w);
}.

(** Data that the network delivers on a stream. *)
Class StreamArrivals (W : Type) `{LiveStreams W} := {
  deliver : key → list (list byte) → W → W;
  deliver_pending conn id ps w : Forall (.≠ []) ps →
    pending conn id (deliver (conn, id) ps w) = pending conn id w ++ ps;
  deliver_others k ps w : (∀ c i, (c, i) ≠ k → pending c i (deliver k ps w) = pending c i w) ∧
    (∀ k', written k' (deliver k ps w) = written k' w);
}.

Section streams.
Context `{LiveStreams W} `{Memory}.
Implicit Types (w : W) (k : key) (buf data : list byte).

(** ** Sending *)

(** Exactly the given bytes were sent, on this stream. *)
Definition wrote k (bytes : list byte) w w' : Prop :=
  written k w' = written k w ++ bytes ∧ (∀ k', k' ≠ k → written k' w' = written k' w) ∧
  (∀ c i, pending c i w' = pending c i w).

Lemma wrote_nil k w : wrote k [] w w.
Proof. split_and!; [by rw app_nil_r|done..]. Qed.

Lemma wrote_app k b1 b2 w1 w2 w3 : wrote k b1 w1 w2 → wrote k b2 w2 w3 → wrote k (b1 ++ b2) w1 w3.
Proof.
  intros (Ha1 & Hb1 & Hc1) (Ha2 & Hb2 & Hc2). split_and!; [by rw Ha2 Ha1 app_assoc| |].
  - intros k' Hk. by rw Hb2 // Hb1.
  - intros c i. by rw Hc2.
Qed.

Lemma send_bytes_quic_live fuel conn id buf total w :
  0 ≤ total ≤ Z.of_nat (length buf) → small buf → Z.of_nat (length buf) - total ≤ Z.of_nat fuel →
  ∃ w', send_bytes_quic fuel conn id buf (Z.of_nat (length buf)) total w = Some (0, w') ∧
        wrote (conn, id) (drop (Z.to_nat total) buf) w w'.
Proof.
  rw /small. intros Ht Hs. revert total w Ht.
  induction fuel as [|fuel IH]; intros total w Ht Hf; simpl.
  all: destruct (total <? Z.of_nat (length buf)) eqn:Hlt; c_bools; [|exists w; split; [done|rw drop_ge; [lia|apply wrote_nil]]].
  { lia. }
  destruct (quic_stream_write conn id (drop (Z.to_nat total) buf) w) as [r w1] eqn:Hsend.
  assert (drop (Z.to_nat total) buf ≠ []) as Hne.
  { intros Hd%(f_equal length). rw length_drop /= in Hd. lia. }
  destruct (write_progress _ _ _ _ _ _ Hne Hsend) as (Hr & Hw). rw length_drop in Hr.
  rw (wrap64_small r); [rw /u64; lia|].
  rw (proj2 (Z.ltb_ge r 0)) ?(proj2 (Z.eqb_neq r 0)); [lia..|].
  rw wrap64_small; [rw /u64; lia|].
  destruct (IH (total + r) w1) as (w' & -> & Hw'); [lia..|].
  exists w'. split; [done|].
  rw -(take_drop (Z.to_nat r) (drop (Z.to_nat total) buf)). apply (wrote_app _ _ _ _ w1); [done|].
  rw drop_drop. by rw Z2Nat.inj_add in Hw'; [lia..|].
Qed.

Lemma send_all_quic_live conn id buf w :
  small buf → ∃ w', send_all_quic conn id buf w = Some (0, w') ∧ wrote (conn, id) buf w w'.
Proof. intros. apply send_bytes_quic_live; [lia|done|lia]. Qed.

Lemma send_rm_record_quic_loop_S fuel conn id data w :
  data ≠ [] →
  send_rm_record_quic_loop (S fuel) conn id data w =
  let bytes_left := Z.of_nat (length data) in
  let fragment_size := next_fragment_size bytes_left in
  '(error_code, w) ← send_all_quic conn id
    (htonl_bytes (fragment_header (bytes_left =? fragment_size) fragment_size)) w;
  if error_code >? 0 then Some (1, w) else
  '(error_code, w) ← send_all_quic conn id (take (Z.to_nat fragment_size) data) w;
  if error_code >? 0 then Some (2, w) else
  send_rm_record_quic_loop fuel conn id (drop (Z.to_nat fragment_size) data) w.
Proof. by destruct data. Qed.

(** A record is sent whole, as fragments of its data. *)
Lemma send_rm_record_quic_live fuel conn id data w :
  small data → (length data ≤ fuel)%nat →
  ∃ w' fs, send_rm_record_quic_loop fuel conn id data w = Some (0, w') ∧
           concat fs = data ∧ sendable_fragments fs ∧ wrote (conn, id) (encode_fragments fs) w w'.
Proof.
  revert data w. induction fuel as [|fuel IH]; intros data w Hs Hf.
  { destruct data; [|simpl in Hf; lia]. exists w, []. split_and!; try done. apply wrote_nil. }
  destruct (decide (data = [])) as [->|Hne]; [exists w, []; split_and!; try done; apply wrote_nil|].
  assert (0 < length data)%nat as Hpos by (destruct data; simpl; [done|lia]).
  rw /small in Hs. rw send_rm_record_quic_loop_S //. cbv zeta.
  destruct (next_fragment_size_bounds (Z.of_nat (length data))) as [Hn Hmax]; [lia|].
  set (n := next_fragment_size _) in Hn, Hmax |- *.
  set (hd := htonl_bytes (fragment_header (Z.of_nat (length data) =? n) n)).
  destruct (send_all_quic_live conn id hd w) as (w1 & Hs1 & Hw1); [done|].
  destruct (send_all_quic_live conn id (take (Z.to_nat n) data) w1) as (w2 & Hs2 & Hw2);
    [rw /small length_take; lia|].
  destruct (IH (drop (Z.to_nat n) data) w2) as (w3 & fs & Hs3 & Hcat & [Hok Hnn] & Hw3);
    [rw /small length_drop; lia|rw length_drop; lia|].
  exists w3, (take (Z.to_nat n) data :: fs). split_and!.
  - by rw -/hd Hs1 /= Hs2.
  - by rw /= Hcat take_drop.
  - split; constructor; try done; [rw /fragment_ok length_take; lia|].
    intros Hd%(f_equal length). rw length_take /= in Hd. lia.
  - rw encode_fragments_cons. rw (_ : htonl_bytes _ = hd); last first.
    { apply (wrote_app _ _ _ _ w1); [done|]. by apply (wrote_app _ _ _ _ w2). }
    rw /hd. do 2 f_equal; [|rw length_take; lia].
    apply eq_true_iff_eq. rw bool_decide_eq_true Z.eqb_eq. split.
    + intros ->. apply (f_equal length) in Hcat. rw length_drop /= in Hcat. lia.
    + intros Heq. destruct fs as [|f fs]; [done|]. exfalso. apply Forall_cons in Hnn as [Hnn _].
      rw drop_ge in Hcat; [lia|]. by apply app_eq_nil in Hcat as [-> _].
Qed.

(** ** Receiving *)

(** Nothing was sent and no other stream was read. *)
Definition only_read k w w' : Prop :=
  (∀ k', written k' w' = written k' w) ∧ (∀ c i, (c, i) ≠ k → pending c i w' = pending c i w).

Lemma only_read_trans k w1 w2 w3 : only_read k w1 w2 → only_read k w2 w3 → only_read k w1 w3.
Proof.
  intros [Ha1 Hb1] [Ha2 Hb2]. split; [intros k'; by rw Ha2|]. intros c i Hne. by rw Hb2 // Hb1.
Qed.

Lemma receive_available_loop_reads fuel conn id c w e c' w' :
  for_stream conn id c → receive_available_loop fuel c w = Some (e, c', w') → only_read (conn, id) w w'.
Proof.
  revert c w. induction fuel as [|fuel IH]; intros c w Hst; [done|]. pose proof Hst as [Hconn Hid].
  rw receive_available_loop_S Hconn Hid.
  destruct (quic_stream_read conn id READ_BUF_SIZE w) as [[n data] w1] eqn:Hread.
  apply read_keeps in Hread. destruct (n <? 0); [by intros [= _ _ <-]|]. destruct (n =? 0); [by intros [= _ _ <-]|].
  pose proof (keeps_stream_process_chunk (chunk_fuel data) data conn id c Hst) as Hst'.
  destruct (process_chunk _ data c) as [rest c1|e1 c1|]; [|by intros [= _ _ <-]|done].
  destruct (record_fully_received c1); [destruct (bool_decide _); by intros [= _ _ <-]|].
  intros Hr. by apply (only_read_trans _ _ w1), (IH c1).
Qed.
End streams.

(** * The list of receiving contexts *)

Abbreviation context := RecordMarkingReceivingContext.

Definition key_of (c : context) : key := (quic_connection c, stream_id c).

(** The context that a pointer into the list points to is changed. *)
Definition set_rm_receiving_context (conn id : Z) (c' : context)
    : RecordMarkingReceivingContextsList → RecordMarkingReceivingContextsList :=
  update_first (λ o, match o with Some c => context_of conn id c | None => false end) (λ _, Some c').

(** The list holds one context for each key of the map. *)
Definition represents (l : RecordMarkingReceivingContextsList) (m : gmap key context) : Prop :=
  ∃ cs, l = Some <$> cs ∧ NoDup (key_of <$> cs) ∧ m = list_to_map ((λ c, (key_of c, c)) <$> cs).

Section context_list.
Implicit Types (l : RecordMarkingReceivingContextsList) (m : gmap key context) (c : context) (cs : list context).

Lemma context_of_key conn id c : context_of conn id c = bool_decide (key_of c = (conn, id)).
Proof.
  rw /context_of /key_of. apply eq_true_iff_eq. rw andb_true_iff !Z.eqb_eq bool_decide_eq_true. naive_solver.
Qed.

Abbreviation map_of cs := (list_to_map ((λ c, (key_of c, c)) <$> cs) : gmap key context).

Lemma map_of_None cs k : map_of cs !! k = None ↔ k ∉ key_of <$> cs.
Proof.
  rw -not_elem_of_list_to_map. by rw -list_fmap_compose (list_fmap_ext _ key_of).
Qed.

Lemma represents_nil : represents [] ∅.
Proof. exists []. split_and!; [done|constructor|done]. Qed.

Lemma represents_nil_inv m : represents [] m → m = ∅.
Proof. by intros ([|c cs] & Hl & _ & ->). Qed.

Lemma represents_find l m conn id :
  represents l m → find_rm_receiving_context conn id l = match m !! (conn, id) with Some _ => 0 | None => 1 end.
Proof.
  intros (cs & -> & _ & ->). induction cs as [|c cs IH]; [done|].
  rw /= context_of_key lookup_insert IH. case_bool_decide as Hk; by case_decide.
Qed.

Lemma represents_get l m conn id : represents l m → get_rm_receiving_context conn id l = m !! (conn, id).
Proof.
  intros (cs & -> & _ & ->). induction cs as [|c cs IH]; [done|].
  rw /= context_of_key lookup_insert IH. case_bool_decide as Hk; by case_decide.
Qed.

Lemma represents_add l m conn id :
  represents l m → m !! (conn, id) = None →
  represents (Some (create_rm_receiving_context conn id) :: l)
    (<[(conn, id) := create_rm_receiving_context conn id]> m).
Proof.
  intros (cs & -> & Hnd & ->) Hk%map_of_None. exists (create_rm_receiving_context conn id :: cs).
  split_and!; [done| |done]. rw fmap_cons. by constructor.
Qed.

Lemma represents_set l m conn id c c' :
  represents l m → m !! (conn, id) = Some c → key_of c' = (conn, id) →
  represents (set_rm_receiving_context conn id c' l) (<[(conn, id) := c']> m).
Proof.
  intros (cs & -> & Hnd & ->) Hk Hc'. revert Hnd Hk.
  induction cs as [|c0 cs IH]; [done|]. intros [Hni Hnd]%NoDup_cons Hk.
  rw /set_rm_receiving_context /= context_of_key. case_bool_decide as Heq.
  - exists (c' :: cs). split_and!; [done|rw fmap_cons Hc' -Heq; by constructor|].
    by rw fmap_cons /= Heq insert_insert_eq Hc'.
  - rw /= lookup_insert_ne // in Hk. destruct (IH Hnd Hk) as (cs' & Hl & Hnd' & Hm).
    exists (c0 :: cs'). rw /set_rm_receiving_context in Hl. rw Hl. split_and!; [done| |].
    + rw fmap_cons. constructor; [|done]. rw -map_of_None -Hm lookup_insert_ne; [congruence|by apply map_of_None].
    + by rw fmap_cons /= -Hm insert_insert_ne; [congruence|].
Qed.

Lemma remove_loop_represents conn id c0 cs :
  (conn, id) ∈ key_of <$> cs → NoDup (key_of <$> cs) →
  ∃ cs', remove_rm_receiving_context_loop conn id (Some c0) (Some <$> cs) = (0, Some c0 :: (Some <$> cs')) ∧
    NoDup (key_of <$> cs') ∧ map_of cs' = delete (conn, id) (map_of cs).
Proof.
  revert c0. induction cs as [|c cs IH]; intros c0 Hin; [by apply elem_of_nil in Hin|]. intros [Hni Hnd]%NoDup_cons.
  rw (fmap_cons Some). cbn [remove_rm_receiving_context_loop]. rw context_of_key. case_bool_decide as Heq.
  - exists cs. split_and!; [done|done|]. rw fmap_cons /= Heq delete_insert_eq delete_id //. apply map_of_None. by rw -Heq.
  - rw fmap_cons elem_of_cons in Hin. destruct Hin as [Hin|Hin]; [by rw Hin in Heq|].
    destruct (IH c Hin Hnd) as (cs' & -> & Hnd' & Hm). exists (c :: cs'). split_and!; [done| |].
    + rw fmap_cons. constructor; [|done]. rw -map_of_None Hm lookup_delete_None. right. by apply map_of_None.
    + by rw fmap_cons /= Hm delete_insert_ne; [congruence|].
Qed.

Lemma represents_remove l m conn id c :
  represents l m → m !! (conn, id) = Some c →
  ∃ l', remove_rm_receiving_context conn id l = Some (0, l') ∧ represents l' (delete (conn, id) m).
Proof.
  intros (cs & -> & Hnd & ->) Hk. destruct cs as [|c0 cs]; [done|]. apply NoDup_cons in Hnd as [Hni Hnd].
  rw (fmap_cons Some). cbn [remove_rm_receiving_context]. rw context_of_key. case_bool_decide as Heq.
  - exists (Some <$> cs). split; [done|]. exists cs. split_and!; [done|done|].
    rw fmap_cons /= Heq delete_insert_eq delete_id //. apply map_of_None. by rw -Heq.
  - rw /= lookup_insert_ne // in Hk.
    destruct (remove_loop_represents conn id c0 cs) as (cs' & -> & Hnd' & Hm); [|done|].
    { destruct (decide ((conn, id) ∈ key_of <$> cs)) as [|Hn]; [done|]. apply map_of_None in Hn. by rw Hn in Hk. }
    eexists. split; [done|]. exists (c0 :: cs'). split_and!; [done| |].
    + rw fmap_cons. constructor; [|done]. rw -map_of_None Hm lookup_delete_None. right. by apply map_of_None.
    + by rw fmap_cons /= Hm delete_insert_ne; [congruence|].
Qed.
End context_list.
