(* ===== verification/QuicPackets.v ===== *)
(** Packets between the UDP socket and the QUIC library: [on_packets_send],
    [read_callback], [timeout_callback] and [process_connections] of the server
    ([src/transport/quic/quic_rpc_server.c]) and of the client
    ([src/transport/quic/quic_rpc_client.c]), which differ in who processes the
    connections: the server does it at once, the client triggers a watcher of its
    event loop. *)
From S2P Require Import Prelude RecordMarking RecordMarkingQuic.

(** An address and a datagram. *)
Abbreviation sockaddr := Z.
Definition datagram : Type := list byte * sockaddr.

(** [quic_packet_out_spec_t]: the pieces of a packet and its destination. *)
Record quic_packet_out_spec_t := mkPacket { iov : list (list byte); dst_addr : sockaddr }.

(** Non-blocking sockets: [inl true] stands for EWOULDBLOCK and EAGAIN, [inl
    false] for other errors. *)
Class UdpSockets (W : Type) := {
  sendto : Z → datagram → W → (bool + Z) * W;
  recvfrom : Z → Z → W → (bool + datagram) * W;
}.

(** The QUIC library; [quic_endpoint_timeout] is in milliseconds. *)
Class QuicEndpoint (W : Type) := {
  quic_endpoint_recv : datagram → W → Z * W;
  quic_endpoint_process_connections : W → W;
  quic_endpoint_on_timeout : W → W;
  quic_endpoint_timeout : W → Z;
}.

(** The timer of the event loop, in tenths of a millisecond, and whether the
    watcher that processes the connections has been triggered. *)
Record event_state (W : Type) := mkEventState { network : W; timer_repeat : Z; process_requested : bool }.
Arguments mkEventState {W}.
Arguments network {W}.
Arguments timer_repeat {W}.
Arguments process_requested {W}.

Section packets.
Context `{UdpSockets W} `{QuicEndpoint W}.
Implicit Types (w : W) (s : event_state W).

(** ** Sending *)

(** The pieces of one packet; [inr]: what the function returns when it stops. *)
Fixpoint send_pieces (socket_fd : Z) (dst : sockaddr) (pieces : list (list byte)) (sent_count : Z) w : (Z + Z) * W :=
  match pieces with
  | [] => (inl sent_count, w)
  | piece :: pieces =>
      match sendto socket_fd (piece, dst) w with
      | (inr sent, w) =>
          if sent =? Z.of_nat (length piece) then send_pieces socket_fd dst pieces (sent_count + 1) w
          else (inr (-1), w)
      | (inl true, w) => (inr sent_count, w)
      | (inl false, w) => (inr (-1), w)
      end
  end.

Fixpoint send_packets (socket_fd : Z) (pkts : list quic_packet_out_spec_t) (sent_count : Z) w : Z * W :=
  match pkts with
  | [] => (sent_count, w)
  | pkt :: pkts =>
      match send_pieces socket_fd (dst_addr pkt) (iov pkt) sent_count w with
      | (inl sent_count, w) => send_packets socket_fd pkts sent_count w
      | (inr result, w) => (result, w)
      end
  end.

Definition server_on_packets_send (socket_fd : Z) (pkts : list quic_packet_out_spec_t) w : Z * W :=
  send_packets socket_fd pkts 0 w.

Definition client_on_packets_send (socket_fd : Z) (pkts : list quic_packet_out_spec_t) w : Z * W :=
  send_packets socket_fd pkts 0 w.

(** ** Receiving *)

(** The loop of the two [read_callback]s: [true] when all datagrams that had
    arrived have been handed to the library, [false] when the function returned
    after an error. *)
Fixpoint read_datagrams (fuel : nat) (socket_fd : Z) w : option (bool * W) :=
  match fuel with
  | O => None
  | S fuel =>
      match recvfrom socket_fd READ_BUF_SIZE w with
      | (inl true, w) => Some (true, w)
      | (inl false, w) => Some (false, w)
      | (inr packet, w) => let '(_, w) := quic_endpoint_recv packet w in read_datagrams fuel socket_fd w
      end
  end.

(** A timeout below 0.1 ms becomes 0.1 ms. *)
Definition process_connections s : event_state W :=
  let w := quic_endpoint_process_connections (network s) in
  let timeout := 10 * quic_endpoint_timeout w in
  mkEventState w (if timeout <? 1 then 1 else timeout) (process_requested s).

Definition request_processing s : event_state W := mkEventState (network s) (timer_repeat s) true.

Definition set_network w s : event_state W := mkEventState w (timer_repeat s) (process_requested s).

Definition server_read_callback (fuel : nat) (socket_fd : Z) s : option (event_state W) :=
  '(complete, w) ← read_datagrams fuel socket_fd (network s);
  Some (if (complete : bool) then process_connections (set_network w s) else set_network w s).

Definition client_read_callback (fuel : nat) (socket_fd : Z) s : option (event_state W) :=
  '(complete, w) ← read_datagrams fuel socket_fd (network s);
  Some (if (complete : bool) then request_processing (set_network w s) else set_network w s).

Definition server_timeout_callback s : event_state W :=
  process_connections (set_network (quic_endpoint_on_timeout (network s)) s).

Definition client_timeout_callback s : event_state W :=
  request_processing (set_network (quic_endpoint_on_timeout (network s)) s).

(** The watcher is reset when its callback runs. *)
Definition async_process_connections_callback s : event_state W :=
  process_connections (mkEventState (network s) (timer_repeat s) false).
End packets.

(** * What is assumed of the socket and the library *)

(** Datagrams that have been sent and those that wait to be received, and what the
    library has been given. *)
Class Datagrams (W : Type) `{UdpSockets W} `{QuicEndpoint W} := {
  sent : Z → W → list datagram;
  arrived : Z → W → list datagram;
  given : W → list datagram;
  sendto_whole fd d w n w' : sendto fd d w = (inr n, w') → n = Z.of_nat (length d.1) ∧ sent fd w' = sent fd w ++ [d];
  sendto_none fd d w e w' : sendto fd d w = (inl e, w') → sent fd w' = sent fd w;
  recvfrom_next fd n w d ds : arrived fd w = d :: ds →
    ∃ w', recvfrom fd n w = (inr (take (Z.to_nat n) d.1, d.2), w') ∧ arrived fd w' = ds ∧ given w' = given w;
  recvfrom_none fd n w : arrived fd w = [] → ∃ w', recvfrom fd n w = (inl true, w') ∧ given w' = given w;
  recv_given d w e w' : quic_endpoint_recv d w = (e, w') →
    given w' = given w ++ [d] ∧ (∀ fd, arrived fd w' = arrived fd w);
}.

(** The datagrams of packets, in order. *)
Definition pieces_of (pkts : list quic_packet_out_spec_t) : list datagram :=
  pkts ≫= λ pkt, (λ piece, (piece, dst_addr pkt)) <$> iov pkt.

Section lemmas.
Context `{Datagrams W}.
Implicit Types (w : W).

Lemma send_pieces_val fd dst pieces n w :
  ∃ k r w', send_pieces fd dst pieces n w = (r, w') ∧ (k ≤ length pieces)%nat ∧
    sent fd w' = sent fd w ++ ((λ piece, (piece, dst)) <$> take k pieces) ∧
    ((r = inl (n + Z.of_nat k) ∧ k = length pieces) ∨ (k < length pieces)%nat ∧ (r = inr (n + Z.of_nat k) ∨ r = inr (-1))).
Proof.
  revert n w. induction pieces as [|piece pieces IH]; intros n w.
  { exists O, (inl n), w. split_and!; [done|done|by rw app_nil_r|left]. split; [f_equal; lia|done]. }
  simpl. destruct (sendto fd (piece, dst) w) as [[[]|i] w1] eqn:Hs.
  - apply sendto_none in Hs. exists O, (inr n), w1. split_and!; [done|lia|by rw Hs app_nil_r|right].
    split; [lia|left]. f_equal. lia.
  - apply sendto_none in Hs. exists O, (inr (-1)), w1. split_and!; [done|lia|by rw Hs app_nil_r|right]. split; [lia|by right].
  - apply sendto_whole in Hs as [-> Hs]. rw Z.eqb_refl.
    destruct (IH (n + 1) w1) as (k & r & w' & Hrun & Hk & Hsent & Hr). exists (S k), r, w'.
    split_and!; [done|lia|by rw Hsent Hs -app_assoc|]. simpl.
    replace (n + Z.of_nat (S k)) with (n + 1 + Z.of_nat k) by lia.
    destruct Hr as [[-> ->]|[Hlt Hr]]; [by left|right]. split; [lia|done].
Qed.

Lemma send_packets_val fd pkts n w :
  ∃ k r w', send_packets fd pkts n w = (r, w') ∧ (k ≤ length (pieces_of pkts))%nat ∧
    sent fd w' = sent fd w ++ take k (pieces_of pkts) ∧
    (r = n + Z.of_nat k ∨ r = -1 ∧ (k < length (pieces_of pkts))%nat).
Proof.
  revert n w. induction pkts as [|pkt pkts IH]; intros n w.
  { exists O, n, w. split_and!; [done|done|by rw app_nil_r|left; lia]. }
  cbn [send_packets]. destruct (send_pieces_val fd (dst_addr pkt) (iov pkt) n w) as (k & r & w1 & Hrun & Hk & Hs & Hr).
  rw Hrun. set (first := (λ piece, (piece, dst_addr pkt)) <$> iov pkt).
  change (pieces_of (pkt :: pkts)) with (first ++ pieces_of pkts).
  assert (length first = length (iov pkt)) as Hlen by apply length_fmap. rw length_app Hlen.
  rw fmap_take -/first in Hs. clearbody first.
  destruct Hr as [[-> ->]|[Hlt Hr]].
  - destruct (IH (n + Z.of_nat (length (iov pkt))) w1) as (k' & r & w' & Hrun' & Hk' & Hs' & Hr).
    exists (length (iov pkt) + k')%nat, r, w'. split_and!; [done|lia| |destruct Hr as [->|[-> ?]]; [left; lia|right; split; [done|lia]]].
    rw Hs' Hs -app_assoc -Hlen firstn_all take_app_add. done.
  - exists k. destruct Hr as [-> | ->]; eexists _, w1; (split_and!; [done|lia|by rw take_app_le ?Hs //; rw Hlen; lia|]); [by left|].
    right. split; [done|lia].
Qed.

(** A datagram as it fits in the buffer. *)
Definition cut (d : datagram) : datagram := (take (Z.to_nat READ_BUF_SIZE) d.1, d.2).

Lemma read_datagrams_val fuel fd w :
  (length (arrived fd w) < fuel)%nat →
  ∃ w', read_datagrams fuel fd w = Some (true, w') ∧ given w' = given w ++ (cut <$> arrived fd w).
Proof.
  remember (arrived fd w) as ds eqn:Hds. revert fuel w Hds. induction ds as [|d ds IH]; intros [|fuel] w Hds Hf; simpl in Hf; try lia.
  - destruct (recvfrom_none fd READ_BUF_SIZE w) as (w' & Hr & Hg); [done|]. exists w'. cbn [read_datagrams]. rw Hr. by rw app_nil_r.
  - destruct (recvfrom_next fd READ_BUF_SIZE w d ds) as (w1 & Hr & Ha & Hg); [done|]. cbn [read_datagrams]. rw Hr.
    destruct (quic_endpoint_recv (take (Z.to_nat READ_BUF_SIZE) d.1, d.2) w1) as [e w2] eqn:Hq.
    destruct (recv_given _ _ _ _ Hq) as [Hg2 Ha2]. destruct (IH fuel w2) as (w' & Hrun & Hg'); [by rw Ha2|lia|].
    exists w'. split; [done|]. by rw Hg' Hg2 Hg -app_assoc.
Qed.
End lemmas.

(** * Theorems *)

Section theorems.
Context `{Datagrams W}.
Implicit Types (w : W) (s : event_state W).

(** What the UDP socket has received reaches the QUIC library, in
    order and each datagram once: the callbacks of the server and of the client end,
    hand over every datagram that had arrived, whatever the library says of the ones
    before it, and have the connections processed: the server at once, the client
    through its watcher, whose callback does the same and sets the timer to at least
    0.1 milliseconds. *)
Theorem arrived_packets_reach_the_library fuel fd s (Hfuel : (length (arrived fd (network s)) < fuel)%nat) :
  ∃ w, given w = given (network s) ++ (cut <$> arrived fd (network s)) ∧
    server_read_callback fuel fd s = Some (process_connections (set_network w s)) ∧
    client_read_callback fuel fd s = Some (request_processing (set_network w s)) ∧
    network (async_process_connections_callback (request_processing (set_network w s))) =
      quic_endpoint_process_connections w ∧
    0 < timer_repeat (process_connections (set_network w s)).
Proof.
  destruct (read_datagrams_val fuel fd (network s) Hfuel) as (w & Hrun & Hg). exists w.
  rw /server_read_callback /client_read_callback Hrun. split_and!; [done..|]. rw /process_connections /=.
  by destruct (_ <? 1) eqn:Hlt; c_bools; [|lia].
Qed.

(** Sending stops at the first datagram that is not sent: what was sent is a
    prefix of the pieces of the packets, and the result counts it, or is -1 after an
    error; all is sent exactly when the result is the number of pieces, which is the
    number of packets when each is in one piece. *)
Theorem sent_packets_are_counted fd pkts w :
  ∃ k r w', server_on_packets_send fd pkts w = (r, w') ∧ client_on_packets_send fd pkts w = (r, w') ∧
    (k ≤ length (pieces_of pkts))%nat ∧ sent fd w' = sent fd w ++ take k (pieces_of pkts) ∧
    (r = Z.of_nat k ∨ r = -1 ∧ (k < length (pieces_of pkts))%nat) ∧
    (Forall (λ pkt, length (iov pkt) = 1%nat) pkts → length (pieces_of pkts) = length pkts).
Proof.
  destruct (send_packets_val fd pkts 0 w) as (k & r & w' & Hrun & Hk & Hs & Hr). exists k, r, w'. split_and!; try done.
  clear. induction 1 as [|pkt pkts Hp _ IH]; [done|].
  change (pieces_of (pkt :: pkts)) with (((λ piece, (piece, dst_addr pkt)) <$> iov pkt) ++ pieces_of pkts).
  rw length_app length_fmap Hp IH. done.
Qed.
End theorems.

(** * Witness *)

(** A socket and a library that keep lists. *)
Record inbox := mkInbox { in_sent : list datagram; in_arrived : list datagram; in_given : list datagram }.

#[local] Instance inbox_sockets : UdpSockets inbox := {
  sendto _ d w := (inr (Z.of_nat (length d.1)), mkInbox (in_sent w ++ [d]) (in_arrived w) (in_given w));
  recvfrom _ n w := match in_arrived w with
                    | [] => (inl true, w)
                    | d :: ds => (inr (take (Z.to_nat n) d.1, d.2), mkInbox (in_sent w) ds (in_given w))
                    end }.

#[local] Instance inbox_endpoint : QuicEndpoint inbox := {
  quic_endpoint_recv d w := (0, mkInbox (in_sent w) (in_arrived w) (in_given w ++ [d]));
  quic_endpoint_process_connections w := w;
  quic_endpoint_on_timeout w := w;
  quic_endpoint_timeout _ := 0 }.

#[local, refine] Instance inbox_datagrams : Datagrams inbox := {
  sent _ := in_sent; arrived _ := in_arrived; given := in_given }.
Proof.
  - by intros fd d w n w' [= <- <-].
  - done.
  - intros fd n w d ds Hw. simpl. rw Hw. eauto.
  - intros fd n w Hw. simpl. rw Hw. eauto.
  - by intros d w e w' [= <- <-].
Defined.

Lemma arrived_packets_reach_the_library_witness :
  ∃ w, in_given w = [([x01; x02], 7); ([x03], 8)] ∧
    server_read_callback 5 3 (mkEventState (mkInbox [] [([x01; x02], 7); ([x03], 8)] []) 0 false) =
      Some (process_connections (set_network w (mkEventState (mkInbox [] [([x01; x02], 7); ([x03], 8)] []) 0 false))).
Proof.
  destruct (arrived_packets_reach_the_library 5 3 (mkEventState (mkInbox [] [([x01; x02], 7); ([x03], 8)] []) 0 false))
    as (w & Hg & Hr & _); [simpl; lia|]. exists w. split; [|exact Hr]. exact Hg.
Defined.
