(* ===== verification/Server.v ===== *)
(** Dispatch and processing of calls: [nfs.c], [mount.c] and
    [forward_rpc_call_to_program] of [server.c], and the processing of one
    RPC over TCP in [src/transport/tcp/tcp_rpc_server.c]. *)
From S2P Require Import Prelude Messages Posix InodeCache Permissions FileManagement ReadDir.
From S2P Require Import ServerState ProcAttr ProcFile ProcCreate ProcRemove ProcMount RecordMarking.

Definition NFS_VERSION_LOW : Z := 2.
Definition NFS_VERSION_HIGH : Z := 2.
Definition NFS_RPC_PROGRAM_NUMBER : Z := 10003.
Definition MOUNT_RPC_PROGRAM_NUMBER : Z := 10005.

(** * Dispatch *)

Section dispatch.
Context `{Posix OS} `{Codec}.
Implicit Types (credential verifier : Rpc.OpaqueAuth) (parameters : option Rpc.Any).

Definition prog_mismatch : reply :=
  Some (Rpc.create_prog_mismatch_accepted_reply NFS_VERSION_LOW NFS_VERSION_HIGH).

Definition proc_unavail : reply := Rpc.create_default_case_accepted_reply Rpc.PROC_UNAVAIL.

Definition prog_unavail : reply := Rpc.create_default_case_accepted_reply Rpc.PROG_UNAVAIL.

(** Procedures 3 and 7 are obsolete. *)
Definition call_nfs credential verifier (program_version procedure_number : Z) parameters
    : handler OS reply :=
  if program_version !=? 2 then mret prog_mismatch else
  match procedure_number with
  | 0 => serve_nfs_procedure_0_do_nothing credential verifier parameters
  | 1 => serve_nfs_procedure_1_get_file_attributes credential verifier parameters
  | 2 => serve_nfs_procedure_2_set_file_attributes credential verifier parameters
  | 4 => serve_nfs_procedure_4_look_up_file_name credential verifier parameters
  | 5 => serve_nfs_procedure_5_read_from_symbolic_link credential verifier parameters
  | 6 => serve_nfs_procedure_6_read_from_file credential verifier parameters
  | 8 => serve_nfs_procedure_8_write_to_file credential verifier parameters
  | 9 => serve_nfs_procedure_9_create_file credential verifier parameters
  | 10 => serve_nfs_procedure_10_remove_file credential verifier parameters
  | 11 => serve_nfs_procedure_11_rename_file credential verifier parameters
  | 12 => serve_nfs_procedure_12_create_link_to_file credential verifier parameters
  | 13 => serve_nfs_procedure_13_create_symbolic_link credential verifier parameters
  | 14 => serve_nfs_procedure_14_create_directory credential verifier parameters
  | 15 => serve_nfs_procedure_15_remove_directory credential verifier parameters
  | 16 => serve_nfs_procedure_16_read_from_directory credential verifier parameters
  | 17 => serve_nfs_procedure_17_get_filesystem_attributes credential verifier parameters
  | _ => mret proc_unavail
  end.

Definition call_mount credential verifier (program_version procedure_number : Z) parameters
    : handler OS reply :=
  if program_version !=? 2 then mret prog_mismatch else
  match procedure_number with
  | 0 => serve_mnt_procedure_0_do_nothing credential verifier parameters
  | 1 => serve_mnt_procedure_1_add_mount_entry credential verifier parameters
  | _ => mret proc_unavail
  end.

Definition forward_rpc_call_to_program credential verifier
    (program_number program_version procedure_number : Z) parameters : handler OS reply :=
  if program_number =? MOUNT_RPC_PROGRAM_NUMBER then
    call_mount credential verifier program_version procedure_number parameters
  else if program_number =? NFS_RPC_PROGRAM_NUMBER then
    call_nfs credential verifier program_version procedure_number parameters
  else mret prog_unavail.
End dispatch.

(** * Credentials *)

(** The checks of a credential: the AuthStat of the rejection, or nothing. *)
Definition check_credential (credential : option Rpc.OpaqueAuth) : option Rpc.AuthStat :=
  match credential with
  | None => Some Rpc.AUTH_BADCRED
  | Some c =>
      match Rpc.flavor c with
      | Rpc.AUTH_NONE =>
          match Rpc.body c with
          | Rpc.AUTH_BODY_EMPTY (Some _) => None
          | _ => Some Rpc.AUTH_BADCRED
          end
      | Rpc.AUTH_SYS =>
          match Rpc.body c with
          | Rpc.AUTH_BODY_AUTH_SYS None => Some Rpc.AUTH_BADCRED
          | Rpc.AUTH_BODY_AUTH_SYS (Some authsysparams) =>
              if Validation.is_null (Rpc.machinename authsysparams) then Some Rpc.AUTH_BADCRED
              else if Validation.is_null (Rpc.gids authsysparams) then Some Rpc.AUTH_BADCRED
              else None
          | _ => Some Rpc.AUTH_BADCRED
          end
      | _ => Some Rpc.AUTH_BADCRED
      end
  end.

(** The checks of a verifier, which must be AUTH_NONE. *)
Definition check_verifier (verifier : option Rpc.OpaqueAuth) : option Rpc.AuthStat :=
  match verifier with
  | None => Some Rpc.AUTH_BADVERF
  | Some v =>
      match Rpc.flavor v with
      | Rpc.AUTH_NONE =>
          match Rpc.body v with
          | Rpc.AUTH_BODY_EMPTY (Some _) => None
          | _ => Some Rpc.AUTH_BADVERF
          end
      | _ => Some Rpc.AUTH_BADVERF
      end
  end.

(** * Processing a call

    The server over TCP and the server over QUIC have the same functions on
    top of one that sends a reply body; they differ in that function. *)

(** The server, its sockets and the counter of [generate_rpc_xid]. *)
Record world (OS W : Type) := mkWorld { srv : server_state OS; net : W; next_xid : Z }.

Arguments mkWorld {OS W} srv net next_xid.
Arguments srv {OS W} w.
Arguments net {OS W} w.
Arguments next_xid {OS W} w.

Section rpc_server.
Context `{Posix OS} `{Codec} {W : Type}.

(** A part of a function of [tcp_rpc_server.c] or [quic_rpc_server.c] that
    returns an [int]. *)
Definition rpc (A : Type) : Type := prog (world OS W) Z A.

(** A handler of the server, run on its state. *)
Definition serve (h : handler OS reply) : rpc reply :=
  λ w, match run h (srv w) with
       | Some (r, s) => Val r (mkWorld s (net w) (next_xid w))
       | None => Fault
       end.

(** An operation on the network; one that does not end, or runs into undefined
    behaviour, is a fault. *)
Definition on_net {A} (f : W → option (A * W)) : rpc A :=
  λ w, match f (net w) with
       | Some (a, n) => Val a (mkWorld (srv w) n (next_xid w))
       | None => Fault
       end.

Definition generate_rpc_xid : rpc Z :=
  λ w, Val (wrap32 (next_xid w)) (mkWorld (srv w) (net w) (next_xid w + 1)).

(** Sending a reply body: the reply carries a fresh xid, not the one of the
    call. [send_record] sends a record. *)
Definition send_rpc_reply_body (send_record : list byte → W → option (Z * W)) (reply_body : Rpc.ReplyBody)
    : rpc Z :=
  xid ← generate_rpc_xid;
  let rpc_msg := Rpc.mkRpcMsg xid Rpc.REPLY (Rpc.BODY_RBODY (Some reply_body)) in
  error_code ← on_net (send_record (pack_RpcMsg rpc_msg));
  mret (if error_code >? 0 then 1 else 0).

(** The message of a call: codes 2 to 4, or the call body. *)
Definition decode_call (rpc_msg_buffer : list byte) : rpc Rpc.CallBody :=
  rpc_call ← orelse (unpack_RpcMsg rpc_msg_buffer) 2;
  match Rpc.mtype rpc_call, Rpc.msg_body rpc_call with
  | Rpc.CALL, Rpc.BODY_CBODY call_body => orelse call_body 4
  | _, _ => return_ 3
  end.

Section replies.
Context (send_body : Rpc.ReplyBody → rpc Z).

Definition send_rpc_accepted_reply_message (accepted_reply : reply) : rpc Z :=
  send_body (Rpc.mkReplyBody Rpc.MSG_ACCEPTED (Rpc.REPLY_AREPLY accepted_reply)).

Definition send_rpc_rejected_reply_message (rejected_reply : Rpc.RejectedReply) : rpc Z :=
  send_body (Rpc.mkReplyBody Rpc.MSG_DENIED (Rpc.REPLY_RREPLY (Some rejected_reply))).

Definition send_auth_error_rejected_reply (auth_stat : Rpc.AuthStat) : rpc Z :=
  error_code ← send_rpc_rejected_reply_message (Rpc.create_auth_error_rejected_reply auth_stat);
  mret (if error_code >? 0 then 1 else 0).

(** The first failed check is answered. *)
Definition validate_credential_and_verifier (credential verifier : option Rpc.OpaqueAuth) : rpc Z :=
  match (match check_credential credential with Some e => Some e | None => check_verifier verifier end) with
  | Some auth_stat =>
      error_code ← send_auth_error_rejected_reply auth_stat;
      mret (if error_code >? 0 then -1 else 1)
  | None => mret 0
  end.

(** A decoded call: version, credentials, dispatch and reply. *)
Definition process_call (call_body : Rpc.CallBody) : rpc Z :=
  (if Rpc.rpcvers call_body !=? 2 then
     error_code ← send_rpc_rejected_reply_message (Rpc.create_rpc_mismatch_rejected_reply 2 2);
     return_ (if error_code >? 0 then 5 else 0)
   else mret tt);;
  error_code ← validate_credential_and_verifier (Rpc.credential call_body) (Rpc.verifier call_body);
  return_if (error_code !=? 0) 6;;
  credential ← deref (Rpc.credential call_body);
  verifier ← deref (Rpc.verifier call_body);
  if bool_decide (Rpc.flavor credential = Rpc.AUTH_NONE) && (Rpc.proc call_body !=? 0) then
    send_auth_error_rejected_reply Rpc.AUTH_TOOWEAK
  else
    accepted_reply ← serve (forward_rpc_call_to_program credential verifier (Rpc.prog_ call_body)
                              (Rpc.vers call_body) (Rpc.proc call_body) (Rpc.params call_body));
    error_code ← send_rpc_accepted_reply_message accepted_reply;
    mret (if error_code >? 0 then 7 else 0).
End replies.
End rpc_server.

(** * One RPC over TCP *)

Section tcp_rpc_server.
Context `{Posix OS} `{Codec} `{Socket W} `{Memory}.

Definition send_rpc_reply_body_tcp (fd : Z) : Rpc.ReplyBody → rpc (OS:=OS) (W:=W) Z :=
  send_rpc_reply_body (send_rm_record_tcp fd).

Definition send_rpc_accepted_reply_message_tcp (fd : Z) : reply → rpc (OS:=OS) (W:=W) Z :=
  send_rpc_accepted_reply_message (send_rpc_reply_body_tcp fd).

Definition send_rpc_rejected_reply_message_tcp (fd : Z) : Rpc.RejectedReply → rpc (OS:=OS) (W:=W) Z :=
  send_rpc_rejected_reply_message (send_rpc_reply_body_tcp fd).

Definition send_auth_error_rejected_reply_tcp (fd : Z) : Rpc.AuthStat → rpc (OS:=OS) (W:=W) Z :=
  send_auth_error_rejected_reply (send_rpc_reply_body_tcp fd).

Definition validate_credential_and_verifier_tcp (fd : Z)
    : option Rpc.OpaqueAuth → option Rpc.OpaqueAuth → rpc (OS:=OS) (W:=W) Z :=
  validate_credential_and_verifier (send_rpc_reply_body_tcp fd).

(** The call message of a record: codes 1 to 4, or the call body. *)
Definition receive_call_tcp (fuel : nat) (fd : Z) : rpc (OS:=OS) (W:=W) Rpc.CallBody :=
  record ← on_net (λ n, '(b, size, n) ← receive_rm_record_tcp fuel fd n; Some (b, n));
  rpc_msg_buffer ← orelse record 1;
  decode_call rpc_msg_buffer.

Definition process_single_rpc_tcp (fuel : nat) (fd : Z) : rpc (OS:=OS) (W:=W) Z :=
  call_body ← receive_call_tcp fuel fd;
  process_call (send_rpc_reply_body_tcp fd) call_body.
End tcp_rpc_server.

(** * Safety of the dispatcher *)

(** The procedures of version 2 of the two programs. *)
Definition nfs_procedures : list Z := [0; 1; 2; 4; 5; 6; 8; 9; 10; 11; 12; 13; 14; 15; 16; 17].
Definition mount_procedures : list Z := [0; 1].

(** The procedures that look at their parameters: all but NULL. *)
Definition takes_parameters (program version procedure : Z) : bool :=
  (version =? 2) && negb (procedure =? 0) &&
  ((program =? NFS_RPC_PROGRAM_NUMBER) && bool_decide (procedure ∈ nfs_procedures) ||
   (program =? MOUNT_RPC_PROGRAM_NUMBER) && bool_decide (procedure ∈ mount_procedures)).

(** The call leaves out the parameters of its procedure. *)
Definition lacks_parameters (cb : Rpc.CallBody) : bool :=
  Validation.is_null (Rpc.params cb) && takes_parameters (Rpc.prog_ cb) (Rpc.vers cb) (Rpc.proc cb).

(** * What the dispatcher does not implement *)

Section unsupported.
Context `{Posix OS} `{Codec}.
Implicit Types (s : server_state OS).

Lemma call_nfs_unavail credential verifier proc params s :
  proc ∉ nfs_procedures → run (call_nfs credential verifier 2 proc params) s = Some (proc_unavail, s).
Proof.
  intros Hproc. rw /call_nfs /=.
  do 18 (try match goal with |- run (match ?p with _ => _ end) _ = _ => destruct p end); try done;
    exfalso; apply Hproc; by repeat constructor.
Qed.

Lemma call_mount_unavail credential verifier proc params s :
  proc ∉ mount_procedures → run (call_mount credential verifier 2 proc params) s = Some (proc_unavail, s).
Proof.
  intros Hproc. rw /call_mount /=. destruct proc as [|[p|p|]|p]; try done;
    exfalso; apply Hproc; by repeat constructor.
Qed.

(** What the server does not implement it says so, and nothing happens: an
    unknown program gets PROG_UNAVAIL, a known program in a version other than
    2 gets PROG_MISMATCH with the supported range 2 to 2, and an unknown
    procedure of NFS or Mount (the obsolete 3 and 7 included) gets PROC_UNAVAIL;
    in every case the state is unchanged and the parameters are not looked at. *)
Theorem unsupported_calls_change_nothing credential verifier program version procedure params s :
  let outcome := run (forward_rpc_call_to_program credential verifier program version procedure params) s in
  (program ∉ [NFS_RPC_PROGRAM_NUMBER; MOUNT_RPC_PROGRAM_NUMBER] → outcome = Some (prog_unavail, s)) ∧
  (program ∈ [NFS_RPC_PROGRAM_NUMBER; MOUNT_RPC_PROGRAM_NUMBER] → version ≠ 2 →
   outcome = Some (prog_mismatch, s)) ∧
  (program = NFS_RPC_PROGRAM_NUMBER → version = 2 → procedure ∉ nfs_procedures →
   outcome = Some (proc_unavail, s)) ∧
  (program = MOUNT_RPC_PROGRAM_NUMBER → version = 2 → procedure ∉ mount_procedures →
   outcome = Some (proc_unavail, s)).
Proof.
  cbv zeta. rw /forward_rpc_call_to_program. split_and!.
  - rw !not_elem_of_cons. intros (Hn & Hm & _). by rw (proj2 (Z.eqb_neq _ _) Hn) (proj2 (Z.eqb_neq _ _) Hm).
  - rw !elem_of_cons. intros Hp Hv. rw /call_mount /call_nfs (proj2 (Z.eqb_neq version 2) Hv) /=.
    destruct Hp as [->|[->|Hp]]; [done|done|by apply elem_of_nil in Hp].
  - intros -> -> Hproc. by apply call_nfs_unavail.
  - intros -> -> Hproc. by apply call_mount_unavail.
Qed.

End unsupported.

(** Nothing between the decoding of a call and the procedure's test of the
    type of its parameters looks at the pointer to them. *)
Lemma forward_faults `{Posix OS} `{Codec} credential verifier program version procedure (s : server_state OS) :
  takes_parameters program version procedure = true →
  run (forward_rpc_call_to_program credential verifier program version procedure None) s = None.
Proof.
  rw /takes_parameters !andb_true_iff orb_true_iff !andb_true_iff !bool_decide_eq_true !Z.eqb_eq negb_true_iff Z.eqb_neq.
  intros [[-> Hne] [[-> Hproc]|[-> Hproc]]].
  - rw /nfs_procedures !elem_of_cons elem_of_nil in Hproc. by destruct_or! Hproc; subst.
  - rw /mount_procedures !elem_of_cons elem_of_nil in Hproc. by destruct_or! Hproc; subst.
Qed.

(** A credential that passes the checks and is not AUTH_NONE. *)
Definition authenticated (credential : Rpc.OpaqueAuth) (a : Rpc.AuthSysParams) : Prop :=
  auth_sys_cred credential a ∧ is_Some (Rpc.machinename a).

Section safety.
Context `{Posix OS} `{PackedSizeBounds, !CountRange}.
Implicit Types (s : server_state OS).

Lemma wp_static_reply r s :
  reply_ok r → sessions_inv (readdir_sessions_list s) → wp (mret r) safe_post safe_post s.
Proof. by split. Qed.

Lemma reply_ok_unavail st : st = Rpc.PROC_UNAVAIL ∨ st = Rpc.PROG_UNAVAIL →
  reply_ok (Rpc.create_default_case_accepted_reply st).
Proof. intros [-> | ->]; (split; [done|by intros a p [= <-]]). Qed.

Lemma reply_ok_prog_mismatch : reply_ok prog_mismatch.
Proof. split; [done|]. by intros a p [= <-]. Qed.

Lemma forward_some_safe credential verifier a prog_ vers proc params s :
  authenticated credential a →
  safe (forward_rpc_call_to_program credential verifier prog_ vers proc (Some params)) s.
Proof.
  intros [Ha [n Hn]] Hs. rw /forward_rpc_call_to_program.
  destruct (prog_ =? MOUNT_RPC_PROGRAM_NUMBER); [rw /call_mount|
    destruct (prog_ =? NFS_RPC_PROGRAM_NUMBER); [rw /call_nfs|by apply wp_static_reply; [apply reply_ok_unavail; right|]]].
  all: destruct (vers !=? 2); [apply wp_static_reply; [apply reply_ok_prog_mismatch|done]|].
  all: repeat case_match; try (by apply wp_static_reply; [apply reply_ok_unavail; left|]).
  all: revert Hs; match goal with |- _ → wp ?h _ _ _ => change (safe h s) end.
  all: eauto using null_safe, mnt_null_safe, getattr_safe, setattr_safe, lookup_safe,
    readlink_safe, read_safe, write_safe, create_safe, remove_safe, rename_safe, link_safe,
    symlink_safe, mkdir_safe, rmdir_safe, readdir_safe, statfs_safe, mnt_safe.
Qed.

(** The NULL procedure needs neither a credential nor parameters. *)
Lemma forward_null_safe credential verifier prog_ vers params s :
  safe (forward_rpc_call_to_program credential verifier prog_ vers 0 params) s.
Proof.
  intros Hs. rw /forward_rpc_call_to_program.
  destruct (prog_ =? MOUNT_RPC_PROGRAM_NUMBER); [rw /call_mount|
    destruct (prog_ =? NFS_RPC_PROGRAM_NUMBER); [rw /call_nfs|by apply wp_static_reply; [apply reply_ok_unavail; right|]]].
  all: destruct (vers !=? 2); [apply wp_static_reply; [apply reply_ok_prog_mismatch|done]|].
  - exact (mnt_null_safe credential verifier params s Hs).
  - exact (null_safe credential verifier params s Hs).
Qed.

(** Nor do the calls that reach no procedure. *)
Lemma forward_unavail_safe credential verifier prog_ vers proc params s :
  takes_parameters prog_ vers proc = false → proc ≠ 0 →
  safe (forward_rpc_call_to_program credential verifier prog_ vers proc params) s.
Proof.
  rw /takes_parameters. intros Htakes Hproc%Z.eqb_neq Hs. rw Hproc andb_true_r in Htakes.
  assert (∀ (h : handler OS reply) r, reply_ok r → run h s = Some (r, s) → wp h safe_post safe_post s) as Hsafe.
  { rw /run /wp. intros h r Hr Hrun. destruct (h s); by simplify_eq. }
  destruct (unsupported_calls_change_nothing credential verifier prog_ vers proc params s) as (Hp & Hv & Hn & Hm).
  destruct (decide (prog_ ∈ [NFS_RPC_PROGRAM_NUMBER; MOUNT_RPC_PROGRAM_NUMBER])) as [Hin|Hout];
    [|by apply (Hsafe _ prog_unavail); [apply reply_ok_unavail; right|apply Hp]].
  destruct (Z.eqb_spec vers 2) as [->|Hne]; [|by apply (Hsafe _ prog_mismatch); [apply reply_ok_prog_mismatch|apply Hv]].
  apply (Hsafe _ proc_unavail); [by apply reply_ok_unavail; left|].
  apply orb_false_iff in Htakes as [Hnfs Hmnt]. rw !elem_of_cons elem_of_nil in Hin.
  destruct Hin as [->|[->|[]]]; [apply Hn|apply Hm]; try done; rw /= ?andb_true_l in Hnfs Hmnt;
    [exact (bool_decide_eq_false_1 _ Hnfs)|exact (bool_decide_eq_false_1 _ Hmnt)].
Qed.

Lemma forward_safe credential verifier a prog_ vers proc params s :
  authenticated credential a → Validation.is_null params && takes_parameters prog_ vers proc = false →
  safe (forward_rpc_call_to_program credential verifier prog_ vers proc params) s.
Proof.
  intros Ha Hp. destruct params as [p|]; [by apply (forward_some_safe credential verifier a)|].
  destruct (decide (proc = 0)) as [->|Hne]; [apply forward_null_safe|by apply forward_unavail_safe].
Qed.
End safety.

(** * Specification of a call *)

(** The two credentials a call may carry: AUTH_NONE, and AUTH_SYS with all
    its parameters. *)
Definition valid_credential (credential : option Rpc.OpaqueAuth) : bool :=
  match credential with
  | Some (Rpc.mkOpaqueAuth Rpc.AUTH_NONE (Rpc.AUTH_BODY_EMPTY (Some _))) => true
  | Some (Rpc.mkOpaqueAuth Rpc.AUTH_SYS
      (Rpc.AUTH_BODY_AUTH_SYS (Some (Rpc.mkAuthSysParams _ (Some _) _ _ (Some _))))) => true
  | _ => false
  end.

Definition valid_verifier (verifier : option Rpc.OpaqueAuth) : bool :=
  match verifier with
  | Some (Rpc.mkOpaqueAuth Rpc.AUTH_NONE (Rpc.AUTH_BODY_EMPTY (Some _))) => true
  | _ => false
  end.

#[global] Arguments valid_credential : simpl never.
#[global] Arguments valid_verifier : simpl never.

(** The call says AUTH_NONE. *)
Definition anonymous (cb : Rpc.CallBody) : bool :=
  bool_decide (Rpc.flavor <$> Rpc.credential cb = Some Rpc.AUTH_NONE).

(** The rejection a call gets before any procedure is looked at, and the code
    with which the processing of the call ends. *)
Definition rejection (cb : Rpc.CallBody) : option (Rpc.RejectedReply * Z) :=
  if negb (Rpc.rpcvers cb =? 2) then Some (Rpc.create_rpc_mismatch_rejected_reply 2 2, 0)
  else if negb (valid_credential (Rpc.credential cb)) then
    Some (Rpc.create_auth_error_rejected_reply Rpc.AUTH_BADCRED, 6)
  else if negb (valid_verifier (Rpc.verifier cb)) then
    Some (Rpc.create_auth_error_rejected_reply Rpc.AUTH_BADVERF, 6)
  else if anonymous cb && negb (Rpc.proc cb =? 0) then
    Some (Rpc.create_auth_error_rejected_reply Rpc.AUTH_TOOWEAK, 0)
  else None.

Lemma anonymous_flavor c :
  bool_decide (Rpc.flavor c = Rpc.AUTH_NONE) = bool_decide (Some (Rpc.flavor c) = Some Rpc.AUTH_NONE).
Proof. apply bool_decide_ext. split; [by intros ->|by intros [= ->]]. Qed.

Lemma check_credential_valid c :
  check_credential c = if valid_credential c then None else Some Rpc.AUTH_BADCRED.
Proof. by destruct c as [[[] [|[]|[[? [] ? ? []]|]]]|]. Qed.

Lemma check_verifier_valid v :
  check_verifier v = if valid_verifier v then None else Some Rpc.AUTH_BADVERF.
Proof. by destruct v as [[[] [|[]|[]]]|]. Qed.

(** The message that carries a reply. *)
Definition reply_msg (xid : Z) (b : Rpc.ReplyBody) : Rpc.RpcMsg :=
  Rpc.mkRpcMsg (wrap32 xid) Rpc.REPLY (Rpc.BODY_RBODY (Some b)).

Definition denied (r : Rpc.RejectedReply) : Rpc.ReplyBody :=
  Rpc.mkReplyBody Rpc.MSG_DENIED (Rpc.REPLY_RREPLY (Some r)).

Definition accepted (r : reply) : Rpc.ReplyBody :=
  Rpc.mkReplyBody Rpc.MSG_ACCEPTED (Rpc.REPLY_AREPLY r).

(** Encoded messages are smaller than the address space. *)
Class PackSmall `{Codec} := pack_small m : small (pack_RpcMsg m).

Lemma check_credential_some o : check_credential o = None → is_Some o.
Proof. destruct o; [eauto|done]. Qed.

Lemma check_verifier_some o : check_verifier o = None → is_Some o.
Proof. destruct o; [eauto|done]. Qed.

(** The credentials that are let through. *)
Lemma check_credential_ok c :
  check_credential (Some c) = None →
  Rpc.flavor c = Rpc.AUTH_NONE ∨ ∃ a, authenticated c a.
Proof.
  rw /check_credential. destruct (Rpc.flavor c) eqn:Hf; [by left| |done..].
  destruct (Rpc.body c) as [| |[a|]] eqn:Hb; [done..| |done].
  destruct (Rpc.machinename a) as [n|] eqn:Hn; [|done]. intros _. right. exists a.
  split; [split; [done|by rw /auth_sys Hb]|by rw Hn].
Qed.

(** What is known of a call that is not rejected. *)
Lemma not_rejected cb c v :
  rejection cb = None → Rpc.credential cb = Some c → Rpc.verifier cb = Some v →
  Rpc.rpcvers cb = 2 ∧ (Rpc.proc cb = 0 ∨ ∃ a, authenticated c a).
Proof.
  rw /rejection /anonymous. intros Hrej Hc Hv. rw Hc Hv in Hrej.
  destruct (Z.eqb_spec (Rpc.rpcvers cb) 2) as [Hvers|]; [|done]. split; [done|]. simpl in Hrej.
  pose proof (check_credential_valid (Some c)) as Hcc.
  destruct (valid_credential (Some c)); [|done]. destruct (valid_verifier (Some v)); [|done]. simpl in Hrej.
  apply check_credential_ok in Hcc as [Hf|Ha]; [left|by right].
  rw Hf bool_decide_true // andb_true_l in Hrej. by destruct (Z.eqb_spec (Rpc.proc cb) 0).
Qed.

Lemma not_rejected_some cb :
  rejection cb = None → ∃ c v, Rpc.credential cb = Some c ∧ Rpc.verifier cb = Some v.
Proof.
  rw /rejection. destruct (negb _); [done|].
  destruct (Rpc.credential cb) as [c|]; [|done]. destruct (negb _); [done|].
  destruct (Rpc.verifier cb) as [v|]; [|done]. by exists c, v.
Qed.

(** The answer to a call: the reply, the code with which its processing ends
    and the new state. *)
Definition answer `{Posix OS} `{Codec} (cb : Rpc.CallBody) (s : server_state OS)
    : option (Rpc.ReplyBody * Z * server_state OS) :=
  match rejection cb with
  | Some (rr, code) => Some (denied rr, code, s)
  | None =>
      c ← Rpc.credential cb;
      v ← Rpc.verifier cb;
      '(r, s') ← run (forward_rpc_call_to_program c v (Rpc.prog_ cb) (Rpc.vers cb) (Rpc.proc cb)
                        (Rpc.params cb)) s;
      Some (accepted r, 0, s')
  end.

(** ** Over any transport *)

Section rpc_lemmas.
Context `{Posix OS} `{PackedSizeBounds, !CountRange} {W : Type}.
Implicit Types (w : world OS W).

(** The procedure of a call that is not rejected returns. *)
Lemma forward_total cb c v (s : server_state OS) :
  rejection cb = None → Rpc.credential cb = Some c → Rpc.verifier cb = Some v →
  lacks_parameters cb = false → sessions_inv (readdir_sessions_list s) →
  ∃ r s', run (forward_rpc_call_to_program c v (Rpc.prog_ cb) (Rpc.vers cb) (Rpc.proc cb) (Rpc.params cb)) s
            = Some (r, s') ∧ reply_ok r ∧ sessions_inv (readdir_sessions_list s').
Proof.
  intros Hrej Hc Hv Hp Hs. destruct (not_rejected cb c v Hrej Hc Hv) as (_ & Hcred). apply wp_run.
  destruct Hcred as [->|[a Ha]]; [by apply forward_null_safe|by apply (forward_safe c v a)].
Qed.

Lemma forward_lacking cb c v (s : server_state OS) :
  lacks_parameters cb = true →
  run (forward_rpc_call_to_program c v (Rpc.prog_ cb) (Rpc.vers cb) (Rpc.proc cb) (Rpc.params cb)) s = None.
Proof.
  rw /lacks_parameters andb_true_iff. destruct (Rpc.params cb); [by intros []|]. intros [_ Ht]. by apply forward_faults.
Qed.

(** A call has no answer exactly when it is let through without its parameters. *)
Lemma answer_lacking cb (s : server_state OS) :
  rejection cb = None → lacks_parameters cb = true → answer cb s = None.
Proof.
  intros Hrej Hp. rw /answer Hrej. destruct (not_rejected_some cb Hrej) as (c & v & Hc & Hv).
  by rw Hc Hv /= forward_lacking.
Qed.

Lemma answer_total cb (s : server_state OS) :
  sessions_inv (readdir_sessions_list s) →
  match answer cb s with
  | Some (_, _, s') => sessions_inv (readdir_sessions_list s')
  | None => rejection cb = None ∧ lacks_parameters cb = true
  end.
Proof.
  intros Hs. rw /answer. destruct (rejection cb) as [[rr code]|] eqn:Hrej; [done|].
  destruct (not_rejected_some cb Hrej) as (c & v & Hc & Hv). rw Hc Hv /=.
  destruct (lacks_parameters cb) eqn:Hp; [by rw forward_lacking|].
  destruct (forward_total cb c v s Hrej Hc Hv Hp Hs) as (r & s' & -> & _ & Hs'). done.
Qed.

Lemma wp_serve h r s' (Q : reply → world OS W → Prop) E w :
  run h (srv w) = Some (r, s') → Q r (mkWorld s' (net w) (next_xid w)) → wp (serve h) Q E w.
Proof. intros Hr HQ. by rw /wp /serve Hr. Qed.

(** [sends send_body sent]: sending a reply body always succeeds, does not
    touch the server, and [sent] says what it does to the network and the
    counter of transactions. *)
Definition sends (send_body : Rpc.ReplyBody → rpc (OS:=OS) (W:=W) Z)
    (sent : Rpc.ReplyBody → W → Z → world OS W → Prop) : Prop :=
  ∀ b (Q : Z → world OS W → Prop) E w,
    (∀ w', sent b (net w) (next_xid w) w' → srv w' = srv w → Q 0 w') → wp (send_body b) Q E w.

Context (send_body : Rpc.ReplyBody → rpc (OS:=OS) (W:=W) Z) (sent : Rpc.ReplyBody → W → Z → world OS W → Prop).
Context (Hsend : sends send_body sent).

(** Sending a rejection of the credentials. *)
Lemma wp_send_auth_error e (Q : Z → world OS W → Prop) E w :
  (∀ w', sent (denied (Rpc.create_auth_error_rejected_reply e)) (net w) (next_xid w) w' → srv w' = srv w → Q 0 w') →
  wp (send_auth_error_rejected_reply send_body e) Q E w.
Proof.
  intros HQ. rw /send_auth_error_rejected_reply. wp_step. apply Hsend. intros w' Hs Hsrv.
  wp_step. by apply HQ.
Qed.

(** A rejected call is answered and nothing else happens. *)
Lemma wp_process_call_rejected cb rr code (Q : Z → world OS W → Prop) w :
  rejection cb = Some (rr, code) →
  (∀ w', sent (denied rr) (net w) (next_xid w) w' → srv w' = srv w → Q code w') →
  wp (process_call send_body cb) Q Q w.
Proof.
  rw /rejection /anonymous /process_call. intros Hrej HQ. wp_step.
  destruct (Rpc.rpcvers cb =? 2); simpl in Hrej |- *; last first.
  { injection Hrej as <- <-. wp_step. apply Hsend. intros w' Hs Hsrv. wp_step. by apply HQ. }
  wp_step. wp_step. rw /validate_credential_and_verifier check_credential_valid check_verifier_valid.
  destruct (Rpc.credential cb) as [c|] eqn:Hc, (Rpc.verifier cb) as [v|] eqn:Hv;
    destruct (valid_credential _) eqn:Hvc; try done; destruct (valid_verifier _) eqn:Hvv; try done;
    simpl in Hrej.
  all: try (injection Hrej as <- <-; wp_step; apply wp_send_auth_error; intros w' Hs Hsrv;
            wp_step; wp_step; wp_step; [|done]; by apply HQ).
  wp_step. wp_step. wp_step; [done|]. wp_step. apply wp_deref; [done|]. intros ? [= <-].
  wp_step. apply wp_deref; [done|]. intros ? [= <-].
  rw (anonymous_flavor c).
  destruct (bool_decide _ && _); [|done]. injection Hrej as <- <-. by apply wp_send_auth_error.
Qed.

(** A call that is let through runs the procedure and is answered. *)
Lemma wp_process_call_served cb c v r s' (Q : Z → world OS W → Prop) w :
  Rpc.rpcvers cb = 2 → rejection cb = None → Rpc.credential cb = Some c → Rpc.verifier cb = Some v →
  run (forward_rpc_call_to_program c v (Rpc.prog_ cb) (Rpc.vers cb) (Rpc.proc cb) (Rpc.params cb)) (srv w)
    = Some (r, s') →
  (∀ w', sent (accepted r) (net w) (next_xid w) w' → srv w' = s' → Q 0 w') →
  wp (process_call send_body cb) Q Q w.
Proof.
  rw /rejection /anonymous /process_call. intros -> Hrej Hcc Hvv Hrun HQ. simpl in Hrej |- *.
  wp_step. wp_step. wp_step. rw /validate_credential_and_verifier check_credential_valid check_verifier_valid.
  rw Hcc Hvv. rw Hcc Hvv in Hrej.
  destruct (valid_credential (Some c)); [|done]. destruct (valid_verifier (Some v)); [|done]. simpl in Hrej.
  wp_step. wp_step. wp_step; [done|]. wp_step. apply wp_deref; [done|]. intros ? [= <-].
  wp_step. apply wp_deref; [done|]. intros ? [= <-].
  rw (anonymous_flavor c).
  destruct (bool_decide _ && _); [done|]. wp_step. apply wp_serve with r s'; [done|].
  wp_step. apply Hsend. intros w' Hs Hsrv. wp_step. by apply HQ.
Qed.

(** A call without an answer is undefined behaviour. *)
Lemma process_call_faults cb w :
  answer cb (srv w) = None → process_call send_body cb w = Fault.
Proof.
  rw /answer. destruct (rejection cb) as [[rr code]|] eqn:Hrej; [done|].
  destruct (not_rejected_some cb Hrej) as (c & v & Hc & Hv). rw Hc Hv /=.
  destruct (run _ (srv w)) as [[r s1]|] eqn:Hrun; [done|]. intros _.
  destruct (not_rejected cb c v Hrej Hc Hv) as [Hvers _].
  rw /rejection /anonymous Hvers Hc Hv /= in Hrej.
  rw /process_call /validate_credential_and_verifier check_credential_valid check_verifier_valid Hvers Hc Hv.
  destruct (valid_credential (Some c)); [|done]. destruct (valid_verifier (Some v)); [|done]. simpl in Hrej.
  rw /mbind /prog_bind /=. rw (anonymous_flavor c).
  destruct (bool_decide _ && _); [done|]. by rw /prog_bind /serve Hrun.
Qed.

(** In the other cases the processing implements the specification. *)
Lemma wp_process_call_answer cb b code s' (Q : Z → world OS W → Prop) w :
  answer cb (srv w) = Some (b, code, s') →
  (∀ w', sent b (net w) (next_xid w) w' → srv w' = s' → Q code w') →
  wp (process_call send_body cb) Q Q w.
Proof.
  rw /answer. destruct (rejection cb) as [[rr code']|] eqn:Hrej.
  { intros [= <- <- <-] HQ. by apply (wp_process_call_rejected cb rr code'). }
  destruct (not_rejected_some cb Hrej) as (c & v & Hc & Hv). rw Hc Hv /=.
  destruct (run _ (srv w)) as [[r s1]|] eqn:Hrun; [|done]. intros [= <- <- <-].
  destruct (not_rejected _ _ _ Hrej Hc Hv) as [Hvers _]. by apply (wp_process_call_served cb c v).
Qed.
End rpc_lemmas.

(** ** Over TCP *)

Section tcp_lemmas.
Context `{Posix OS} `{PackedSizeBounds, !CountRange, !PackSmall} `{LiveSocket W} `{Memory}.
Implicit Types (w : world OS W).

(** Exactly the bytes of one record carrying [b] were sent, nothing was read. *)
Definition sent (fd : Z) (b : Rpc.ReplyBody) (n : W) (xid : Z) w' : Prop :=
  next_xid w' = xid + 1 ∧ incoming fd (net w') = incoming fd n ∧
  ∃ fs, concat fs = pack_RpcMsg (reply_msg xid b) ∧ sendable_fragments fs ∧
        outgoing fd (net w') = outgoing fd n ++ encode_fragments fs.

Lemma tcp_sends fd : sends (send_rpc_reply_body_tcp fd) (sent fd).
Proof.
  intros b Q E w HQ.
  rw /send_rpc_reply_body_tcp /send_rpc_reply_body /wp /mbind /prog_bind /generate_rpc_xid /on_net /=.
  destruct (send_rm_record_loop_live (length (pack_RpcMsg (reply_msg (next_xid w) b))) fd
    (pack_RpcMsg (reply_msg (next_xid w) b)) (net w))
    as (n & fs & Hs & Hcat & Hok & Hnn & Hout & Hin); [apply pack_small|done|].
  rw /send_rm_record_tcp -/(reply_msg (next_xid w) b) Hs /=. apply HQ; [|done].
  split_and!; [done|done|]. exists fs. by split_and!.
Qed.

(** Decoding of the next record on the connection. *)
Lemma wp_receive_call fuel fd fs rest xid cb (Q : Rpc.CallBody → world OS W → Prop) E w :
  memory_available → concat fs ≠ [] → sendable_fragments fs → (length fs ≤ fuel)%nat →
  incoming fd (net w) = encode_fragments fs ++ rest →
  unpack_RpcMsg (concat fs) = Some (Rpc.mkRpcMsg xid Rpc.CALL (Rpc.BODY_CBODY (Some cb))) →
  (∀ w', srv w' = srv w → next_xid w' = next_xid w → incoming fd (net w') = rest →
         outgoing fd (net w') = outgoing fd (net w) → Q cb w') →
  wp (receive_call_tcp fuel fd) Q E w.
Proof.
  intros Hmem Hne [Hok _] Hfuel Hin Hdec HQ. rw /receive_call_tcp /decode_call. wp_step.
  destruct (receive_rm_record_loop_live fuel fd None [] fs rest (net w))
    as (b & n & Hr & [Hb1 Hb2] & Hin' & Hout'); [done|by intros ->|done..|].
  rw /wp /on_net /receive_rm_record_tcp Hr /=.
  destruct (Hb2 Hne) as [b' ->]. simpl in Hb1. subst b'. rw /mbind /prog_bind /= Hdec /=. by apply HQ.
Qed.

(** Receiving a call without an answer. *)
Lemma process_single_faults fuel fd fs rest xid cb w :
  memory_available → concat fs ≠ [] → sendable_fragments fs → (length fs ≤ fuel)%nat →
  incoming fd (net w) = encode_fragments fs ++ rest →
  unpack_RpcMsg (concat fs) = Some (Rpc.mkRpcMsg xid Rpc.CALL (Rpc.BODY_CBODY (Some cb))) →
  answer cb (srv w) = None → run (process_single_rpc_tcp fuel fd) w = None.
Proof.
  intros Hmem Hne Hfs Hfuel Hin Hdec Ha.
  pose proof (wp_receive_call fuel fd fs rest xid cb (λ cb' w', cb' = cb ∧ srv w' = srv w) (λ _ _, False) w
    Hmem Hne Hfs Hfuel Hin Hdec (λ w' Hsrv _ _ _, conj eq_refl Hsrv)) as Hwp.
  rw /process_single_rpc_tcp /run /mbind /prog_bind. rw /wp in Hwp.
  destruct (receive_call_tcp fuel fd w) as [cb' w'|r w'|]; [|done..]. destruct Hwp as [-> Hsrv].
  by rw process_call_faults // Hsrv.
Qed.
End tcp_lemmas.

(** * Theorems *)

Section theorems.
Context `{Posix OS} `{PackedSizeBounds, !CountRange, !PackSmall} `{LiveSocket W} `{Memory}.
Implicit Types (s : server_state OS) (w : world OS W).


(** C4: a call with the wrong RPC version, malformed or unsupported
    credentials or verifier, or AUTH_NONE for a procedure other than NULL, never
    reaches a procedure: the record is consumed, the server's state and file
    system are untouched, exactly one reply record with the rejection is sent,
    and an authentication failure ends the connection with code 6. *)
Theorem rejected_call_runs_nothing fuel fd fs rest xid cb rr code w
    (Hmem : memory_available) (Hne : concat fs ≠ []) (Hfs : sendable_fragments fs)
    (Hfuel : (length fs ≤ fuel)%nat) (Hin : incoming fd (net w) = encode_fragments fs ++ rest)
    (Hdec : unpack_RpcMsg (concat fs) = Some (Rpc.mkRpcMsg xid Rpc.CALL (Rpc.BODY_CBODY (Some cb))))
    (Hrej : rejection cb = Some (rr, code)) :
  ∃ w' fs',
    run (process_single_rpc_tcp fuel fd) w = Some (code, w') ∧ srv w' = srv w ∧
    incoming fd (net w') = rest ∧
    outgoing fd (net w') = outgoing fd (net w) ++ encode_fragments fs' ∧
    concat fs' = pack_RpcMsg (reply_msg (next_xid w) (denied rr)).
Proof.
  set (Q := λ c w', c = code ∧ srv w' = srv w ∧ incoming fd (net w') = rest ∧
    ∃ fs', outgoing fd (net w') = outgoing fd (net w) ++ encode_fragments fs' ∧
           concat fs' = pack_RpcMsg (reply_msg (next_xid w) (denied rr))).
  assert (wp (process_single_rpc_tcp fuel fd) Q Q w) as (c & w' & Hr & -> & ? & ? & fs' & ? & ?)%wp_run;
    [|by exists w', fs'].
  rw /process_single_rpc_tcp. wp_step. apply (wp_receive_call fuel fd fs rest xid cb); [done..|]. intros w1 Hs1 Hx1 Hi1 Ho1.
  apply (wp_process_call_rejected _ _ (tcp_sends fd) cb rr code); [done|].
  intros w' (Hx & Hi & fs' & Hcat & _ & Hout) Hsrv. split_and!; [done|congruence|congruence|].
  exists fs'. by rw Hout Hcat Ho1 Hx1.
Qed.

(** C2: a call that is not rejected and does not leave out the parameters of
    its procedure is carried out exactly once: the record is consumed, the
    procedure runs on the server's state without undefined behaviour, and
    exactly one reply record is sent, carrying the procedure's reply, which is
    well formed. A call that is not rejected and leaves out the parameters of
    its procedure makes the server dereference a null pointer. *)
Theorem call_is_served fuel fd fs rest xid cb c v w
    (Hmem : memory_available) (Hne : concat fs ≠ []) (Hfs : sendable_fragments fs)
    (Hfuel : (length fs ≤ fuel)%nat) (Hin : incoming fd (net w) = encode_fragments fs ++ rest)
    (Hdec : unpack_RpcMsg (concat fs) = Some (Rpc.mkRpcMsg xid Rpc.CALL (Rpc.BODY_CBODY (Some cb))))
    (Hrej : rejection cb = None) (Hc : Rpc.credential cb = Some c) (Hv : Rpc.verifier cb = Some v)
    (Hs : sessions_inv (readdir_sessions_list (srv w))) :
  if lacks_parameters cb then run (process_single_rpc_tcp fuel fd) w = None
  else ∃ r s' w' fs',
    run (forward_rpc_call_to_program c v (Rpc.prog_ cb) (Rpc.vers cb) (Rpc.proc cb) (Rpc.params cb)) (srv w)
      = Some (r, s') ∧ reply_ok r ∧
    run (process_single_rpc_tcp fuel fd) w = Some (0, w') ∧ srv w' = s' ∧
    sessions_inv (readdir_sessions_list s') ∧ incoming fd (net w') = rest ∧
    outgoing fd (net w') = outgoing fd (net w) ++ encode_fragments fs' ∧
    concat fs' = pack_RpcMsg (reply_msg (next_xid w) (accepted r)).
Proof.
  destruct (lacks_parameters cb) eqn:Hp; 
    [by apply (process_single_faults fuel fd fs rest xid cb); try done; apply answer_lacking|].
  destruct (not_rejected cb c v Hrej Hc Hv) as (Hvers & _).
  destruct (forward_total cb c v (srv w) Hrej Hc Hv Hp Hs) as (r & s' & Hrun & Hok & Hinv).
  set (Q := λ code w', code = 0 ∧ srv w' = s' ∧ incoming fd (net w') = rest ∧
    ∃ fs', outgoing fd (net w') = outgoing fd (net w) ++ encode_fragments fs' ∧
           concat fs' = pack_RpcMsg (reply_msg (next_xid w) (accepted r))).
  assert (wp (process_single_rpc_tcp fuel fd) Q Q w) as (code & w' & Hr & -> & ? & ? & fs' & ? & ?)%wp_run;
    [|by exists r, s', w', fs'].
  rw /process_single_rpc_tcp. wp_step. apply (wp_receive_call fuel fd fs rest xid cb); [done..|].
  intros w1 Hs1 Hx1 Hi1 Ho1.
  apply (wp_process_call_served _ _ (tcp_sends fd) cb c v r s'); [done..|by rw Hs1|].
  intros w' (Hx & Hi & fs' & Hcat & _ & Hout) Hsrv. split_and!; [done|done|congruence|].
  exists fs'. by rw Hout Hcat Ho1 Hx1.
Qed.
End theorems.
