(* ===== verification/Authorization.v ===== *)
(** Who may change what: a call that changes the state of the server or the
    file system was made by a caller with the permission the procedure asks
    for, on the directory or file that the handle in the request resolves to. *)
From S2P Require Import Prelude Messages Posix InodeCache Permissions FileManagement ReadDir.
From S2P Require Import ServerState ProcAttr ProcFile ProcCreate ProcRemove ProcMount RecordMarking Server.

(** * The handle a request is about *)

Section targets.
Context `{Codec}.

(** The directory of a DirOpArgs. *)
Definition dir_op_handle (d : option Nfs.DirOpArgs) : option Nfs.NfsFileHandle :=
  d ← d; h ← Nfs.dir d; Nfs.nfs_filehandle h.

(** The directory in which a procedure makes or removes a name. *)
Definition target_directory (proc : Z) (value : list byte) : option Nfs.NfsFileHandle :=
  match proc with
  | 9 | 14 => a ← unpack_CreateArgs value; dir_op_handle (Nfs.where_ a)
  | 10 | 15 => dir_op_handle (unpack_DirOpArgs value)
  | 12 => a ← unpack_LinkArgs value; dir_op_handle (Nfs.link_to a)
  | 13 => a ← unpack_SymLinkArgs value; dir_op_handle (Nfs.symlink_from a)
  | _ => None
  end.

(** The directories a RENAME is from and to. *)
Definition rename_directories (value : list byte) : option Nfs.NfsFileHandle * option Nfs.NfsFileHandle :=
  match unpack_RenameArgs value with
  | Some a => (dir_op_handle (Nfs.rename_from a), dir_op_handle (Nfs.rename_to a))
  | None => (None, None)
  end.

(** The file a WRITE is about. *)
Definition written_file (a : Nfs.WriteArgs) : option Nfs.NfsFileHandle :=
  f ← Nfs.write_file a; Nfs.nfs_filehandle f.
End targets.

(** Steps up to the block that checks permissions; leaving the procedure
    before it does not change the state. *)
Ltac steps_to_gate :=
  repeat lazymatch goal with
         | |- wp (check_permissions _ _ _) _ _ _ => fail
         | _ => safe_step
         end; try done.

Section gate.
Context `{Posix OS} `{Codec}.
Implicit Types (s : server_state OS) (a : Rpc.AuthSysParams).

(** The caller may write the directory that the handle resolves to. *)
Definition may_write_directory a (h : option Nfs.NfsFileHandle) s : Prop :=
  ∃ h' d, h = Some h' ∧ resolves s h' d ∧ is_directory d (os s) ∧
          may Write d (Rpc.uid a) (Rpc.gid a) (os s).

(** A stage that does not change the state and, if it does not end the call,
    establishes [P]. *)
Definition stage {A} (m : handler OS A) (P : A → Prop) s : Prop :=
  wp m (λ x s', s' = s ∧ P x) (λ _ s', s' = s) s.

Lemma run_stage {A} (m : handler OS A) (k : A → handler OS reply) P s r s' :
  stage m P s → run (m ≫= k) s = Some (r, s') →
  s' = s ∨ ∃ x, P x ∧ run (k x) s = Some (r, s').
Proof.
  rw /stage /wp /run /mbind /prog_bind. destruct (m s) as [x s1|r1 s1|]; [|by intros -> [= _ <-]; left|done].
  intros [-> HP] Hk. right. by exists x.
Qed.

(** The block that checks permissions: it is passed only by who may. *)
Lemma wp_gate (acc : access) path credential a acces (Q : unit → server_state OS → Prop) E s :
  auth_sys_cred credential a → E system_error s → wp acces Q E s →
  (may acc path (Rpc.uid a) (Rpc.gid a) (os s) → Q tt s) →
  wp (check_permissions credential
        (λ uid gid o, Some (if check_root_user uid uid =? 0 then 0 else check_permission acc path uid gid o))
        acces) Q E s.
Proof.
  intros Hcred HE Hacces HQ. eapply wp_check_permissions; [exact Hcred|reflexivity|done|done|].
  intros Hge Hne. apply HQ, check_passed.
  pose proof (check_permission_range acc path (Rpc.uid a) (Rpc.gid a) (os s)) as Hr.
  rw !elem_of_cons elem_of_nil in Hr. destruct (check_root_user _ _ =? 0); lia.
Qed.

Lemma stage_resolve_directory err h :
  (∀ st s, st ≠ Nfs.NFS_OK → wp (err st) (λ _ _, False) (λ _ s', s' = s) s) →
  ∀ s, stage (resolve_directory err (Nfs.inode_number h)) (λ d, resolves s h d ∧ is_directory d (os s)) s.
Proof.
  intros Herr s. rw /stage /resolve_directory.
  assert (∀ st, st ≠ Nfs.NFS_OK → wp (err st)
    (λ d s', s' = s ∧ resolves s h d ∧ is_directory d (os s)) (λ _ s', s' = s) s) as Herr'.
  { intros st Hne. eapply wp_mono; [by apply Herr|done|done]. }
  wp_step. apply wp_resolve. wp_step. apply wp_unless.
  { intros _. eapply wp_mono; [by apply (Herr Nfs.NFSERR_NOENT)|done|done]. }
  intros d Hd. wp_step. apply wp_attributes; [done|]. intros st Hst. case_decide as Hdir.
  - wp_step. split; [done|]. split; [done|]. exists st. split; [done|].
    apply decode_file_type_dir. by injection Hdir.
  - by apply Herr'.
Qed.

Lemma dir_op_res_error_ret {A} st s :
  st ≠ Nfs.NFS_OK → wp (dir_op_res_error (A:=A) st) (λ _ _, False) (λ _ s', s' = s) s.
Proof. intros. by apply wp_dir_op_res_error. Qed.

Lemma nfs_stat_error_ret {A} st s :
  st ≠ Nfs.NFS_OK → wp (nfs_stat_error (A:=A) st) (λ _ _, False) (λ _ s', s' = s) s.
Proof. done. Qed.

Lemma stage_bind {A B} (m : handler OS A) (k : A → handler OS B) P Q s :
  stage m P s → (∀ x, P x → stage (k x) Q s) → stage (m ≫= k) Q s.
Proof.
  intros Hm Hk. apply wp_bind. eapply wp_mono; [exact Hm| |done]. intros x s' [-> HP]. by apply Hk.
Qed.

Lemma stage_mono {A} (m : handler OS A) (P Q : A → Prop) s :
  stage m P s → (∀ x, P x → Q x) → stage m Q s.
Proof. intros Hm HPQ. eapply wp_mono; [exact Hm| |done]. intros x s' [-> HP]. auto. Qed.

(** A stage that only takes arguments apart. *)
Ltac solve_args :=
  rw /stage; wp_step; apply wp_check_type; [done|done|]; intros p [= <-] _; wp_auto; try done;
  split; [done|]; by simplify_option_eq.

(** The checks of a procedure that makes or removes a name in a directory:
    resolve the directory with errors made by [err_ret]'s function, look at the
    name, and ask for write permission. *)
Ltac solve_directory_checks h a err_ret :=
  apply (stage_bind _ _ _ _ _ (stage_resolve_directory _ h err_ret _));
  intros d [Hres Hdir]; rw /stage; steps_to_gate;
  apply (wp_gate Write d _ a);
    [done | done | first [by apply wp_dir_op_res_error | by apply wp_nfs_stat_error] |];
  intros Hmay; wp_step; split; [done|]; by exists h, d.

Variables (credential verifier : Rpc.OpaqueAuth) (a : Rpc.AuthSysParams) (params : Rpc.Any).
Hypothesis Hcred : auth_sys_cred credential a.

(** ** Arguments *)

Lemma stage_create_args s :
  stage (create_args (Some params))
    (λ x, let '(h, _, _, _, _) := x in
          target_directory 9 (Rpc.value params) = Some h ∧ target_directory 14 (Rpc.value params) = Some h) s.
Proof.
  rw /create_args /dir_op_args /target_directory /dir_op_handle. solve_args.
Qed.

Lemma stage_dir_op_args s :
  stage (lookup_args (Some params))
    (λ x, target_directory 10 (Rpc.value params) = Some x.1 ∧
          target_directory 15 (Rpc.value params) = Some x.1) s.
Proof.
  rw /lookup_args /dir_op_args /target_directory /dir_op_handle. solve_args.
Qed.

Lemma stage_link_args s :
  stage (link_args (Some params))
    (λ x, let '(_, h, _) := x in target_directory 12 (Rpc.value params) = Some h) s.
Proof.
  rw /link_args /dir_op_args /target_directory /dir_op_handle. solve_args.
Qed.

Lemma stage_symlink_args s :
  stage (symlink_args (Some params))
    (λ x, let '(h, _, _) := x in target_directory 13 (Rpc.value params) = Some h) s.
Proof.
  rw /symlink_args /dir_op_args /target_directory /dir_op_handle. solve_args.
Qed.

(** ** Checks *)

(** The directory is resolved and, at the end, the caller may write it. *)
Definition checked_directory h s : Prop := may_write_directory a (Some h) s.

Lemma stage_create_checks h name s : stage (create_checks credential h name) (λ _, checked_directory h s) s.
Proof.
  rw /create_checks /lstat_absent. solve_directory_checks h a (@dir_op_res_error_ret string).
Qed.

Lemma stage_mkdir_checks h name s : stage (mkdir_checks credential h name) (λ _, checked_directory h s) s.
Proof.
  rw /mkdir_checks /lstat_absent. solve_directory_checks h a (@dir_op_res_error_ret string).
Qed.

Lemma stage_link_checks h name s : stage (link_checks credential h name) (λ _, checked_directory h s) s.
Proof.
  rw /link_checks /lstat_absent. solve_directory_checks h a (@nfs_stat_error_ret string).
Qed.

Lemma stage_symlink_checks h name s : stage (symlink_checks credential h name) (λ _, checked_directory h s) s.
Proof.
  rw /symlink_checks /lstat_absent. solve_directory_checks h a (@nfs_stat_error_ret string).
Qed.

Lemma stage_remove_checks h name s : stage (remove_checks credential h name) (λ _, checked_directory h s) s.
Proof.
  rw /remove_checks /lstat_existing. solve_directory_checks h a (@nfs_stat_error_ret string).
Qed.

Lemma stage_rmdir_checks h name s : stage (rmdir_checks credential h name) (λ _, checked_directory h s) s.
Proof.
  rw /rmdir_checks /lstat_existing. solve_directory_checks h a (@nfs_stat_error_ret string).
Qed.

(** LINK resolves its target first, which does not change the state. *)
Lemma stage_link_target ino s : stage (link_target ino) (λ _, True) s.
Proof. rw /stage /link_target. steps_to_gate. Qed.

(** ** The procedures *)

(** Split a run after its first stage: the call ended there, or [x] came out
    of it. *)
Ltac next_stage H Hstage x HP :=
  apply (run_stage _ _ _ _ _ _ (Hstage)) in H as [H | (x & HP & H)]; [by left|].

(** The call changed nothing, or its caller may write its directory. *)
Definition unchanged_or_allowed proc s s' : Prop :=
  s' = s ∨ may_write_directory a (target_directory proc (Rpc.value params)) s.

Lemma create_gate s r s' :
  run (serve_nfs_procedure_9_create_file credential verifier (Some params)) s = Some (r, s') →
  unchanged_or_allowed 9 s s'.
Proof.
  intros Hrun. next_stage Hrun (stage_create_args s) x HP. destruct x as [[[[h name] sattr] atime] mtime].
  next_stage Hrun (stage_create_checks h name s) path Hmay. right. by rw (proj1 HP).
Qed.

Lemma mkdir_gate s r s' :
  run (serve_nfs_procedure_14_create_directory credential verifier (Some params)) s = Some (r, s') →
  unchanged_or_allowed 14 s s'.
Proof.
  intros Hrun. next_stage Hrun (stage_create_args s) x HP. destruct x as [[[[h name] sattr] atime] mtime].
  next_stage Hrun (stage_mkdir_checks h name s) path Hmay. right. by rw (proj2 HP).
Qed.

Lemma link_gate s r s' :
  run (serve_nfs_procedure_12_create_link_to_file credential verifier (Some params)) s = Some (r, s') →
  unchanged_or_allowed 12 s s'.
Proof.
  intros Hrun. next_stage Hrun (stage_link_args s) x HP. destruct x as [[target h] name].
  next_stage Hrun (stage_link_target (Nfs.inode_number target) s) path Htrue.
  next_stage Hrun (stage_link_checks h name s) path' Hmay. right. by rw HP.
Qed.

Lemma symlink_gate s r s' :
  run (serve_nfs_procedure_13_create_symbolic_link credential verifier (Some params)) s = Some (r, s') →
  unchanged_or_allowed 13 s s'.
Proof.
  intros Hrun. next_stage Hrun (stage_symlink_args s) x HP. destruct x as [[h name] target].
  next_stage Hrun (stage_symlink_checks h name s) path Hmay. right. by rw HP.
Qed.

Lemma remove_gate s r s' :
  run (serve_nfs_procedure_10_remove_file credential verifier (Some params)) s = Some (r, s') →
  unchanged_or_allowed 10 s s'.
Proof.
  intros Hrun. next_stage Hrun (stage_dir_op_args s) x HP. destruct x as [h name].
  next_stage Hrun (stage_remove_checks h name s) path Hmay. right. by rw (proj1 HP).
Qed.

Lemma rmdir_gate s r s' :
  run (serve_nfs_procedure_15_remove_directory credential verifier (Some params)) s = Some (r, s') →
  unchanged_or_allowed 15 s s'.
Proof.
  intros Hrun. next_stage Hrun (stage_dir_op_args s) x HP. destruct x as [h name].
  next_stage Hrun (stage_rmdir_checks h name s) path Hmay. right. by rw (proj2 HP).
Qed.

(** ** RENAME and WRITE *)

Lemma stage_rename_args s :
  stage (rename_args (Some params))
    (λ x, rename_directories (Rpc.value params) = (Some x.1.1, Some x.2.1)) s.
Proof.
  rw /rename_args /dir_op_args /rename_directories /dir_op_handle /stage. wp_step.
  apply wp_check_type; [done|done|]. intros p [= <-] _. wp_auto; try done.
  split; [done|]. rw Hsome. f_equal; by simplify_option_eq.
Qed.

Lemma stage_rename_source h name s :
  stage (rename_source h name) (λ x, resolves s h x.1 ∧ is_directory x.1 (os s)) s.
Proof.
  rw /rename_source /lstat_existing.
  apply (stage_bind _ _ _ _ _ (stage_resolve_directory _ h (@nfs_stat_error_ret string) _)).
  intros d Hd. rw /stage. steps_to_gate.
Qed.

Lemma stage_rename_target from h name s :
  stage (rename_target credential from h name)
    (λ _, may Write from (Rpc.uid a) (Rpc.gid a) (os s) ∧ checked_directory h s) s.
Proof.
  rw /rename_target.
  apply (stage_bind _ _ _ _ _ (stage_resolve_directory _ h (@nfs_stat_error_ret string) _)).
  intros d [Hres Hdir]. rw /stage. wp_step.
  eapply wp_check_permissions; [exact Hcred|reflexivity|done|done|]. intros Hge Hne.
  destruct (check_rename_passed from d (Rpc.uid a) (Rpc.gid a) (os s)) as [Hfrom Hto].
  { pose proof (check_rename_range from d (Rpc.uid a) (Rpc.gid a) (os s)) as Hr.
    rw !elem_of_cons elem_of_nil in Hr. lia. }
  wp_step. split_and!; [done|done|by exists h, d].
Qed.

Lemma rename_gate s r s' :
  run (serve_nfs_procedure_11_rename_file credential verifier (Some params)) s = Some (r, s') →
  s' = s ∨ may_write_directory a (rename_directories (Rpc.value params)).1 s ∧
           may_write_directory a (rename_directories (Rpc.value params)).2 s.
Proof.
  intros Hrun. next_stage Hrun (stage_rename_args s) x HP. destruct x as [[fh fname] [th tname]].
  next_stage Hrun (stage_rename_source fh fname s) x Hsrc. destruct x as [from old].
  next_stage Hrun (stage_rename_target from th tname s) path Hmay. right. rw HP.
  destruct Hsrc, Hmay. split; [|done]. by exists fh, from.
Qed.

Lemma stage_write_args s :
  stage (write_args (Some params))
    (λ x, unpack_WriteArgs (Rpc.value params) = Some x.1.2 ∧ written_file x.1.2 = Some x.1.1) s.
Proof. rw /write_args /written_file. solve_args. Qed.

Lemma stage_resolve_file h s :
  stage (resolve_file attr_stat_error (Nfs.inode_number h)) (λ path, resolves s h path) s.
Proof. rw /stage /resolve_file. steps_to_gate. Qed.

Lemma stage_write_size len s :
  stage (if len >? NFS_MAXDATA then attr_stat_error Nfs.NFSERR_FBIG else mret tt)
    (λ _, len ≤ NFS_MAXDATA) s.
Proof.
  rw /stage. destruct (Z.gtb_spec len NFS_MAXDATA); [by apply wp_attr_stat_error|wp_step]. by split; [|lia].
Qed.

Lemma stage_write_permission path s :
  stage (check_permissions credential
           (λ uid gid o, Some (check_write_proc_permissions path uid gid o))
           (attr_stat_error Nfs.NFSERR_ACCES))
    (λ _, may Write path (Rpc.uid a) (Rpc.gid a) (os s)) s.
Proof.
  apply (wp_gate Write path _ a); [done|done|by apply wp_attr_stat_error|done].
Qed.

Lemma write_gate s r s' :
  run (serve_nfs_procedure_8_write_to_file credential verifier (Some params)) s = Some (r, s') →
  s' = s ∨
  ∃ args h path, unpack_WriteArgs (Rpc.value params) = Some args ∧
    written_file args = Some h ∧ resolves s h path ∧
    may Write path (Rpc.uid a) (Rpc.gid a) (os s) ∧ Nfs.len (Nfs.write_nfsdata args) ≤ NFS_MAXDATA.
Proof.
  intros Hrun. next_stage Hrun (stage_write_args s) x HP. destruct x as [[h args] data].
  next_stage Hrun (stage_resolve_file h s) path Hres.
  next_stage Hrun (stage_write_size (Nfs.len (Nfs.write_nfsdata args)) s) u Hlen.
  next_stage Hrun (stage_write_permission path s) u' Hmay.
  right. destruct HP. by exists args, h, path.
Qed.
End gate.

(** * Theorems *)

Section theorems.
Context `{Posix OS} `{Codec}.
Implicit Types (s : server_state OS).

(** C9: CREATE, REMOVE, LINK, SYMLINK, MKDIR and RMDIR are guarded: when one of
    them, called with an AUTH_SYS credential, changes anything in the server or
    the file system, then the directory handle in its arguments resolves to an
    existing directory that the caller has the UNIX right to write. *)
Theorem directory_changes_need_write_permission credential verifier a params proc s r s'
    (Hcred : auth_sys_cred credential a) (Hproc : proc ∈ [9; 10; 12; 13; 14; 15])
    (Hrun : run (call_nfs credential verifier 2 proc (Some params)) s = Some (r, s')) :
  s' = s ∨ may_write_directory a (target_directory proc (Rpc.value params)) s.
Proof.
  rw !elem_of_cons elem_of_nil in Hproc. destruct Hproc as [->|[->|[->|[->|[->|[->|[]]]]]]].
  - exact (create_gate credential verifier a params Hcred s r s' Hrun).
  - exact (remove_gate credential verifier a params Hcred s r s' Hrun).
  - exact (link_gate credential verifier a params Hcred s r s' Hrun).
  - exact (symlink_gate credential verifier a params Hcred s r s' Hrun).
  - exact (mkdir_gate credential verifier a params Hcred s r s' Hrun).
  - exact (rmdir_gate credential verifier a params Hcred s r s' Hrun).
Qed.

(** C18: RENAME with an AUTH_SYS credential that changes anything was asked
    for by a caller who may write both the directory the file leaves and the
    directory it enters. *)
Theorem rename_needs_write_permission_on_both credential verifier a params s r s'
    (Hcred : auth_sys_cred credential a)
    (Hrun : run (call_nfs credential verifier 2 11 (Some params)) s = Some (r, s')) :
  s' = s ∨
  may_write_directory a (rename_directories (Rpc.value params)).1 s ∧
  may_write_directory a (rename_directories (Rpc.value params)).2 s.
Proof. exact (rename_gate credential verifier a params Hcred s r s' Hrun). Qed.

(** WRITE with an AUTH_SYS credential that changes anything was asked for
    by a caller who may write the file its handle resolves to, and carried at
    most NFS_MAXDATA bytes. *)
Theorem write_needs_write_permission credential verifier a params s r s'
    (Hcred : auth_sys_cred credential a)
    (Hrun : run (call_nfs credential verifier 2 8 (Some params)) s = Some (r, s')) :
  s' = s ∨
  ∃ args h path, unpack_WriteArgs (Rpc.value params) = Some args ∧
    written_file args = Some h ∧ resolves s h path ∧
    may Write path (Rpc.uid a) (Rpc.gid a) (os s) ∧ Nfs.len (Nfs.write_nfsdata args) ≤ NFS_MAXDATA.
Proof. exact (write_gate credential verifier a params Hcred s r s' Hrun). Qed.
End theorems.
