(* ===== verification/Connections.v ===== *)
(** One client's TCP connection: [is_tcp_connection_closed] and
    [handle_client_tcp] of [src/transport/tcp/tcp_rpc_server.c], and the
    specification of a connection as a list of calls answered in order. *)
From S2P Require Import Prelude Messages Posix InodeCache Permissions FileManagement ReadDir.
From S2P Require Import ServerState ProcAttr ProcFile ProcCreate ProcRemove ProcMount RecordMarking Server.

(** [recv(fd, &b, 1, MSG_PEEK)] *)
Class PeekSocket (W : Type) := peek : Z → W → Z * W.

(** A connection whose client sends some bytes and then closes it: looking
    ahead moves nothing, finds a byte while there is one to come, and the end
    after the last. *)
Class ClosingClient (W : Type) `{StreamSocket W, PeekSocket W} := {
  peek_keeps fd w r w' : peek fd w = (r, w') → incoming fd w' = incoming fd w ∧ outgoing fd w' = outgoing fd w;
  peek_result fd w r w' : peek fd w = (r, w') → r = match incoming fd w with [] => 0 | _ => 1 end;
}.

(** How the thread of a connection ends: the client closed the connection, or
    the thread gave up and removes itself from the list of threads. *)
Inductive ending := Closed | Failed.

#[global] Instance ending_eq_dec : EqDecision ending.
Proof. solve_decision. Defined.

(** * The code *)

Section handle_client_tcp.
Context `{Posix OS} `{Codec} `{Socket W} `{PeekSocket W} `{Memory}.

Definition is_tcp_connection_closed (fd : Z) : rpc (OS:=OS) (W:=W) Z :=
  peek_res ← on_net (λ n, Some (peek fd n));
  return_if (peek_res <? 0) peek_res;;
  return_if (peek_res =? 0) 0;;
  mret 1.

(** The loop over the calls of a connection. *)
Fixpoint handle_client_loop (fuel rm_fuel : nat) (fd : Z) (w : world OS W) : option (ending * world OS W) :=
  match fuel with
  | O => None
  | S fuel =>
      '(status, w) ← run (is_tcp_connection_closed fd) w;
      if status <? 0 then Some (Failed, w)
      else if status =? 0 then Some (Closed, w)
      else '(error_code, w) ← run (process_single_rpc_tcp rm_fuel fd) w;
           if error_code >? 0 then Some (Failed, w) else handle_client_loop fuel rm_fuel fd w
  end.

(** The argument of the thread may be NULL. *)
Definition handle_client_tcp (fuel rm_fuel : nat) (rpc_client_socket_fd : option Z) (w : world OS W)
    : option (ending * world OS W) :=
  match rpc_client_socket_fd with
  | None => Some (Failed, w)
  | Some fd => handle_client_loop fuel rm_fuel fd w
  end.
End handle_client_tcp.

(** * Specification *)

Section specification.
Context `{Posix OS} `{Codec}.
Implicit Types (s : server_state OS).

(** The calls of a connection, answered one after the other until one ends
    with an error. *)
Fixpoint answer_all (cbs : list Rpc.CallBody) s : option (list Rpc.ReplyBody * ending * server_state OS) :=
  match cbs with
  | [] => Some ([], Closed, s)
  | cb :: cbs =>
      '(b, code, s) ← answer cb s;
      if code >? 0 then Some ([b], Failed, s)
      else '(bs, e, s) ← answer_all cbs s; Some (b :: bs, e, s)
  end.
End specification.

(** A call as it is on the wire. *)
Record wire_call := mkWireCall { fragments : list (list byte); call_xid : Z; call_body : Rpc.CallBody }.

Definition wire_bytes (c : wire_call) : list byte := encode_fragments (fragments c).

(** The record holds a call: a non-empty message in non-empty fragments. Nothing
    is asked of the call itself. *)
Definition wire_call_ok `{Codec} (rm_fuel : nat) (c : wire_call) : Prop :=
  concat (fragments c) ≠ [] ∧ sendable_fragments (fragments c) ∧ (length (fragments c) ≤ rm_fuel)%nat ∧
  unpack_RpcMsg (concat (fragments c)) =
    Some (Rpc.mkRpcMsg (call_xid c) Rpc.CALL (Rpc.BODY_CBODY (Some (call_body c)))).

(** The call gets past the checks without the parameters of its procedure. *)
Definition crashes (cb : Rpc.CallBody) : bool :=
  bool_decide (rejection cb = None) && lacks_parameters cb.

(** The bytes are records with the replies [bs], numbered from [xid] on. *)
Fixpoint carries_replies `{Codec} (xid : Z) (bs : list Rpc.ReplyBody) (bytes : list byte) : Prop :=
  match bs with
  | [] => bytes = []
  | b :: bs =>
      ∃ fs rest, bytes = encode_fragments fs ++ rest ∧ concat fs = pack_RpcMsg (reply_msg xid b) ∧
                 sendable_fragments fs ∧ carries_replies (xid + 1) bs rest
  end.

(** * Lemmas *)

Lemma wire_call_nonempty `{Codec} n c : wire_call_ok n c → wire_bytes c ≠ [].
Proof.
  intros (Hne & _). rw /wire_bytes. destruct (fragments c) as [|f fs]; [done|]. by rw encode_fragments_cons.
Qed.

Section lemmas.
Context `{Posix OS} `{PackedSizeBounds, !CountRange, !PackSmall} `{LiveSocket W, PeekSocket W, !ClosingClient W} `{Memory}.
Implicit Types (w : world OS W) (s : server_state OS).

Lemma answer_crashes cb s : crashes cb = true → answer cb s = None.
Proof. rw /crashes andb_true_iff bool_decide_eq_true. intros [Hrej Hp]. by apply answer_lacking. Qed.

Lemma answer_none_crashes cb s : sessions_inv (readdir_sessions_list s) → answer cb s = None → crashes cb = true.
Proof.
  intros Hs Ha. pose proof (answer_total cb s Hs) as Ht. rw Ha in Ht. destruct Ht as [Hrej Hp].
  by rw /crashes Hp bool_decide_true.
Qed.

(** A connection has no answers only when one of its calls crashes the server. *)
Lemma answer_all_total cbs s :
  sessions_inv (readdir_sessions_list s) →
  match answer_all cbs s with
  | Some (_, _, s') => sessions_inv (readdir_sessions_list s')
  | None => Exists (λ cb, crashes cb = true) cbs
  end.
Proof.
  revert s. induction cbs as [|cb cbs IH]; intros s Hs; [done|]. simpl.
  pose proof (answer_total cb s Hs) as Ha. destruct (answer cb s) as [[[b code] s1]|] eqn:Hb; simpl;
    [|left; by apply (answer_none_crashes cb s)].
  destruct (code >? 0); [done|]. specialize (IH s1 Ha).
  destruct (answer_all cbs s1) as [[[bs e] s2]|]; simpl; [done|by right].
Qed.

(** One call of a connection. *)
Lemma process_call_answers rm_fuel fd c rest b code s' w :
  memory_available → wire_call_ok rm_fuel c → incoming fd (net w) = wire_bytes c ++ rest →
  answer (call_body c) (srv w) = Some (b, code, s') →
  ∃ w' fs, run (process_single_rpc_tcp rm_fuel fd) w = Some (code, w') ∧ srv w' = s' ∧
    next_xid w' = next_xid w + 1 ∧ incoming fd (net w') = rest ∧
    concat fs = pack_RpcMsg (reply_msg (next_xid w) b) ∧ sendable_fragments fs ∧
    outgoing fd (net w') = outgoing fd (net w) ++ encode_fragments fs.
Proof.
  intros Hmem (Hne & Hfs & Hfuel & Hdec) Hin Ha.
  set (Q := λ z w', z = code ∧ srv w' = s' ∧ next_xid w' = next_xid w + 1 ∧ incoming fd (net w') = rest ∧
    ∃ fs, concat fs = pack_RpcMsg (reply_msg (next_xid w) b) ∧ sendable_fragments fs ∧
          outgoing fd (net w') = outgoing fd (net w) ++ encode_fragments fs).
  assert (wp (process_single_rpc_tcp rm_fuel fd) Q Q w) as (z & w' & Hr & -> & ? & ? & ? & fs & ? & ? & ?)%wp_run;
    [|by exists w', fs].
  rw /process_single_rpc_tcp. wp_step.
  apply (wp_receive_call rm_fuel fd (fragments c) rest (call_xid c) (call_body c)); [done..|].
  intros w1 Hs1 Hx1 Hi1 Ho1. rw -Hs1 in Ha.
  assert (∀ w2, sent fd b (net w1) (next_xid w1) w2 → srv w2 = s' → Q code w2) as HQ.
  { intros w2 (Hx & Hi & fs & Hcat & Hok & Hout) Hsrv. split_and!; [done|done|congruence|congruence|].
    exists fs. by rw -Hx1 -Ho1. }
  by apply (wp_process_call_answer _ _ (tcp_sends fd) (call_body c) b code s').
Qed.

Lemma peek_run fd w :
  ∃ w', run (is_tcp_connection_closed fd) w = Some (match incoming fd (net w) with [] => 0 | _ => 1 end, w') ∧
    srv w' = srv w ∧ next_xid w' = next_xid w ∧ incoming fd (net w') = incoming fd (net w) ∧
    outgoing fd (net w') = outgoing fd (net w).
Proof.
  rw /is_tcp_connection_closed /run /mbind /prog_bind /on_net.
  destruct (peek fd (net w)) as [r n] eqn:Hpeek.
  destruct (peek_keeps _ _ _ _ Hpeek) as [Hi Ho]. rw (peek_result _ _ _ _ Hpeek).
  exists (mkWorld (srv w) n (next_xid w)). by destruct (incoming fd (net w)).
Qed.

Lemma process_call_crashes rm_fuel fd c rest w :
  memory_available → wire_call_ok rm_fuel c → incoming fd (net w) = wire_bytes c ++ rest →
  answer (call_body c) (srv w) = None → run (process_single_rpc_tcp rm_fuel fd) w = None.
Proof.
  intros Hmem (Hne & Hfs & Hfuel & Hdec) Hin Ha.
  by apply (process_single_faults rm_fuel fd (fragments c) rest (call_xid c) (call_body c)).
Qed.

(** The thread has the outcome of the specification. *)
Definition implements (fd : Z) w (spec : option (list Rpc.ReplyBody * ending * server_state OS))
    (outcome : option (ending * world OS W)) : Prop :=
  match spec with
  | Some (bs, e, s') =>
      ∃ w' out, outcome = Some (e, w') ∧ srv w' = s' ∧
        outgoing fd (net w') = outgoing fd (net w) ++ out ∧ carries_replies (next_xid w) bs out
  | None => outcome = None
  end.

Lemma handle_client_loop_answers fuel rm_fuel fd cs w :
  memory_available → Forall (wire_call_ok rm_fuel) cs → (length cs < fuel)%nat →
  incoming fd (net w) = concat (wire_bytes <$> cs) →
  implements fd w (answer_all (call_body <$> cs) (srv w)) (handle_client_loop fuel rm_fuel fd w).
Proof.
  intros Hmem Hcs. revert fuel w.
  induction Hcs as [|c cs Hc _ IH]; intros [|fuel] w Hfuel Hin; try (simpl in Hfuel; lia); simpl.
  - destruct (peek_run fd w) as (w1 & -> & Hs1 & Hx1 & Hi1 & Ho1). rw Hin /=.
    exists w1, []. by rw app_nil_r.
  - destruct (peek_run fd w) as (w1 & Hpeek & Hs1 & Hx1 & Hi1 & Ho1). rw fmap_cons concat_cons in Hin.
    assert (match incoming fd (net w) with [] => 0 | _ => 1 end = 1) as Hst.
    { rw Hin. pose proof (wire_call_nonempty _ _ Hc). by destruct (wire_bytes c). }
    rw Hst in Hpeek. rw Hpeek /=. rw Hin in Hi1. rw -Hs1.
    destruct (answer (call_body c) (srv w1)) as [[[b code] s1]|] eqn:Hb; simpl;
      [|by rw (process_call_crashes rm_fuel fd c _ w1 Hmem Hc Hi1 Hb)].
    destruct (process_call_answers rm_fuel fd c _ b code s1 w1 Hmem Hc Hi1 Hb)
      as (w2 & fs & -> & Hs2 & Hx2 & Hi2 & Hfs & Hok & Ho2). simpl.
    destruct (code >? 0).
    + exists w2, (encode_fragments fs). split_and!; [done|done|congruence|].
      exists fs, []. rw app_nil_r -Hx1. by split_and!.
    + simpl in Hfuel. pose proof (IH fuel w2 ltac:(lia) Hi2) as Hrest. rw Hs2 in Hrest.
      change (list_fmap _ _ call_body cs) with (call_body <$> cs).
      destruct (answer_all (call_body <$> cs) s1) as [[[bs' e'] s2]|]; [|done].
      destruct Hrest as (w3 & out & -> & Hs3 & Ho3 & Hout).
      exists w3, (encode_fragments fs ++ out). split_and!; [done|done|by rw Ho3 Ho2 Ho1 -app_assoc|].
      exists fs, out. rw -Hx1. split_and!; [done|done|done|]. by rw -Hx2.
Qed.
End lemmas.

(** * Theorems *)

Section theorems.
Context `{Posix OS} `{PackedSizeBounds, !CountRange, !PackSmall} `{LiveSocket W, PeekSocket W, !ClosingClient W} `{Memory}.
Implicit Types (w : world OS W).

End theorems.
