(* ===== verification/ServerThreads.v ===== *)
(** The list of the server's threads: [src/nfs/server/nfs_server_threads.c],
    and the steps of [run_server_tcp] and [handle_client_tcp]
    ([src/transport/tcp/tcp_rpc_server.c]) that use it, as a transition system
    of the accepting thread and one thread per connection, interleaved.

    List entries are in a heap and linked by pointers, because the accepting
    thread reads the head of the list before it takes the mutex. *)
From S2P Require Import Prelude.

Definition loc : Type := Z.
Definition pthread_t : Type := Z.

(** [TransportProtocol] with the member of [TransportConnection] it selects;
    the pointer to the socket may be NULL. *)
Inductive TransportConnection := TcpConnection (socket : option Z) | QuicConnection.

Record NfsServerThreadsList := mkEntry {
  server_thread : pthread_t;
  transport_connection : TransportConnection;
  next : option loc }.

Definition heap : Type := gmap loc NfsServerThreadsList.

(** * The functions on the list

    [None]: a null or freed pointer was dereferenced. *)

(** Frees the entry and closes its socket. *)
Definition clean_up_nfs_server_threads_list_entry (entry : option loc) (h : heap) (closed : list Z)
    : option (heap * list Z) :=
  match entry with
  | None => Some (h, closed)
  | Some l =>
      e ← h !! l;
      Some (delete l h,
            match transport_connection e with
            | TcpConnection (Some fd) => fd :: closed
            | TcpConnection None | QuicConnection => closed
            end)
  end.

(** What [add_server_thread] allocates and fills in before it takes the mutex. *)
Definition new_entry (t : pthread_t) (connection : TransportConnection) (head : option loc)
    : NfsServerThreadsList := mkEntry t connection head.

Definition set_next (p : option loc) (e : NfsServerThreadsList) : NfsServerThreadsList :=
  mkEntry (server_thread e) (transport_connection e) p.

(** The loop of [remove_server_thread] behind the first entry: the code, the
    heap and the closed sockets. *)
Fixpoint remove_server_thread_loop (fuel : nat) (t : pthread_t) (prev_mapping : loc) (curr_entry : option loc)
    (h : heap) (closed : list Z) : option (Z * heap * list Z) :=
  match fuel with
  | O => None
  | S fuel =>
      match curr_entry with
      | None => Some (1, h, closed)
      | Some l =>
          e ← h !! l;
          if server_thread e =? t then
            p ← h !! prev_mapping;
            '(h, closed) ← clean_up_nfs_server_threads_list_entry (Some l)
                             (<[prev_mapping := set_next (next e) p]> h) closed;
            Some (0, h, closed)
          else remove_server_thread_loop fuel t l (next e) h closed
      end
  end.

(** [remove_server_thread] between taking the mutex and returning: the code,
    the new head, the heap, the closed sockets, and whether the mutex is
    released; it is not when the first entry was removed. *)
Definition remove_server_thread (t : pthread_t) (head : option loc) (h : heap) (closed : list Z)
    : option (Z * option loc * heap * list Z * bool) :=
  first ← head;
  e ← h !! first;
  if server_thread e =? t then
    '(h, closed) ← clean_up_nfs_server_threads_list_entry (Some first) h closed;
    Some (0, next e, h, closed, false)
  else
    '(code, h, closed) ← remove_server_thread_loop (S (size h)) t first (next e) h closed;
    Some (code, head, h, closed, true).

(** * The threads *)

Inductive agent := Main | Worker (t : pthread_t).

(** The accepting thread: in [accept], after [pthread_create], and in
    [add_server_thread] before and after it got the mutex. *)
Inductive main_pc :=
  | Accepting
  | Created (t : pthread_t) (fd : Z)
  | Adding (entry : loc)
  | AddingLocked (entry : loc).

(** The thread of a connection: serving calls, in [remove_server_thread]
    before and after it got the mutex, and returned. *)
Inductive worker_pc := Serving | Removing | RemovingLocked | Finished.

Record system := mkSystem {
  mem : heap;
  head : option loc;                        (* nfs_server_threads_list *)
  closed_sockets : list Z;
  mutex : option agent;                     (* who holds it *)
  main : main_pc;
  workers : gmap pthread_t worker_pc }.

Definition initial : system := mkSystem ∅ None [] None Accepting ∅.

Definition set_main (m : main_pc) (s : system) : system :=
  mkSystem (mem s) (head s) (closed_sockets s) (mutex s) m (workers s).

Definition set_worker (t : pthread_t) (pc : worker_pc) (s : system) : system :=
  mkSystem (mem s) (head s) (closed_sockets s) (mutex s) (main s) (<[t := pc]> (workers s)).

Definition set_mutex (o : option agent) (s : system) : system :=
  mkSystem (mem s) (head s) (closed_sockets s) o (main s) (workers s).

Inductive step : system → system → Prop :=
  (* accept and pthread_create; thread numbers are not reused, no thread is joined *)
  | step_accept s t fd :
      main s = Accepting → workers s !! t = None →
      step s (set_main (Created t fd) (set_worker t Serving s))
  (* add_server_thread: malloc, and the unlocked read of the head *)
  | step_allocate s t fd l :
      main s = Created t fd → mem s !! l = None →
      step s (mkSystem (<[l := new_entry t (TcpConnection (Some fd)) (head s)]> (mem s)) (head s)
                (closed_sockets s) (mutex s) (Adding l) (workers s))
  | step_add_lock s l :
      main s = Adding l → mutex s = None →
      step s (set_main (AddingLocked l) (set_mutex (Some Main) s))
  | step_add s l :
      main s = AddingLocked l →
      step s (mkSystem (mem s) (Some l) (closed_sockets s) None Accepting (workers s))
  (* the client closed the connection: the thread returns *)
  | step_closed s t :
      workers s !! t = Some Serving → step s (set_worker t Finished s)
  (* a call failed: the thread removes itself and returns *)
  | step_failed s t :
      workers s !! t = Some Serving → step s (set_worker t Removing s)
  | step_remove_lock s t :
      workers s !! t = Some Removing → mutex s = None →
      step s (set_worker t RemovingLocked (set_mutex (Some (Worker t)) s))
  | step_remove s t code head' h closed released :
      workers s !! t = Some RemovingLocked →
      remove_server_thread t (head s) (mem s) (closed_sockets s) = Some (code, head', h, closed, released) →
      step s (mkSystem h head' closed (if released : bool then None else mutex s) (main s)
                (<[t := Finished]> (workers s))).

Definition reachable (s : system) : Prop := rtc step initial s.

(** A thread is about to dereference a null or freed pointer. *)
Definition crashes (s : system) : Prop :=
  ∃ t, workers s !! t = Some RemovingLocked ∧
       remove_server_thread t (head s) (mem s) (closed_sockets s) = None.

(** The mutex is held by a thread that has returned. *)
Definition stuck (s : system) : Prop :=
  ∃ t, mutex s = Some (Worker t) ∧ workers s !! t = Some Finished.

(** * Linked lists *)

(** The entries at [ls], linked in this order, from the pointer [p] on. *)
Fixpoint chain (h : heap) (p : option loc) (ls : list loc) : Prop :=
  match ls with
  | [] => p = None
  | l :: ls => p = Some l ∧ ∃ e, h !! l = Some e ∧ chain h (next e) ls
  end.

Definition thread_at (h : heap) (l : loc) : option pthread_t := server_thread <$> h !! l.

Lemma chain_ext h h' p ls :
  (∀ l, l ∈ ls → h' !! l = h !! l) → chain h p ls → chain h' p ls.
Proof.
  revert p. induction ls as [|l ls IH]; intros p Hext; [done|]. intros (-> & e & He & Hc).
  split; [done|]. exists e. split; [by rw Hext; [constructor|]|]. apply IH; [|done].
  intros l' Hl'. apply Hext. by constructor.
Qed.

Lemma chain_length h p ls : chain h p ls → NoDup ls → (length ls ≤ size h)%nat.
Proof.
  intros Hc Hnd. rw -(size_list_to_set (C:=gset loc) ls) // -size_dom. apply subseteq_size.
  intros l Hl. apply elem_of_list_to_set in Hl. apply elem_of_dom. clear Hnd.
  revert p Hc. induction ls as [|l' ls IH]; intros p; [by apply elem_of_nil in Hl|].
  intros (_ & e & He & Hc). apply elem_of_cons in Hl as [->|Hl]; [by rw He|exact (IH Hl _ Hc)].
Qed.

(** Removing from the middle of the list. *)
Lemma remove_loop_spec fuel t prev ls h closed p :
  h !! prev = Some p → chain h (next p) ls → NoDup (prev :: ls) → (length ls < fuel)%nat →
  ∃ code h' closed' ls' p',
    remove_server_thread_loop fuel t prev (next p) h closed = Some (code, h', closed') ∧
    h' !! prev = Some p' ∧ server_thread p' = server_thread p ∧ chain h' (next p') ls' ∧
    (∀ l, l ∉ prev :: ls → h' !! l = h !! l) ∧ sublist ls' ls ∧
    (∀ l, l ∈ ls' → thread_at h' l = thread_at h l) ∧
    match find_first (λ l, bool_decide (thread_at h l = Some t)) ls with
    | Some l => code = 0 ∧ ls' = remove_first (λ l, bool_decide (thread_at h l = Some t)) ls
    | None => code = 1 ∧ h' = h ∧ closed' = closed ∧ ls' = ls
    end.
Proof.
  revert prev p fuel. induction ls as [|l ls IH]; intros prev p [|fuel] Hp Hc Hnd Hf; try (simpl in Hf; lia).
  - simpl in Hc. rw Hc. exists 1, h, closed, [], p. by rw Hc.
  - destruct Hc as (Hn & e & He & Hc). rw Hn /= He /=.
    apply NoDup_cons in Hnd as [Hprev Hnd]. pose proof Hnd as [Hl Hnd']%NoDup_cons.
    assert (thread_at h l = Some (server_thread e)) as Ht by (by rw /thread_at He).
    rw !Ht. destruct (Z.eqb_spec (server_thread e) t) as [<-|Hne].
    + rw Hp /= lookup_insert_ne; [set_solver|]. rw He /= bool_decide_true //.
      eexists 0, _, _, ls, (set_next (next e) p). split; [done|].
      assert (l ≠ prev) by set_solver.
      split_and!; [by rw lookup_delete_ne // lookup_insert_eq|done| | |by apply sublist_cons| |done|done].
      * eapply chain_ext; [|exact Hc]. intros l' Hl'. rw lookup_delete_ne; [set_solver|].
        rw lookup_insert_ne //. set_solver.
      * intros l' Hl'. rw lookup_delete_ne; [set_solver|]. rw lookup_insert_ne //. set_solver.
      * intros l' Hl'. rw /thread_at lookup_delete_ne; [set_solver|]. rw lookup_insert_ne //. set_solver.
    + rw bool_decide_false; [congruence|].
      destruct (IH l e fuel He Hc Hnd ltac:(simpl in Hf; lia))
        as (code & h' & closed' & ls' & e' & Hrun & He' & Hte & Hc' & Hframe & Hsub & Hth & Hspec).
      assert (h' !! prev = Some p) as Hp' by (rw Hframe //; set_solver).
      exists code, h', closed', (l :: ls'), p. split_and!; [done|done|done| | |by constructor| |].
      * rw Hn. split; [done|]. by exists e'.
      * intros l' [_ Hl']%not_elem_of_cons. by apply Hframe.
      * intros l' [->|Hl']%elem_of_cons; [by rw /thread_at He' He /= Hte|by apply Hth].
      * destruct (find_first _ ls); [by destruct Hspec as [-> ->]|]. by destruct Hspec as (-> & -> & -> & ->).
Qed.

#[global] Arguments remove_server_thread_loop : simpl never.

(** [remove_server_thread] on a well-formed list that is not empty. *)
Lemma remove_server_thread_spec t h closed l ls :
  chain h (Some l) (l :: ls) → NoDup (l :: ls) →
  ∃ code head' h' closed' released ls',
    remove_server_thread t (Some l) h closed = Some (code, head', h', closed', released) ∧
    chain h' head' ls' ∧ sublist ls' (l :: ls) ∧ (∀ l', l' ∉ l :: ls → h' !! l' = h !! l') ∧
    ((thread_at h l = Some t ∧ released = false ∧ code = 0 ∧ ls' = ls) ∨
     (thread_at h l ≠ Some t ∧ released = true ∧ head' = Some l ∧
      match find_first (λ l, bool_decide (thread_at h l = Some t)) ls with
      | Some _ => code = 0 ∧ ls' = l :: remove_first (λ l, bool_decide (thread_at h l = Some t)) ls
      | None => code = 1 ∧ h' = h ∧ closed' = closed ∧ ls' = l :: ls
      end)).
Proof.
  intros (_ & e & He & Hc) Hnd. rw /remove_server_thread /= He /= /thread_at He /=.
  destruct (Z.eqb_spec (server_thread e) t) as [<-|Hne].
  - eexists 0, (next e), _, _, false, ls. split; [done|].
    split_and!; [|by apply sublist_cons| |by left].
    + eapply chain_ext; [|exact Hc]. intros l' Hl'. apply lookup_delete_ne. intros ->.
      by apply NoDup_cons in Hnd as [? _].
    + intros l' [Hl' _]%not_elem_of_cons. by apply lookup_delete_ne, not_eq_sym.
  - destruct (remove_loop_spec (S (size h)) t l ls h closed e) as
      (code & h' & closed' & ls' & e' & Hrun & He' & _ & Hc' & Hframe & Hsub & _ & Hspec); [done..| |].
    { pose proof (chain_length h (Some l) (l :: ls)) as Hlen. simpl in Hlen.
      specialize (Hlen (conj eq_refl (ex_intro _ e (conj He Hc))) Hnd). lia. }
    rw Hrun /=. exists code, (Some l), h', closed', true, (l :: ls').
    split_and!; [done|split; [done|by exists e']|by constructor|done|].
    right. split_and!; [congruence|done|done|].
    destruct (find_first _ ls); [by destruct Hspec as [-> ->]|by destruct Hspec as (-> & -> & -> & ->)].
Qed.

Lemma chain_lookup h p ls l : chain h p ls → l ∈ ls → is_Some (h !! l).
Proof.
  revert p. induction ls as [|l' ls IH]; intros p; [by intros _ ?%elem_of_nil|].
  intros (_ & e & He & Hc) [->|Hl]%elem_of_cons; [by rw He|exact (IH _ Hc Hl)].
Qed.

(** * The invariant *)

(** The list is well formed with its entries at [ls]; the entry that is being
    added is outside of it and points to its head; and the mutex is held by
    whoever is in a critical section, or by a thread that has returned. *)
Record inv (s : system) (ls : list loc) : Prop := mkInv {
  inv_chain : chain (mem s) (head s) ls;
  inv_nodup : NoDup ls;
  inv_main : match main s with
             | Adding l => (l ∉ ls) ∧ ∃ e, mem s !! l = Some e ∧ (next e = head s ∨ stuck s)
             | AddingLocked l => (l ∉ ls) ∧ mutex s = Some Main ∧ ∃ e, mem s !! l = Some e ∧ next e = head s
             | _ => mutex s ≠ Some Main
             end;
  inv_adding : ∀ l, main s = Adding l → mutex s ≠ Some Main;
  inv_worker : ∀ t, workers s !! t = Some RemovingLocked → mutex s = Some (Worker t);
  inv_holder : ∀ t, mutex s = Some (Worker t) →
                 workers s !! t = Some RemovingLocked ∨ workers s !! t = Some Finished }.

Lemma inv_initial : inv initial [].
Proof. by constructor; [constructor|constructor|..]. Qed.

(** A step of a thread that neither holds nor takes the mutex. *)
Lemma inv_set_worker s ls t pc :
  inv s ls → (∀ pc', workers s !! t = Some pc' → pc' = Serving) → pc ≠ RemovingLocked →
  inv (set_worker t pc s) ls ∧ (stuck s → stuck (set_worker t pc s)).
Proof.
  intros Hi Ht Hpc.
  assert (mutex s ≠ Some (Worker t)) as Hm.
  { intros [Hw|Hw]%(inv_holder _ _ Hi); by apply Ht in Hw. }
  assert (stuck s → stuck (set_worker t pc s)) as Hst.
  { intros (t' & Hm' & Hw'). exists t'. split; [done|]. simpl. rw lookup_insert_ne //. congruence. }
  split; [|done]. destruct Hi as [Hc Hnd Hmain Hadd Hwk Hh]. constructor; simpl; [done|done| |done| |].
  - destruct (main s); [done|done| |done]. destruct Hmain as (? & e & ? & Hn). split; [done|]. exists e.
    split; [done|]. destruct Hn as [Hn|Hn]; [by left|right; by apply Hst].
  - intros t' Ht'. apply Hwk. destruct (decide (t = t')) as [->|]; [|by rw lookup_insert_ne in Ht'].
    rw lookup_insert_eq in Ht'. congruence.
  - intros t' Ht'. rw lookup_insert_ne; [congruence|by apply Hh].
Qed.

Lemma inv_allocate s ls t fd l :
  inv s ls → main s = Created t fd → mem s !! l = None →
  inv (mkSystem (<[l := new_entry t (TcpConnection (Some fd)) (head s)]> (mem s)) (head s)
         (closed_sockets s) (mutex s) (Adding l) (workers s)) ls.
Proof.
  intros [Hc Hnd Hmain Hadd Hwk Hh] Hm Hl. rw Hm in Hmain.
  assert (l ∉ ls) as Hin. { intros Hin. destruct (chain_lookup _ _ _ _ Hc Hin). congruence. }
  constructor; simpl; [|done| |done|done|done].
  - eapply chain_ext; [|exact Hc]. intros l' Hl'. apply lookup_insert_ne. by intros ->.
  - split; [done|]. eexists. by rw lookup_insert_eq; split; [|left].
Qed.

Lemma not_stuck s : mutex s = None → ¬ stuck s.
Proof. intros Hm (t & Ht & _). congruence. Qed.

Lemma inv_add_lock s ls l :
  inv s ls → main s = Adding l → mutex s = None →
  inv (set_main (AddingLocked l) (set_mutex (Some Main) s)) ls.
Proof.
  intros [Hc Hnd Hmain Hadd Hwk Hh] Hm Hx. rw Hm in Hmain. destruct Hmain as (Hl & e & He & Hn).
  constructor; simpl; [done|done| |done| |done].
  - split_and!; [done|done|]. exists e. split; [done|]. destruct Hn as [|Hst]; [done|by apply not_stuck in Hst].
  - intros t Ht%Hwk. congruence.
Qed.

Lemma inv_add s ls l :
  inv s ls → main s = AddingLocked l →
  inv (mkSystem (mem s) (Some l) (closed_sockets s) None Accepting (workers s)) (l :: ls).
Proof.
  intros [Hc Hnd Hmain Hadd Hwk Hh] Hm. rw Hm in Hmain. destruct Hmain as (Hl & Hx & e & He & Hn).
  constructor; simpl; [|by constructor|done|done| |done].
  - split; [done|]. exists e. by rw Hn.
  - intros t Ht%Hwk. congruence.
Qed.

Lemma inv_remove_lock s ls t :
  inv s ls → workers s !! t = Some Removing → mutex s = None →
  inv (set_worker t RemovingLocked (set_mutex (Some (Worker t)) s)) ls.
Proof.
  intros [Hc Hnd Hmain Hadd Hwk Hh] Ht Hx. constructor; simpl; [done|done| |done| |].
  - destruct (main s); [done|done| |destruct Hmain as (_ & ? & _); congruence].
    destruct Hmain as (Hl & e & He & Hn). split; [done|]. exists e. split; [done|]. left.
    destruct Hn as [|Hst]; [done|by apply not_stuck in Hst].
  - intros t' Ht'. destruct (decide (t = t')) as [->|]; [done|]. rw lookup_insert_ne // in Ht'.
    apply Hwk in Ht'. congruence.
  - intros t' [= <-]. left. by rw lookup_insert_eq.
Qed.

Lemma inv_remove s ls t code head' h closed released :
  inv s ls → workers s !! t = Some RemovingLocked →
  remove_server_thread t (head s) (mem s) (closed_sockets s) = Some (code, head', h, closed, released) →
  ∃ ls', inv (mkSystem h head' closed (if released : bool then None else mutex s) (main s)
                (<[t := Finished]> (workers s))) ls'.
Proof.
  intros [Hc Hnd Hmain Hadd Hwk Hh] Ht Hrun. pose proof (Hwk _ Ht) as Hx.
  assert (¬ stuck s) as Hns. { intros (t' & Ht' & Hf). congruence. }
  destruct ls as [|l ls]; [by rw /= in Hc; rw Hc in Hrun|]. pose proof Hc as (Hhd & _). rw Hhd in Hc, Hrun.
  destruct (remove_server_thread_spec t (mem s) (closed_sockets s) l ls Hc Hnd)
    as (code' & hd & h' & closed' & rel & ls' & Hrun' & Hc' & Hsub & Hframe & Hcase).
  rw Hrun' in Hrun. injection Hrun as <- <- <- <- <-. exists ls'.
  constructor; simpl; [done|exact (sublist_NoDup _ _ Hnd Hsub)| | | |].
  - destruct (main s); [by destruct rel|by destruct rel| |destruct Hmain as (_ & ? & _); congruence].
    destruct Hmain as (Hl & e & He & Hn). split; [intros Hin; exact (Hl (elem_of_sublist _ _ _ Hin Hsub))|].
    exists e. split; [by rw (Hframe _ Hl)|]. destruct Hn as [Hn|]; [|done].
    destruct Hcase as [(_ & -> & _)|(_ & -> & -> & _)]; [right|left; congruence].
    exists t. by rw /= lookup_insert_eq.
  - intros l' Hl'. destruct rel; [done|by apply (Hadd l')].
  - intros t' Ht'. destruct (decide (t = t')) as [->|]; [by rw lookup_insert_eq in Ht'|].
    rw lookup_insert_ne // in Ht'. apply Hwk in Ht'. congruence.
  - intros t' Ht'. right. destruct rel; [done|]. assert (t' = t) as -> by congruence. by rw lookup_insert_eq.
Qed.

Lemma inv_step s s' ls : inv s ls → step s s' → ∃ ls', inv s' ls'.
Proof.
  intros Hi Hst. destruct Hst as [s t fd Hm Ht|s t fd l Hm Hl|s l Hm Hx|s l Hm|s t Ht|s t Ht|s t Ht Hx|s t ? ? ? ? ? Ht Hrun].
  - destruct (inv_set_worker s ls t Serving Hi) as [[? ? Hmain ? ? ?] _]; [by rw Ht|done|].
    exists ls. simpl in Hmain. rw Hm in Hmain. by constructor.
  - exists ls. by apply inv_allocate.
  - exists ls. by apply inv_add_lock.
  - exists (l :: ls). by apply inv_add.
  - exists ls. apply inv_set_worker; [done|by rw Ht; intros ? [= <-]|done].
  - exists ls. apply inv_set_worker; [done|by rw Ht; intros ? [= <-]|done].
  - exists ls. by apply inv_remove_lock.
  - exact (inv_remove _ _ _ _ _ _ _ _ Hi Ht Hrun).
Qed.

Lemma reachable_inv s : reachable s → ∃ ls, inv s ls.
Proof.
  revert s. apply (rtc_ind_r (λ s, ∃ ls, inv s ls) initial); [by exists []; apply inv_initial|]. intros s1 s2 _ Hst [ls Hi]. exact (inv_step _ _ _ Hi Hst).
Qed.

(** A step out of a stuck state: the list and the mutex stay as they are. *)
Lemma stuck_step s s' ls :
  inv s ls → stuck s → step s s' →
  inv s' ls ∧ stuck s' ∧ head s' = head s ∧ (∀ l, l ∈ ls → mem s' !! l = mem s !! l).
Proof.
  intros Hi Hs Hst. pose proof Hs as (t0 & Hx0 & Hw0).
  destruct Hst as [s t fd Hm Ht|s t fd l Hm Hl|s l Hm Hx|s l Hm|s t Ht|s t Ht|s t Ht Hx|s t ? ? ? ? ? Ht Hrun];
    try congruence.
  - destruct (inv_set_worker s ls t Serving Hi) as [[? ? Hmain ? ? ?] Hs']; [by rw Ht|done|].
    simpl in Hmain. rw Hm in Hmain. split_and!; [by constructor| |done|done]. by apply Hs'.
  - split_and!; [by apply inv_allocate|by exists t0|done|]. intros l' Hl'. apply lookup_insert_ne. intros ->.
    destruct (chain_lookup _ _ _ _ (inv_chain _ _ Hi) Hl'). congruence.
  - pose proof (inv_main _ _ Hi) as Hmain. rw Hm in Hmain. destruct Hmain as (_ & ? & _). congruence.
  - destruct (inv_set_worker s ls t Finished Hi) as [? Hs']; [by rw Ht; intros ? [= <-]|done|]. by auto.
  - destruct (inv_set_worker s ls t Removing Hi) as [? Hs']; [by rw Ht; intros ? [= <-]|done|]. by auto.
  - apply (inv_worker _ _ Hi) in Ht as Hx. congruence.
Qed.

Lemma stuck_forever s s' ls :
  rtc step s s' → inv s ls → stuck s →
  inv s' ls ∧ stuck s' ∧ head s' = head s ∧ (∀ l, l ∈ ls → mem s' !! l = mem s !! l).
Proof.
  induction 1 as [s|s1 s2 s3 Hst _ IH]; intros Hi Hs; [done|].
  destruct (stuck_step _ _ _ Hi Hs Hst) as (Hi2 & Hs2 & Hh2 & Hm2).
  destruct (IH Hi2 Hs2) as (Hi3 & Hs3 & Hh3 & Hm3). split_and!; [done|done|congruence|].
  intros l Hl. by rw Hm3 // Hm2.
Qed.

(** * Theorems *)

(** C29: however the threads are interleaved, the list of threads stays a list: from
    the head, following the pointers leads through distinct entries that are
    all allocated, and ends; and at most one thread at a time is in a critical
    section of the list. *)
Theorem thread_list_stays_well_formed s (Hs : reachable s) :
  (∃ ls, chain (mem s) (head s) ls ∧ NoDup ls) ∧
  (∀ t t', workers s !! t = Some RemovingLocked → workers s !! t' = Some RemovingLocked → t = t') ∧
  (∀ t l, workers s !! t = Some RemovingLocked → main s ≠ AddingLocked l).
Proof.
  destruct (reachable_inv s Hs) as [ls [Hc Hnd Hmain Hadd Hwk Hh]]. split_and!; [by exists ls| |].
  - intros t t' Ht%Hwk Ht'%Hwk. congruence.
  - intros t l Ht%Hwk Hm. rw Hm in Hmain. destruct Hmain as (_ & ? & _). congruence.
Qed.

(** A thread that removes itself while its entry is the first of the list
    returns with the mutex held: from then on, whatever the threads do, the
    mutex is never free again and the list never changes, so that no new
    connection is registered and no thread is removed. *)
Theorem removing_the_first_thread_deadlocks s t l
    (Hs : reachable s) (Ht : workers s !! t = Some RemovingLocked)
    (Hhead : head s = Some l) (Hl : thread_at (mem s) l = Some t) :
  ∃ s1, step s s1 ∧ workers s1 !! t = Some Finished ∧
    ∀ s2, rtc step s1 s2 →
      mutex s2 ≠ None ∧ head s2 = head s1 ∧
      ∃ ls, chain (mem s1) (head s1) ls ∧ chain (mem s2) (head s2) ls.
Proof.
  destruct (reachable_inv s Hs) as [ls Hi]. pose proof (inv_chain _ _ Hi) as Hc. rw Hhead in Hc.
  destruct ls as [|l' ls]; [done|]. pose proof Hc as ([= <-] & _).
  destruct (remove_server_thread_spec t (mem s) (closed_sockets s) l ls Hc (inv_nodup _ _ Hi))
    as (code & hd & h & closed & rel & ls' & Hrun & _ & _ & _ & Hcase).
  destruct Hcase as [(_ & -> & _)|(Hne & _)]; [|done]. rw -Hhead in Hrun.
  destruct (inv_remove _ _ _ _ _ _ _ _ Hi Ht Hrun) as [ls1 Hi1].
  eexists. split; [exact (step_remove _ _ _ _ _ _ _ Ht Hrun)|]. split; [by rw /= lookup_insert_eq|].
  intros s2 Hrtc. destruct (stuck_forever _ _ ls1 Hrtc Hi1) as (Hi2 & (t' & Hx & _) & Hh & _).
  - exists t. simpl. rw lookup_insert_eq. split; [|done]. exact (inv_worker _ _ Hi t Ht).
  - split_and!; [congruence|done|]. exists ls1. split; [exact (inv_chain _ _ Hi1)|exact (inv_chain _ _ Hi2)].
Qed.

(** The server can crash on its very first connection: the thread of the
    connection is started before it is registered, and when its first call fails
    at once it looks for itself in a list that is still empty, without a test
    for that. *)
Theorem unregistered_thread_crashes : ∃ s, reachable s ∧ crashes s.
Proof.
  exists (set_worker 1 RemovingLocked (set_mutex (Some (Worker 1))
           (set_worker 1 Removing (set_main (Created 1 7) (set_worker 1 Serving initial))))).
  split; [|by exists 1; rw /= lookup_insert_eq].
  eapply rtc_l; [by apply (step_accept initial 1 7)|].
  eapply rtc_l; [apply (step_failed _ 1); by rw /= lookup_insert_eq|].
  eapply rtc_l; [apply (step_remove_lock _ 1); [by rw /= lookup_insert_eq|done]|]. apply rtc_refl.
Qed.

(** * Witnesses *)

(** The states of a server that registers its first connection, whose first
    call then fails. *)
Definition registered : system :=
  mkSystem {[ 100 := mkEntry 1 (TcpConnection (Some 7)) None ]} (Some 100) [] None Accepting {[ 1 := Serving ]}.

Definition giving_up : system :=
  set_worker 1 RemovingLocked (set_mutex (Some (Worker 1)) (set_worker 1 Removing registered)).

Lemma registered_reachable : reachable registered.
Proof.
  eapply rtc_l; [by apply (step_accept initial 1 7)|].
  eapply rtc_l; [by apply (step_allocate _ 1 7 100)|].
  eapply rtc_l; [by apply (step_add_lock _ 100)|].
  eapply rtc_l; [by apply (step_add _ 100)|]. apply rtc_refl.
Defined.

Lemma giving_up_reachable : reachable giving_up.
Proof.
  eapply rtc_trans; [exact registered_reachable|].
  eapply rtc_l; [by apply (step_failed _ 1)|]. eapply rtc_l; [by apply (step_remove_lock _ 1)|]. apply rtc_refl.
Defined.

Lemma thread_list_witness : ∃ ls, chain (mem registered) (head registered) ls ∧ NoDup ls.
Proof. exact (proj1 (thread_list_stays_well_formed registered registered_reachable)). Defined.

Lemma deadlock_witness :
  ∃ s1, step giving_up s1 ∧ ∀ s2, rtc step s1 s2 → mutex s2 ≠ None ∧ head s2 = head s1.
Proof.
  destruct (removing_the_first_thread_deadlocks giving_up 1 100 giving_up_reachable)
    as (s1 & Hst & _ & Hall); [done|done|done|].
  exists s1. split; [exact Hst|]. intros s2 Hrtc. destruct (Hall s2 Hrtc) as (H1 & H2 & _). by split.
Defined.
