(* ===== verification/ServerShutdown.v ===== *)
(** The shutdown of the server's threads on SIGTERM: [handle_signal]
    ([src/nfs/server/server.c]) calls [clean_up_nfs_server_threads_list]
    ([src/nfs/server/nfs_server_threads.c]) in the thread that accepts connections,
    which stays where the signal interrupted it, while the threads of the
    connections go on. The threads are those of [ServerThreads]; the handler adds its
    own steps. That the signal is delivered to the accepting thread, and not to the
    thread of a connection, is assumed. *)
From S2P Require Import Prelude ServerThreads.

(** * The handler *)

(** Where the handler is: called with the head of the list, which is read before
    the mutex is taken; at the head of its loop, with the mutex; in [pthread_join]
    of the thread of an entry, which it has cancelled; and behind
    [pthread_mutex_unlock]. *)
Inductive handler_pc :=
  | Called (nfs_server_threads_list : option loc)
  | Walking (curr_entry : option loc)
  | Joining (curr_entry : loc) (next : option loc)
  | Unlocked.

Record shutdown := mkShutdown { threads : system; handler : handler_pc }.

(** SIGTERM arrives. *)
Definition signalled (s : system) : shutdown := mkShutdown s (Called (head s)).

(** A cancelled thread ends at its next cancellation point; locking a mutex is
    none. Threads that are not being joined, and the joined one until it is at a
    cancellation point, go on as before; the accepting thread does not. *)
Inductive shutdown_step : shutdown → shutdown → Prop :=
  | shut_lock s p :
      mutex s = None → shutdown_step (mkShutdown s (Called p)) (mkShutdown (set_mutex (Some Main) s) (Walking p))
  | shut_cancel s l e :
      mem s !! l = Some e → shutdown_step (mkShutdown s (Walking (Some l))) (mkShutdown s (Joining l (next e)))
  | shut_cancelled s l n e :
      mem s !! l = Some e → workers s !! server_thread e = Some Serving →
      shutdown_step (mkShutdown s (Joining l n)) (mkShutdown (set_worker (server_thread e) Finished s) (Joining l n))
  | shut_join s l n e h closed :
      mem s !! l = Some e → workers s !! server_thread e = Some Finished →
      clean_up_nfs_server_threads_list_entry (Some l) (mem s) (closed_sockets s) = Some (h, closed) →
      shutdown_step (mkShutdown s (Joining l n))
        (mkShutdown (mkSystem h (head s) closed (mutex s) (main s) (workers s)) (Walking n))
  | shut_unlock s :
      shutdown_step (mkShutdown s (Walking None)) (mkShutdown (set_mutex None s) Unlocked)
  | shut_worker s s' pc :
      step s s' → main s' = main s → shutdown_step (mkShutdown s pc) (mkShutdown s' pc).

(** The handler is about to use an entry that has been freed. *)
Definition handler_crashes (x : shutdown) : Prop :=
  match handler x with
  | Walking (Some l) | Joining l _ => mem (threads x) !! l = None
  | _ => False
  end.

(** ** What the handler leaves behind *)

(** The socket that is closed with an entry. *)
Definition socket_at (h : heap) (l : loc) : list Z :=
  match transport_connection <$> h !! l with Some (TcpConnection (Some fd)) => [fd] | _ => [] end.

(** [s'] is [s] without the entries [ls], whose sockets are closed and whose threads
    have ended. *)
Record cancelled (ls : list loc) (s s' : system) : Prop := mkCancelled {
  cancelled_mem : ∀ l, mem s' !! l = if decide (l ∈ ls) then None else mem s !! l;
  cancelled_head : head s' = head s;
  cancelled_sockets : Permutation (closed_sockets s') (concat (socket_at (mem s) <$> ls) ++ closed_sockets s);
  cancelled_threads : ∀ l e, l ∈ ls → mem s !! l = Some e → workers s' !! server_thread e = Some Finished }.

(** * Lemmas *)

#[local] Arguments clean_up_nfs_server_threads_list_entry : simpl never.

(** ** Steps of the connections' threads *)

(** A step that is not one of the accepting thread: what it does to one worker, or
    the removal of an entry. *)
Lemma worker_step s s' :
  step s s' → main s' = main s →
  (∃ t pc, s' = set_worker t pc s ∧ workers s !! t = Some Serving ∧ (pc = Finished ∨ pc = Removing)) ∨
  (∃ t, s' = set_worker t RemovingLocked (set_mutex (Some (Worker t)) s) ∧ workers s !! t = Some Removing ∧ mutex s = None) ∨
  (∃ t code head' h closed released, workers s !! t = Some RemovingLocked ∧
     remove_server_thread t (head s) (mem s) (closed_sockets s) = Some (code, head', h, closed, released) ∧
     s' = mkSystem h head' closed (if released : bool then None else mutex s) (main s) (<[t := Finished]> (workers s))).
Proof.
  intros Hst Hm. destruct Hst as [s t fd Hx|s t fd l Hx|s l Hx|s l Hx|s t Ht|s t Ht|s t Ht Hx|s t ? ? ? ? ? Ht Hr];
    simpl in Hm; rw ?Hx in Hm; try done.
  - left. eexists t, _. eauto.
  - left. eexists t, _. eauto.
  - right. left. eauto.
  - right. right. eauto 10.
Qed.

(** Threads are not forgotten: every entry is that of a thread that was started. *)
Definition started_threads (s : system) : Prop :=
  (∀ l e, mem s !! l = Some e → is_Some (workers s !! server_thread e)) ∧
  (∀ t fd, main s = Created t fd → is_Some (workers s !! t)).

Lemma clean_up_entry_heap o h closed h' closed' l e' :
  clean_up_nfs_server_threads_list_entry o h closed = Some (h', closed') → h' !! l = Some e' → h !! l = Some e'.
Proof.
  rw /clean_up_nfs_server_threads_list_entry. destruct o as [l0|]; [|by intros [= <- <-]].
  destruct (h !! l0); [|done]. intros [= <- _]. by intros [_ ?]%lookup_delete_Some.
Qed.

Lemma remove_loop_threads fuel t prev curr h closed code h' closed' l e' :
  remove_server_thread_loop fuel t prev curr h closed = Some (code, h', closed') → h' !! l = Some e' →
  ∃ e, h !! l = Some e ∧ server_thread e' = server_thread e.
Proof.
  revert prev curr. induction fuel as [|fuel IH]; intros prev curr; [done|]. rw /remove_server_thread_loop -/remove_server_thread_loop.
  destruct curr as [l1|]; [|intros [= <- <- <-]; eauto].
  destruct (h !! l1) as [e1|]; [|done]. simpl. destruct (_ =? _); [|apply IH].
  destruct (h !! prev) as [p|] eqn:Hp; [|done]. cbn [mbind option_bind].
  destruct (clean_up_nfs_server_threads_list_entry _ _ _) as [[h1 c1]|] eqn:Hc; [|done]. intros [= <- <- <-] He.
  pose proof (clean_up_entry_heap _ _ _ _ _ _ _ Hc He) as He1.
  apply lookup_insert_Some in He1 as [[<- <-]|[_ He1]]; eauto.
Qed.

Lemma remove_threads t hd h closed code hd' h' closed' released l e' :
  remove_server_thread t hd h closed = Some (code, hd', h', closed', released) → h' !! l = Some e' →
  ∃ e, h !! l = Some e ∧ server_thread e' = server_thread e.
Proof.
  rw /remove_server_thread. destruct hd as [first|]; [|done]. simpl. destruct (h !! first) as [e|]; [|done]. simpl.
  destruct (_ =? _).
  - destruct (clean_up_nfs_server_threads_list_entry (Some first) h closed) as [[h1 c1]|] eqn:Hc; [|done].
    intros [= <- <- <- <- <-] He. exists e'. split; [|done]. exact (clean_up_entry_heap _ _ _ _ _ _ _ Hc He).
  - destruct (remove_server_thread_loop _ _ _ _ _ _) as [[[c1 h1] cl1]|] eqn:Hl; [|done].
    intros [= <- <- <- <- <-]. exact (remove_loop_threads _ _ _ _ _ _ _ _ _ _ _ Hl).
Qed.

Lemma started_insert t pc (ws : gmap pthread_t worker_pc) t' : is_Some (ws !! t') → is_Some (<[t := pc]> ws !! t').
Proof. intros Hw. rw lookup_insert. by case_decide. Qed.

Lemma started_step s s' : step s s' → started_threads s → started_threads s'.
Proof.
  intros Hst [Hm Hc]. destruct Hst as [s t fd Hx Ht|s t fd l Hx Hl|s l Hx _|s l Hx|s t Ht|s t Ht|s t Ht Hx|s t ? ? ? ? ? Ht Hr];
    split; simpl; try done; try (intros; apply started_insert; eauto; done).
  - intros t' fd' [= <- _]. rw lookup_insert_eq. eauto.
  - intros l' e'. rw lookup_insert. case_decide; [intros [= <-]; by apply (Hc t fd)|apply Hm].
  - intros l' e' He'. destruct (remove_threads _ _ _ _ _ _ _ _ _ _ _ Hr He') as (e & He & ->). eapply started_insert, Hm, He.
Qed.

Lemma reachable_started s : reachable s → started_threads s.
Proof.
  revert s. apply (rtc_ind_r started_threads initial); [by split|]. intros s1 s2 _ Hst. by apply started_step.
Qed.

(** ** What a run keeps *)

Definition locked_by_workers (s : system) : Prop :=
  ∀ t, workers s !! t = Some RemovingLocked → mutex s = Some (Worker t).

(** [s1] is the state in which the handler got the mutex; it has freed [gone], and
    [ls] are left. *)
Definition walked (s0 s1 s : system) (gone ls : list loc) : Prop :=
  rtc step s0 s1 ∧ chain (mem s1) (head s1) (gone ++ ls) ∧ NoDup (gone ++ ls) ∧ cancelled gone s1 s.

Definition shutdown_inv (s0 : system) (x : shutdown) : Prop :=
  let s := threads x in
  started_threads s ∧ locked_by_workers s ∧
  match handler x with
  | Called p => rtc step s0 s ∧ (∃ ls, inv s ls) ∧ (p = head s ∨ stuck s)
  | Walking p => mutex s = Some Main ∧ ∃ s1 gone ls, walked s0 s1 s gone ls ∧ chain (mem s) p ls
  | Joining l n =>
      mutex s = Some Main ∧ ∃ s1 gone ls e, walked s0 s1 s gone (l :: ls) ∧
        mem s !! l = Some e ∧ n = next e ∧ chain (mem s) n ls
  | Unlocked => ∃ s1 ls, walked s0 s1 s ls []
  end.

Lemma cancelled_set_worker ls s1 s t pc pc' :
  workers s !! t = Some pc → pc ≠ Finished → cancelled ls s1 s → cancelled ls s1 (set_worker t pc' s).
Proof.
  intros Ht Hpc [Hm Hh Hs Hw]. split; [done|done|done|]. intros l e Hl He. simpl.
  rw lookup_insert_ne; [|by apply (Hw l)]. intros ->. rw (Hw l e Hl He) in Ht. congruence.
Qed.

Lemma cancelled_set_mutex ls s1 s o : cancelled ls s1 s → cancelled ls s1 (set_mutex o s).
Proof. by intros [Hm Hh Hs Hw]. Qed.

Lemma walked_set_worker s0 s1 s gone ls t pc pc' :
  workers s !! t = Some pc → pc ≠ Finished → walked s0 s1 s gone ls → walked s0 s1 (set_worker t pc' s) gone ls.
Proof. intros Ht Hpc (? & ? & ? & ?). split_and!; try done. by apply (cancelled_set_worker _ _ _ _ pc). Qed.

(** An entry that is freed joins those that are gone. *)
Lemma walked_join s0 s1 s gone l ls e h closed :
  walked s0 s1 s gone (l :: ls) → mem s !! l = Some e → workers s !! server_thread e = Some Finished →
  clean_up_nfs_server_threads_list_entry (Some l) (mem s) (closed_sockets s) = Some (h, closed) →
  walked s0 s1 (mkSystem h (head s) closed (mutex s) (main s) (workers s)) (gone ++ [l]) ls ∧ h = delete l (mem s).
Proof.
  intros (Hr & Hc & Hnd & [Hm Hh Hs Hw]) He Hf. rw /clean_up_nfs_server_threads_list_entry He /=. intros [= <- <-].
  split; [|done]. rw /walked -app_assoc. split_and!; [done..|].
  assert (l ∉ gone) as Hl. { apply NoDup_app in Hnd as (_ & Hd & _). intros Hin. apply (Hd l Hin). constructor. }
  assert (mem s1 !! l = Some e) as He1. { rw Hm in He. by case_decide. }
  split; simpl; [|done|..].
  - intros l'. rw lookup_delete Hm. repeat case_decide; set_solver.
  - rw fmap_app concat_app /= app_nil_r /socket_at He1 /= -app_assoc.
    rw (_ : match transport_connection e with TcpConnection (Some fd) => fd :: closed_sockets s | _ => closed_sockets s end =
            (match transport_connection e with TcpConnection (Some fd) => [fd] | _ => [] end) ++ closed_sockets s).
    { by destruct (transport_connection e) as [[fd|]|]. }
    rw Hs. apply Permutation_app_swap_app.
  - intros l' e' [Hin| ->%list_elem_of_singleton]%elem_of_app He'; [by apply (Hw l')|]. congruence.
Qed.

(** Nobody can be removed from the freed list. *)
Lemma walked_all_no_removal s0 s1 s ls t : walked s0 s1 s ls [] → remove_server_thread t (head s) (mem s) (closed_sockets s) = None.
Proof.
  intros (_ & Hc & _ & [Hm Hh _ _]). rw app_nil_r in Hc. rw Hh. destruct ls as [|l ls]; [by rw /= in Hc; rw Hc|].
  destruct Hc as (-> & _). rw /remove_server_thread /= Hm decide_True; [constructor|done].
Qed.

Lemma locked_step s s' : step s s' → main s' = main s → locked_by_workers s → locked_by_workers s'.
Proof.
  intros Hst Hmain Hl t' Ht'.
  destruct (worker_step s s' Hst Hmain) as [(t & pc & -> & Ht & Hpc)|[(t & -> & Ht & Hx)|(t & ? & ? & ? & ? & ? & Ht & _ & ->)]];
    simpl in *; apply lookup_insert_Some in Ht' as [[-> ?]|[Hne Ht']]; try (by destruct Hpc; congruence); try congruence.
  - by apply Hl.
  - apply Hl in Ht'. congruence.
  - apply Hl in Ht. apply Hl in Ht'. congruence.
Qed.

(** While the handler waits, the head of the list changes only if the mutex is lost. *)
Lemma head_step s s' ls p :
  inv s ls → step s s' → main s' = main s → p = head s ∨ stuck s → p = head s' ∨ stuck s'.
Proof.
  intros Hi Hst Hmain [->|Hs]; [|right; by apply (stuck_step s s' ls)].
  destruct (worker_step s s' Hst Hmain)
    as [(t & pc & -> & _)|[(t & -> & _)|(t & code & hd & h & closed & rel & Ht & Hr & ->)]]; [by left..|].
  destruct rel; simpl.
  - left. revert Hr. rw /remove_server_thread. destruct (head s) as [l|]; [|done]. simpl. destruct (mem s !! l); [|done].
    simpl. destruct (_ =? _); [by destruct (clean_up_nfs_server_threads_list_entry _ _ _) as [[]|]|].
    destruct (remove_server_thread_loop _ _ _ _ _ _) as [[[]]|]; [|done]. by intros [= _ -> _ _].
  - right. exists t. rw /= lookup_insert_eq. split; [|done]. by apply (inv_worker _ _ Hi).
Qed.

(** Steps of the connections' threads once the mutex is the handler's. *)
Lemma locked_out_step s s' :
  step s s' → main s' = main s → locked_by_workers s → mutex s = Some Main →
  ∃ t pc, s' = set_worker t pc s ∧ workers s !! t = Some Serving.
Proof.
  intros Hst Hmain Hl Hx.
  destruct (worker_step s s' Hst Hmain) as [(t & pc & -> & Ht & _)|[(t & -> & _ & ?)|(t & ? & ? & ? & ? & ? & Ht & _)]];
    [by exists t, pc|congruence|]. apply Hl in Ht. congruence.
Qed.

Lemma shutdown_inv_start s : reachable s → shutdown_inv s (signalled s).
Proof.
  intros Hs. destruct (reachable_inv s Hs) as [ls Hi]. split; [by apply reachable_started|]. split; [exact (inv_worker _ _ Hi)|].
  split; [apply rtc_refl|]. split; [by exists ls|by left].
Qed.

Lemma shutdown_inv_worker s0 s s' pc :
  step s s' → main s' = main s → shutdown_inv s0 (mkShutdown s pc) → shutdown_inv s0 (mkShutdown s' pc).
Proof.
  intros Hst Hmain (Hstart & Hl & Hpc). split; [by apply (started_step s)|]. split; [by apply (locked_step s)|]. simpl in *.
  destruct pc as [p|p|l n|].
  - destruct Hpc as (Hr & (ls & Hi) & Hp). split; [exact (rtc_r _ _ _ Hr Hst)|]. split; [by apply (inv_step s s' ls)|].
    by apply (head_step s s' ls).
  - destruct Hpc as (Hx & s1 & gone & ls & Hw & Hc). destruct (locked_out_step s s' Hst Hmain Hl Hx) as (t & pc & -> & Ht).
    split; [done|]. exists s1, gone, ls. split; [by apply (walked_set_worker _ _ _ _ _ _ Serving)|done].
  - destruct Hpc as (Hx & s1 & gone & ls & e & Hw & Hc). destruct (locked_out_step s s' Hst Hmain Hl Hx) as (t & pc & -> & Ht).
    split; [done|]. exists s1, gone, ls, e. split; [by apply (walked_set_worker _ _ _ _ _ _ Serving)|done].
  - destruct Hpc as (s1 & ls & Hw). exists s1, ls.
    destruct (worker_step s s' Hst Hmain) as [(t & pc & -> & Ht & _)|[(t & -> & Ht & _)|(t & ? & ? & ? & ? & ? & _ & Hr & _)]].
    + by apply (walked_set_worker _ _ _ _ _ _ Serving).
    + apply (walked_set_worker _ _ _ _ _ _ Removing); [done|done|]. destruct Hw as (? & ? & ? & ?). split_and!; try done.
      by apply cancelled_set_mutex.
    + by rw (walked_all_no_removal _ _ _ _ _ Hw) in Hr.
Qed.

Lemma shutdown_inv_step s0 x y : shutdown_step x y → shutdown_inv s0 x → shutdown_inv s0 y.
Proof.
  intros Hst. destruct Hst as [s p Hx|s l e He|s l n e He Ht|s l n e h closed He Ht Hc|s|s s' pc Hst Hmain].
  - intros (Hstart & Hl & Hr & (ls & Hi) & Hp). split; [done|]. split; [intros t Ht%Hl; simpl in *; congruence|].
    split; [done|]. destruct Hp as [->|Hstuck]; [|by apply not_stuck in Hstuck].
    exists s, [], ls. split; [|by apply (inv_chain _ _ Hi)]. split; [done|].
    split; [apply (inv_chain _ _ Hi)|]. split; [apply (inv_nodup _ _ Hi)|].
    by split; simpl; [| | |intros ?? ?%elem_of_nil].
  - intros (Hstart & Hl & Hx & s1 & gone & ls & Hw & Hc). split; [done|]. split; [done|]. split; [done|].
    destruct ls as [|l' ls]; [done|]. destruct Hc as ([= <-] & e' & He' & Hc). rw He in He'. injection He' as <-.
    exists s1, gone, ls, e. by split_and!.
  - intros (Hstart & Hl & Hx & s1 & gone & ls & e' & Hw & He' & -> & Hc). split; [|split].
    + destruct Hstart as [Hs1 Hs2]. split; simpl; intros; apply started_insert; eauto.
    + intros t' Ht'. simpl in Ht'. apply lookup_insert_Some in Ht' as [[_ ?]|[_ Ht']]; [done|by apply Hl].
    + split; [done|]. exists s1, gone, ls, e'. split_and!; [by apply (walked_set_worker _ _ _ _ _ _ Serving)|done..].
  - intros (Hstart & Hl & Hx & s1 & gone & ls & e' & Hw & He' & -> & Hch). rw He in He'. injection He' as <-.
    destruct (walked_join _ _ _ _ _ _ _ _ _ Hw He Ht Hc) as [Hw' ->]. split; [|split; [done|]].
    + destruct Hstart as [Hs1 Hs2]. split; [|done]. intros l' e'. simpl. intros [_ He']%lookup_delete_Some. by apply (Hs1 l').
    + split; [done|]. exists s1, (gone ++ [l]), ls. split; [done|]. eapply chain_ext; [|exact Hch].
      intros l' Hl'. apply lookup_delete_ne. intros <-. destruct Hw as (_ & _ & Hnd & _).
      apply NoDup_app in Hnd as (_ & _ & [Hnl _]%NoDup_cons). done.
  - intros (Hstart & Hl & Hx & s1 & gone & ls & Hw & Hc). split; [done|]. split; [intros t Ht%Hl; simpl in *; congruence|].
    destruct ls as [|l ls]; [|by destruct Hc]. exists s1, gone. destruct Hw as (? & ? & ? & ?). split_and!; try done.
    by apply cancelled_set_mutex.
  - by apply shutdown_inv_worker.
Qed.

Lemma shutdown_reachable s x : reachable s → rtc shutdown_step (signalled s) x → shutdown_inv s x.
Proof.
  intros Hs. revert x. apply (rtc_ind_r (shutdown_inv s)); [by apply shutdown_inv_start|].
  intros x y _ Hst. by apply shutdown_inv_step.
Qed.

(** ** Termination *)

(** How many steps a thread has left. *)
Definition weight (pc : worker_pc) : nat :=
  match pc with Serving => 3 | Removing => 2 | RemovingLocked => 1 | Finished => 0 end.

Definition total (ws : gmap pthread_t worker_pc) : nat := map_fold (λ _ pc n, weight pc + n)%nat O ws.

Lemma total_insert ws t pc pc' :
  ws !! t = Some pc → (total (<[t := pc']> ws) + weight pc = total ws + weight pc')%nat.
Proof.
  intros Ht. rw /total -insert_delete_eq (map_fold_insert_L _ _ t pc' (delete t ws));
    [intros; lia|by apply lookup_delete_eq|].
  rw -{2}(insert_delete_id ws t pc Ht) (map_fold_insert_L _ _ t pc (delete t ws)); [intros; lia|by apply lookup_delete_eq|]. lia.
Qed.

(** How many steps the handler has left, if the other threads do nothing. *)
Definition left_to_do (x : shutdown) : nat :=
  let n := size (mem (threads x) : gmap loc NfsServerThreadsList) in
  match handler x with Called _ => 2 * n + 2 | Walking _ => 2 * n + 1 | Joining _ _ => 2 * n | Unlocked => 0 end.

Lemma heap_delete_size (h : gmap loc NfsServerThreadsList) l e : h !! l = Some e → (size (delete l h) < size h)%nat.
Proof.
  intros He. rw (map_size_delete_Some _ _ (mk_is_Some _ _ He)). destruct (size h) eqn:Hk; [|simpl; lia].
  apply map_size_empty_inv in Hk. by rw Hk in He.
Qed.

Lemma shutdown_decreases x y :
  shutdown_step x y →
  (total (workers (threads y)) < total (workers (threads x)))%nat ∨
  (total (workers (threads y)) = total (workers (threads x)) ∧ left_to_do y < left_to_do x)%nat.
Proof.
  intros Hst. destruct Hst as [s p Hx|s l e He|s l n e He Ht|s l n e h closed He Ht Hc|s|s s' pc Hst Hmain]; simpl.
  - right. split; [done|]. rw /left_to_do /=. lia.
  - right. split; [done|]. rw /left_to_do /=. lia.
  - left. pose proof (total_insert _ _ _ Finished Ht). simpl in *. lia.
  - right. split; [done|]. revert Hc. rw /clean_up_nfs_server_threads_list_entry He /=. intros [= <- _].
    rw /left_to_do /=. pose proof (heap_delete_size (mem s) l e He). unfold heap in *. lia.
  - right. split; [done|]. rw /left_to_do /=. lia.
  - left. destruct (worker_step s s' Hst Hmain) as [(t & pc' & -> & Ht & Hpc)|[(t & -> & Ht & _)|(t & ? & ? & ? & ? & ? & Ht & _ & ->)]].
    + pose proof (total_insert _ _ _ pc' Ht). simpl in *. destruct Hpc as [-> | ->]; simpl in *; lia.
    + pose proof (total_insert _ _ _ RemovingLocked Ht). simpl in *. lia.
    + pose proof (total_insert _ _ _ Finished Ht). simpl in *. lia.
Qed.

Lemma shutdown_terminates x : sn shutdown_step x.
Proof.
  remember (total (workers (threads x))) as n eqn:Hn. revert x Hn.
  induction (lt_wf n) as [n _ IHn]. intros x Hn. remember (left_to_do x) as k eqn:Hk. revert x Hn Hk.
  induction (lt_wf k) as [k _ IHk]. intros x Hn Hk. constructor. intros y Hy.
  destruct (shutdown_decreases x y Hy) as [Hlt|[Heq Hlt]].
  - apply (IHn (total (workers (threads y)))); [lia|done].
  - apply (IHk (left_to_do y)); [lia|lia|done].
Qed.

(** ** How a run ends *)

(** Nobody goes on: the handler waits for a mutex that the interrupted thread itself
    holds, or that a thread has kept that is gone, or for a thread that waits for the
    mutex, which the handler holds. *)
Definition deadlocked (x : shutdown) : Prop :=
  match handler x with
  | Called _ => (∃ l, main (threads x) = AddingLocked l) ∨ stuck (threads x)
  | Joining l _ => ∃ e, mem (threads x) !! l = Some e ∧ workers (threads x) !! server_thread e = Some Removing
  | _ => False
  end.

Lemma mutex_holder s ls :
  inv s ls →
  match mutex s with
  | None => True
  | Some Main => ∃ l, main s = AddingLocked l
  | Some (Worker t) => workers s !! t = Some RemovingLocked ∨ stuck s
  end.
Proof.
  intros Hi. destruct (mutex s) as [[|t]|] eqn:Hx; [| |done].
  - pose proof (inv_main _ _ Hi) as Hm. destruct (main s) as [| |l|l] eqn:Hmain; try done; [|by exists l].
    by destruct (inv_adding _ _ Hi l Hmain).
  - destruct (inv_holder _ _ Hi t Hx); [by left|]. right. by exists t.
Qed.

Lemma shutdown_stops s0 x :
  shutdown_inv s0 x → (∀ y, ¬ shutdown_step x y) → handler x = Unlocked ∨ crashes (threads x) ∨ deadlocked x.
Proof.
  destruct x as [s pc]. intros (Hstart & Hl & Hpc) Hno. destruct pc as [p|[l|]|l n|]; simpl in *.
  - destruct Hpc as (_ & (ls & Hi) & _). pose proof (mutex_holder s ls Hi) as Hm.
    destruct (mutex s) as [[|t]|] eqn:Hx; [by right; right; left| |by destruct (Hno _ (shut_lock s p Hx))].
    destruct Hm as [Ht|Hs]; [|by right; right; right].
    destruct (remove_server_thread t (head s) (mem s) (closed_sockets s)) as [[[[[code hd] h] cl] rel]|] eqn:Hr;
      [|by right; left; exists t].
    by destruct (Hno _ (shut_worker s _ (Called p) (step_remove _ _ _ _ _ _ _ Ht Hr) eq_refl)).
  - destruct Hpc as (_ & s1 & gone & ls & _ & Hc). destruct ls as [|l' ls]; [done|]. destruct Hc as ([= <-] & e & He & _).
    by destruct (Hno _ (shut_cancel s l e He)).
  - by destruct (Hno _ (shut_unlock s)).
  - destruct Hpc as (Hx & s1 & gone & ls & e & _ & He & -> & _). destruct (proj1 Hstart l e He) as [[| | |] Ht].
    + by destruct (Hno _ (shut_cancelled s l (next e) e He Ht)).
    + right. right. by exists e.
    + apply Hl in Ht. congruence.
    + assert (∃ r, clean_up_nfs_server_threads_list_entry (Some l) (mem s) (closed_sockets s) = Some r) as [[h cl] Hc].
      { rw /clean_up_nfs_server_threads_list_entry He /=. eauto. }
      by destruct (Hno _ (shut_join s l (next e) e h cl He Ht Hc)).
  - by left.
Qed.

(** The walk along the list, when no thread of it is in the way. *)
Lemma walk_ends ls p s :
  chain (mem s) p ls → NoDup ls →
  (∀ l e, mem s !! l = Some e → workers s !! server_thread e = Some Serving ∨ workers s !! server_thread e = Some Finished) →
  ∃ s', rtc shutdown_step (mkShutdown s (Walking p)) (mkShutdown s' (Walking None)).
Proof.
  revert p s. induction ls as [|l ls IH]; intros p s Hc Hnd Hw; [simpl in Hc; subst p; exists s; apply rtc_refl|].
  destruct Hc as (-> & e & He & Hc). apply NoDup_cons in Hnd as [Hl Hnd].
  assert (∃ s1, rtc shutdown_step (mkShutdown s (Joining l (next e))) (mkShutdown s1 (Joining l (next e))) ∧ mem s1 = mem s ∧
    workers s1 !! server_thread e = Some Finished ∧
    ∀ l e, mem s !! l = Some e → workers s1 !! server_thread e = Some Serving ∨ workers s1 !! server_thread e = Some Finished)
    as (s1 & Hrun & Hmem & Hf & Hw1).
  { destruct (Hw l e He) as [Hs|Hf]; [|exists s; split_and!; try done; apply rtc_refl]. exists (set_worker (server_thread e) Finished s).
    split; [by apply rtc_once, shut_cancelled|]. split; [done|]. split; [by rw /= lookup_insert_eq|].
    intros l' e' He'. simpl. rw lookup_insert. case_decide; [by right|by apply (Hw l')]. }
  rw -Hmem in He. assert (∃ cl, clean_up_nfs_server_threads_list_entry (Some l) (mem s1) (closed_sockets s1) =
    Some (delete l (mem s1), cl)) as [cl Hcl] by (rw /clean_up_nfs_server_threads_list_entry He /=; eauto).
  destruct (IH (next e) (mkSystem (delete l (mem s1)) (head s1) cl (mutex s1) (main s1) (workers s1))) as [s' Hs'].
  { eapply chain_ext; [|exact Hc]. intros l' Hl'. simpl. rw Hmem. apply lookup_delete_ne. by intros ->. }
  { done. }
  { intros l' e' He'. simpl in He' |- *. apply lookup_delete_Some in He' as [_ He']. rw Hmem in He'. by apply (Hw1 l'). }
  exists s'. rw Hmem in He. eapply rtc_l; [exact (shut_cancel s l e He)|]. eapply rtc_trans; [exact Hrun|]. rw -Hmem in He.
  eapply rtc_l; [exact (shut_join s1 l (next e) e _ cl He Hf Hcl)|exact Hs'].
Qed.

Lemma shutdown_can_end s :
  reachable s → mutex s = None → (∀ l e, mem s !! l = Some e → workers s !! server_thread e ≠ Some Removing) →
  ∃ x, rtc shutdown_step (signalled s) x ∧ handler x = Unlocked.
Proof.
  intros Hs Hx Hr. destruct (reachable_inv s Hs) as [ls Hi]. destruct (reachable_started s Hs) as [Hst _].
  destruct (walk_ends ls (head s) (set_mutex (Some Main) s)) as [s' Hs'].
  { apply (inv_chain _ _ Hi). } { apply (inv_nodup _ _ Hi). }
  { intros l e He. simpl. destruct (Hst l e He) as [pc Hpc]. specialize (Hr l e He). rw Hpc in Hr |- *. destruct pc; [by left|done| |by right].
    apply (inv_worker _ _ Hi) in Hpc. congruence. }
  exists (mkShutdown (set_mutex None s') Unlocked). split; [|done].
  eapply rtc_l; [exact (shut_lock s (head s) Hx)|]. eapply rtc_r; [exact Hs'|apply shut_unlock].
Qed.

(** * Theorems *)

