(* ===== verification/QuicServer.v ===== *)
(** The server over QUIC: [src/transport/quic/quic_rpc_server.c]. The event
    loop calls [server_on_stream_readable] whenever data has arrived on a
    stream; the record of a call may arrive in any number of such events, and
    the events of many streams interleave.

    The server is specified by the same [answer] as over TCP: the streams are
    served independently of each other, and every call is answered on its own
    stream as soon as its last byte has arrived. *)
From S2P Require Import Prelude Messages Posix InodeCache Permissions FileManagement ReadDir.
From S2P Require Import ServerState ProcAttr ProcFile ProcCreate ProcRemove ProcMount RecordMarking.
From S2P Require Import RecordMarkingQuic QuicStreams Server Connections.

(** * The code *)

(** The part of [struct QuicServer] that the callbacks use. *)
Record QuicServer (OS W : Type) := mkQuicServer {
  qworld : world OS W;
  rm_receiving_contexts : RecordMarkingReceivingContextsList }.

Arguments mkQuicServer {OS W} qworld rm_receiving_contexts.
Arguments qworld {OS W} q.
Arguments rm_receiving_contexts {OS W} q.

Section quic_rpc_server.
Context `{Posix OS} `{Codec} `{QuicStream W} `{Memory}.
Abbreviation rpc := (rpc (OS:=OS) (W:=W)).

Definition send_rpc_reply_body_quic (conn stream_id : Z) : Rpc.ReplyBody → rpc Z :=
  send_rpc_reply_body (send_rm_record_quic conn stream_id).

Definition send_rpc_accepted_reply_message_quic (conn stream_id : Z) : reply → rpc Z :=
  send_rpc_accepted_reply_message (send_rpc_reply_body_quic conn stream_id).

Definition send_rpc_rejected_reply_message_quic (conn stream_id : Z) : Rpc.RejectedReply → rpc Z :=
  send_rpc_rejected_reply_message (send_rpc_reply_body_quic conn stream_id).

Definition send_auth_error_rejected_reply_quic (conn stream_id : Z) : Rpc.AuthStat → rpc Z :=
  send_auth_error_rejected_reply (send_rpc_reply_body_quic conn stream_id).

Definition validate_credential_and_verifier_quic (conn stream_id : Z)
    : option Rpc.OpaqueAuth → option Rpc.OpaqueAuth → rpc Z :=
  validate_credential_and_verifier (send_rpc_reply_body_quic conn stream_id).

(** The buffer may be NULL; the message is its first [size] bytes. *)
Definition handle_client_quic (rpc_call_buffer : option (list byte)) (rpc_call_buffer_size conn stream_id : Z)
    : rpc Z :=
  buffer ← orelse rpc_call_buffer 1;
  call_body ← decode_call (take (Z.to_nat rpc_call_buffer_size) buffer);
  process_call (send_rpc_reply_body_quic conn stream_id) call_body.

(** [memory]: whether the allocations for a new context succeed. [None]:
    undefined behaviour, or out of fuel. An error of the reading leaves the
    context as it is; one of the call only writes a message. *)
Definition server_on_stream_readable (fuel : nat) (memory : bool * bool) (conn stream_id : Z)
    (q : QuicServer OS W) : option (QuicServer OS W) :=
  let w := qworld q in
  let l := rm_receiving_contexts q in
  let '(error_code, l) :=
    if find_rm_receiving_context conn stream_id l >? 0
    then add_new_rm_receiving_context memory conn stream_id l else (0, l) in
  if error_code >? 0 then Some (mkQuicServer w l) else
  match get_rm_receiving_context conn stream_id l with
  | None => Some (mkQuicServer w l)
  | Some c =>
      '(error_code, c, n) ← receive_available_loop fuel c (net w);
      let w := mkWorld (srv w) n (next_xid w) in
      let l := set_rm_receiving_context conn stream_id c l in
      if error_code >? 0 then Some (mkQuicServer w l)
      else if record_fully_received c then
        '(_, w) ← run (handle_client_quic (accumulated_payloads c) (accumulated_payloads_size c)
                         conn stream_id) w;
        '(_, l) ← remove_rm_receiving_context conn stream_id l;
        Some (mkQuicServer w l)
      else Some (mkQuicServer w l)
  end.
End quic_rpc_server.

(** * Events *)

(** Pieces of data that arrive on a stream and make it readable; [call] is the
    call they start when the stream is not receiving one. *)
Record arrival := mkArrival { stream : key; pieces : list (list byte); starts : wire_call }.

Section events.
Context `{Posix OS} `{Codec} `{StreamArrivals W} `{Memory}.

Definition quic_event (fuel : nat) (ev : arrival) (q : QuicServer OS W) : option (QuicServer OS W) :=
  let w := qworld q in
  server_on_stream_readable fuel (true, true) (stream ev).1 (stream ev).2
    (mkQuicServer (mkWorld (srv w) (deliver (stream ev) (pieces ev) (net w)) (next_xid w))
       (rm_receiving_contexts q)).

Fixpoint quic_events (fuel : nat) (evs : list arrival) (q : QuicServer OS W) : option (QuicServer OS W) :=
  match evs with
  | [] => Some q
  | ev :: evs => q ← quic_event fuel ev q; quic_events fuel evs q
  end.
End events.

(** * Specification *)

(** The calls being received, each with the bytes that are still to come. *)
Abbreviation calls := (gmap key (wire_call * list byte)).

(** The call to which an arrival belongs and what is due of it. *)
Definition current (open : calls) (ev : arrival) : wire_call * list byte :=
  default (starts ev, wire_bytes (starts ev)) (open !! stream ev).

Section specification.
Context `{Posix OS} `{Codec}.

(** The arrivals one after the other: the replies with their streams, the
    calls still being received and the state. *)
Fixpoint answer_arrivals (evs : list arrival) (open : calls) (s : server_state OS)
    : option (list (key * Rpc.ReplyBody) * calls * server_state OS) :=
  match evs with
  | [] => Some ([], open, s)
  | ev :: evs =>
      let '(c, due) := current open ev in
      let rest := drop (length (concat (pieces ev))) due in
      if decide (rest = []) then
        '(b, _, s) ← answer (call_body c) s;
        '(replies, open, s) ← answer_arrivals evs (delete (stream ev) open) s;
        Some ((stream ev, b) :: replies, open, s)
      else answer_arrivals evs (<[stream ev := (c, rest)]> open) s
  end.

(** What arrives is what is due, and only calls arrive. *)
Fixpoint arrivals_ok (evs : list arrival) (open : calls) : Prop :=
  match evs with
  | [] => True
  | ev :: evs =>
      let '(c, due) := current open ev in
      let rest := drop (length (concat (pieces ev))) due in
      wire_call_ok (length (fragments (starts ev))) (starts ev) ∧ Forall (.≠ []) (pieces ev) ∧
      concat (pieces ev) `prefix_of` due ∧
      arrivals_ok evs (if decide (rest = []) then delete (stream ev) open
                       else <[stream ev := (c, rest)]> open)
  end.

(** The bytes are the records of those replies that belong to stream [k]; the
    replies of all streams are numbered from [xid] on. *)
Fixpoint carries_on (k : key) (xid : Z) (replies : list (key * Rpc.ReplyBody)) (bytes : list byte) : Prop :=
  match replies with
  | [] => bytes = []
  | (k', b) :: replies =>
      if decide (k' = k) then
        ∃ fs rest, bytes = encode_fragments fs ++ rest ∧ concat fs = pack_RpcMsg (reply_msg xid b) ∧
                   sendable_fragments fs ∧ carries_on k (xid + 1) replies rest
      else carries_on k (xid + 1) replies bytes
  end.
End specification.

(** * Lemmas *)

Section lemmas.
Context `{Posix OS} `{PackedSizeBounds, !CountRange, !PackSmall} `{StreamArrivals W} `{Memory}.
Implicit Types (w : world OS W) (q : QuicServer OS W) (k : key) (ev : arrival) (open : calls).

(** One record carrying [b] was sent on the stream. *)
Definition sent_on k (b : Rpc.ReplyBody) (n : W) (xid : Z) w' : Prop :=
  next_xid w' = xid + 1 ∧
  ∃ fs, concat fs = pack_RpcMsg (reply_msg xid b) ∧ sendable_fragments fs ∧
        wrote k (encode_fragments fs) n (net w').

Lemma quic_sends conn id : sends (send_rpc_reply_body_quic conn id) (sent_on (conn, id)).
Proof.
  intros b Q E w HQ.
  rw /send_rpc_reply_body_quic /send_rpc_reply_body /wp /mbind /prog_bind /generate_rpc_xid /on_net /=.
  destruct (send_rm_record_quic_live (length (pack_RpcMsg (reply_msg (next_xid w) b))) conn id
    (pack_RpcMsg (reply_msg (next_xid w) b)) (net w)) as (n & fs & Hs & Hcat & Hok & Hw); [apply pack_small|done|].
  rw /send_rm_record_quic -/(reply_msg (next_xid w) b) Hs /=. apply HQ; [|done].
  split; [done|]. by exists fs.
Qed.

(** A complete record that holds a call is answered on its stream. *)
Lemma handle_client_answers c conn id n b code s' w :
  wire_call_ok n c → answer (call_body c) (srv w) = Some (b, code, s') →
  ∃ w', run (handle_client_quic (Some (concat (fragments c))) (Z.of_nat (length (concat (fragments c)))) conn id) w =
          Some (code, w') ∧ srv w' = s' ∧ sent_on (conn, id) b (net w) (next_xid w) w'.
Proof.
  intros (_ & _ & _ & Hdec) Ha.
  set (Q := λ z w', z = code ∧ srv w' = s' ∧ sent_on (conn, id) b (net w) (next_xid w) w').
  assert (wp (handle_client_quic (Some (concat (fragments c))) (Z.of_nat (length (concat (fragments c)))) conn id)
    Q Q w) as (z & w' & Hr & -> & ? & ?)%wp_run; [|by exists w'].
  rw /handle_client_quic. wp_step. wp_step; [done|]. simplify_eq. rw /decode_call Nat2Z.id firstn_all Hdec.
  wp_step. wp_step. wp_step; [done|]. simplify_eq/=. wp_step.
  by apply (wp_process_call_answer _ _ (quic_sends conn id) (call_body c) b code s').
Qed.

(** One without an answer is undefined behaviour. *)
Lemma handle_client_crashes c conn id n w :
  wire_call_ok n c → answer (call_body c) (srv w) = None →
  run (handle_client_quic (Some (concat (fragments c))) (Z.of_nat (length (concat (fragments c)))) conn id) w = None.
Proof.
  intros (_ & _ & _ & Hdec) Ha.
  rw /handle_client_quic /decode_call /run /mbind /prog_bind /= Nat2Z.id firstn_all Hdec /=.
  by rw process_call_faults.
Qed.

(** A context in the middle of a call. *)
Definition receiving k (c : context) (x : wire_call * list byte) : Prop :=
  for_stream k.1 k.2 c ∧ expects c x.2 (concat (fragments x.1)) ∧ wire_call_ok (length (fragments x.1)) x.1.

(** The list of contexts has exactly the calls being received, and everything
    that has arrived has been read. *)
Definition quic_inv q open : Prop :=
  (∃ m, represents (rm_receiving_contexts q) m ∧ ∀ k, option_Forall2 (receiving k) (m !! k) (open !! k)) ∧
  ∀ conn id, pending conn id (net (qworld q)) = [].

Lemma wire_call_sendable n c : wire_call_ok n c → fragments c ≠ [] ∧ sendable_fragments (fragments c).
Proof. intros (Hne & Hfs & _). split; [|done]. by intros Hnil; rw Hnil in Hne. Qed.

(** The context of the call to which an arrival belongs is found or made. *)
Lemma context_for ev open l m :
  represents l m → (∀ k, option_Forall2 (receiving k) (m !! k) (open !! k)) →
  wire_call_ok (length (fragments (starts ev))) (starts ev) →
  ∃ l' m' c0,
    (if find_rm_receiving_context (stream ev).1 (stream ev).2 l >? 0
     then add_new_rm_receiving_context (true, true) (stream ev).1 (stream ev).2 l else (0, l)) = (0, l') ∧
    represents l' m' ∧ m' !! stream ev = Some c0 ∧ receiving (stream ev) c0 (current open ev) ∧
    ∀ k, k ≠ stream ev → m' !! k = m !! k.
Proof.
  destruct ev as [[conn id] ps c]. simpl. intros Hrep Hm Hok. rw (represents_find _ _ _ _ Hrep) /current /=.
  specialize (Hm (conn, id)). destruct (m !! (conn, id)) as [c0|] eqn:Hk; simpl.
  - exists l, m, c0. split_and!; try done. by inversion Hm as [? x Hx Hc Ho|].
  - set (c0 := create_rm_receiving_context conn id). exists (Some c0 :: l), (<[(conn, id) := c0]> m), c0.
    split_and!; [done|by apply represents_add|by apply lookup_insert_eq| |].
    + inversion Hm as [|Ho]. destruct (wire_call_sendable _ _ Hok) as [Hne Hs].
      split_and!; [done|by apply expects_fresh|done].
    + intros k Hne. by rw lookup_insert_ne; [congruence|].
Qed.

Lemma receiving_insert (m m' : gmap key context) open k c (x : wire_call * list byte) :
  (∀ k, option_Forall2 (receiving k) (m !! k) (open !! k)) → (∀ k', k' ≠ k → m' !! k' = m !! k') →
  receiving k c x → ∀ k', option_Forall2 (receiving k') (<[k := c]> m' !! k') (<[k := x]> open !! k').
Proof.
  intros Hm Hm' Hx k'. destruct (decide (k' = k)) as [->|Hne].
  - rw !lookup_insert_eq. by constructor.
  - rw !lookup_insert_ne; [congruence..|]. by rw Hm'.
Qed.

Lemma receiving_delete (m m' : gmap key context) open k :
  (∀ k, option_Forall2 (receiving k) (m !! k) (open !! k)) → (∀ k', k' ≠ k → m' !! k' = m !! k') →
  ∀ k', option_Forall2 (receiving k') (delete k m' !! k') (delete k open !! k').
Proof.
  intros Hm Hm' k'. destruct (decide (k' = k)) as [->|Hne].
  - rw !lookup_delete_eq. by constructor.
  - rw !lookup_delete_ne; [congruence..|]. by rw Hm'.
Qed.

(** Reading what has arrived of a call. *)
Lemma receive_arrival fuel k c0 x rest (n : W) ps :
  memory_available → receiving k c0 (x, concat ps ++ rest) → pending k.1 k.2 n = ps → (length ps < fuel)%nat →
  ∃ c' n', receive_available_loop fuel c0 n = Some (0, c', n') ∧ only_read k n n' ∧ pending k.1 k.2 n' = [] ∧
    key_of c' = k ∧ record_fully_received c' = bool_decide (rest = []) ∧
    if decide (rest = []) then complete c' (concat (fragments x)) else receiving k c' (x, rest).
Proof.
  destruct k as [conn id]. simpl. intros Hmem (Hst & Hexp & Hok) Hp Hfuel.
  destruct (receive_available_ok conn id c0 n ps rest _ fuel Hmem Hst Hp Hexp Hfuel) as (c' & n' & Hr & Hp' & Hst' & Hres).
  exists c', n'. split_and!; [done|by apply (receive_available_loop_reads fuel _ _ c0 n 0 c')|done| | |].
  - destruct Hst' as [<- <-]. done.
  - case_decide; [rw bool_decide_true //|rw bool_decide_false //]; apply Hres.
  - case_decide; done.
Qed.

(** What one event does: the call is answered, or more of it is awaited. *)
Lemma quic_event_ok fuel ev open q c rest :
  memory_available → quic_inv q open → Forall (.≠ []) (pieces ev) →
  wire_call_ok (length (fragments (starts ev))) (starts ev) →
  current open ev = (c, concat (pieces ev) ++ rest) → (length (pieces ev) < fuel)%nat →
  if decide (rest = []) then
    match answer (call_body c) (srv (qworld q)) with
    | None => quic_event fuel ev q = None
    | Some (b, _, s') =>
      ∃ q', quic_event fuel ev q = Some q' ∧
      quic_inv q' (delete (stream ev) open) ∧ srv (qworld q') = s' ∧
      next_xid (qworld q') = next_xid (qworld q) + 1 ∧
      (∃ fs, concat fs = pack_RpcMsg (reply_msg (next_xid (qworld q)) b) ∧ sendable_fragments fs ∧
         written (stream ev) (net (qworld q')) = written (stream ev) (net (qworld q)) ++ encode_fragments fs) ∧
      (∀ k, k ≠ stream ev → written k (net (qworld q')) = written k (net (qworld q)))
    end
  else
    ∃ q', quic_event fuel ev q = Some q' ∧
      quic_inv q' (<[stream ev := (c, rest)]> open) ∧ srv (qworld q') = srv (qworld q) ∧
      next_xid (qworld q') = next_xid (qworld q) ∧ ∀ k, written k (net (qworld q')) = written k (net (qworld q)).
Proof.
  intros Hmem [(m & Hrep & Hm) Hpend] Hps Hok Hcur Hfuel.
  destruct (context_for ev open _ m Hrep Hm Hok) as (l' & m' & c0 & Hadd & Hrep' & Hk & Hrec & Hother).
  rw Hcur in Hrec. destruct (deliver_others (stream ev) (pieces ev) (net (qworld q))) as [Hdp Hdw].
  set (n0 := deliver (stream ev) (pieces ev) (net (qworld q))) in Hdp, Hdw.
  destruct (receive_arrival fuel (stream ev) c0 c rest n0 (pieces ev)) as (c' & n' & Hr & [Hrw Hrp] & Hp' & Hkey & Hfull & Hres);
    [done|done| |done|].
  { rw /n0. destruct (stream ev) as [conn id]. by rw deliver_pending // Hpend. }
  assert (∀ conn id, pending conn id n' = []) as Hpend'.
  { intros conn id. destruct (decide ((conn, id) = stream ev)) as [Heq|Hne]; [by rw -Heq in Hp'|].
    by rw Hrp // Hdp. }
  rw /quic_event /server_on_stream_readable /= -/n0 Hadd /=.
  destruct (stream ev) as [conn id] eqn:Hsev. simpl in *.
  rw (represents_get _ _ _ _ Hrep') Hk Hr /= Hfull.
  pose proof (represents_set _ _ _ _ _ c' Hrep' Hk Hkey) as Hset.
  destruct (decide (rest = [])) as [->|Hne].
  - rw bool_decide_true //. destruct Hres as (_ & -> & ->).
    set (w0 := mkWorld (srv (qworld q)) n' (next_xid (qworld q))).
    destruct (answer (call_body c) (srv (qworld q))) as [[[b code] s']|] eqn:Ha;
      [|by rw (handle_client_crashes c conn id (length (fragments c)) w0 (proj2 (proj2 Hrec)) Ha)].
    destruct (handle_client_answers c conn id (length (fragments c)) b code s' w0)
      as (w' & Hrun & Hsrv & Hx & fs & Hcat & Hfs & Hwr & Hwo & Hwp); [apply Hrec|done|].
    rw Hrun /=.
    destruct (represents_remove _ _ conn id c' Hset) as (l'' & Hrem & Hrep''); [by apply lookup_insert_eq|].
    rw Hrem /=. eexists. split; [done|]. simpl in *. rw delete_insert_eq in Hrep''. split_and!; try done.
    + split; [eexists; split; [exact Hrep''|]|].
      * by apply (receiving_delete m).
      * intros c1 i1. by rw Hwp.
    + exists fs. split_and!; try done. by rw Hwr Hrw Hdw.
    + intros k Hne. by rw Hwo // Hrw Hdw.
  - rw bool_decide_false //. eexists. split; [done|]. split_and!; try done.
    + split; [|done]. eexists. split; [exact Hset|]. by apply (receiving_insert m).
    + intros k. by rw /= Hrw Hdw.
Qed.
End lemmas.

(** * Theorems *)

Section theorems.
Context `{Posix OS} `{PackedSizeBounds, !CountRange, !PackSmall} `{StreamArrivals W} `{Memory}.
Implicit Types (w : world OS W) (q : QuicServer OS W) (open : calls) (s : server_state OS).

(** The events have the outcome of the specification. *)
Definition implements_arrivals q (spec : option (list (key * Rpc.ReplyBody) * calls * server_state OS))
    (outcome : option (QuicServer OS W)) : Prop :=
  match spec with
  | Some (replies, open', s') =>
      ∃ q', outcome = Some q' ∧ srv (qworld q') = s' ∧ quic_inv q' open' ∧
        ∀ k, ∃ out, written k (net (qworld q')) = written k (net (qworld q)) ++ out ∧
                    carries_on k (next_xid (qworld q)) replies out
  | None => outcome = None
  end.

Lemma quic_events_answered fuel evs open q :
  memory_available → quic_inv q open → arrivals_ok evs open →
  Forall (λ ev, length (pieces ev) < fuel)%nat evs →
  implements_arrivals q (answer_arrivals evs open (srv (qworld q))) (quic_events fuel evs q).
Proof.
  intros Hmem. revert open q. induction evs as [|ev evs IH]; intros open q Hinv Hok Hfuel.
  { exists q. split_and!; try done. intros k. exists []. by rw app_nil_r. }
  apply Forall_cons in Hfuel as [Hf Hfuel]. cbn [arrivals_ok answer_arrivals] in Hok |- *.
  destruct (current open ev) as [c due] eqn:Hcur. destruct Hok as (Hst & Hps & [rest ->] & Hok).
  rw drop_app_length in Hok |- *.
  pose proof (quic_event_ok fuel ev open q c rest Hmem Hinv Hps Hst Hcur Hf) as Hev.
  cbn [quic_events]. destruct (decide (rest = [])) as [->|Hne].
  - destruct (answer (call_body c) (srv (qworld q))) as [[[b code] s1]|]; [|by rw Hev].
    destruct Hev as (q1 & -> & Hinv1 & Hsrv1 & Hx1 & (fs & Hcat & Hfs & Hw1) & Hw1'). simpl.
    pose proof (IH _ q1 Hinv1 Hok Hfuel) as Hrest. rw Hsrv1 in Hrest.
    destruct (answer_arrivals evs _ s1) as [[[rs open'] s']|]; [|done].
    destruct Hrest as (q' & Hq' & Hsrv' & Hinv' & Hout). exists q'. split_and!; try done.
    intros k. destruct (Hout k) as (out & Hwk & Hcar). rw Hx1 in Hcar. simpl. case_decide as Hk.
    + subst k. exists (encode_fragments fs ++ out). split; [by rw Hwk Hw1 app_assoc|]. by exists fs, out.
    + exists out. split; [|done]. by rw Hwk Hw1'; [congruence|].
  - destruct Hev as (q1 & -> & Hinv1 & Hsrv1 & Hx1 & Hw1). simpl.
    pose proof (IH _ q1 Hinv1 Hok Hfuel) as Hrest. rw Hsrv1 in Hrest.
    destruct (answer_arrivals evs _ _) as [[[rs open'] s']|]; [|done].
    destruct Hrest as (q' & Hq' & Hsrv' & Hinv' & Hout). exists q'. split_and!; try done.
    intros k. destruct (Hout k) as (out & Hwk & Hcar). exists out. by rw Hwk Hw1 -Hx1.
Qed.

(** The arrivals have no answers only when a call crashes the server. *)
Lemma answer_arrivals_total evs open s :
  sessions_inv (readdir_sessions_list s) →
  match answer_arrivals evs open s with
  | Some (_, _, s') => sessions_inv (readdir_sessions_list s')
  | None => (∃ k x, open !! k = Some x ∧ crashes (call_body x.1) = true) ∨
            Exists (λ ev, crashes (call_body (starts ev)) = true) evs
  end.
Proof.
  revert open s. induction evs as [|ev evs IH]; intros open s Hs; [done|]. cbn [answer_arrivals].
  assert (∀ c due, current open ev = (c, due) → crashes (call_body c) = true →
    (∃ k x, open !! k = Some x ∧ crashes (call_body x.1) = true) ∨
    Exists (λ ev, crashes (call_body (starts ev)) = true) (ev :: evs)) as Hcrash.
  { rw /current. intros c due Hcur Hc. destruct (open !! stream ev) as [x|] eqn:Ho; simpl in Hcur.
    - left. exists (stream ev), x. by subst x.
    - right. left. by injection Hcur as -> _. }
  destruct (current open ev) as [c due]. specialize (Hcrash c due eq_refl). case_decide as Hd.
  - pose proof (answer_total (call_body c) s Hs) as Ha.
    destruct (answer (call_body c) s) as [[[b code] s1]|] eqn:Hb; [|by apply Hcrash, (answer_none_crashes _ s)].
    specialize (IH (delete (stream ev) open) s1 Ha). simpl.
    destruct (answer_arrivals evs _ s1) as [[[rs open'] s']|]; [done|].
    destruct IH as [(k & x & Hk & Hx)|He]; [left|by right; right].
    apply lookup_delete_Some in Hk as [_ Hk]. by exists k, x.
  - specialize (IH (<[stream ev := (c, drop (length (concat (pieces ev))) due)]> open) s Hs).
    destruct (answer_arrivals evs _ s) as [[[rs open'] s']|]; [done|].
    destruct IH as [(k & x & Hk & Hx)|He]; [|by right; right].
    apply lookup_insert_Some in Hk as [[_ <-]|[_ Hk]]; [by apply Hcrash|left; by exists k, x].
Qed.

End theorems.
