(* ===== verification/QuicClient.v ===== *)
(** The client over QUIC: the pool of streams ([src/transport/quic/streams.c]),
    their allocation ([stream_allocation.c]), the contexts of calls
    ([client_stream_context.c]) and the threads that share them
    ([quic_rpc_client.c]) as a transition system: any number of callers in
    [execute_rpc_call_quic], and the thread of the event loop, which allocates
    streams and runs the callbacks of the QUIC library.

    A call is named by a number that stands for its thread and for the pointer
    to its context. A critical section is one step where the mutex is the only
    protection of what it touches; where it is not, the steps are apart: the
    event loop signals the arrival of a reply without the mutex that the caller
    waits with. The library may run a callback for any stream at any time. *)
From S2P Require Import Prelude Messages RecordMarking RecordMarkingQuic QuicStreams.

Definition MAX_STREAMS_PER_CONNECTION : Z := 10.

(** * Data *)

(** Pointers to streams and to the contexts of calls. *)
Abbreviation stream_ptr := Z.
Abbreviation call_ptr := Z.

Record Stream := mkStream { stream_number : Z; stream_in_use : bool }.

(** The context of a call, without its mutexes and condition variables. *)
Record QuicClientStreamContext := mkStreamContext {
  use_auxiliary_stream : bool;
  allocated_stream : option stream_ptr;
  stream_allocation_finished : bool;
  successfully_allocated_stream : bool;
  call_rpc_msg_buffer : list byte;
  rm_receiving_context : option RecordMarkingReceivingContext;
  attempted_call_rpc_msg_send : bool;
  call_rpc_msg_successfully_sent : bool;
  reply_rpc_msg_successfully_received : bool;
  finished : bool }.

Definition create_client_stream_context (rpc_msg_buffer : list byte) (use_auxiliary_stream : bool)
    : QuicClientStreamContext :=
  mkStreamContext use_auxiliary_stream None false false rpc_msg_buffer None false false false false.

(** Assignments to the members. *)
Definition set_allocation (stream : option stream_ptr) (success : bool) (c : QuicClientStreamContext)
    : QuicClientStreamContext :=
  mkStreamContext (use_auxiliary_stream c) stream true success (call_rpc_msg_buffer c) (rm_receiving_context c)
    (attempted_call_rpc_msg_send c) (call_rpc_msg_successfully_sent c) (reply_rpc_msg_successfully_received c) (finished c).

Definition set_sent (attempted sent finished : bool) (c : QuicClientStreamContext) : QuicClientStreamContext :=
  mkStreamContext (use_auxiliary_stream c) (allocated_stream c) (stream_allocation_finished c)
    (successfully_allocated_stream c) (call_rpc_msg_buffer c) (rm_receiving_context c)
    attempted sent (reply_rpc_msg_successfully_received c) finished.

Definition set_received (rm : option RecordMarkingReceivingContext) (received finished : bool)
    (c : QuicClientStreamContext) : QuicClientStreamContext :=
  mkStreamContext (use_auxiliary_stream c) (allocated_stream c) (stream_allocation_finished c)
    (successfully_allocated_stream c) (call_rpc_msg_buffer c) rm
    (attempted_call_rpc_msg_send c) (call_rpc_msg_successfully_sent c) received finished.

(** Where a caller is: it is about to lock the mutex of its allocation, or
    asleep until the allocation; it has a stream; it is about to lock the mutex
    of its reply, has just seen that there is no reply, or is asleep; it has
    been told that its call is finished; it has its result and is about to
    remove its context; it is about to mark its stream as free; it has
    returned. *)
Inductive caller :=
  | AllocationWait | AllocationAsleep | AddingContext
  | ReplyWait | ReplyGap | ReplyAsleep | ReplyDone
  | Cleaning (reply : option Rpc.RpcMsg)
  | Releasing (stream : stream_ptr) (reply : option Rpc.RpcMsg)
  | Returned (reply : option Rpc.RpcMsg).

(** The part of [QuicClient] that the threads share, with the memory its
    pointers point to. The queue is in the order of its [prev] pointers, from
    the front. [allocator_locks]: the calls whose [stream_allocator_lock] the
    event loop has kept; [list_locked]: whether it has kept
    [stream_contexts_list_lock]; [alive]: whether its thread runs. *)
Record QuicClient (W : Type) := mkQuicClient {
  client_net : W;
  stream_heap : gmap stream_ptr Stream;
  main_stream : option stream_ptr;
  auxiliary_streams_list : list (option stream_ptr);
  stream_allocation_queue : list call_ptr;
  contexts : gmap call_ptr QuicClientStreamContext;
  stream_contexts : list (option call_ptr);
  callers : gmap call_ptr caller;
  allocator_locks : gset call_ptr;
  list_locked : bool;
  alive : bool }.

Arguments mkQuicClient {W}.
Arguments client_net {W} q.
Arguments stream_heap {W} q.
Arguments main_stream {W} q.
Arguments auxiliary_streams_list {W} q.
Arguments stream_allocation_queue {W} q.
Arguments contexts {W} q.
Arguments stream_contexts {W} q.
Arguments callers {W} q.
Arguments allocator_locks {W} q.
Arguments list_locked {W} q.
Arguments alive {W} q.

Section updates.
Context {W : Type}.
Implicit Types (q : QuicClient W).

Definition set_net (n : W) q : QuicClient W :=
  mkQuicClient n (stream_heap q) (main_stream q) (auxiliary_streams_list q) (stream_allocation_queue q) (contexts q)
    (stream_contexts q) (callers q) (allocator_locks q) (list_locked q) (alive q).

Definition set_streams (h : gmap stream_ptr Stream) (l : list (option stream_ptr)) q : QuicClient W :=
  mkQuicClient (client_net q) h (main_stream q) l (stream_allocation_queue q) (contexts q)
    (stream_contexts q) (callers q) (allocator_locks q) (list_locked q) (alive q).

Definition set_queue (l : list call_ptr) q : QuicClient W :=
  mkQuicClient (client_net q) (stream_heap q) (main_stream q) (auxiliary_streams_list q) l (contexts q)
    (stream_contexts q) (callers q) (allocator_locks q) (list_locked q) (alive q).

Definition set_contexts (m : gmap call_ptr QuicClientStreamContext) (l : list (option call_ptr)) q : QuicClient W :=
  mkQuicClient (client_net q) (stream_heap q) (main_stream q) (auxiliary_streams_list q) (stream_allocation_queue q) m
    l (callers q) (allocator_locks q) (list_locked q) (alive q).

(** One context is changed in place. *)
Definition set_context (k : call_ptr) (c : QuicClientStreamContext) q : QuicClient W :=
  set_contexts (<[k := c]> (contexts q)) (stream_contexts q) q.

Definition set_caller (k : call_ptr) (pc : caller) q : QuicClient W :=
  mkQuicClient (client_net q) (stream_heap q) (main_stream q) (auxiliary_streams_list q) (stream_allocation_queue q)
    (contexts q) (stream_contexts q) (<[k := pc]> (callers q)) (allocator_locks q) (list_locked q) (alive q).

Definition keep_allocator_lock (k : call_ptr) q : QuicClient W :=
  mkQuicClient (client_net q) (stream_heap q) (main_stream q) (auxiliary_streams_list q) (stream_allocation_queue q)
    (contexts q) (stream_contexts q) (callers q) ({[k]} ∪ allocator_locks q) (list_locked q) (alive q).

(** [kill_event_loop_thread] called by a callback, that is by the event loop
    itself and with the mutex of the list of contexts locked: the thread cancels
    itself and ends in [pthread_join], a cancellation point. *)
Definition kill_event_loop_thread q : QuicClient W :=
  mkQuicClient (client_net q) (stream_heap q) (main_stream q) (auxiliary_streams_list q) (stream_allocation_queue q)
    (contexts q) (stream_contexts q) (callers q) (allocator_locks q) true false.

(** [pthread_cond_signal] of the two condition variables of a context: the
    caller goes on if it is asleep. *)
Definition signal_allocation (k : call_ptr) q : QuicClient W :=
  match callers q !! k with Some AllocationAsleep => set_caller k AllocationWait q | _ => q end.

Definition signal_reply (k : call_ptr) q : QuicClient W :=
  match callers q !! k with Some ReplyAsleep => set_caller k ReplyWait q | _ => q end.
End updates.

(** * Streams *)

(** The scan of the pool: a NULL entry, a stream that is free, or the number of
    streams. [None]: a pointer to a stream that does not exist. *)
Inductive scan := NullStream | FreeStream (l : stream_ptr) | AllInUse (number_of_streams : Z).

Fixpoint first_free (h : gmap stream_ptr Stream) (head : list (option stream_ptr)) (number_of_streams : Z)
    : option scan :=
  match head with
  | [] => Some (AllInUse number_of_streams)
  | None :: _ => Some NullStream
  | Some l :: head =>
      s ← h !! l;
      if negb (stream_in_use s) then Some (FreeStream l) else first_free h head (number_of_streams + 1)
  end.

(** What the outside world gives to a new stream: where [malloc] puts it, the
    number that [quic_stream_bidi_new] gives it ([None]: failure), and whether
    there is memory for the entry of the list. *)
Record offer := mkOffer { offered_ptr : option stream_ptr; offered_number : option Z; entry_ok : bool }.

Definition create_new_stream (o : offer) : option (stream_ptr * Stream) :=
  l ← offered_ptr o;
  n ← offered_number o;
  Some (l, mkStream n false).

(** The stream or NULL, and the streams with the pool. *)
Definition get_available_auxiliary_stream (o : offer) (h : gmap stream_ptr Stream)
    (auxiliary_streams_list : list (option stream_ptr))
    : option (option stream_ptr * gmap stream_ptr Stream * list (option stream_ptr)) :=
  r ← first_free h auxiliary_streams_list 0;
  match r with
  | NullStream => Some (None, h, auxiliary_streams_list)
  | FreeStream l =>
      s ← h !! l;
      Some (Some l, <[l := mkStream (stream_number s) true]> h, auxiliary_streams_list)
  | AllInUse number_of_streams =>
      if number_of_streams =? MAX_STREAMS_PER_CONNECTION then Some (None, h, auxiliary_streams_list)
      else match create_new_stream o with
           | None => Some (None, h, auxiliary_streams_list)
           | Some (l, s) =>
               if entry_ok o
               then Some (Some l, <[l := mkStream (stream_number s) true]> h, Some l :: auxiliary_streams_list)
               else Some (None, h, auxiliary_streams_list)
           end
  end.

Section client.
Context `{QuicStream W} `{Memory} `{Codec}.
Implicit Types (q : QuicClient W) (k : call_ptr) (sid : Z).

(** A failure to allocate returns with [stream_allocator_lock] locked. The signal
    that the code sends after it has unlocked is part of this step, and waits do not
    wake up without a signal: the callers test their condition in a loop, so that a
    wake-up in between or without a reason would only make them wait again. *)
Definition allocate_stream (o : offer) k q : option (QuicClient W) :=
  c ← contexts q !! k;
  let failed q := keep_allocator_lock k (signal_allocation k (set_context k (set_allocation (allocated_stream c) false c) q)) in
  let allocated l q := signal_allocation k (set_context k (set_allocation (Some l) true c) q) in
  if use_auxiliary_stream c then
    '(r, h, l) ← get_available_auxiliary_stream o (stream_heap q) (auxiliary_streams_list q);
    let q := set_streams h l q in
    Some (match r with None => failed q | Some p => allocated p q end)
  else
    Some (match main_stream q with None => failed q | Some p => allocated p q end).

(** [memory]: whether the allocation succeeds; a failure is not noticed by the
    caller. *)
Definition push_to_stream_allocation_queue (memory : bool) k q : QuicClient W :=
  if memory then set_queue (stream_allocation_queue q ++ [k]) q else q.

Definition pop_from_stream_allocation_queue q : QuicClient W := set_queue (tail (stream_allocation_queue q)) q.

(** One round of the loop of the callback. *)
Definition async_stream_allocator_round (o : offer) q : option (QuicClient W) :=
  match stream_allocation_queue q with
  | [] => Some q
  | k :: _ => q ← allocate_stream o k q; Some (pop_from_stream_allocation_queue q)
  end.

(** * Contexts *)

(** The number of the stream of a context. [None]: a dangling pointer; [Some
    None]: the context has no stream. *)
Definition context_stream q k : option (option Z) :=
  c ← contexts q !! k;
  match allocated_stream c with
  | None => Some None
  | Some l => s ← stream_heap q !! l; Some (Some (stream_number s))
  end.

Definition add_stream_context (memory : bool) k q : Z * QuicClient W :=
  if memory then (0, set_contexts (contexts q) (Some k :: stream_contexts q) q) else (3, q).

(** The context or NULL. [None]: undefined behaviour. *)
Fixpoint find_stream_context q (head : list (option call_ptr)) sid : option (option call_ptr) :=
  match head with
  | [] => Some None
  | None :: _ => Some None
  | Some k :: head =>
      n ← context_stream q k;
      match n with
      | None => Some None
      | Some n => if n =? sid then Some (Some k) else find_stream_context q head sid
      end
  end.

(** The loop of [remove_stream_context]: error code, removed context and list;
    [prev]: whether there is a node before [curr]. *)
Fixpoint remove_stream_context_loop q (prev : bool) (curr : list (option call_ptr)) sid
    : option (Z * option call_ptr * list (option call_ptr)) :=
  match curr with
  | [] => Some (0, None, [])
  | None :: _ => Some (4, None, curr)
  | Some k :: rest =>
      n ← context_stream q k;
      match n with
      | None => Some (5, None, curr)
      | Some n =>
          if n =? sid then if prev then Some (0, Some k, rest) else None
          else '(e, removed, l) ← remove_stream_context_loop q true rest sid; Some (e, removed, Some k :: l)
      end
  end.

Definition remove_stream_context q sid : option (Z * option call_ptr * list (option call_ptr)) :=
  match stream_contexts q with
  | [] => Some (0, None, [])
  | None :: _ => Some (2, None, stream_contexts q)
  | Some k :: rest =>
      n ← context_stream q k;
      match n with
      | None => Some (3, None, stream_contexts q)
      | Some n => if n =? sid then Some (0, Some k, rest) else remove_stream_context_loop q false (stream_contexts q) sid
      end
  end.

(** The removed context is freed. *)
Definition remove_and_free sid q : option (QuicClient W) :=
  '(_, removed, l) ← remove_stream_context q sid;
  Some (set_contexts (match removed with Some k => delete k (contexts q) | None => contexts q end) l q).

(** * Callbacks of the event loop *)

Variable conn : Z.

Definition client_on_stream_writable sid q : option (QuicClient W) :=
  r ← find_stream_context q (stream_contexts q) sid;
  match r with
  | None => Some q
  | Some k =>
      c ← contexts q !! k;
      n ← context_stream q k;
      if negb (bool_decide (n = Some sid)) then
        Some (kill_event_loop_thread (set_context k (set_sent (attempted_call_rpc_msg_send c) false true c) q))
      else if attempted_call_rpc_msg_send c then Some q
      else
        '(error_code, n) ← send_rm_record_quic conn sid (call_rpc_msg_buffer c) (client_net q);
        let q := set_net n (set_context k (set_sent true (error_code =? 0) (finished c) c) q) in
        Some (if error_code =? 0 then q else kill_event_loop_thread q)
  end.

(** [memory]: whether there is memory for the receiving context. *)
Definition client_on_stream_readable (fuel : nat) (memory : bool) sid q : option (QuicClient W) :=
  r ← find_stream_context q (stream_contexts q) sid;
  match r with
  | None => Some q
  | Some k =>
      c ← contexts q !! k;
      match (match rm_receiving_context c with
             | Some rm => Some rm
             | None => if memory then Some (create_rm_receiving_context conn sid) else None
             end) with
      | None => Some (kill_event_loop_thread (set_context k (set_received None false true c) q))
      | Some rm =>
          '(error_code, rm, n) ← receive_available_loop fuel rm (client_net q);
          let q := set_net n q in
          Some (if error_code >? 0 then
                  kill_event_loop_thread (set_context k (set_received (Some rm) false true c) q)
                else if record_fully_received rm then
                  signal_reply k (set_context k (set_received (Some rm) true true c) q)
                else
                  set_context k (set_received (Some rm) (reply_rpc_msg_successfully_received c) (finished c) c) q)
      end
  end.

(** * Callers *)

(** [execute_rpc_call_quic] up to the waiting for the allocation, on an
    established connection. [memory]: whether there is memory for the context
    and for the entry of the queue. *)
Definition start_call (memory : bool * bool) (use_auxiliary_stream : bool) k (call_rpc_msg : Rpc.RpcMsg) q
    : QuicClient W :=
  if negb memory.1 then set_caller k (Returned None) q
  else
    let q := set_context k (create_client_stream_context (pack_RpcMsg call_rpc_msg) use_auxiliary_stream) q in
    set_caller k AllocationWait (push_to_stream_allocation_queue memory.2 k q).

(** With the mutex locked: go to sleep, or go on with the result. *)
Definition test_allocation k q : option (QuicClient W) :=
  c ← contexts q !! k;
  Some (if negb (stream_allocation_finished c) then set_caller k AllocationAsleep q
        else if successfully_allocated_stream c then set_caller k AddingContext q
        else set_caller k (Returned None) (set_contexts (delete k (contexts q)) (stream_contexts q) q)).

Definition add_context (memory : bool) k q : QuicClient W :=
  let '(error_code, q) := add_stream_context memory k q in
  if error_code !=? 0
  then set_caller k (Returned None) (set_contexts (delete k (contexts q)) (stream_contexts q) q)
  else set_caller k ReplyWait q.

(** [wait_for_rpc_reply]: the test of the loop, and what follows the loop. *)
Definition test_reply k q : option (QuicClient W) :=
  c ← contexts q !! k;
  Some (set_caller k (if finished c then ReplyDone else ReplyGap) q).

Definition wait_for_rpc_reply_result (c : QuicClientStreamContext) : Z :=
  if negb (call_rpc_msg_successfully_sent c) then 2
  else if negb (reply_rpc_msg_successfully_received c) then 3 else 0.

Definition read_reply k q : option (QuicClient W) :=
  c ← contexts q !! k;
  if wait_for_rpc_reply_result c !=? 0 then Some (set_caller k (Cleaning None) q)
  else
    rm ← rm_receiving_context c;
    Some (set_caller k (Cleaning (unpack_RpcMsg (take (Z.to_nat (accumulated_payloads_size rm))
                                                   (default [] (accumulated_payloads rm))))) q).

Definition clean_up k (reply : option Rpc.RpcMsg) q : option (QuicClient W) :=
  c ← contexts q !! k;
  l ← allocated_stream c;
  s ← stream_heap q !! l;
  q ← remove_and_free (stream_number s) q;
  Some (set_caller k (Releasing l reply) q).

Definition release_stream k l (reply : option Rpc.RpcMsg) q : option (QuicClient W) :=
  s ← stream_heap q !! l;
  Some (set_caller k (Returned reply)
    (set_streams (<[l := mkStream (stream_number s) false]> (stream_heap q)) (auxiliary_streams_list q) q)).

(** * Interleaving *)

(** What the library and [malloc] promise: a new stream has a number of its own
    and is put where nothing else is. *)
Definition offer_ok (o : offer) q : Prop :=
  (∀ l, offered_ptr o = Some l → stream_heap q !! l = None) ∧
  ∀ n, offered_number o = Some n → ∀ l s, stream_heap q !! l = Some s → stream_number s ≠ n.

(** The steps of the threads. [reliable]: whether memory never runs out. Every
    stub of the clients asks for an auxiliary stream. *)
Inductive client_step (reliable : bool) : QuicClient W → QuicClient W → Prop :=
  | step_call q k msg memory :
      callers q !! k = None → (reliable → memory = (true, true)) →
      client_step reliable q (start_call memory true k msg q)
  | step_allocate q k rest o q' :
      alive q → stream_allocation_queue q = k :: rest → k ∉ allocator_locks q → offer_ok o q →
      async_stream_allocator_round o q = Some q' → client_step reliable q q'
  | step_test_allocation q k q' :
      callers q !! k = Some AllocationWait → k ∉ allocator_locks q →
      test_allocation k q = Some q' → client_step reliable q q'
  | step_add q k memory :
      callers q !! k = Some AddingContext → list_locked q = false → (reliable → memory = true) →
      client_step reliable q (add_context memory k q)
  | step_writable q sid q' :
      alive q → list_locked q = false → client_on_stream_writable sid q = Some q' → client_step reliable q q'
  | step_readable q fuel memory sid q' :
      alive q → list_locked q = false → (reliable → memory = true) →
      client_on_stream_readable fuel memory sid q = Some q' → client_step reliable q q'
  | step_test_reply q k q' :
      callers q !! k = Some ReplyWait → test_reply k q = Some q' → client_step reliable q q'
  | step_sleep q k :
      callers q !! k = Some ReplyGap → client_step reliable q (set_caller k ReplyAsleep q)
  | step_read q k q' :
      callers q !! k = Some ReplyDone → read_reply k q = Some q' → client_step reliable q q'
  | step_clean_up q k reply q' :
      callers q !! k = Some (Cleaning reply) → list_locked q = false →
      clean_up k reply q = Some q' → client_step reliable q q'
  | step_release q k l reply q' :
      callers q !! k = Some (Releasing l reply) → release_stream k l reply q = Some q' → client_step reliable q q'.

(** The threads with a network that changes as it likes. *)
Definition step_any q q' : Prop := client_step false q q' ∨ ∃ n, q' = set_net n q.

(** An established connection: its main stream, if it has one, is in memory. *)
Definition established (main : option (stream_ptr * Z)) (n : W) : QuicClient W :=
  mkQuicClient n (match main with Some (l, i) => {[l := mkStream i false]} | None => ∅ end) (fst <$> main)
    [] [] ∅ [] ∅ ∅ false true.

Definition client_reachable q : Prop := ∃ main n, rtc step_any (established main n) q.
End client.

(** * The pool of streams *)

(** The pool has at most ten streams, all in memory, with different numbers. *)
Definition pool_ok (h : gmap stream_ptr Stream) (l : list (option stream_ptr)) : Prop :=
  ∃ ls, l = Some <$> ls ∧ NoDup ls ∧ Z.of_nat (length ls) ≤ MAX_STREAMS_PER_CONNECTION ∧
    (∀ x, x ∈ ls → is_Some (h !! x)) ∧
    ∀ x y s s', x ∈ ls → y ∈ ls → h !! x = Some s → h !! y = Some s' → stream_number s = stream_number s' → x = y.

Definition used (h : gmap stream_ptr Stream) (x : stream_ptr) : Prop := ∃ s, h !! x = Some s ∧ stream_in_use s = true.

Section pool.
Implicit Types (h : gmap stream_ptr Stream) (ls : list stream_ptr).

Lemma first_free_spec h ls n :
  (∀ x, x ∈ ls → is_Some (h !! x)) →
  (∃ x s, first_free h (Some <$> ls) n = Some (FreeStream x) ∧ x ∈ ls ∧ h !! x = Some s ∧ stream_in_use s = false) ∨
  (first_free h (Some <$> ls) n = Some (AllInUse (n + Z.of_nat (length ls))) ∧ Forall (used h) ls).
Proof.
  revert n. induction ls as [|x ls IH]; intros n Hall; [right; by rw /= Z.add_0_r|].
  destruct (Hall x) as [s Hs]; [by constructor|]. rw fmap_cons. cbn [first_free]. rw Hs. cbn [mbind option_bind].
  destruct (stream_in_use s) eqn:Hu; cbn [negb].
  - destruct (IH (n + 1)) as [(y & s' & -> & Hy & ? & ?)|[-> Hf]]; [by intros y Hy; apply Hall; constructor| |].
    + left. exists y, s'. split_and!; try done. by constructor.
    + right. split; [do 2 f_equal; simpl; lia|]. constructor; [by exists s|done].
  - left. exists x, s. split_and!; try done. by constructor.
Qed.

(** Marking a stream changes no number. *)
Lemma pool_ok_mark h l x s b :
  pool_ok h l → h !! x = Some s → pool_ok (<[x := mkStream (stream_number s) b]> h) l.
Proof.
  intros (ls & -> & Hnd & Hlen & Hall & Hinj) Hs. exists ls. split_and!; try done.
  - intros y Hy. rw lookup_insert. case_decide; [by eexists|by apply Hall].
  - assert (∀ y s', <[x := mkStream (stream_number s) b]> h !! y = Some s' →
      ∃ s'', h !! y = Some s'' ∧ stream_number s'' = stream_number s') as Hnum.
    { intros y s'. rw lookup_insert. case_decide as Hxy; [subst y; intros [= <-]; by exists s|intros Hy; by exists s']. }
    intros y z sy sz Hy Hz (sy' & Hsy & <-)%Hnum (sz' & Hsz & <-)%Hnum Heq. exact (Hinj _ _ _ _ Hy Hz Hsy Hsz Heq).
Qed.

Lemma pool_ok_new h l x n :
  pool_ok h l → h !! x = None → (∀ y s, h !! y = Some s → stream_number s ≠ n) →
  Z.of_nat (length l) < MAX_STREAMS_PER_CONNECTION → pool_ok (<[x := mkStream n true]> h) (Some x :: l).
Proof.
  intros (ls & -> & Hnd & Hlen & Hall & Hinj) Hx Hn Hlt. rw length_fmap in Hlt.
  assert (x ∉ ls) as Hni. { intros Hin. apply Hall in Hin as [? ?]. congruence. }
  exists (x :: ls). split_and!; [done|by constructor|simpl; lia| |].
  - intros y [->|Hy]%elem_of_cons; [by rw lookup_insert_eq|]. rw lookup_insert_ne; [by intros ->|by apply Hall].
  - assert (∀ y s, y ∈ ls → <[x := mkStream n true]> h !! y = Some s → h !! y = Some s) as Hne.
    { intros y s Hy. by rw lookup_insert_ne; [by intros ->|]. }
    intros y z s s' [->|Hy]%elem_of_cons [->|Hz]%elem_of_cons Hs Hs' Heq; [done| | |].
    + apply (Hne z s' Hz) in Hs'. rw lookup_insert_eq in Hs. injection Hs as <-. apply Hn in Hs'. simpl in Heq. congruence.
    + apply (Hne y s Hy) in Hs. rw lookup_insert_eq in Hs'. injection Hs' as <-. apply Hn in Hs. simpl in Heq. congruence.
    + apply Hne in Hs; [|done]. apply Hne in Hs'; [|done]. exact (Hinj _ _ _ _ Hy Hz Hs Hs' Heq).
Qed.

(** The stream that an allocation gives was free or did not exist; streams in
    use stay in use. *)
Lemma get_available_auxiliary_stream_ok o h l r h' l' :
  pool_ok h l → (∀ x, offered_ptr o = Some x → h !! x = None) →
  (∀ n, offered_number o = Some n → ∀ x s, h !! x = Some s → stream_number s ≠ n) →
  get_available_auxiliary_stream o h l = Some (r, h', l') →
  pool_ok h' l' ∧ (∀ x, used h x → h' !! x = h !! x) ∧ (∀ x, x ∈ l → x ∈ l') ∧
  match r with Some p => Some p ∈ l' ∧ used h' p ∧ ¬ used h p | None => h' = h ∧ l' = l end.
Proof.
  intros Hpool Hptr Hnum. pose proof Hpool as (ls & -> & Hnd & Hlen & Hall & _).
  rw /get_available_auxiliary_stream.
  destruct (first_free_spec h ls 0 Hall) as [(x & s & -> & Hx & Hs & Hu)|[-> _]]; cbn [mbind option_bind].
  - rw Hs /=. intros [= <- <- <-]. split_and!; [by apply pool_ok_mark| |done| | |].
    + intros y (s' & Hs' & Hu'). apply lookup_insert_ne. intros ->. congruence.
    + by apply list_elem_of_fmap_2.
    + eexists. by rw lookup_insert_eq.
    + intros (s' & Hs' & Hu'). congruence.
  - rw Z.add_0_l. destruct (Z.eqb_spec (Z.of_nat (length ls)) MAX_STREAMS_PER_CONNECTION) as [|Hne]; [by intros [= <- <- <-]|].
    rw /create_new_stream. destruct (offered_ptr o) as [x|] eqn:Hox; [|by intros [= <- <- <-]]. specialize (Hptr x eq_refl).
    destruct (offered_number o) as [n|] eqn:Hon; [|by intros [= <- <- <-]]. simpl. destruct (entry_ok o); [|by intros [= <- <- <-]].
    intros [= <- <- <-]. split_and!.
    + apply pool_ok_new; [done|done|by apply Hnum|]. rw length_fmap. lia.
    + intros y (s' & Hs' & Hu'). apply lookup_insert_ne. intros ->. congruence.
    + intros y Hy. by constructor.
    + by constructor.
    + eexists. by rw lookup_insert_eq.
    + intros (s' & Hs' & _). congruence.
Qed.
End pool.

(** * The invariant *)

(** What the client knows of one call. *)
Record view := mkView {
  v_caller : option caller; v_context : option QuicClientStreamContext;
  v_queued : bool; v_listed : bool; v_locked : bool }.

Definition has_stream (o : option QuicClientStreamContext) : Prop :=
  ∃ c, o = Some c ∧ is_Some (allocated_stream c).

(** A caller that waits for its stream has been allocated one, has been refused
    one and will never get the mutex, or is still to be served. *)
Definition view_ok (v : view) : Prop :=
  match v_caller v with
  | Some AllocationWait | Some AllocationAsleep =>
      v_listed v = false ∧ ∃ c, v_context v = Some c ∧ use_auxiliary_stream c = true ∧
        if stream_allocation_finished c then
          v_queued v = false ∧ v_caller v = Some AllocationWait ∧
          if successfully_allocated_stream c then v_locked v = false ∧ is_Some (allocated_stream c)
          else v_locked v = true ∧ allocated_stream c = None
        else v_locked v = false ∧ allocated_stream c = None
  | Some AddingContext =>
      v_queued v = false ∧ v_locked v = false ∧ v_listed v = false ∧ has_stream (v_context v)
  | Some ReplyWait | Some ReplyGap | Some ReplyAsleep | Some ReplyDone | Some (Cleaning _) =>
      v_queued v = false ∧ v_locked v = false ∧ v_listed v = true ∧ has_stream (v_context v)
  | Some (Releasing _ _) | Some (Returned _) | None =>
      v_queued v = false ∧ v_locked v = false ∧ v_listed v = false ∧ v_context v = None
  end.

(** The stream that belongs to the call. *)
Definition owned (v : view) : option stream_ptr :=
  match v_caller v with
  | Some (Releasing l _) => Some l
  | _ => c ← v_context v; allocated_stream c
  end.

(** A listed call has a stream. *)
Lemma view_ok_listed v :
  view_ok v → v_listed v = true → ∃ c l, v_context v = Some c ∧ allocated_stream c = Some l ∧ owned v = Some l.
Proof.
  destruct v as [[pc|] oc qd ld lk]; rw /view_ok /owned /=; [|by intros (_ & _ & -> & _)].
  intros Hv ->. destruct pc; try (by destruct Hv as (_ & _ & ? & _)); try (by destruct Hv as (? & _));
    destruct Hv as (_ & _ & _ & c & -> & l & Hl); by exists c, l.
Qed.

Section invariant.
Context {W : Type}.
Implicit Types (q : QuicClient W) (k : call_ptr) (l : stream_ptr).

Definition view_of q k : view :=
  mkView (callers q !! k) (contexts q !! k) (bool_decide (k ∈ stream_allocation_queue q))
    (bool_decide (Some k ∈ stream_contexts q)) (bool_decide (k ∈ allocator_locks q)).

Record inv q : Prop := mkInv {
  inv_view k : view_ok (view_of q k);
  inv_queue : NoDup (stream_allocation_queue q);
  inv_list : ∃ ks, stream_contexts q = Some <$> ks ∧ NoDup ks;
  inv_pool : pool_ok (stream_heap q) (auxiliary_streams_list q);
  inv_owned k l : owned (view_of q k) = Some l → Some l ∈ auxiliary_streams_list q ∧ used (stream_heap q) l;
  inv_exclusive k k' l : owned (view_of q k) = Some l → owned (view_of q k') = Some l → k = k' }.

(** ** Views after an assignment *)

Definition with_caller (pc : caller) (v : view) : view :=
  mkView (Some pc) (v_context v) (v_queued v) (v_listed v) (v_locked v).

Definition with_context (c : option QuicClientStreamContext) (v : view) : view :=
  mkView (v_caller v) c (v_queued v) (v_listed v) (v_locked v).

Lemma view_set_caller k pc q k' :
  view_of (set_caller k pc q) k' = if decide (k = k') then with_caller pc (view_of q k') else view_of q k'.
Proof. rw /view_of /= lookup_insert. by case_decide. Qed.

Lemma view_set_context k c q k' :
  view_of (set_context k c q) k' = if decide (k = k') then with_context (Some c) (view_of q k') else view_of q k'.
Proof. rw /view_of /= lookup_insert. by case_decide. Qed.

Lemma view_free_context k q k' :
  view_of (set_contexts (delete k (contexts q)) (stream_contexts q) q) k' =
  if decide (k = k') then with_context None (view_of q k') else view_of q k'.
Proof. rw /view_of /= lookup_delete. by case_decide. Qed.

Lemma view_set_net n q k : view_of (set_net n q) k = view_of q k.
Proof. done. Qed.

Lemma view_kill q k : view_of (kill_event_loop_thread q) k = view_of q k.
Proof. done. Qed.

(** ** Steps that concern one call *)

Lemma inv_local q q' k :
  inv q → (∀ k', k' ≠ k → view_of q' k' = view_of q k') → view_ok (view_of q' k) →
  NoDup (stream_allocation_queue q') → (∃ ks, stream_contexts q' = Some <$> ks ∧ NoDup ks) →
  stream_heap q' = stream_heap q → auxiliary_streams_list q' = auxiliary_streams_list q →
  (∀ l, owned (view_of q' k) = Some l → owned (view_of q k) = Some l) → inv q'.
Proof.
  intros [Hv Hq Hl Hp Ho He] Hother Hk Hq' Hl' Hh Ha Hown.
  assert (∀ k' l, owned (view_of q' k') = Some l → owned (view_of q k') = Some l) as Hown'.
  { intros k' l. destruct (decide (k' = k)) as [->|Hne]; [apply Hown|by rw Hother]. }
  constructor; [|done|done|by rw Hh Ha| |].
  - intros k'. destruct (decide (k' = k)) as [->|Hne]; [done|by rw Hother].
  - intros k' l Hkl. rw Hh Ha. exact (Ho _ _ (Hown' _ _ Hkl)).
  - intros k1 k2 l H1 H2. exact (He _ _ _ (Hown' _ _ H1) (Hown' _ _ H2)).
Qed.

(** The same where the queue and the list of contexts stay as they are. *)
Lemma inv_here q q' k v :
  inv q → (∀ k', view_of q' k' = if decide (k = k') then v else view_of q k') → view_ok v →
  (∀ l, owned v = Some l → owned (view_of q k) = Some l) →
  stream_allocation_queue q' = stream_allocation_queue q → stream_contexts q' = stream_contexts q →
  stream_heap q' = stream_heap q → auxiliary_streams_list q' = auxiliary_streams_list q → inv q'.
Proof.
  intros Hi Hview Hv Hown Hq Hl Hh Ha. apply (inv_local q q' k Hi); rw ?Hq ?Hl; try done.
  - intros k' Hne. rw Hview decide_False //. congruence.
  - by rw Hview decide_True.
  - by apply inv_queue.
  - by apply inv_list.
  - intros l. rw Hview decide_True //. apply Hown.
Qed.

Lemma inv_set_caller q k pc :
  inv q → view_ok (with_caller pc (view_of q k)) →
  (∀ l, owned (with_caller pc (view_of q k)) = Some l → owned (view_of q k) = Some l) → inv (set_caller k pc q).
Proof.
  intros Hi Hv Ho. apply (inv_here q _ k (with_caller pc (view_of q k)) Hi); try done.
  intros k'. rw view_set_caller. by case_decide as Hk; [subst|].
Qed.

(** A context changes only in what the sending and the receiving write. *)
Definition same_allocation (c c' : QuicClientStreamContext) : Prop :=
  use_auxiliary_stream c' = use_auxiliary_stream c ∧ allocated_stream c' = allocated_stream c ∧
  stream_allocation_finished c' = stream_allocation_finished c ∧
  successfully_allocated_stream c' = successfully_allocated_stream c.

Lemma has_stream_same c c' : same_allocation c c' → has_stream (Some c) → has_stream (Some c').
Proof. intros (_ & Ha & _) (c0 & [= <-] & Hc). exists c'. by rw Ha. Qed.

Lemma view_ok_same v c c' :
  same_allocation c c' → v_context v = Some c → view_ok v → view_ok (with_context (Some c') v).
Proof.
  intros Hsame. pose proof Hsame as (Hu & Ha & Hf & Hs). destruct v as [[pc|] oc qd ld lk]; simpl; intros ->; [|by intros (_ & _ & _ & ?)].
  destruct pc; rw /view_ok /=; try (by intros (? & ? & ? & ?%(has_stream_same _ c')));
    try (by intros (_ & _ & _ & ?)); intros (? & c0 & [= <-] & Hc); (split; [done|]); exists c'; by rw Hu Hf Hs Ha.
Qed.

Lemma inv_set_context q k c c' :
  inv q → contexts q !! k = Some c → same_allocation c c' → inv (set_context k c' q).
Proof.
  intros Hi Hc Hsame.
  apply (inv_here q _ k (with_context (Some c') (view_of q k)) Hi); try done.
  - intros k'. rw view_set_context. by case_decide as Hk; [subst|].
  - by apply (view_ok_same _ c), inv_view.
  - intros l. rw /owned /= Hc /=. destruct Hsame as (_ & -> & _). by destruct (callers q !! k) as [[]|].
Qed.

Lemma inv_set_net q n : inv q → inv (set_net n q).
Proof. by intros [? ? ? ? ? ?]; constructor. Qed.

Lemma inv_kill q : inv q → inv (kill_event_loop_thread q).
Proof. by intros [? ? ? ? ? ?]; constructor. Qed.
End invariant.

(** * The list of contexts *)

Section contexts_list.
Context {W : Type}.
Implicit Types (q : QuicClient W) (k : call_ptr) (ks : list call_ptr) (sid : Z).

(** A listed context is in memory and has a stream. *)
Lemma listed_context q k :
  inv q → Some k ∈ stream_contexts q →
  ∃ c l s, contexts q !! k = Some c ∧ allocated_stream c = Some l ∧ stream_heap q !! l = Some s ∧
    owned (view_of q k) = Some l ∧ Some l ∈ auxiliary_streams_list q ∧
    context_stream q k = Some (Some (stream_number s)).
Proof.
  intros Hi Hk. destruct (view_ok_listed (view_of q k)) as (c & l & Hc & Hl & Ho); [by apply inv_view|by apply bool_decide_true|].
  destruct (inv_owned _ Hi k l Ho) as [Ha (s & Hs & _)]. exists c, l, s. simpl in Hc. split_and!; try done.
  by rw /context_stream Hc /= Hl Hs.
Qed.

(** The call that is listed for a stream is the one that owns it. *)
Lemma listed_unique q k k' sid :
  inv q → Some k ∈ stream_contexts q → Some k' ∈ stream_contexts q →
  context_stream q k = Some (Some sid) → context_stream q k' = Some (Some sid) → k = k'.
Proof.
  intros Hi (c & l & s & _ & _ & Hs & Ho & Ha & Hn)%listed_context; [|done].
  intros (c' & l' & s' & _ & _ & Hs' & Ho' & Ha' & Hn')%listed_context; [|done].
  rw Hn Hn'. intros [= H1] [= H2]. destruct (inv_pool _ Hi) as (ls & Hls & _ & _ & _ & Hinj).
  rw Hls in Ha. rw Hls in Ha'. apply list_elem_of_fmap in Ha as (x & [= <-] & Hx).
  apply list_elem_of_fmap in Ha' as (x' & [= <-] & Hx').
  assert (l = l') as <- by (apply (Hinj l l' s s'); congruence). exact (inv_exclusive _ Hi _ _ _ Ho Ho').
Qed.

Lemma find_in_list q ks sid :
  (∀ k, k ∈ ks → ∃ n, context_stream q k = Some (Some n)) →
  ∃ r, find_stream_context q (Some <$> ks) sid = Some r ∧
    match r with
    | Some k => k ∈ ks ∧ context_stream q k = Some (Some sid)
    | None => ∀ k, k ∈ ks → context_stream q k ≠ Some (Some sid)
    end.
Proof.
  induction ks as [|k ks IH]; intros Hall; [exists None; split; [done|]; by intros k ?%elem_of_nil|].
  destruct (Hall k) as [n Hn]; [by constructor|]. rw fmap_cons. cbn [find_stream_context].
  rw Hn. cbn [mbind option_bind]. destruct (Z.eqb_spec n sid) as [->|Hne].
  - exists (Some k). split_and!; [done|by constructor|done].
  - destruct IH as (r & Hr & Hspec); [by intros; apply Hall; constructor|]. exists r. split; [done|]. destruct r as [k'|].
    + split; [constructor|]; apply Hspec.
    + intros k' [->|Hk']%elem_of_cons; [congruence|by apply Hspec].
Qed.

Lemma find_stream_context_ok q sid :
  inv q → ∃ r, find_stream_context q (stream_contexts q) sid = Some r ∧
    match r with
    | Some k => Some k ∈ stream_contexts q ∧ context_stream q k = Some (Some sid)
    | None => ∀ k, Some k ∈ stream_contexts q → context_stream q k ≠ Some (Some sid)
    end.
Proof.
  intros Hi. destruct (inv_list _ Hi) as (ks & Hks & _). destruct (find_in_list q ks sid) as (r & Hr & Hspec).
  { intros k Hk. destruct (listed_context q k Hi) as (c & l & s & _ & _ & _ & _ & _ & Hn); [|by exists (stream_number s)].
    rw Hks. by apply list_elem_of_fmap_2. }
  exists r. rw Hks. split; [done|]. destruct r as [k|].
  - destruct Hspec as [Hk Hn]. split; [by apply list_elem_of_fmap_2|done].
  - intros k (? & [= <-] & Hk)%list_elem_of_fmap. by apply Hspec.
Qed.

Lemma remove_in_list q ks1 k ks2 sid :
  (∀ k', k' ∈ ks1 → ∃ n, context_stream q k' = Some (Some n) ∧ n ≠ sid) → context_stream q k = Some (Some sid) →
  remove_stream_context_loop q true (Some <$> ks1 ++ k :: ks2) sid = Some (0, Some k, Some <$> ks1 ++ ks2).
Proof.
  intros Hall Hk. induction ks1 as [|k' ks1 IH].
  - rw /= Hk /= Z.eqb_refl //.
  - destruct (Hall k') as (n & Hn & Hne); [by constructor|]. cbn [app]. rw !fmap_cons. cbn [remove_stream_context_loop].
    rw Hn. cbn [mbind option_bind]. rw (proj2 (Z.eqb_neq n sid)) // IH //. by intros k'' Hk''; apply Hall; constructor.
Qed.

(** Removing the context of a listed call removes just that one. *)
Lemma remove_stream_context_ok q k sid :
  inv q → Some k ∈ stream_contexts q → context_stream q k = Some (Some sid) →
  ∃ ks1 ks2, stream_contexts q = Some <$> ks1 ++ k :: ks2 ∧
    remove_stream_context q sid = Some (0, Some k, Some <$> ks1 ++ ks2).
Proof.
  intros Hi Hk Hn. destruct (inv_list _ Hi) as (ks & Hks & Hnd).
  pose proof Hk as Hin. rw Hks in Hin. apply list_elem_of_fmap in Hin as (? & [= <-] & Hin).
  apply list_elem_of_split in Hin as (ks1 & ks2 & ->). exists ks1, ks2. split; [done|].
  assert (∀ k', k' ∈ ks1 → ∃ n, context_stream q k' = Some (Some n) ∧ n ≠ sid) as Hall.
  { intros k' Hk'. assert (Some k' ∈ stream_contexts q) as Hl'.
    { rw Hks. apply list_elem_of_fmap_2, elem_of_app. by left. }
    destruct (listed_context q k' Hi Hl') as (c & l & s & _ & _ & _ & _ & _ & Hn'). exists (stream_number s).
    split; [done|]. intros Heq. rw Heq in Hn'. assert (k = k') as <- by by apply (listed_unique q k k' sid).
    apply NoDup_app in Hnd as (_ & Hnd & _). apply (Hnd k Hk'). by constructor. }
  rw /remove_stream_context Hks. destruct ks1 as [|k1 ks1].
  - by rw /= Hn /= Z.eqb_refl.
  - destruct (Hall k1) as (n & Hn1 & Hne); [by constructor|]. cbn [app]. rw fmap_cons Hn1. cbn [mbind option_bind].
    rw (proj2 (Z.eqb_neq n sid)) //. cbn [remove_stream_context_loop]. rw Hn1. cbn [mbind option_bind].
    rw (proj2 (Z.eqb_neq n sid)) // remove_in_list //. by intros k'' Hk''; apply Hall; constructor.
Qed.
End contexts_list.

(** * Every step keeps the invariant *)

(** The callers whose contexts are in the list. *)
Definition waiting (pc : caller) : bool :=
  match pc with ReplyWait | ReplyGap | ReplyAsleep | ReplyDone | Cleaning _ => true | _ => false end.

Section preservation.
Context {W : Type}.
Implicit Types (q : QuicClient W) (k : call_ptr) (sid : Z).

Lemma view_caller q k pc : callers q !! k = Some pc → v_caller (view_of q k) = Some pc.
Proof. done. Qed.

Lemma waiting_view v pc :
  v_caller v = Some pc → waiting pc →
  view_ok v ↔ (v_queued v = false ∧ v_locked v = false ∧ v_listed v = true ∧ has_stream (v_context v)).
Proof. intros Hv. rw /view_ok Hv. by destruct pc. Qed.

Lemma owned_context v pc :
  v_caller v = Some pc → (∀ l r, pc ≠ Releasing l r) → owned v = (c ← v_context v; allocated_stream c).
Proof. intros Hv Hne. rw /owned Hv. destruct pc; try done. by destruct (Hne stream reply). Qed.

Lemma inv_waiting q k pc pc' :
  inv q → callers q !! k = Some pc → waiting pc → waiting pc' → inv (set_caller k pc' q).
Proof.
  intros Hi Hk Hpc Hpc'. pose proof (inv_view _ Hi k) as Hv. apply inv_set_caller; [done| |].
  - apply (waiting_view _ pc'); [done|done|]. by apply (waiting_view _ pc) in Hv.
  - rw (owned_context _ pc'); [done|by intros ? ? ->|]. rw (owned_context _ pc); [done|by intros ? ? ->|done].
Qed.

Lemma inv_signal_reply q k : inv q → inv (signal_reply k q).
Proof.
  intros Hi. rw /signal_reply. destruct (callers q !! k) as [[]|] eqn:Hk; try done. by apply (inv_waiting q k ReplyAsleep).
Qed.

(** A call that is over, or was never in progress, has no context. *)
Lemma inv_returned q k reply :
  inv q → v_context (view_of q k) = None → v_queued (view_of q k) = false → v_listed (view_of q k) = false →
  v_locked (view_of q k) = false → inv (set_caller k (Returned reply) q).
Proof.
  intros Hi Hc Hq Hl Hx. apply inv_set_caller; [done| |].
  - done.
  - intros l. rw (owned_context _ (Returned reply)) //=. by simpl in Hc; rw Hc.
Qed.

Context `{Codec}.

Lemma fresh_view q k : inv q → callers q !! k = None → view_of q k = mkView None None false false false.
Proof.
  intros Hi Hk. pose proof (inv_view _ Hi k) as Hv. rw /view_ok (_ : v_caller (view_of q k) = None) // in Hv.
  destruct (view_of q k) as [pc oc qd ld lk] eqn:Hview. simpl in Hv. destruct Hv as (-> & -> & -> & ->).
  rw -Hk. by injection Hview as <-.
Qed.

Lemma view_start_call q m k msg k' :
  inv q → callers q !! k = None →
  view_of (start_call (true, m) true k msg q) k' =
  if decide (k = k')
  then mkView (Some AllocationWait) (Some (create_client_stream_context (pack_RpcMsg msg) true)) m false false
  else view_of q k'.
Proof.
  intros Hi Hk. pose proof (fresh_view q k Hi Hk) as Hfresh.
  assert (k ∉ stream_allocation_queue q) as Hnq by exact (proj1 (bool_decide_eq_false _) (f_equal v_queued Hfresh)).
  rw /start_call /= view_set_caller /push_to_stream_allocation_queue. case_decide as Heq.
  - subst k'. rw /with_caller. f_equal.
    + destruct m; by rw /= lookup_insert_eq.
    + destruct m; simpl; [apply bool_decide_true, elem_of_app; right; by constructor|by apply bool_decide_false].
    + destruct m; exact (f_equal v_listed Hfresh).
    + destruct m; exact (f_equal v_locked Hfresh).
  - destruct m; [|by rw view_set_context decide_False].
    rw /view_of /= lookup_insert_ne //. f_equal. apply bool_decide_ext. rw elem_of_app list_elem_of_singleton. naive_solver.
Qed.

Lemma inv_start_call q memory k msg :
  inv q → callers q !! k = None → inv (start_call memory true k msg q).
Proof.
  intros Hi Hk. pose proof (fresh_view q k Hi Hk) as Hfresh. destruct memory as [[] m].
  2: { by apply inv_returned; rw ?Hfresh. }
  pose proof (λ k', view_start_call q m k msg k' Hi Hk) as Hview.
  apply (inv_local q _ k Hi); rw ?Hview ?decide_True //.
  - intros k' Hne. rw Hview decide_False; [congruence|done].
  - split; [done|]. by eexists.
  - rw /start_call /push_to_stream_allocation_queue. destruct m; simpl; [|exact (inv_queue _ Hi)].
    apply NoDup_app. split_and!; [exact (inv_queue _ Hi)| |by apply NoDup_singleton].
    intros k' Hk'. rw list_elem_of_singleton. intros ->.
    exact (proj1 (bool_decide_eq_false _) (f_equal v_queued Hfresh) Hk').
  - rw /start_call /push_to_stream_allocation_queue. destruct m; exact (inv_list _ Hi).
  - rw /start_call /push_to_stream_allocation_queue. by destruct m.
  - rw /start_call /push_to_stream_allocation_queue. by destruct m.
Qed.

(** ** Allocation *)

Lemma queued_view v :
  view_ok v → v_queued v = true →
  (v_caller v = Some AllocationWait ∨ v_caller v = Some AllocationAsleep) ∧ v_listed v = false ∧ v_locked v = false ∧
  ∃ c, v_context v = Some c ∧ use_auxiliary_stream c = true ∧ stream_allocation_finished c = false ∧
       allocated_stream c = None.
Proof.
  destruct v as [[pc|] oc qd ld lk]; rw /view_ok /=; [|by intros (-> & _)].
  intros Hv ->. destruct pc; try (by destruct Hv as (? & _));
    destruct Hv as (-> & c & -> & Hu & Hc); (destruct (stream_allocation_finished c) eqn:Hf; [by destruct Hc as (? & _)|]);
    destruct Hc as [-> Ha]; (split; [by eauto|]); split_and!; try done; by exists c.
Qed.

(** The view of a call that has been told of its allocation. *)
Lemma view_signalled q k c h l k' :
  callers q !! k = Some AllocationWait ∨ callers q !! k = Some AllocationAsleep →
  view_of (signal_allocation k (set_context k c (set_streams h l q))) k' =
  if decide (k = k') then with_caller AllocationWait (with_context (Some c) (view_of q k')) else view_of q k'.
Proof.
  intros [Hk|Hk]; rw /signal_allocation /= Hk.
  - rw view_set_context. case_decide as Heq; [|done]. subst k'. by rw /with_context /with_caller /view_of /= Hk.
  - rw view_set_caller view_set_context. by case_decide.
Qed.

Lemma view_pop q k rest k' :
  stream_allocation_queue q = k :: rest → NoDup (k :: rest) →
  view_of (pop_from_stream_allocation_queue q) k' =
  let v := view_of q k' in
  mkView (v_caller v) (v_context v) (if decide (k = k') then false else v_queued v) (v_listed v) (v_locked v).
Proof.
  intros Hq [Hni _]%NoDup_cons. rw /view_of /= Hq /=. f_equal. case_decide as Hk; [subst; by apply bool_decide_false|].
  apply bool_decide_ext. rw elem_of_cons. naive_solver.
Qed.

Lemma view_keep_lock q k k' :
  view_of (keep_allocator_lock k q) k' =
  let v := view_of q k' in
  mkView (v_caller v) (v_context v) (v_queued v) (v_listed v) (if decide (k = k') then true else v_locked v).
Proof.
  rw /view_of /=. f_equal. case_decide as Hk; [subst; apply bool_decide_true; set_solver|].
  apply bool_decide_ext. set_solver.
Qed.

(** A call gets a stream that no call has. *)
Lemma inv_gain q q' k r :
  inv q → (∀ k', k' ≠ k → view_of q' k' = view_of q k') → view_ok (view_of q' k) → owned (view_of q' k) = r →
  NoDup (stream_allocation_queue q') → stream_contexts q' = stream_contexts q →
  pool_ok (stream_heap q') (auxiliary_streams_list q') →
  (∀ x, used (stream_heap q) x → stream_heap q' !! x = stream_heap q !! x) →
  (∀ x, x ∈ auxiliary_streams_list q → x ∈ auxiliary_streams_list q') →
  (∀ p, r = Some p → Some p ∈ auxiliary_streams_list q' ∧ used (stream_heap q') p ∧ ¬ used (stream_heap q) p) → inv q'.
Proof.
  intros [Hv Hq Hl Hp Ho He] Hother Hk Hr Hq' Hl' Hpool Hused Haux Hgain.
  assert (∀ k' l, k' ≠ k → owned (view_of q' k') = Some l → owned (view_of q k') = Some l) as Hown.
  { intros k' l Hne. by rw Hother. }
  constructor; [|done|by rw Hl'|done| |].
  - intros k'. destruct (decide (k' = k)) as [->|Hne]; [done|by rw Hother].
  - intros k' l Hkl. destruct (decide (k' = k)) as [->|Hne]; [rw Hr in Hkl; by destruct (Hgain l Hkl) as (? & ? & _)|].
    destruct (Ho _ _ (Hown _ _ Hne Hkl)) as [Ha Hu]. split; [by apply Haux|]. rw /used Hused //.
  - intros k1 k2 l H1 H2. destruct (decide (k1 = k)) as [->|Hne1], (decide (k2 = k)) as [->|Hne2]; [done| | |].
    + rw Hr in H1. destruct (Hgain l H1) as (_ & _ & []). exact (proj2 (Ho _ _ (Hown _ _ Hne2 H2))).
    + rw Hr in H2. destruct (Hgain l H2) as (_ & _ & []). exact (proj2 (Ho _ _ (Hown _ _ Hne1 H1))).
    + exact (He _ _ _ (Hown _ _ Hne1 H1) (Hown _ _ Hne2 H2)).
Qed.

(** The end of a round. *)
Definition told (refused : bool) k c h l q : QuicClient W :=
  let q := signal_allocation k (set_context k c (set_streams h l q)) in
  pop_from_stream_allocation_queue (if refused then keep_allocator_lock k q else q).

Lemma told_unchanged refused k c h l q :
  stream_allocation_queue (told refused k c h l q) = tail (stream_allocation_queue q) ∧
  stream_contexts (told refused k c h l q) = stream_contexts q ∧
  stream_heap (told refused k c h l q) = h ∧ auxiliary_streams_list (told refused k c h l q) = l ∧
  client_net (told refused k c h l q) = client_net q ∧ alive (told refused k c h l q) = alive q ∧
  list_locked (told refused k c h l q) = list_locked q.
Proof. rw /told /signal_allocation /=. by destruct refused, (callers q !! k) as [[]|]. Qed.

Lemma view_told refused k c h l q rest k' :
  stream_allocation_queue q = k :: rest → NoDup (k :: rest) →
  callers q !! k = Some AllocationWait ∨ callers q !! k = Some AllocationAsleep →
  view_of (told refused k c h l q) k' =
  if decide (k = k')
  then mkView (Some AllocationWait) (Some c) false (v_listed (view_of q k')) (refused || v_locked (view_of q k'))
  else view_of q k'.
Proof.
  intros Hq Hnd Hk. rw /told (view_pop _ k rest) //.
  { rw /signal_allocation. by destruct refused; simpl; destruct (callers q !! k) as [[]|]. }
  cbv zeta. destruct refused.
  - rw view_keep_lock. cbv zeta. rw view_signalled //. by case_decide.
  - rw view_signalled //. by case_decide.
Qed.

Definition refused (r : option stream_ptr) : bool := match r with None => true | Some _ => false end.

Lemma round_told q k rest o q' :
  inv q → stream_allocation_queue q = k :: rest → async_stream_allocator_round o q = Some q' →
  ∃ c r h l, get_available_auxiliary_stream o (stream_heap q) (auxiliary_streams_list q) = Some (r, h, l) ∧
    v_context (view_of q k) = Some c ∧ use_auxiliary_stream c = true ∧ v_listed (view_of q k) = false ∧
    v_locked (view_of q k) = false ∧
    (callers q !! k = Some AllocationWait ∨ callers q !! k = Some AllocationAsleep) ∧
    q' = told (refused r) k (set_allocation r (negb (refused r)) c) h l q.
Proof.
  intros Hi Hq. destruct (queued_view (view_of q k)) as (Hpc & Hld & Hlk & c & Hc & Hu & Hf & Ha);
    [by apply inv_view|apply bool_decide_true; rw Hq; by constructor|].
  rw /async_stream_allocator_round Hq /allocate_stream (_ : contexts q !! k = Some c) // /= Hu.
  destruct (get_available_auxiliary_stream o _ _) as [[[r h] l]|] eqn:Hget; [|done]. intros [= Hq'].
  exists c, r, h, l. split_and!; try done. rw -Hq' /told /refused. destruct r; [done|]. by rw Ha.
Qed.

Lemma inv_async_stream_allocator_round q k rest o q' :
  inv q → stream_allocation_queue q = k :: rest → offer_ok o q →
  async_stream_allocator_round o q = Some q' → inv q'.
Proof.
  intros Hi Hq [Hptr Hnum] Hr. pose proof (inv_queue _ Hi) as Hnd. rw Hq in Hnd.
  destruct (round_told q k rest o q' Hi Hq Hr) as (c & r & h & l & Hget & _ & Hu & Hld & Hlk & Hpc & ->).
  destruct (get_available_auxiliary_stream_ok _ _ _ _ _ _ (inv_pool _ Hi) Hptr Hnum Hget) as (Hpool & Hused & Haux & Hr').
  set (c' := set_allocation r (negb (refused r)) c).
  destruct (told_unchanged (refused r) k c' h l q) as (H1 & H2 & H3 & H4 & _). rw Hq in H1.
  apply (inv_gain q _ k r Hi); rw ?H1 ?H2 ?H3 ?H4 //.
  - intros k' Hne. rw (view_told _ _ _ _ _ _ rest) // decide_False; [congruence|done].
  - rw (view_told _ _ _ _ _ _ rest) // decide_True // Hlk Hld /view_ok /=. split; [done|]. exists c'.
    rw /c' /refused. destruct r as [p|]; split_and!; try done.
  - rw (view_told _ _ _ _ _ _ rest) // decide_True //.
  - by apply NoDup_cons in Hnd as [_ ?].
  - intros p ->. exact Hr'.
Qed.

(** ** Callers *)

(** The context is freed and the call over. *)
Lemma inv_free_and_return q k pc reply :
  inv q → callers q !! k = Some pc → (∀ l r, pc ≠ Releasing l r) → v_queued (view_of q k) = false →
  v_listed (view_of q k) = false → v_locked (view_of q k) = false →
  inv (set_caller k (Returned reply) (set_contexts (delete k (contexts q)) (stream_contexts q) q)).
Proof.
  intros Hi Hk Hpc Hqd Hld Hlk.
  apply (inv_here q _ k (with_caller (Returned reply) (with_context None (view_of q k))) Hi); try done.
  intros k'. rw view_set_caller view_free_context. by case_decide as Heq; [subst|].
Qed.

Lemma inv_test_allocation q k q' :
  inv q → callers q !! k = Some AllocationWait → k ∉ allocator_locks q → test_allocation k q = Some q' → inv q'.
Proof.
  intros Hi Hk Hlk. pose proof (inv_view _ Hi k) as Hv. rw /view_ok (view_caller _ _ _ Hk) in Hv.
  destruct Hv as (Hld & c & Hc & Hu & Hcase). simpl in Hc. rw /test_allocation Hc /=. intros [= <-].
  assert (v_locked (view_of q k) = false) as Hlk' by by apply bool_decide_false.
  assert (owned (view_of q k) = allocated_stream c) as Ho.
  { by rw (owned_context _ AllocationWait) //= Hc. }
  destruct (stream_allocation_finished c) eqn:Hf; simpl.
  - destruct Hcase as (Hqd & _ & Hcase). destruct (successfully_allocated_stream c); [|by rw Hlk' in Hcase; destruct Hcase].
    destruct Hcase as [_ Hst]. apply inv_set_caller; [done| |].
    + split_and!; [done|done|done|]. by exists c.
    + by rw Ho (owned_context _ AddingContext) //= Hc.
  - apply inv_set_caller; [done| |].
    + split; [done|]. exists c. by rw Hf.
    + by rw Ho (owned_context _ AllocationAsleep) //= Hc.
Qed.

Lemma inv_add_context q memory k :
  inv q → callers q !! k = Some AddingContext → inv (add_context memory k q).
Proof.
  intros Hi Hk. pose proof (inv_view _ Hi k) as Hv. rw /view_ok (view_caller _ _ _ Hk) in Hv.
  destruct Hv as (Hqd & Hlk & Hld & Hst). rw /add_context /add_stream_context. destruct memory; simpl.
  - set (q1 := set_contexts _ _ q).
    assert (∀ k', view_of (set_caller k ReplyWait q1) k' =
      if decide (k = k') then mkView (Some ReplyWait) (contexts q !! k') false true false else view_of q k') as Hview.
    { intros k'. rw view_set_caller. case_decide as Heq.
      - subst k'. rw /with_caller. f_equal; [done| |done]. apply bool_decide_true. by constructor.
      - rw /view_of. f_equal. apply bool_decide_ext. simpl. rw elem_of_cons. naive_solver. }
    apply (inv_local q _ k Hi); rw ?Hview ?decide_True //.
    + intros k' Hne. rw Hview decide_False //. congruence.
    + exact (inv_queue _ Hi).
    + destruct (inv_list _ Hi) as (ks & Hks & Hnd). exists (k :: ks). simpl. rw Hks. split; [done|].
      constructor; [|done]. intros Hin. apply bool_decide_eq_false in Hld. apply Hld. rw Hks. by apply list_elem_of_fmap_2.
    + intros l. by rw (owned_context (view_of q k) AddingContext).
  - by apply (inv_free_and_return q k AddingContext).
Qed.

(** The end of a call: its context is removed from the list, and no other. *)
Lemma clean_up_result q k reply q' :
  inv q → callers q !! k = Some (Cleaning reply) → clean_up k reply q = Some q' →
  ∃ l ks1 ks2, owned (view_of q k) = Some l ∧ stream_contexts q = Some <$> ks1 ++ k :: ks2 ∧
    q' = set_caller k (Releasing l reply) (set_contexts (delete k (contexts q)) (Some <$> ks1 ++ ks2) q).
Proof.
  intros Hi Hk. pose proof (inv_view _ Hi k) as Hv.
  apply (waiting_view _ (Cleaning reply)) in Hv as (Hqd & Hlk & Hld & _); [|done|done].
  destruct (listed_context q k Hi) as (c & l & s & Hc & Hl & Hs & Ho & Ha & Hn); [by apply bool_decide_eq_true in Hld|].
  rw /clean_up Hc /= Hl /= Hs /= /remove_and_free.
  destruct (remove_stream_context_ok q k _ Hi (proj1 (bool_decide_eq_true _) Hld) Hn) as (ks1 & ks2 & Hks & ->).
  intros [= <-]. by exists l, ks1, ks2.
Qed.

Lemma view_clean_up q k reply l ks1 ks2 k' :
  inv q → callers q !! k = Some (Cleaning reply) → stream_contexts q = Some <$> ks1 ++ k :: ks2 →
  view_of (set_caller k (Releasing l reply) (set_contexts (delete k (contexts q)) (Some <$> ks1 ++ ks2) q)) k' =
  if decide (k = k') then mkView (Some (Releasing l reply)) None false false false else view_of q k'.
Proof.
  intros Hi Hk Hks. pose proof (inv_view _ Hi k) as Hv.
  apply (waiting_view _ (Cleaning reply)) in Hv as (Hqd & Hlk & _); [|done|done].
  destruct (inv_list _ Hi) as (ks & Hks' & Hnd). rw Hks in Hks'. apply (inj (fmap Some)) in Hks'. subst ks.
  rw view_set_caller. case_decide as Heq.
  - subst k'. rw /with_caller. f_equal; [by rw /= lookup_delete_eq|done| |done].
    apply bool_decide_false. intros (? & [= <-] & Hin)%list_elem_of_fmap.
    apply NoDup_app in Hnd as (_ & Hnd & [Hni _]%NoDup_cons). apply elem_of_app in Hin as [Hin|Hin]; [|done].
    apply (Hnd k Hin). by constructor.
  - rw /view_of /= lookup_delete_ne //. f_equal. apply bool_decide_ext. rw Hks !list_elem_of_fmap.
    setoid_rewrite elem_of_app. setoid_rewrite elem_of_cons. naive_solver.
Qed.

Lemma inv_clean_up q k reply q' :
  inv q → callers q !! k = Some (Cleaning reply) → clean_up k reply q = Some q' → inv q'.
Proof.
  intros Hi Hk Hr. destruct (clean_up_result q k reply q' Hi Hk Hr) as (l & ks1 & ks2 & Ho & Hks & ->).
  pose proof (view_clean_up q k reply l ks1 ks2) as Hview.
  apply (inv_local q _ k Hi); rw ?Hview ?decide_True //.
  - intros k' Hne. rw Hview // decide_False //. congruence.
  - exact (inv_queue _ Hi).
  - exists (ks1 ++ ks2). split; [done|]. destruct (inv_list _ Hi) as (ks & Hks' & Hnd). rw Hks in Hks'.
    apply (inj (fmap Some)) in Hks'. subst ks.
    eapply sublist_NoDup; [exact Hnd|]. apply sublist_app; [done|]. by apply sublist_cons.
  - intros l'. by rw Ho.
Qed.

Lemma inv_release_stream q k l reply q' :
  inv q → callers q !! k = Some (Releasing l reply) → release_stream k l reply q = Some q' → inv q'.
Proof.
  intros Hi Hk. pose proof (inv_view _ Hi k) as Hv. rw /view_ok (view_caller _ _ _ Hk) in Hv.
  destruct Hv as (Hqd & Hlk & Hld & Hc). rw /release_stream. destruct (stream_heap q !! l) as [s|] eqn:Hs; [|done].
  simpl. intros [= <-]. set (q1 := set_streams _ _ q).
  assert (owned (view_of q k) = Some l) as Ho by by rw /owned (view_caller _ _ _ Hk).
  assert (∀ k' l', owned (view_of (set_caller k (Returned reply) q1) k') = Some l' →
    k' ≠ k ∧ owned (view_of q k') = Some l') as Hown.
  { intros k' l'. rw view_set_caller. case_decide as Heq; [|by split; [congruence|]].
    subst k'. rw (owned_context _ (Returned reply)) //=. simpl in Hc. by rw Hc. }
  constructor.
  - intros k'. rw view_set_caller. case_decide; [by subst|by apply (inv_view _ Hi)].
  - exact (inv_queue _ Hi).
  - exact (inv_list _ Hi).
  - apply pool_ok_mark; [exact (inv_pool _ Hi)|done].
  - intros k' l' [Hne Ho']%Hown. destruct (inv_owned _ Hi _ _ Ho') as [Ha Hu]. split; [done|].
    rw /used /= lookup_insert_ne //. intros <-. by apply Hne, (inv_exclusive _ Hi _ _ l).
  - intros k1 k2 l' [_ H1]%Hown [_ H2]%Hown. exact (inv_exclusive _ Hi _ _ _ H1 H2).
Qed.
End preservation.

Section steps.
Context `{QuicStream W} `{Memory} `{Codec}.
Variable conn : Z.
Implicit Types (q : QuicClient W) (k : call_ptr) (sid : Z).

Lemma inv_client_on_stream_writable q sid q' :
  inv q → client_on_stream_writable conn sid q = Some q' → inv q'.
Proof.
  intros Hi. rw /client_on_stream_writable. destruct (find_stream_context_ok q sid Hi) as (r & -> & Hr).
  destruct r as [k|]; cbn [mbind option_bind]; [|by intros [= <-]]. destruct Hr as [Hk Hn].
  destruct (contexts q !! k) as [c|] eqn:Hc; [|done]. cbn [mbind option_bind]. rw Hn. cbn [mbind option_bind].
  rw bool_decide_true //=. destruct (attempted_call_rpc_msg_send c); [by intros [= <-]|].
  destruct (send_rm_record_quic conn sid _ _) as [[e n]|]; [|done]. simpl. intros [= <-].
  assert (inv (set_net n (set_context k (set_sent true (e =? 0) (finished c) c) q))) as Hi'.
  { by apply inv_set_net, (inv_set_context q k c). }
  destruct (e =? 0); [done|by apply inv_kill].
Qed.

Lemma inv_client_on_stream_readable q fuel memory sid q' :
  inv q → client_on_stream_readable conn fuel memory sid q = Some q' → inv q'.
Proof.
  intros Hi. rw /client_on_stream_readable. destruct (find_stream_context_ok q sid Hi) as (r & -> & Hr).
  destruct r as [k|]; cbn [mbind option_bind]; [|by intros [= <-]].
  destruct (contexts q !! k) as [c|] eqn:Hc; [|done]. cbn [mbind option_bind].
  assert (∀ rm b b' n, inv (set_context k (set_received rm b b' c) (set_net n q))) as Hset.
  { intros rm b b' n. by apply (inv_set_context _ k c); [apply inv_set_net| |]. }
  destruct (match rm_receiving_context c with Some rm => Some rm | None => _ end) as [rm|].
  - destruct (receive_available_loop fuel rm _) as [[[e rm'] n]|]; [|done]. simpl. intros [= <-].
    destruct (e >? 0); [by apply inv_kill|]. destruct (record_fully_received rm'); [by apply inv_signal_reply|done].
  - intros [= <-]. apply inv_kill. exact (Hset None false true (client_net q)).
Qed.

Lemma inv_client_step reliable q q' : inv q → client_step conn reliable q q' → inv q'.
Proof.
  intros Hi Hst. destruct Hst as [q k msg m Hk _|q k rest o q' _ Hq _ Ho Hr|q k q' Hk Hlk Hr|q k m Hk _ _|q sid q' _ _ Hr|
    q fuel m sid q' _ _ _ Hr|q k q' Hk Hr|q k Hk|q k q' Hk Hr|q k reply q' Hk _ Hr|q k l reply q' Hk Hr].
  - by apply inv_start_call.
  - by apply (inv_async_stream_allocator_round q k rest o).
  - by apply (inv_test_allocation q k).
  - by apply inv_add_context.
  - by apply (inv_client_on_stream_writable q sid).
  - by apply (inv_client_on_stream_readable q fuel m sid).
  - rw /test_reply in Hr. destruct (contexts q !! k) as [c|]; [|done]. injection Hr as <-.
    apply (inv_waiting q k ReplyWait); [done|done|done|by destruct (finished c)].
  - by apply (inv_waiting q k ReplyGap).
  - rw /read_reply in Hr. destruct (contexts q !! k) as [c|]; [|done]. simpl in Hr.
    destruct (wait_for_rpc_reply_result c !=? 0); [|destruct (rm_receiving_context c); [|done]];
      injection Hr as <-; by apply (inv_waiting q k ReplyDone).
  - by apply (inv_clean_up q k reply).
  - by apply (inv_release_stream q k l reply).
Qed.

Lemma inv_established main n : inv (established (W:=W) main n).
Proof.
  assert (∀ k, view_of (established main n) k = mkView None None false false false) as Hv.
  { intros k. rw /view_of /= !lookup_empty. f_equal; apply bool_decide_false; set_solver. }
  constructor.
  - intros k. by rw Hv.
  - constructor.
  - exists []. split; [done|constructor].
  - exists []. split_and!; try done; [constructor|set_solver..].
  - intros k l. by rw Hv.
  - intros k k' l. by rw Hv.
Qed.

Lemma inv_reachable q : client_reachable conn q → inv q.
Proof.
  intros (main & n & Hr). revert Hr. apply (rtc_ind_r inv (established main n)); [apply inv_established|].
  intros q1 q2 _ [Hst|[n' ->]] Hi; [by apply (inv_client_step false q1)|by apply inv_set_net].
Qed.

(** Where memory never runs out, less can happen. *)
Lemma client_step_reliable q q' : client_step conn true q q' → client_step conn false q q'.
Proof.
  destruct 1 as [q k msg m Hk _|q k rest o q' ? ? ? ? ?|q k q' ? ? ?|q k m ? ? _|q sid q' ? ? ?|
    q fuel m sid q' ? ? _ ?|q k q' ? ?|q k ?|q k q' ? ?|q k reply q' ? ? ?|q k l reply q' ? ?].
  - by apply step_call.
  - by apply (step_allocate _ _ _ k rest o).
  - by apply (step_test_allocation _ _ _ k).
  - by apply step_add.
  - by apply (step_writable _ _ _ sid).
  - by apply (step_readable _ _ _ fuel m sid).
  - by apply (step_test_reply _ _ _ k).
  - by apply step_sleep.
  - by apply (step_read _ _ _ k).
  - by apply (step_clean_up _ _ _ k reply).
  - by apply (step_release _ _ _ k l reply).
Qed.

(** ** Mutexes that are never unlocked *)

Lemma locked_caller q k : inv q → k ∈ allocator_locks q → callers q !! k = Some AllocationWait.
Proof.
  intros Hi Hk. pose proof (inv_view _ Hi k) as Hv.
  assert (v_locked (view_of q k) = true) as Hlk by by apply bool_decide_true.
  rw /view_ok Hlk in Hv. simpl in Hv. destruct (callers q !! k) as [[]|]; try (by destruct Hv as (_ & ? & _)).
  destruct Hv as (_ & c & _ & _ & Hv). destruct (stream_allocation_finished c); [by destruct Hv as (_ & ? & _)|by destruct Hv as [? _]].
Qed.

(** No step unlocks them or brings the event loop back. *)
Definition locks_kept q q' : Prop :=
  allocator_locks q ⊆ allocator_locks q' ∧ (list_locked q → list_locked q').

Lemma signal_allocation_locks k q :
  allocator_locks (signal_allocation k q) = allocator_locks q ∧ list_locked (signal_allocation k q) = list_locked q.
Proof. rw /signal_allocation. by destruct (callers q !! k) as [[]|]. Qed.

Lemma signal_reply_locks k q :
  allocator_locks (signal_reply k q) = allocator_locks q ∧ list_locked (signal_reply k q) = list_locked q.
Proof. rw /signal_reply. by destruct (callers q !! k) as [[]|]. Qed.

Lemma locks_kept_round q o q' : async_stream_allocator_round o q = Some q' → locks_kept q q'.
Proof.
  rw /async_stream_allocator_round. destruct (stream_allocation_queue q) as [|k rest]; [by intros [= <-]|].
  rw /allocate_stream /locks_kept. destruct (contexts q !! k) as [c|]; [|done]. cbn [mbind option_bind].
  assert (∀ c' q0, allocator_locks q0 = allocator_locks q → list_locked q0 = list_locked q →
    locks_kept q (pop_from_stream_allocation_queue (signal_allocation k (set_context k c' q0))) ∧
    locks_kept q (pop_from_stream_allocation_queue (keep_allocator_lock k (signal_allocation k (set_context k c' q0))))) as Hk.
  { intros c' q0 Hal Hll. destruct (signal_allocation_locks k (set_context k c' q0)) as [Hsa Hsl].
    rw /locks_kept /= Hsa Hsl /= Hal Hll. split; (split; [set_solver|done]). }
  destruct (use_auxiliary_stream c).
  - destruct (get_available_auxiliary_stream o _ _) as [[[[p|] h] l]|]; [| |done]; intros [= <-]; by apply Hk.
  - destruct (main_stream q); intros [= <-]; by apply Hk.
Qed.

Lemma locks_kept_callback q q' :
  (∃ sid, client_on_stream_writable conn sid q = Some q') ∨
  (∃ fuel memory sid, client_on_stream_readable conn fuel memory sid q = Some q') → locks_kept q q'.
Proof.
  rw /client_on_stream_writable /client_on_stream_readable. intros [(sid & Hr)|(fuel & memory & sid & Hr)];
    destruct (find_stream_context q _ sid) as [[k|]|]; try done; try (by injection Hr as <-);
    cbn [mbind option_bind] in Hr; (destruct (contexts q !! k) as [c|]; [|done]); cbn [mbind option_bind] in Hr.
  - destruct (context_stream q k) as [n|]; [|done]. cbn [mbind option_bind] in Hr.
    destruct (negb _); [by injection Hr as <-|]. destruct (attempted_call_rpc_msg_send c); [by injection Hr as <-|].
    destruct (send_rm_record_quic conn sid _ _) as [[e n']|]; [|done]. injection Hr as <-. by destruct (e =? 0).
  - destruct (match rm_receiving_context c with Some rm => Some rm | None => _ end) as [rm|]; [|by injection Hr as <-].
    destruct (receive_available_loop fuel rm _) as [[[e rm'] n]|]; [|done]. injection Hr as <-.
    destruct (e >? 0); [done|]. destruct (record_fully_received rm'); [|done].
    rw /locks_kept !(proj1 (signal_reply_locks _ _)) !(proj2 (signal_reply_locks _ _)). done.
Qed.

Lemma locks_kept_step reliable q q' : client_step conn reliable q q' → locks_kept q q'.
Proof.
  intros Hst. destruct Hst as [q k msg m Hk _|q k rest o q' _ Hq _ Ho Hr|q k q' Hk Hlk Hr|q k m Hk _ _|q sid q' _ _ Hr|
    q fuel m sid q' _ _ _ Hr|q k q' Hk Hr|q k Hk|q k q' Hk Hr|q k reply q' Hk _ Hr|q k l reply q' Hk Hr].
  - rw /start_call /push_to_stream_allocation_queue. by destruct m as [[] []].
  - by apply (locks_kept_round q o).
  - rw /test_allocation in Hr. destruct (contexts q !! k) as [c|]; [|done]. injection Hr as <-.
    by destruct (stream_allocation_finished c), (successfully_allocated_stream c).
  - rw /add_context. by destruct m.
  - apply locks_kept_callback. by eauto.
  - apply locks_kept_callback. by eauto.
  - rw /test_reply in Hr. destruct (contexts q !! k); [|done]. by injection Hr as <-.
  - done.
  - rw /read_reply in Hr. destruct (contexts q !! k) as [c|]; [|done]. simpl in Hr.
    destruct (wait_for_rpc_reply_result c !=? 0); [|destruct (rm_receiving_context c); [|done]]; by injection Hr as <-.
  - rw /clean_up /remove_and_free in Hr. destruct (contexts q !! k) as [c|]; [|done]. simpl in Hr.
    destruct (allocated_stream c) as [l|]; [|done]. simpl in Hr. destruct (stream_heap q !! l) as [s|]; [|done]. simpl in Hr.
    destruct (remove_stream_context q _) as [[[e r] l']|]; [|done]. by injection Hr as <-.
  - rw /release_stream in Hr. destruct (stream_heap q !! l) as [s|]; [|done]. by injection Hr as <-.
Qed.
End steps.

(** * Theorems *)

Section theorems.
Context `{QuicStream W} `{Memory} `{Codec}.
Variable conn : Z.
Implicit Types (q : QuicClient W) (k : call_ptr) (sid : Z).

(** C30: however the callers, the event loop and the network
    interleave, and whatever fails, there are never more than ten auxiliary
    streams; the stream of a call is marked as in use for as long as it is the
    call's, and no two calls ever have the same stream; a call that waits for its
    reply has a context in memory with a stream; and a search for the context of
    a stream never follows a dangling pointer and finds exactly the call that has
    the stream. *)
Theorem calls_have_their_own_streams q (Hq : client_reachable conn q) :
  Z.of_nat (length (auxiliary_streams_list q)) ≤ MAX_STREAMS_PER_CONNECTION ∧
  (∀ k l, owned (view_of q k) = Some l → used (stream_heap q) l) ∧
  (∀ k k' l, owned (view_of q k) = Some l → owned (view_of q k') = Some l → k = k') ∧
  (∀ k pc, callers q !! k = Some pc → waiting pc → ∃ sid, context_stream q k = Some (Some sid)) ∧
  ∀ sid, ∃ r, find_stream_context q (stream_contexts q) sid = Some r ∧
    ∀ k, r = Some k ↔ Some k ∈ stream_contexts q ∧ context_stream q k = Some (Some sid).
Proof.
  pose proof (inv_reachable conn q Hq) as Hi. split_and!.
  - destruct (inv_pool _ Hi) as (ls & -> & _ & Hlen & _). by rw length_fmap.
  - intros k l Ho. exact (proj2 (inv_owned _ Hi _ _ Ho)).
  - exact (inv_exclusive _ Hi).
  - intros k pc Hk Hpc. pose proof (inv_view _ Hi k) as Hv.
    apply (waiting_view _ pc) in Hv as (_ & _ & Hld & _); [|done|done].
    destruct (listed_context q k Hi) as (c & l & s & _ & _ & _ & _ & _ & Hn); [by apply bool_decide_eq_true in Hld|by exists (stream_number s)].
  - intros sid. destruct (find_stream_context_ok q sid Hi) as (r & Hr & Hspec). exists r. split; [done|]. intros k.
    destruct r as [k'|]; [|split; [done|intros [Hk Hn]; by destruct (Hspec k Hk)]]. destruct Hspec as [Hk' Hn'].
    split; [by intros [= <-]|]. intros [Hk Hn]. f_equal. by apply (listed_unique q k' k sid).
Qed.

Lemma never_unlocked q q' k :
  rtc (step_any conn) q q' → inv q → k ∈ allocator_locks q → callers q' !! k = Some AllocationWait.
Proof.
  induction 1 as [q|q1 q2 q3 Hst _ IH]; intros Hi Hk; [by apply locked_caller|].
  destruct Hst as [Hst|[n ->]]; [|apply IH; [by apply inv_set_net|done]].
  apply IH; [by apply (inv_client_step conn false q1)|]. destruct (locks_kept_step conn false q1 q2 Hst) as [Hsub _]. set_solver.
Qed.

Lemma first_free_full h l n :
  (∀ x, Some x ∈ l → used h x) → (∀ x, x ∈ l → x ≠ None) →
  first_free h l n = Some (AllInUse (n + Z.of_nat (length l))).
Proof.
  revert n. induction l as [|[x|] l IH]; intros n Hu Hn; [by rw /= Z.add_0_r| |].
  - destruct (Hu x) as (s & Hs & Huse); [by constructor|]. rw /= Hs /= Huse /= IH.
    + intros y Hy. apply Hu. by constructor.
    + intros y Hy. apply Hn. by constructor.
    + do 2 f_equal. lia.
  - destruct (Hn None); [by constructor|done].
Qed.

(** C38: a call that is to be allocated a stream while all ten are
    in use never returns, whatever happens afterwards: the event loop tells the
    caller that there is no stream and keeps the mutex that the caller needs to
    find out. *)
Theorem call_without_a_stream_never_returns q k rest o q1
    (Hq : client_reachable conn q) (Hfront : stream_allocation_queue q = k :: rest)
    (Hfull : Z.of_nat (length (auxiliary_streams_list q)) = MAX_STREAMS_PER_CONNECTION)
    (Hused : ∀ l, Some l ∈ auxiliary_streams_list q → used (stream_heap q) l)
    (Hoffer : offer_ok o q) (Hround : async_stream_allocator_round o q = Some q1) :
  (∃ c, contexts q1 !! k = Some c ∧ stream_allocation_finished c = true ∧ successfully_allocated_stream c = false) ∧
  ∀ q2, rtc (step_any conn) q1 q2 → callers q2 !! k = Some AllocationWait.
Proof.
  pose proof (inv_reachable conn q Hq) as Hi.
  pose proof (inv_async_stream_allocator_round q k rest o q1 Hi Hfront Hoffer Hround) as Hi1.
  destruct (queued_view (view_of q k)) as (_ & _ & _ & c & Hc & Hu & _);
    [by apply inv_view|apply bool_decide_true; rw Hfront; by constructor|]. simpl in Hc.
  rw /async_stream_allocator_round Hfront /allocate_stream Hc /= Hu /get_available_auxiliary_stream first_free_full in Hround.
  - done.
  - destruct (inv_pool _ Hi) as (ls & -> & _). by intros x (y & -> & _)%list_elem_of_fmap.
  - rw /= Hfull /= in Hround. injection Hround as <-. split.
    + exists (set_allocation (allocated_stream c) false c). split; [|done]. rw /signal_allocation /=. destruct (callers q !! k) as [[]|]; by rw /= lookup_insert_eq.
    + intros q2 Hr. apply (never_unlocked _ q2 k Hr Hi1). simpl. set_solver.
Qed.

(** The calls that are neither over nor about to mark their stream as free. *)
Definition unfinished (pc : caller) : bool :=
  match pc with Releasing _ _ | Returned _ => false | _ => true end.

Lemma set_caller_unfinished q k k' pc' :
  (∃ pc, callers q !! k = Some pc ∧ unfinished pc) → (k' = k → unfinished pc') →
  ∃ pc, callers (set_caller k' pc' q) !! k = Some pc ∧ unfinished pc.
Proof.
  intros (pc & Hk & Hu) Hpc'. simpl. destruct (decide (k' = k)) as [->|Hne].
  - exists pc'. rw lookup_insert_eq. by split; [|apply Hpc'].
  - exists pc. by rw lookup_insert_ne.
Qed.

Lemma unfinished_step reliable q q' k :
  inv q → list_locked q = true → (∃ pc, callers q !! k = Some pc ∧ unfinished pc) → client_step conn reliable q q' →
  ∃ pc, callers q' !! k = Some pc ∧ unfinished pc.
Proof.
  intros Hi Hll Hu Hst. pose proof Hu as (pc & Hk & Hpc).
  destruct Hst as [q k' msg m Hk' _|q k' rest o q' _ Hq _ Ho Hr|q k' q' Hk' Hlk Hr|q k' m _ Hl _|q sid q' _ Hl Hr|
    q fuel m sid q' _ Hl _ Hr|q k' q' Hk' Hr|q k' Hk'|q k' q' Hk' Hr|q k' reply q' _ Hl Hr|q k' l reply q' Hk' Hr]; try congruence.
  - assert (k' ≠ k) as Hne by congruence. rw /start_call /push_to_stream_allocation_queue.
    destruct m as [[] []]; by apply set_caller_unfinished.
  - rw /async_stream_allocator_round Hq /allocate_stream in Hr. destruct (contexts q !! k') as [c|]; [|done].
    cbn [mbind option_bind] in Hr.
    assert (∀ q0, callers q0 = callers q → ∃ pc, callers (signal_allocation k' q0) !! k = Some pc ∧ unfinished pc) as Hsig.
    { intros q0 Hq0. rw /signal_allocation Hq0. destruct (callers q !! k') as [[]|]; try (by exists pc; rw Hq0).
      apply set_caller_unfinished; [|done]. by exists pc; rw Hq0. }
    destruct (use_auxiliary_stream c).
    + destruct (get_available_auxiliary_stream o _ _) as [[[[p|] h] l]|]; [| |done]; injection Hr as <-; by apply Hsig.
    + destruct (main_stream q); injection Hr as <-; by apply Hsig.
  - pose proof (inv_view _ Hi k') as Hv. rw /view_ok (view_caller _ _ _ Hk') in Hv. destruct Hv as (_ & c & Hc & _ & Hcase).
    simpl in Hc. rw /test_allocation Hc in Hr. injection Hr as <-.
    destruct (stream_allocation_finished c); [|by apply set_caller_unfinished].
    destruct Hcase as (_ & _ & Hcase). destruct (successfully_allocated_stream c); [by apply set_caller_unfinished|].
    by destruct Hcase as [?%bool_decide_eq_true _].
  - rw /test_reply in Hr. destruct (contexts q !! k') as [c|]; [|done]. injection Hr as <-.
    by apply set_caller_unfinished; [|destruct (finished c)].
  - by apply set_caller_unfinished.
  - rw /read_reply in Hr. destruct (contexts q !! k') as [c|]; [|done]. simpl in Hr.
    destruct (wait_for_rpc_reply_result c !=? 0); [|destruct (rm_receiving_context c); [|done]];
      injection Hr as <-; by apply set_caller_unfinished.
  - rw /release_stream in Hr. destruct (stream_heap q !! l) as [s|]; [|done]. injection Hr as <-.
    apply set_caller_unfinished; [done|]. intros ->. rw Hk in Hk'. injection Hk' as ->. done.
Qed.

(** When a callback fails, the event loop ends itself with the mutex of the
    contexts locked: no call that is in progress then ever returns. *)
Theorem failed_callback_hangs_all_calls q k pc
    (Hq : client_reachable conn q) (Hkilled : list_locked q = true)
    (Hk : callers q !! k = Some pc) (Hpc : unfinished pc) :
  ∀ q', rtc (step_any conn) q q' → ∀ reply, callers q' !! k ≠ Some (Returned reply).
Proof.
  intros q' Hr. pose proof (inv_reachable conn q Hq) as Hi.
  assert (∃ pc, callers q !! k = Some pc ∧ unfinished pc) as Hu by by exists pc. clear Hq Hk Hpc pc.
  induction Hr as [q|q1 q2 q3 Hst _ IH].
  - intros reply. destruct Hu as (pc & -> & Hu). by intros [= ->].
  - destruct Hst as [Hst|[n ->]]; [|apply IH; [done|by apply inv_set_net|done]].
    apply IH; [|by apply (inv_client_step conn false q1)|by apply (unfinished_step false q1)].
    destruct (locks_kept_step conn false q1 q2 Hst) as [_ Hl]. apply Is_true_true, Hl. by rw Hkilled.
Qed.
End theorems.
