(* ===== verification/QuicReplies.v ===== *)
(** The QUIC client ([QuicClient]) with the other end of its connection: a peer
    that answers every record it receives with a record on the same stream, in
    pieces that arrive when they like. Every call gets the answer to its own
    message, however many calls are in progress and however the threads, the
    callbacks and the arrivals interleave. *)
From S2P Require Import Prelude Messages RecordMarking RecordMarkingQuic QuicStreams Server QuicClient.

(** * The client and its peer *)

(** [seen]: what the peer has read of each stream; [to_come]: what it still has
    to send on it; [asked]: the message of every call there has been. *)
Record exchange (W : Type) := mkExchange {
  quic_client : QuicClient W;
  seen : gmap Z (list byte);
  to_come : gmap Z (list byte);
  asked : gmap call_ptr Rpc.RpcMsg }.

Arguments mkExchange {W}.
Arguments quic_client {W} e.
Arguments seen {W} e.
Arguments to_come {W} e.
Arguments asked {W} e.

Definition bytes_at (m : gmap Z (list byte)) (sid : Z) : list byte := default [] (m !! sid).

Section exchange.
Context `{StreamArrivals W} `{Memory} `{Codec}.
Variable conn : Z.
(** The answers that the peer may give to a message. *)
Variable answers : list byte → list byte → Prop.
Implicit Types (s : exchange W) (q : QuicClient W) (k : call_ptr) (sid : Z).

Inductive exchange_step : exchange W → exchange W → Prop :=
  | exchange_call s k msg :
      callers (quic_client s) !! k = None →
      exchange_step s (mkExchange (start_call (true, true) true k msg (quic_client s)) (seen s) (to_come s)
                         (<[k := msg]> (asked s)))
  (* any other step of the client's threads *)
  | exchange_client s q :
      client_step conn true (quic_client s) q → dom (callers q) = dom (callers (quic_client s)) →
      exchange_step s (mkExchange q (seen s) (to_come s) (asked s))
  (* the peer has received a record and answers it *)
  | exchange_answer s sid fs fs' :
      written (conn, sid) (client_net (quic_client s)) = bytes_at (seen s) sid ++ encode_fragments fs →
      fs ≠ [] → sendable_fragments fs → bytes_at (to_come s) sid = [] →
      answers (concat fs) (concat fs') → fs' ≠ [] → sendable_fragments fs' →
      exchange_step s
        (mkExchange (quic_client s) (<[sid := written (conn, sid) (client_net (quic_client s))]> (seen s))
           (<[sid := encode_fragments fs']> (to_come s)) (asked s))
  (* some of what it sends arrives *)
  | exchange_arrive s sid ps rest :
      bytes_at (to_come s) sid = concat ps ++ rest → Forall (.≠ []) ps →
      exchange_step s
        (mkExchange (set_net (deliver (conn, sid) ps (client_net (quic_client s))) (quic_client s)) (seen s)
           (<[sid := rest]> (to_come s)) (asked s)).

Definition new_exchange (main : option (stream_ptr * Z)) (n : W) : exchange W :=
  mkExchange (established main n) ∅ ∅ ∅.
End exchange.

(** * Lemmas on records *)

Lemma encode_fragments_inj fs fs' :
  sendable_fragments fs → sendable_fragments fs' → encode_fragments fs = encode_fragments fs' → fs = fs'.
Proof.
  intros [Hok _] [Hok' _]. revert fs' Hok'. induction Hok as [|f fs Hf _ IH]; intros [|f' fs'] Hok'; try done.
  apply Forall_cons in Hok' as [Hf' Hok']. rw !encode_fragments_cons. intros [Hhd Htl]%app_inj_1; [|done].
  rw /fragment_ok /RM_MAX_FRAGMENT_DATA_SIZE in Hf, Hf'.
  destruct (header_roundtrip (bool_decide (fs = [])) (Z.of_nat (length f))) as [_ Hlen]; [lia|].
  destruct (header_roundtrip (bool_decide (fs' = [])) (Z.of_nat (length f'))) as [_ Hlen']; [lia|].
  rw Hhd Hlen' in Hlen. apply app_inj_1 in Htl as [-> Htl]; [|lia]. f_equal. by apply IH.
Qed.

(** More fuel does not change what a receiver does. *)
Lemma receive_available_loop_mono `{QuicStream W} `{Memory} fuel fuel' c (w : W) r :
  (fuel ≤ fuel')%nat → receive_available_loop fuel c w = Some r → receive_available_loop fuel' c w = Some r.
Proof.
  revert fuel' c w. induction fuel as [|fuel IH]; intros [|fuel'] c w Hle; [done|done|lia|].
  rw !receive_available_loop_S. destruct (quic_stream_read _ _ _ w) as [[n data] w'].
  destruct (n <? 0); [done|]. destruct (n =? 0); [done|]. destruct (process_chunk _ data c) as [rest c'| |]; [|done..].
  destruct (record_fully_received c'); [done|]. apply IH. lia.
Qed.

(** * The conversation on a stream *)

(** What is on its way on a stream. *)
Record wire := mkWire {
  w_pending : list (list byte); w_written : list byte; w_seen : list byte; w_to_come : list byte }.

(** Everything that was sent was received. *)
Definition idle (w : wire) : Prop := w_pending w = [] ∧ w_to_come w = [] ∧ w_seen w = w_written w.

Section conversation.
Context `{Memory}.
Variable conn : Z.
Variable answers : list byte → list byte → Prop.
Implicit Types (c : QuicClientStreamContext) (w : wire) (sid : Z).

Definition receiver sid c : RecordMarkingReceivingContext :=
  default (create_rm_receiving_context conn sid) (rm_receiving_context c).

(** Nothing of the reply has been received. *)
Definition expectant sid c : Prop :=
  finished c = false ∧ reply_rpc_msg_successfully_received c = false ∧ receiver sid c = create_rm_receiving_context conn sid.

Definition sent c : Prop := attempted_call_rpc_msg_send c = true ∧ call_rpc_msg_successfully_sent c = true.

(** A call with a stream has still to be sent, or is with the peer, or is being
    answered, or has its reply. *)
Definition unsent sid c w : Prop := attempted_call_rpc_msg_send c = false ∧ expectant sid c ∧ idle w.

Definition under_way sid c w : Prop :=
  sent c ∧ expectant sid c ∧ w_pending w = [] ∧ w_to_come w = [] ∧
  ∃ fs, w_written w = w_seen w ++ encode_fragments fs ∧ concat fs = call_rpc_msg_buffer c ∧ sendable_fragments fs.

Definition being_answered sid c w : Prop :=
  sent c ∧ finished c = false ∧ reply_rpc_msg_successfully_received c = false ∧ w_seen w = w_written w ∧
  for_stream conn sid (receiver sid c) ∧
  ∃ rep, answers (call_rpc_msg_buffer c) rep ∧ expects (receiver sid c) (concat (w_pending w) ++ w_to_come w) rep.

Definition answered sid c w : Prop :=
  sent c ∧ finished c = true ∧ reply_rpc_msg_successfully_received c = true ∧ idle w ∧
  ∃ rm rep, rm_receiving_context c = Some rm ∧ for_stream conn sid rm ∧ complete rm rep ∧
            answers (call_rpc_msg_buffer c) rep.

Definition talk sid c w : Prop :=
  unsent sid c w ∨ under_way sid c w ∨ being_answered sid c w ∨ answered sid c w.

Lemma talk_finished sid c w : talk sid c w → finished c = true → answered sid c w.
Proof. intros [(_ & [? _] & _)|[(_ & [? _] & _)|[(_ & ? & _)|?]]]; done || congruence. Qed.

(** A stream with more than the peer has seen carries a message. *)
Lemma talk_unseen sid c w fs :
  talk sid c w → w_written w = w_seen w ++ encode_fragments fs → fs ≠ [] → under_way sid c w.
Proof.
  intros Ht Hw Hne. assert (w_seen w ≠ w_written w) as Hs.
  { intros Heq. rw Heq -{1}(app_nil_r (w_written w)) in Hw. apply app_inv_head in Hw.
    apply encode_fragments_nonempty in Hne. rw -Hw /= in Hne. lia. }
  destruct Ht as [(_ & _ & _ & _ & ?)|[?|[(_ & _ & _ & ? & _)|(_ & _ & _ & (_ & _ & ?) & _)]]]; done.
Qed.

(** The peer answers. *)
Lemma talk_answer sid c w fs fs' :
  talk sid c w → w_written w = w_seen w ++ encode_fragments fs → fs ≠ [] → sendable_fragments fs →
  answers (concat fs) (concat fs') → fs' ≠ [] → sendable_fragments fs' →
  talk sid c (mkWire (w_pending w) (w_written w) (w_written w) (encode_fragments fs')).
Proof.
  intros Ht Hw Hne Hs Ha Hne' Hs'. apply (talk_unseen _ _ _ fs) in Ht; [|done|done].
  destruct Ht as (Hsent & (Hf & Hr & Hrx) & Hp & _ & fs0 & Hw0 & Hcat & Hs0). rw Hw in Hw0. apply app_inv_head in Hw0.
  apply encode_fragments_inj in Hw0; [|done|done]. subst fs0.
  right; right; left. rw /being_answered /= Hrx Hp. split_and!; try done. exists (concat fs').
  split; [by rw -Hcat|]. by apply expects_fresh.
Qed.

(** Something arrives. *)
Lemma talk_arrive sid c w ps rest :
  talk sid c w → w_to_come w = concat ps ++ rest → Forall (.≠ []) ps →
  talk sid c (mkWire (w_pending w ++ ps) (w_written w) (w_seen w) rest).
Proof.
  intros Ht Hw Hps.
  assert (w_to_come w = [] → mkWire (w_pending w ++ ps) (w_written w) (w_seen w) rest = w) as Hnone.
  { intros Hnil. rw Hnil in Hw. symmetry in Hw. apply app_eq_nil in Hw as [Hw ->].
    destruct ps as [|p ps]; [destruct w; simpl in *; by rw app_nil_r Hnil|].
    apply Forall_cons in Hps as [Hp _]. by destruct p. }
  destruct Ht as [Ht|[Ht|[Ht|Ht]]].
  - rw Hnone; [apply Ht|by left].
  - rw Hnone; [apply Ht|by right; left].
  - right; right; left. destruct Ht as (? & ? & ? & ? & ? & rep & Ha & He). split_and!; try done. exists rep.
    split; [done|]. simpl. by rw concat_app -app_assoc -Hw.
  - rw Hnone; [apply Ht|by right; right; right].
Qed.
End conversation.

(** * The conversations of all streams *)

Section lines.
Context `{Memory}.
Variable conn : Z.
Variable answers : list byte → list byte → Prop.
Abbreviation talk := (talk conn answers).

(** The stream and the context of a listed call. *)
Definition line_of (h : gmap stream_ptr Stream) (v : view) : option (Z * QuicClientStreamContext) :=
  if v_listed v then
    c ← v_context v; l ← allocated_stream c; s ← h !! l; Some (stream_number s, c)
  else None.

Definition lines_ok (f : call_ptr → option (Z * QuicClientStreamContext)) (w : Z → wire) : Prop :=
  (∀ sid, (∀ k c, f k ≠ Some (sid, c)) → idle (w sid)) ∧ ∀ k sid c, f k = Some (sid, c) → talk sid c (w sid).

Definition separate (f : call_ptr → option (Z * QuicClientStreamContext)) : Prop :=
  ∀ k k' sid c c', f k = Some (sid, c) → f k' = Some (sid, c') → k = k'.

Implicit Types (f : call_ptr → option (Z * QuicClientStreamContext)) (w : Z → wire) (sid : Z) (k : call_ptr).

Lemma lines_ok_ext f f' w w' :
  (∀ k, f' k = f k) → (∀ sid, w' sid = w sid) → lines_ok f w → lines_ok f' w'.
Proof.
  intros Hf Hw [Hi Ht]. split.
  - intros sid Hno. rw Hw. apply Hi. intros k c. by rw -Hf.
  - intros k sid c. rw Hf Hw. apply Ht.
Qed.

(** One conversation goes on. *)
Lemma lines_ok_at f f' w w' k sid c c' :
  lines_ok f w → separate f → f k = Some (sid, c) → f' k = Some (sid, c') → (∀ k', k' ≠ k → f' k' = f k') →
  (∀ sid', sid' ≠ sid → w' sid' = w sid') → (talk sid c (w sid) → talk sid c' (w' sid)) → lines_ok f' w'.
Proof.
  intros [Hi Ht] Hsep Hk Hk' Hf Hw Htalk. split.
  - intros sid' Hno. assert (sid' ≠ sid) as Hne by (intros ->; by apply (Hno k c')). rw Hw //. apply Hi.
    intros k0 c0 H0. destruct (decide (k0 = k)) as [->|Hne0]; [rw Hk in H0; congruence|]. apply (Hno k0 c0). by rw Hf.
  - intros k0 sid0 c0. destruct (decide (k0 = k)) as [->|Hne0]; [rw Hk'; intros [= <- <-]; exact (Htalk (Ht k sid c Hk))|].
    rw Hf // => H0. destruct (decide (sid0 = sid)) as [->|Hne]; [by destruct Hne0; apply (Hsep k0 k sid c0 c)|].
    rw Hw //. by apply (Ht k0).
Qed.

(** A conversation begins. *)
Lemma lines_ok_add f f' w k sid c :
  lines_ok f w → (∀ k' c', f k' ≠ Some (sid, c')) → f' k = Some (sid, c) → (∀ k', k' ≠ k → f' k' = f k') → f k = None →
  (idle (w sid) → talk sid c (w sid)) → lines_ok f' w.
Proof.
  intros [Hi Ht] Hnew Hk Hf Hnone Htalk. split.
  - intros sid' Hno. apply Hi. intros k0 c0 H0. destruct (decide (k0 = k)) as [->|Hne]; [congruence|].
    apply (Hno k0 c0). by rw Hf.
  - intros k0 sid0 c0. destruct (decide (k0 = k)) as [->|Hne]; [rw Hk; intros [= <- <-]; by apply Htalk, Hi|].
    rw Hf //. apply Ht.
Qed.

(** A conversation is over. *)
Lemma lines_ok_remove f f' w k sid c :
  lines_ok f w → separate f → f k = Some (sid, c) → f' k = None → (∀ k', k' ≠ k → f' k' = f k') →
  (talk sid c (w sid) → idle (w sid)) → lines_ok f' w.
Proof.
  intros [Hi Ht] Hsep Hk Hk' Hf Hidle. split.
  - intros sid' Hno. destruct (decide (sid' = sid)) as [->|Hne]; [by apply Hidle, (Ht k)|]. apply Hi.
    intros k0 c0 H0. destruct (decide (k0 = k)) as [->|Hne0]; [congruence|]. apply (Hno k0 c0). by rw Hf.
  - intros k0 sid0 c0. destruct (decide (k0 = k)) as [->|Hne0]; [by rw Hk'|]. rw Hf //. apply Ht.
Qed.

(** The peer and the network act on one stream. *)
Lemma lines_ok_wire f w w' sid :
  lines_ok f w → (∀ sid', sid' ≠ sid → w' sid' = w sid') → (idle (w sid) → idle (w' sid)) →
  (∀ c, talk sid c (w sid) → talk sid c (w' sid)) → lines_ok f w'.
Proof.
  intros [Hi Ht] Hw Hidle Htalk. split.
  - intros sid' Hno. destruct (decide (sid' = sid)) as [->|Hne]; [by apply Hidle, Hi|]. rw Hw //. by apply Hi.
  - intros k sid' c Hk. destruct (decide (sid' = sid)) as [->|Hne]; [by apply Htalk, (Ht k)|]. rw Hw //. by apply (Ht k).
Qed.
End lines.

(** * Sending and receiving in a conversation *)

Section transfers.
Context `{StreamArrivals W} `{Memory}.
Variable conn : Z.
Variable answers : list byte → list byte → Prop.
Abbreviation talk := (talk conn answers).
Implicit Types (n : W) (sid : Z) (c : QuicClientStreamContext) (w : wire).

(** The wire of a stream, from the side of the client and of the peer. *)
Definition wire_at n (seen to_come : gmap Z (list byte)) sid : wire :=
  mkWire (pending conn sid n) (written (conn, sid) n) (bytes_at seen sid) (bytes_at to_come sid).

Lemma wire_at_read n n' seen to_come sid sid' :
  only_read (conn, sid) n n' → sid' ≠ sid → wire_at n' seen to_come sid' = wire_at n seen to_come sid'.
Proof. intros [Hw Hp] Hne. rw /wire_at Hw Hp //. congruence. Qed.

Lemma wire_at_wrote n n' seen to_come sid sid' b :
  wrote (conn, sid) b n n' → sid' ≠ sid → wire_at n' seen to_come sid' = wire_at n seen to_come sid'.
Proof. intros (_ & Hw & Hp) Hne. rw /wire_at Hp Hw //. congruence. Qed.

Lemma talk_send sid c n n' seen to_come fs :
  talk sid c (wire_at n seen to_come sid) → attempted_call_rpc_msg_send c = false →
  wrote (conn, sid) (encode_fragments fs) n n' → concat fs = call_rpc_msg_buffer c → sendable_fragments fs →
  talk sid (set_sent true true (finished c) c) (wire_at n' seen to_come sid).
Proof.
  intros Ht Ha (Hw & _ & Hp) Hcat Hs.
  destruct Ht as [(_ & He & Hi1 & Hi2 & Hi3)|[([Hx _] & _)|[([Hx _] & _)|([Hx _] & _)]]]; [|congruence..].
  right; left. simpl in Hi1, Hi2, Hi3. split_and!; try done; simpl; [by rw Hp|]. exists fs. by rw Hw Hi3.
Qed.

(** There is nothing to read. *)
Lemma receive_nothing fuel rm n sid e rm' n' :
  pending conn sid n = [] → for_stream conn sid rm → receive_available_loop fuel rm n = Some (e, rm', n') →
  e = 0 ∧ rm' = rm ∧ pending conn sid n' = [].
Proof.
  intros Hp [Hc Hi]. destruct fuel as [|fuel]; [done|]. rw receive_available_loop_S Hc Hi.
  destruct (read_nothing _ _ _ Hp) as (r & data & w' & -> & Hr & Hp'). rw (proj2 (Z.ltb_lt r 0)) //.
  by intros [= <- <- <-].
Qed.

(** What the callback makes of the context. *)
Definition after_reading (rm : RecordMarkingReceivingContext) c : QuicClientStreamContext :=
  if record_fully_received rm then set_received (Some rm) true true c
  else set_received (Some rm) (reply_rpc_msg_successfully_received c) (finished c) c.

Lemma talk_for_stream sid c w : talk sid c w → for_stream conn sid (receiver conn sid c).
Proof.
  intros [(_ & (_ & _ & ->) & _)|[(_ & (_ & _ & ->) & _)|[(_ & _ & _ & _ & ? & _)|(_ & _ & _ & _ & rm & rep & Hrm & ? & _)]]];
    try done. by rw /receiver Hrm.
Qed.

Lemma talk_read fuel sid c n e rm n' seen to_come :
  memory_available → talk sid c (wire_at n seen to_come sid) →
  receive_available_loop fuel (receiver conn sid c) n = Some (e, rm, n') →
  e = 0 ∧ only_read (conn, sid) n n' ∧ talk sid (after_reading rm c) (wire_at n' seen to_come sid).
Proof.
  intros Hmem Ht Hr. pose proof (talk_for_stream _ _ _ Ht) as Hst.
  pose proof (receive_available_loop_reads _ _ _ _ _ _ _ _ Hst Hr) as Hread. pose proof Hread as [Hwr _].
  assert (pending conn sid n = [] → pending conn sid n' = [] → wire_at n' seen to_come sid = wire_at n seen to_come sid)
    as Hsame by (intros Hp Hp'; by rw /wire_at Hwr Hp Hp').
  destruct Ht as [Ht|[Ht|[Ht|Ht]]].
  - destruct Ht as (Ha & (Hf & Hrc & Hrx) & Hid). destruct (receive_nothing _ _ _ _ _ _ _ (proj1 Hid) Hst Hr) as (-> & -> & Hp').
    split_and!; [done|done|]. left. rw Hsame; [apply Hid|done|]. rw /after_reading Hrx /=. by split_and!.
  - destruct Ht as (Ha & (Hf & Hrc & Hrx) & Hp & Hw). destruct (receive_nothing _ _ _ _ _ _ _ Hp Hst Hr) as (-> & -> & Hp').
    split_and!; [done|done|]. right; left. rw Hsame //. rw /after_reading Hrx /=. destruct Hw as [Htc Hfs]. split_and!; try done; apply Ha.
  - destruct Ht as (Hs & Hf & Hrc & Hsw & _ & rep & Ha & He). simpl in He.
    destruct (receive_available_ok conn sid _ n _ (bytes_at to_come sid) rep (fuel `max` S (length (pending conn sid n)))
      Hmem Hst eq_refl He) as (rm' & n'' & Hr' & Hp' & Hst' & Hres); [lia|].
    rw (receive_available_loop_mono fuel _ _ _ _ _ Hr) in Hr'; [lia|]. injection Hr' as <- <- <-.
    split_and!; [done|done|]. right; right. rw /after_reading. case_decide as Hnil.
    + destruct Hres as (Hfull & Hacc & Hsize). rw Hfull. right. split_and!; try done.
      * split_and!; simpl; [done|done|by rw Hwr].
      * by exists rm, rep.
    + pose proof Hres as [Hnot _]. rw Hnot. left. split_and!; try done; simpl; [by rw Hwr|].
      exists rep. by rw Hp'.
  - destruct Ht as (Hs & Hf & Hrc & Hid & rm0 & rep & Hrm & Hst0 & Hco & Ha).
    destruct (receive_nothing _ _ _ _ _ _ _ (proj1 Hid) Hst Hr) as (-> & -> & Hp').
    split_and!; [done|done|]. right; right; right. rw Hsame; [apply Hid|done|].
    rw /after_reading /receiver Hrm /=. pose proof Hco as [Hfull _]. rw Hfull. split_and!; try done; try apply Hid.
    by exists rm0, rep.
Qed.
End transfers.

(** * The invariant of an exchange *)

(** The result that a caller has. *)
Definition result (pc : caller) : option (option Rpc.RpcMsg) :=
  match pc with Cleaning r | Releasing _ r | Returned r => Some r | _ => None end.

(** The callers that have been told that their call is finished. *)
Definition told_finished (pc : caller) : bool :=
  match pc with ReplyDone | Cleaning _ => true | _ => false end.

(** Nothing has happened to the context but its allocation. *)
Definition untouched (c : QuicClientStreamContext) : Prop :=
  attempted_call_rpc_msg_send c = false ∧ finished c = false ∧
  reply_rpc_msg_successfully_received c = false ∧ rm_receiving_context c = None.

Section invariant.
Context `{Codec}.
Variable answers : list byte → list byte → Prop.

(** A result is the answer to the message of the call. *)
Definition own_reply (msg : option Rpc.RpcMsg) (r : option Rpc.RpcMsg) : Prop :=
  ∃ m rep, msg = Some m ∧ answers (pack_RpcMsg m) rep ∧ r = unpack_RpcMsg rep.

Definition context_ok (msg : option Rpc.RpcMsg) (v : view) (c : QuicClientStreamContext) : Prop :=
  (∃ m, msg = Some m ∧ call_rpc_msg_buffer c = pack_RpcMsg m) ∧
  (v_listed v = false → untouched c) ∧ (∀ pc, v_caller v = Some pc → told_finished pc → finished c = true).

Definition call_ok (msg : option Rpc.RpcMsg) (v : view) : Prop :=
  (∀ c, v_context v = Some c → context_ok msg v c) ∧
  ∀ pc r, v_caller v = Some pc → result pc = Some r → own_reply msg r.

(** A caller goes on without a result. *)
Lemma call_ok_caller msg v pc :
  call_ok msg v → (∀ c, v_context v = Some c → told_finished pc → finished c = true) →
  (∀ r, result pc = Some r → own_reply msg r) → call_ok msg (with_caller pc v).
Proof.
  intros [Hc Hr] Hf Hres. split.
  - intros c Hcc. simpl in Hcc. destruct (Hc c Hcc) as (? & ? & _). split_and!; [done|done|]. simpl.
    intros pc' [= <-]. by apply Hf.
  - simpl. intros pc' r [= <-]. apply Hres.
Qed.
End invariant.

Section preservation.
Context `{StreamArrivals W} `{Memory} `{Codec, !PackSmall}.
Variable conn : Z.
Variable answers : list byte → list byte → Prop.
Implicit Types (s : exchange W) (q : QuicClient W) (k : call_ptr) (sid : Z).

Definition line q k := line_of (stream_heap q) (view_of q k).

Definition wires q s : Z → wire := wire_at conn (client_net q) (seen s) (to_come s).

(** The invariant, for a client [q] in the place of that of [s]. *)
Record exchange_inv q s : Prop := mkExchangeInv {
  x_inv : inv q;
  x_running : alive q = true ∧ list_locked q = false;
  x_calls k : call_ok answers (asked s !! k) (view_of q k);
  x_lines : lines_ok conn answers (line q) (wires q s) }.

Lemma line_Some q k sid c :
  inv q → line q k = Some (sid, c) ↔
  Some k ∈ stream_contexts q ∧ contexts q !! k = Some c ∧ context_stream q k = Some (Some sid).
Proof.
  intros Hi. rw /line /line_of /=. case_bool_decide as Hk; [|naive_solver].
  destruct (listed_context q k Hi Hk) as (c' & l & st & Hc & Hl & Hs & _ & _ & Hn). rw Hc /= Hl /= Hs /= Hn. naive_solver.
Qed.

Lemma line_unlisted q k : v_listed (view_of q k) = false → line q k = None.
Proof. rw /line /line_of. by intros ->. Qed.

Lemma lines_separate q : inv q → separate (line q).
Proof.
  intros Hi k k' sid c c' (Hk & _ & Hn)%line_Some (Hk' & _ & Hn')%line_Some; [|done..]. by apply (listed_unique q k k' sid).
Qed.

(** A step that only moves a caller. *)
Lemma exchange_set_caller q s k pc :
  exchange_inv q s → inv (set_caller k pc q) →
  (∀ c, contexts q !! k = Some c → told_finished pc → finished c = true) →
  (∀ r, result pc = Some r → own_reply answers (asked s !! k) r) → exchange_inv (set_caller k pc q) s.
Proof.
  intros [Hi Hr Hc Hl] Hi' Hf Hres. constructor; [done|done| |].
  - intros k'. rw view_set_caller. case_decide as Heq; [subst k'|done]. by apply call_ok_caller.
  - apply (lines_ok_ext _ _ (line q) _ (wires q s)); [|done|done].
    intros k'. rw /line view_set_caller. by case_decide.
Qed.

(** A step that leaves the listed contexts and the net alone. *)
Lemma exchange_quiet q q' s k :
  exchange_inv q s → inv q' → alive q' = alive q → list_locked q' = list_locked q → client_net q' = client_net q →
  (∀ k', k' ≠ k → view_of q' k' = view_of q k') → call_ok answers (asked s !! k) (view_of q' k) →
  line q' k = line q k →
  (∀ x, used (stream_heap q) x → stream_number <$> stream_heap q' !! x = stream_number <$> stream_heap q !! x) →
  exchange_inv q' s.
Proof.
  intros [Hi Hr Hc Hl] Hi' Ha Hll Hn Hv Hk Hline Hh. constructor; [done|by rw Ha Hll| |].
  - intros k'. destruct (decide (k' = k)) as [->|Hne]; [done|by rw Hv].
  - apply (lines_ok_ext _ _ (line q) _ (wires q s)); [|by rw /wires Hn|done].
    intros k'. destruct (decide (k' = k)) as [->|Hne]; [done|]. rw /line Hv // /line_of.
    destruct (v_listed (view_of q k')) eqn:Hld; [|done].
    destruct (view_ok_listed (view_of q k')) as (c & l & Hcc & Hll' & Ho); [by apply inv_view|done|].
    specialize (Hh l (proj2 (inv_owned _ Hi _ _ Ho))). rw Hcc /= Hll' /=. move: Hh.
    by destruct (stream_heap q' !! l), (stream_heap q !! l); intros [=]; simpl; congruence.
Qed.

(** One listed context is changed, and the net with it. *)
Lemma exchange_at q q' s k sid c c' :
  exchange_inv q s → inv q' → alive q' = true → list_locked q' = false →
  line q k = Some (sid, c) → stream_heap q' = stream_heap q →
  (∀ k', k' ≠ k → view_of q' k' = view_of q k') → v_listed (view_of q' k) = true →
  contexts q' !! k = Some c' → allocated_stream c' = allocated_stream c →
  (∀ sid', sid' ≠ sid → wires q' s sid' = wires q s sid') →
  (talk conn answers sid c (wires q s sid) → talk conn answers sid c' (wires q' s sid)) →
  call_ok answers (asked s !! k) (view_of q' k) → exchange_inv q' s.
Proof.
  intros [Hi Hr Hc Hl] Hi' Ha Hll Hline Hh Hv Hld Hk Hsame Hw Htalk Hcall. constructor; [done|done| |].
  - intros k'. destruct (decide (k' = k)) as [->|Hne]; [done|by rw Hv].
  - apply (lines_ok_at _ _ (line q) _ (wires q s) _ k sid c c'); try done.
    + by apply lines_separate.
    + move: Hline. rw /line /line_of Hld Hh /= Hk. destruct (bool_decide (Some k ∈ stream_contexts q)); [|done].
      destruct (contexts q !! k) as [c0|]; [|done]. simpl. destruct (allocated_stream c0) as [l|] eqn:Hl0; [|done]. simpl.
      destruct (stream_heap q !! l) as [st|] eqn:Hst; [|done]. simpl. intros [= <- <-]. by rw Hsame Hl0 /= Hst.
    + intros k' Hne. by rw /line Hv // Hh.
Qed.

(** ** The steps of the client *)

Lemma exchange_allocate q s k rest o q' :
  exchange_inv q s → stream_allocation_queue q = k :: rest → offer_ok o q →
  async_stream_allocator_round o q = Some q' → exchange_inv q' s.
Proof.
  intros Hx Hq Ho Hr. pose proof (x_inv _ _ Hx) as Hi. pose proof (inv_queue _ Hi) as Hnd. rw Hq in Hnd.
  pose proof (inv_async_stream_allocator_round q k rest o q' Hi Hq Ho Hr) as Hi'.
  destruct (round_told q k rest o q' Hi Hq Hr) as (c & r & h & l & Hget & Hc & _ & Hld & Hlk & Hpc & ->).
  destruct Ho as [Hptr Hnum].
  destruct (get_available_auxiliary_stream_ok _ _ _ _ _ _ (inv_pool _ Hi) Hptr Hnum Hget) as (_ & Hused & _).
  destruct (told_unchanged (refused r) k (set_allocation r (negb (refused r)) c) h l q) as (_ & _ & Hh & _ & Hn & Ha & Hl).
  apply (exchange_quiet q _ s k Hx Hi' Ha Hl Hn).
  - intros k' Hne. rw (view_told _ _ _ _ _ _ rest) // decide_False; [congruence|done].
  - rw (view_told _ _ _ _ _ _ rest) // decide_True //. destruct (x_calls _ _ Hx k) as [Hcc _].
    destruct (Hcc c Hc) as (Hm & Hu & _). split; [|by intros pc r' [= <-]]. simpl. intros c' [= <-].
    split_and!; [done|by intros _; apply Hu|by intros pc [= <-]].
  - rw !line_unlisted //. by rw (view_told _ _ _ _ _ _ rest) // decide_True.
  - intros x Hx'. by rw Hh Hused.
Qed.

Lemma exchange_test_allocation q s k q' :
  exchange_inv q s → callers q !! k = Some AllocationWait → k ∉ allocator_locks q → test_allocation k q = Some q' →
  exchange_inv q' s.
Proof.
  intros Hx Hk Hlk Hr. pose proof (x_inv _ _ Hx) as Hi. pose proof (inv_test_allocation q k q' Hi Hk Hlk Hr) as Hi'.
  pose proof (inv_view _ Hi k) as Hv. rw /view_ok (view_caller _ _ _ Hk) in Hv. destruct Hv as (_ & c & Hc & _ & Hcase).
  simpl in Hc. rw /test_allocation Hc in Hr. injection Hr as <-.
  destruct (stream_allocation_finished c); [|by apply exchange_set_caller].
  destruct Hcase as (_ & _ & Hcase). destruct (successfully_allocated_stream c); [by apply exchange_set_caller|].
  by destruct Hcase as [?%bool_decide_eq_true _].
Qed.

Lemma exchange_add q s k :
  exchange_inv q s → callers q !! k = Some AddingContext → exchange_inv (add_context true k q) s.
Proof.
  intros Hx Hk. pose proof (x_inv _ _ Hx) as Hi. pose proof (inv_add_context q true k Hi Hk) as Hi'.
  pose proof (inv_view _ Hi k) as Hv. rw /view_ok (view_caller _ _ _ Hk) in Hv. destruct Hv as (Hqd & Hlk & Hld & c & Hc & _).
  rw /add_context /add_stream_context /= in Hi' |- *. set (q' := set_caller k ReplyWait _) in Hi' |- *.
  assert (∀ k', k' ≠ k → view_of q' k' = view_of q k') as Hother.
  { intros k' Hne. rw view_set_caller decide_False; [congruence|]. rw /view_of. f_equal. apply bool_decide_ext.
    simpl. rw elem_of_cons. naive_solver. }
  assert (Some k ∈ stream_contexts q') as Hin by by constructor.
  destruct (listed_context q' k Hi' Hin) as (c' & l & st & Hc' & Hl & Hs & _ & _ & Hn). simpl in Hc, Hc'.
  assert (c' = c) as -> by (simpl in Hc'; congruence).
  assert (line q' k = Some (stream_number st, c)) as Hline by by apply line_Some.
  destruct (x_calls _ _ Hx k) as [Hcc _]. destruct (Hcc c Hc) as (Hm & Hu & _).
  destruct (Hu Hld) as (Ha & Hf & Hrc & Hrm). constructor; [done|apply (x_running _ _ Hx)| |].
  - intros k'. destruct (decide (k' = k)) as [->|Hne]; [|rw Hother //; apply (x_calls _ _ Hx)].
    split; [|intros pc r; rw /= lookup_insert_eq; by intros [= <-]].
    simpl. intros c0 Hc0. assert (c0 = c) as -> by congruence. split_and!; [done| |].
    + simpl. intros Hb%bool_decide_eq_false. by destruct Hb; constructor.
    + simpl. intros pc. rw lookup_insert_eq. by intros [= <-].
  - apply (lines_ok_add _ _ (line q) _ _ k (stream_number st) c (x_lines _ _ Hx)); [|done| |by apply line_unlisted|].
    + intros k' c' Hk'. assert (k' ≠ k) as Hne by (intros ->; by rw line_unlisted in Hk').
      assert (line q' k' = line q k') as Hsame by by rw /line Hother. rw -Hsame in Hk'.
      by apply Hne, (lines_separate q' Hi' k' k (stream_number st) c' c).
    + intros k' Hne. by rw /line Hother.
    + intros Hidle. left. rw /unsent /expectant /receiver Hrm. by split_and!.
Qed.

Lemma exchange_writable q s sid q' :
  exchange_inv q s → client_on_stream_writable conn sid q = Some q' → exchange_inv q' s.
Proof.
  intros Hx Hr. pose proof (x_inv _ _ Hx) as Hi. pose proof (inv_client_on_stream_writable conn q sid q' Hi Hr) as Hi'.
  move: Hr. rw /client_on_stream_writable. destruct (find_stream_context_ok q sid Hi) as (r & -> & Hr).
  destruct r as [k|]; cbn [mbind option_bind]; [|by intros [= <-]]. destruct Hr as [Hk Hn].
  destruct (contexts q !! k) as [c|] eqn:Hc; [|done]. cbn [mbind option_bind]. rw Hn. cbn [mbind option_bind].
  rw bool_decide_true //=. destruct (attempted_call_rpc_msg_send c) eqn:Hat; [by intros [= <-]|].
  destruct (x_calls _ _ Hx k) as [Hcc Hres]. destruct (Hcc c Hc) as ((m & Hm & Hbuf) & _ & Hf).
  destruct (send_rm_record_quic_live (length (call_rpc_msg_buffer c)) conn sid (call_rpc_msg_buffer c) (client_net q))
    as (n & fs & Hsend & Hcat & Hfs & Hw); [rw Hbuf; apply pack_small|done|].
  rw /send_rm_record_quic Hsend /=. intros [= <-].
  assert (line q k = Some (sid, c)) as Hline by by apply line_Some.
  apply (exchange_at q _ s k sid c (set_sent true true (finished c) c) Hx Hi'); try done; try apply (x_running _ _ Hx).
  - intros k' Hne. rw view_set_net view_set_context decide_False; [congruence|done].
  - by apply bool_decide_true.
  - by rw /= lookup_insert_eq.
  - intros sid' Hne. by apply (wire_at_wrote conn _ _ _ _ sid _ (encode_fragments fs)).
  - intros Ht. by apply (talk_send conn answers sid c (client_net q) n (seen s) (to_come s) fs).
  - rw view_set_net view_set_context decide_True //. split; [|done]. simpl. intros c0 [= <-]. split_and!; [by exists m| |done].
    simpl. by rw bool_decide_true.
Qed.

Lemma exchange_signal_reply q s k c :
  exchange_inv q s → contexts q !! k = Some c → exchange_inv (signal_reply k q) s.
Proof.
  intros Hx Hc. pose proof (x_inv _ _ Hx) as Hi. pose proof (inv_signal_reply q k Hi) as Hi'. move: Hi'. rw /signal_reply.
  destruct (callers q !! k) as [[]|]; try done. intros Hi'. by apply exchange_set_caller.
Qed.

Lemma exchange_readable q s fuel sid q' :
  memory_available → exchange_inv q s → client_on_stream_readable conn fuel true sid q = Some q' → exchange_inv q' s.
Proof.
  intros Hmem Hx. pose proof (x_inv _ _ Hx) as Hi. rw /client_on_stream_readable.
  destruct (find_stream_context_ok q sid Hi) as (r & -> & Hr).
  destruct r as [k|]; cbn [mbind option_bind]; [|by intros [= <-]]. destruct Hr as [Hk Hn].
  destruct (contexts q !! k) as [c|] eqn:Hc; [|done]. cbn [mbind option_bind].
  assert (line q k = Some (sid, c)) as Hline by by apply line_Some.
  destruct (x_lines _ _ Hx) as [_ Htalk]. specialize (Htalk k sid c Hline).
  rw (_ : match rm_receiving_context c with Some rm => Some rm | None => _ end = Some (receiver conn sid c));
    [by rw /receiver; destruct (rm_receiving_context c)|].
  destruct (receive_available_loop fuel _ _) as [[[e rm] n]|] eqn:Hrecv; [|done].
  destruct (talk_read conn answers fuel sid c _ e rm n _ _ Hmem Htalk Hrecv) as (-> & Hread & Htalk'). simpl.
  set (q1 := set_context k (after_reading rm c) (set_net n q)).
  assert (exchange_inv q1 s) as Hx1.
  { destruct (x_calls _ _ Hx k) as [Hcc Hres]. destruct (Hcc c Hc) as (Hm & _ & Hf).
    assert (same_allocation c (after_reading rm c) ∧ call_rpc_msg_buffer (after_reading rm c) = call_rpc_msg_buffer c ∧
            (finished c = true → finished (after_reading rm c) = true)) as (Hsame & Hbuf & Hfin).
    { rw /after_reading. by destruct (record_fully_received rm). }
    apply (exchange_at q _ s k sid c (after_reading rm c) Hx); try done; try apply (x_running _ _ Hx).
    - by apply (inv_set_context _ k c); [apply inv_set_net| |].
    - intros k' Hne. rw view_set_context decide_False; [congruence|done].
    - by apply bool_decide_true.
    - by rw /= lookup_insert_eq.
    - apply Hsame.
    - intros sid' Hne. by apply (wire_at_read conn _ _ _ _ sid).
    - rw view_set_context decide_True //. split; [|done]. simpl. intros c0 [= <-]. split_and!; [by rw Hbuf| |].
      + simpl. by rw bool_decide_true.
      + intros pc Hpc Ht. by apply Hfin, (Hf pc). }
  move: Hx1. rw /q1 /after_reading. destruct (record_fully_received rm); intros Hx1 [= <-]; [|done].
  eapply exchange_signal_reply; [done|]. by rw /= lookup_insert_eq.
Qed.

(** The context of a caller that waits for its reply, and its conversation. *)
Lemma waiting_line q s k pc :
  exchange_inv q s → callers q !! k = Some pc → waiting pc →
  ∃ c sid, contexts q !! k = Some c ∧ line q k = Some (sid, c) ∧ talk conn answers sid c (wires q s sid) ∧
    context_ok (asked s !! k) (view_of q k) c.
Proof.
  intros Hx Hk Hpc. pose proof (x_inv _ _ Hx) as Hi. pose proof (inv_view _ Hi k) as Hv.
  apply (waiting_view _ pc) in Hv as (_ & _ & Hld%bool_decide_eq_true & _); [|done|done].
  destruct (listed_context q k Hi Hld) as (c & l & st & Hc & Hl & Hs & _ & _ & Hn).
  assert (line q k = Some (stream_number st, c)) as Hline by by apply line_Some. exists c, (stream_number st).
  split_and!; [done|done|exact (proj2 (x_lines _ _ Hx) _ _ _ Hline)|exact (proj1 (x_calls _ _ Hx k) c Hc)].
Qed.

Lemma exchange_test_reply q s k q' :
  exchange_inv q s → callers q !! k = Some ReplyWait → test_reply k q = Some q' → exchange_inv q' s.
Proof.
  intros Hx Hk. rw /test_reply. destruct (contexts q !! k) as [c|] eqn:Hc; [|done]. intros [= <-].
  apply exchange_set_caller; [done| | |by destruct (finished c)].
  - apply (inv_waiting q k ReplyWait); [apply (x_inv _ _ Hx)|done|done|by destruct (finished c)].
  - intros c' Hc'. assert (c' = c) as -> by congruence. by destruct (finished c).
Qed.

(** The result of a call is the answer to its message. *)
Lemma exchange_read q s k q' :
  exchange_inv q s → callers q !! k = Some ReplyDone → read_reply k q = Some q' → exchange_inv q' s.
Proof.
  intros Hx Hk. destruct (waiting_line q s k ReplyDone Hx Hk) as (c & sid & Hc & _ & Ht & (m & Hm & Hbuf) & _ & Hf); [done|].
  pose proof (Hf ReplyDone Hk I) as Hfin. apply talk_finished in Ht; [|done].
  destruct Ht as ([_ Hsent] & _ & Hrecv & _ & rm & rep & Hrm & _ & (_ & Hacc & Hsize) & Ha).
  rw /read_reply Hc /= /wait_for_rpc_reply_result Hsent Hrecv /= Hrm /= Hacc Hsize Nat2Z.id /= firstn_all. intros [= <-].
  apply exchange_set_caller; [done| | |].
  - apply (inv_waiting q k ReplyDone); [apply (x_inv _ _ Hx)|done|done|done].
  - intros c' Hc' _. congruence.
  - intros r [= <-]. exists m, rep. by rw -Hbuf.
Qed.

Lemma exchange_clean_up q s k reply q' :
  exchange_inv q s → callers q !! k = Some (Cleaning reply) → clean_up k reply q = Some q' → exchange_inv q' s.
Proof.
  intros Hx Hk Hr. pose proof (x_inv _ _ Hx) as Hi. pose proof (inv_clean_up q k reply q' Hi Hk Hr) as Hi'.
  destruct (waiting_line q s k (Cleaning reply) Hx Hk) as (c & sid & Hc & Hline & Ht & _ & _ & Hf); [done|].
  destruct (clean_up_result q k reply q' Hi Hk Hr) as (l & ks1 & ks2 & _ & Hks & ->).
  pose proof (λ k', view_clean_up q k reply l ks1 ks2 k' Hi Hk Hks) as Hview.
  constructor; [done|apply (x_running _ _ Hx)| |].
  - intros k'. rw Hview. case_decide as Heq; [subst k'|apply (x_calls _ _ Hx)]. split; [done|]. simpl.
    intros pc r [= <-] [= <-]. destruct (x_calls _ _ Hx k) as [_ Hres]. by apply (Hres (Cleaning reply)).
  - apply (lines_ok_remove _ _ (line q) _ _ k sid c (x_lines _ _ Hx)); [by apply lines_separate|done| | |].
    + apply line_unlisted. by rw Hview decide_True.
    + intros k' Hne. rw /line Hview decide_False; [congruence|done].
    + intros Ht'. by destruct (talk_finished conn answers sid c _ Ht (Hf _ Hk I)) as (_ & _ & _ & ? & _).
Qed.

Lemma exchange_release q s k l reply q' :
  exchange_inv q s → callers q !! k = Some (Releasing l reply) → release_stream k l reply q = Some q' → exchange_inv q' s.
Proof.
  intros Hx Hk Hr. pose proof (x_inv _ _ Hx) as Hi. pose proof (inv_release_stream q k l reply q' Hi Hk Hr) as Hi'.
  move: Hr Hi'. rw /release_stream. destruct (stream_heap q !! l) as [st|] eqn:Hst; [|done]. intros [= <-] Hi'.
  pose proof (inv_view _ Hi k) as Hv. rw /view_ok (view_caller _ _ _ Hk) in Hv. destruct Hv as (_ & _ & Hld & Hc).
  destruct (x_calls _ _ Hx k) as [Hcc Hres].
  apply (exchange_quiet q _ s k Hx Hi'); try done.
  - intros k' Hne. rw view_set_caller decide_False; [congruence|done].
  - rw view_set_caller decide_True //. apply call_ok_caller; [done|done|]. intros r [= <-]. by apply (Hres (Releasing l reply)).
  - rw !line_unlisted //; by rw view_set_caller decide_True.
  - intros x _. simpl. rw lookup_insert. case_decide as Hxl; [subst x; by rw Hst|done].
Qed.

Lemma exchange_client_step q s q' :
  memory_available → exchange_inv q s → client_step conn true q q' → dom (callers q') = dom (callers q) →
  exchange_inv q' s.
Proof.
  intros Hmem Hx Hst Hdom.
  destruct Hst as [q k msg m Hk Hm|q k rest o q' _ Hq _ Ho Hr|q k q' Hk Hlk Hr|q k m Hk _ Hm|q sid q' _ _ Hr|
    q fuel m sid q' _ _ Hm Hr|q k q' Hk Hr|q k Hk|q k q' Hk Hr|q k reply q' Hk _ Hr|q k l reply q' Hk Hr].
  - exfalso. assert (k ∈ dom (callers q)) as Hin; [|by apply not_elem_of_dom in Hk].
    rw -Hdom (Hm I) /start_call /=. rw dom_insert. set_solver.
  - by apply (exchange_allocate q s k rest o).
  - by apply (exchange_test_allocation q s k).
  - rw (Hm I). by apply exchange_add.
  - by apply (exchange_writable q s sid).
  - rw (Hm I) in Hr. by apply (exchange_readable q s fuel sid).
  - by apply (exchange_test_reply q s k).
  - apply exchange_set_caller; [done| |done|done]. apply (inv_waiting q k ReplyGap); [apply (x_inv _ _ Hx)|done..].
  - by apply (exchange_read q s k).
  - by apply (exchange_clean_up q s k reply).
  - by apply (exchange_release q s k l reply).
Qed.
End preservation.

(** * Theorems *)

Section theorems.
Context `{StreamArrivals W} `{Memory} `{Codec, !PackSmall}.
Variable conn : Z.
Variable answers : list byte → list byte → Prop.
Implicit Types (s : exchange W) (q : QuicClient W) (k : call_ptr) (sid : Z).
Abbreviation good s := (exchange_inv conn answers (quic_client s) s).

Lemma good_call s k msg :
  good s → callers (quic_client s) !! k = None →
  good (mkExchange (start_call (true, true) true k msg (quic_client s)) (seen s) (to_come s) (<[k := msg]> (asked s))).
Proof.
  intros Hx Hk. pose proof (x_inv _ _ _ _ Hx) as Hi.
  pose proof (λ k', view_start_call (quic_client s) true k msg k' Hi Hk) as Hview.
  constructor; [by apply inv_start_call|apply (x_running _ _ _ _ Hx)| |].
  - intros k'. cbn [quic_client asked]. rw Hview lookup_insert. case_decide as Heq; [|apply (x_calls _ _ _ _ Hx)].
    split; [|by intros pc r [= <-]]. simpl. intros c [= <-]. split_and!; [by exists msg|done|by intros pc [= <-]].
  - apply (lines_ok_ext _ _ (line (quic_client s)) _ (wires conn (quic_client s) s)); [|done|apply (x_lines _ _ _ _ Hx)].
    intros k'. cbn [quic_client]. rw /line Hview. case_decide as Heq; [|done]. subst k'.
    by rw (fresh_view _ _ Hi Hk).
Qed.

(** A change of the wire of one stream. *)
Lemma good_wire s s' sid :
  good s → inv (quic_client s') → alive (quic_client s') = alive (quic_client s) →
  list_locked (quic_client s') = list_locked (quic_client s) → asked s' = asked s →
  (∀ k, view_of (quic_client s') k = view_of (quic_client s) k) → stream_heap (quic_client s') = stream_heap (quic_client s) →
  (∀ sid', sid' ≠ sid → wires conn (quic_client s') s' sid' = wires conn (quic_client s) s sid') →
  (∀ c, talk conn answers sid c (wires conn (quic_client s) s sid) →
        talk conn answers sid c (wires conn (quic_client s') s' sid)) →
  (idle (wires conn (quic_client s) s sid) → idle (wires conn (quic_client s') s' sid)) → good s'.
Proof.
  intros [Hi Hr Hc Hl] Hi' Ha Hll Hask Hv Hh Hw Htalk Hidle. constructor; [done|by rw Ha Hll| |].
  - intros k. by rw Hask Hv.
  - apply (lines_ok_ext _ _ (line (quic_client s)) _ (wires conn (quic_client s') s')); [|done|].
    + intros k. by rw /line Hv Hh.
    + by apply (lines_ok_wire _ _ _ (wires conn (quic_client s) s) _ sid).
Qed.

Lemma good_step s s' : memory_available → good s → exchange_step conn answers s s' → good s'.
Proof.
  intros Hmem Hx Hst. pose proof (x_inv _ _ _ _ Hx) as Hi.
  destruct Hst as [s k msg Hk|s q Hst Hdom|s sid fs fs' Hw Hne Hs Ht Ha Hne' Hs'|s sid ps rest Ht Hps].
  - by apply good_call.
  - destruct (exchange_client_step conn answers _ s q Hmem Hx Hst Hdom) as [? ? ? ?]. by constructor.
  - apply (good_wire s _ sid Hx); try done.
    + intros sid' Hne0. rw /wires /wire_at /bytes_at /= !lookup_insert_ne //; congruence.
    + intros c Htalk. rw /wires /wire_at /bytes_at /= !lookup_insert_eq /=.
      exact (talk_answer conn answers sid c _ fs fs' Htalk Hw Hne Hs Ha Hne' Hs').
    + intros (_ & _ & Hidle). exfalso. simpl in Hidle. rw Hidle -{1}(app_nil_r (written _ _)) in Hw.
      apply app_inv_head in Hw. apply encode_fragments_nonempty in Hne. rw -Hw /= in Hne. lia.
  - destruct (deliver_others (conn, sid) ps (client_net (quic_client s))) as [Hdp Hdw].
    set (s' := mkExchange _ _ _ _). assert (wires conn (quic_client s') s' sid =
      let w := wires conn (quic_client s) s sid in mkWire (w_pending w ++ ps) (w_written w) (w_seen w) rest) as Hwire.
    { rw /wires /wire_at /= Hdw deliver_pending // {2}/bytes_at lookup_insert_eq //. }
    apply (good_wire s _ sid Hx); try done.
    + by apply inv_set_net.
    + intros sid' Hne0. rw /wires /wire_at /= Hdw Hdp; [congruence|]. rw {2}/bytes_at lookup_insert_ne //. congruence.
    + intros c Htalk. rw Hwire. by apply talk_arrive.
    + intros Hidle. destruct (Hidle) as (Hp & Htc & Hsw). simpl in Htc. rw Htc in Ht. symmetry in Ht.
      apply app_eq_nil in Ht as [Hps' ->]. destruct ps as [|p ps]; [|apply Forall_cons in Hps as [Hp0 _]; by destruct p].
      rw Hwire. simpl. rw app_nil_r. by split_and!.
Qed.

Lemma good_reachable main n s :
  memory_available → (∀ sid, pending conn sid n = [] ∧ written (conn, sid) n = []) →
  rtc (exchange_step conn answers) (new_exchange main n) s → good s.
Proof.
  intros Hmem Hn Hr. revert Hr. apply (rtc_ind_r (λ s, good s) (new_exchange main n)).
  - pose proof (inv_established (W:=W) main n) as Hi.
    assert (∀ k, view_of (established (W:=W) main n) k = mkView None None false false false) as Hv by (intros k; by apply fresh_view).
    constructor; [done|done| |].
    + intros k. cbn [quic_client new_exchange]. by rw Hv.
    + split.
      * intros sid _. destruct (Hn sid) as [Hp Hw]. split_and!; simpl; [done|by rw /bytes_at lookup_empty|]. by rw Hw /bytes_at lookup_empty.
      * intros k sid c. cbn [quic_client new_exchange]. by rw /line Hv.
  - intros s1 s2 _ Hst Hx. by apply (good_step s1).
Qed.

(** The callbacks end, and the one that reads the last bytes of a reply finishes
    the call. *)
Lemma readable_ends s sid fuel :
  memory_available → good s → (length (pending conn sid (client_net (quic_client s))) < fuel)%nat →
  ∃ q, client_on_stream_readable conn fuel true sid (quic_client s) = Some q ∧
    (pending conn sid (client_net (quic_client s)) ≠ [] → bytes_at (to_come s) sid = [] →
     ∃ k c, context_stream (quic_client s) k = Some (Some sid) ∧ contexts q !! k = Some c ∧ finished c = true ∧
            callers q !! k ≠ Some ReplyAsleep).
Proof.
  intros Hmem Hx Hfuel. pose proof (x_inv _ _ _ _ Hx) as Hi. rw /client_on_stream_readable.
  destruct (find_stream_context_ok (quic_client s) sid Hi) as (r & -> & Hr).
  destruct r as [k|]; cbn [mbind option_bind]; last first.
  { eexists. split; [done|]. intros Hp. exfalso. apply Hp. apply (x_lines _ _ _ _ Hx). intros k c.
    rw line_Some //. intros (Hk & _ & Hn). by apply (Hr k). }
  destruct Hr as [Hk Hn]. destruct (listed_context _ k Hi Hk) as (c & l & st & Hc & _). rw Hc. cbn [mbind option_bind].
  assert (line (quic_client s) k = Some (sid, c)) as Hline by by apply line_Some.
  pose proof (proj2 (x_lines _ _ _ _ Hx) k sid c Hline) as Ht. pose proof (talk_for_stream _ _ _ _ _ Ht) as Hst.
  rw (_ : match rm_receiving_context c with Some rm => Some rm | None => _ end = Some (receiver conn sid c));
    [by rw /receiver; destruct (rm_receiving_context c)|].
  assert (pending conn sid (client_net (quic_client s)) = [] ∨ being_answered conn answers sid c (wires conn (quic_client s) s sid))
    as [Hp|Hb].
  { destruct Ht as [(_ & _ & Hid)|[(_ & _ & ? & _)|[?|(_ & _ & _ & Hid & _)]]]; [left; apply Hid|by left|by right|left; apply Hid]. }
  - destruct fuel as [|fuel]; [lia|]. destruct Hst as [Hco Hid]. rw receive_available_loop_S Hco Hid.
    destruct (read_nothing _ _ _ Hp) as (rr & data & w' & -> & Hrr & Hp'). rw (proj2 (Z.ltb_lt rr 0)) //.
    eexists. split; [done|]. done.
  - destruct Hb as (_ & _ & _ & _ & _ & rep & _ & He). simpl in He.
    destruct (receive_available_ok conn sid _ _ _ _ rep fuel Hmem Hst eq_refl He Hfuel) as (rm & n & -> & _ & _ & Hres).
    simpl. eexists. split; [done|]. intros _ Hnil. rw decide_True // in Hres. destruct Hres as [Hfull _]. rw Hfull.
    exists k, (set_received (Some rm) true true c). split; [done|]. rw /signal_reply /=.
    destruct (callers (quic_client s) !! k) as [[]|] eqn:Hkk; rw /= ?lookup_insert_eq ?Hkk; by split_and!.
Qed.

Lemma writable_ends s sid : good s → ∃ q, client_on_stream_writable conn sid (quic_client s) = Some q.
Proof.
  intros Hx. pose proof (x_inv _ _ _ _ Hx) as Hi. rw /client_on_stream_writable.
  destruct (find_stream_context_ok (quic_client s) sid Hi) as (r & -> & Hr).
  destruct r as [k|]; cbn [mbind option_bind]; [|by eexists]. destruct Hr as [Hk Hn].
  destruct (listed_context _ k Hi Hk) as (c & l & st & Hc & _). rw Hc. cbn [mbind option_bind]. rw Hn. cbn [mbind option_bind].
  rw bool_decide_true //=. destruct (attempted_call_rpc_msg_send c); [by eexists|].
  destruct (proj1 (x_calls _ _ _ _ Hx k) c Hc) as ((m & _ & Hbuf) & _).
  destruct (send_rm_record_quic_live (length (call_rpc_msg_buffer c)) conn sid (call_rpc_msg_buffer c) (client_net (quic_client s)))
    as (n & fs & Hsend & _); [rw Hbuf; apply pack_small|done|].
  rw /send_rm_record_quic Hsend /=. by eexists.
Qed.

(** C17: on a connection that stays up, with memory available,
    every call that returns has the answer to its own message, however many calls
    are in progress and however the callers, the event loop, the peer and the
    arrivals interleave; the event loop never ends itself, its callbacks never
    meet undefined behaviour, and the one that reads the last bytes of a reply
    marks the call of that stream as finished and wakes its caller. *)
Theorem quic_calls_get_their_own_replies main n s
    (Hmem : memory_available) (Hnew : ∀ sid, pending conn sid n = [] ∧ written (conn, sid) n = [])
    (Hs : rtc (exchange_step conn answers) (new_exchange main n) s) :
  (∀ k reply, callers (quic_client s) !! k = Some (Returned reply) →
     ∃ msg rep, asked s !! k = Some msg ∧ answers (pack_RpcMsg msg) rep ∧ reply = unpack_RpcMsg rep) ∧
  alive (quic_client s) = true ∧ list_locked (quic_client s) = false ∧
  (∀ sid, ∃ q, client_on_stream_writable conn sid (quic_client s) = Some q) ∧
  ∀ sid fuel, (length (pending conn sid (client_net (quic_client s))) < fuel)%nat →
    ∃ q, client_on_stream_readable conn fuel true sid (quic_client s) = Some q ∧
      (pending conn sid (client_net (quic_client s)) ≠ [] → bytes_at (to_come s) sid = [] →
       ∃ k c, context_stream (quic_client s) k = Some (Some sid) ∧ contexts q !! k = Some c ∧ finished c = true ∧
              callers q !! k ≠ Some ReplyAsleep).
Proof.
  pose proof (good_reachable main n s Hmem Hnew Hs) as Hx. destruct (x_running _ _ _ _ Hx) as [Ha Hl]. split_and!; [|done|done| |].
  - intros k reply Hk. exact (proj2 (x_calls _ _ _ _ Hx k) (Returned reply) reply Hk eq_refl).
  - intros sid. by apply writable_ends.
  - intros sid fuel. by apply readable_ends.
Qed.
End theorems.
