(* ===== verification/QuicConnection.v ===== *)
(** The life of a QUIC connection of the client: the event loop that the first
    call starts and its callbacks for an established and a closed connection, the
    callers that wait for the connection in [wait_for_connection_establishment]
    ([src/transport/quic/quic_rpc_client.c]) and the thread that closes it in
    [free_rpc_connection_context] ([src/common_rpc/rpc_connection_context.c]), as a
    transition system. The calls on an established connection are in [QuicClient].

    The callbacks set their flags and signal without the mutexes that the waiting
    threads hold, so the test of a flag and the falling asleep are two steps.
    Threads may also wake up without a signal, as POSIX allows. *)
From S2P Require Import Prelude.

(** * Data *)

(** Threads: a caller is named by a number, and so is the event loop that it
    starts. *)
Abbreviation thread := Z.

(** A caller: about to look whether the connection is established, then in
    [wait_for_connection_establishment] with the mutex: about to test the flag, past
    a test that failed, or asleep; or back with a code. *)
Inductive waiter := Calling | Testing | Gap | Asleep | Done (code : Z).

(** The thread that frees the context: not yet; about to test the flag, past a
    test that failed, asleep, joining the event loop, or done. *)
Inductive closer := Open | CloseTesting | CloseGap | CloseAsleep | Joining | Freed.

(** An event loop: between callbacks; in [client_on_conn_established] before the
    stream is created, before the flag is set and before the signal; in
    [client_on_conn_closed] before the flag is set, before the shutdown is requested
    and before the signal; returned; or ended by [kill_event_loop_thread]. *)
Inductive event_loop :=
  | Idle | MakingStream | SettingEstablished | SignallingEstablished
  | SettingClosed | SendingShutdown | SignallingClosed | Returned | Killed.

(** The connection as the QUIC library sees it. *)
Inductive phase := Handshake | Up | Down.

#[global] Instance waiter_eq_dec : EqDecision waiter. Proof. solve_decision. Defined.
#[global] Instance closer_eq_dec : EqDecision closer. Proof. solve_decision. Defined.
#[global] Instance event_loop_eq_dec : EqDecision event_loop. Proof. solve_decision. Defined.
#[global] Instance phase_eq_dec : EqDecision phase. Proof. solve_decision. Defined.

(** The members of [QuicClient] that matter here; [event_loop_thread] is the
    last event loop that was started, [shutdown_requested] whether the watcher that
    breaks it has been triggered. *)
Record connection := mkConnection {
  library : phase;
  connection_established : bool;
  connection_closed : bool;
  has_main_stream : bool;
  shutdown_requested : bool;
  event_loop_thread : option thread;
  event_loops : gmap thread event_loop;
  waiters : gmap thread waiter;
  closing : closer }.

(** After [connect_to_quic_server]. *)
Definition connecting : connection := mkConnection Handshake false false false false None ∅ ∅ Open.

Definition set_waiter (k : thread) (pc : waiter) (s : connection) : connection :=
  mkConnection (library s) (connection_established s) (connection_closed s) (has_main_stream s) (shutdown_requested s)
    (event_loop_thread s) (event_loops s) (<[k := pc]> (waiters s)) (closing s).

Definition set_loop (l : thread) (pc : event_loop) (s : connection) : connection :=
  mkConnection (library s) (connection_established s) (connection_closed s) (has_main_stream s) (shutdown_requested s)
    (event_loop_thread s) (<[l := pc]> (event_loops s)) (waiters s) (closing s).

Definition set_closer (pc : closer) (s : connection) : connection :=
  mkConnection (library s) (connection_established s) (connection_closed s) (has_main_stream s) (shutdown_requested s)
    (event_loop_thread s) (event_loops s) (waiters s) pc.

Definition set_phase (p : phase) (s : connection) : connection :=
  mkConnection p (connection_established s) (connection_closed s) (has_main_stream s) (shutdown_requested s)
    (event_loop_thread s) (event_loops s) (waiters s) (closing s).

Definition set_flags (established closed stream shutdown : bool) (s : connection) : connection :=
  mkConnection (library s) established closed stream shutdown
    (event_loop_thread s) (event_loops s) (waiters s) (closing s).

(** [pthread_create] of [event_loop_runner]. *)
Definition event_loop_runner (k : thread) (s : connection) : connection :=
  mkConnection (library s) (connection_established s) (connection_closed s) (has_main_stream s) (shutdown_requested s)
    (Some k) (<[k := Idle]> (event_loops s)) (waiters s) (closing s).

(** [pthread_cond_signal] of the two condition variables: one of the callers
    that are asleep, if there is one, and the closing thread. *)
Definition signal_closed (s : connection) : connection :=
  match closing s with CloseAsleep => set_closer CloseTesting s | _ => s end.

(** * Functions *)

(** [wait_for_connection_establishment] up to its loop; [created]: whether the
    thread of the event loop could be created. *)
Definition start_waiting (created : bool) (k : thread) (s : connection) : connection :=
  if connection_established s then set_waiter k (Done 0) s
  else if created then set_waiter k Testing (event_loop_runner k s)
  else set_waiter k (Done 2) s.

(** One test of its loop, and what follows it. *)
Definition test_established (k : thread) (s : connection) : connection :=
  if connection_established s then set_waiter k (Done (if has_main_stream s then 0 else 3)) s
  else set_waiter k Gap s.

(** The loop of [free_rpc_connection_context]. *)
Definition test_closed (s : connection) : connection :=
  if connection_closed s then set_closer Joining s else set_closer CloseGap s.

(** [client_on_conn_established]; [created]: whether [create_new_stream] gave
    a stream. *)
Definition client_on_conn_established (created : bool) (l : thread) (s : connection) : option connection :=
  pc ← event_loops s !! l;
  match pc with
  | MakingStream =>
      Some (set_loop l SettingEstablished
        (set_flags (connection_established s) (connection_closed s) (has_main_stream s || created) (shutdown_requested s) s))
  | SettingEstablished =>
      Some (set_loop l SignallingEstablished
        (set_flags true (connection_closed s) (has_main_stream s) (shutdown_requested s) s))
  | _ => None
  end.

(** [client_on_conn_closed]. *)
Definition client_on_conn_closed (l : thread) (s : connection) : option connection :=
  pc ← event_loops s !! l;
  match pc with
  | SettingClosed =>
      Some (set_loop l SendingShutdown
        (set_flags (connection_established s) true (has_main_stream s) (shutdown_requested s) s))
  | SendingShutdown =>
      Some (set_loop l SignallingClosed
        (set_flags (connection_established s) (connection_closed s) (has_main_stream s) true s))
  | SignallingClosed => Some (set_loop l Idle (signal_closed s))
  | _ => None
  end.

(** [async_shutdown_loop_callback]: the loop is broken and its thread returns. *)
Definition async_shutdown_loop_callback (l : thread) (s : connection) : connection := set_loop l Returned s.

(** * Steps

    Closing needs an event loop: without one the code triggers a watcher of a
    loop that was never set up, which is undefined. *)

(** A thread that a join waits for is gone. *)
Definition ended (s : connection) (l : option thread) : Prop :=
  ∃ t, l = Some t ∧ (event_loops s !! t = Some Returned ∨ event_loops s !! t = Some Killed).

Inductive step : connection → connection → Prop :=
  (* callers *)
  | step_call s k : waiters s !! k = None → event_loops s !! k = None → closing s = Open → step s (set_waiter k Calling s)
  | step_start s k created : waiters s !! k = Some Calling → step s (start_waiting created k s)
  | step_test s k : waiters s !! k = Some Testing → step s (test_established k s)
  | step_sleep s k : waiters s !! k = Some Gap → step s (set_waiter k Asleep s)
  | step_wake s k : waiters s !! k = Some Asleep → step s (set_waiter k Testing s)
  (* the event loop *)
  | step_handshake s l : event_loops s !! l = Some Idle → library s = Handshake → step s (set_loop l MakingStream (set_phase Up s))
  | step_established s s' l created : client_on_conn_established created l s = Some s' → step s s'
  | step_signal s l k : event_loops s !! l = Some SignallingEstablished → waiters s !! k = Some Asleep →
      step s (set_loop l Idle (set_waiter k Testing s))
  | step_signal_none s l : event_loops s !! l = Some SignallingEstablished → (∀ k, waiters s !! k ≠ Some Asleep) →
      step s (set_loop l Idle s)
  | step_down s l : event_loops s !! l = Some Idle → library s ≠ Down → step s (set_loop l SettingClosed (set_phase Down s))
  | step_closed s s' l : client_on_conn_closed l s = Some s' → step s s'
  | step_shutdown s l : event_loops s !! l = Some Idle → event_loop_thread s = Some l → shutdown_requested s = true →
      step s (async_shutdown_loop_callback l s)
  | step_kill s l : event_loops s !! l = Some Idle → library s = Up → step s (set_loop l Killed s)
  (* closing *)
  | step_close s : closing s = Open → event_loop_thread s ≠ None → (∀ k pc, waiters s !! k = Some pc → ∃ code, pc = Done code) → step s (set_closer CloseTesting s)
  | step_close_test s : closing s = CloseTesting → step s (test_closed s)
  | step_close_sleep s : closing s = CloseGap → step s (set_closer CloseAsleep s)
  | step_close_wake s : closing s = CloseAsleep → step s (set_closer CloseTesting s)
  | step_join s : closing s = Joining → ended s (event_loop_thread s) → step s (set_closer Freed s).

Definition reachable (s : connection) : Prop := rtc step connecting s.

(** The connection is over without ever having been established. *)
Definition never_established (s : connection) : Prop :=
  library s = Down ∧ connection_established s = false ∧
  (∀ l pc, event_loops s !! l = Some pc → pc ≠ MakingStream ∧ pc ≠ SettingEstablished).

(** Past the start of the wait and not back. *)
Definition waiting (s : connection) (k : thread) : Prop :=
  waiters s !! k = Some Testing ∨ waiters s !! k = Some Gap ∨ waiters s !! k = Some Asleep.

(** * Lemmas *)

(** A loop that goes anywhere but towards the flag. *)
Lemma never_established_loop l pc s :
  never_established s → pc ≠ MakingStream → pc ≠ SettingEstablished → never_established (set_loop l pc s).
Proof.
  intros (Hd & He & Hl) H1 H2. split_and!; [done..|]. intros l' pc'. simpl. rw lookup_insert_Some.
  intros [[_ <-]|[_ Hpc']]; [done|by apply (Hl l')].
Qed.

Lemma never_established_step s s' : step s s' → never_established s → never_established s'.
Proof.
  intros Hst Hn. pose proof Hn as (Hd & He & Hl).
  destruct Hst as [s k|s k created Hk|s k|s k|s k|s l Hidle Hh|s s' l created Hcb|s l k Hs|s l Hs|s l Hidle Hd'|s s' l Hcb|s l Hidle|s l Hidle|s|s|s|s|s];
    try done; try congruence; try by apply never_established_loop.
  - rw /start_waiting He. destruct created; [|done]. by apply (never_established_loop k Idle).
  - by rw /test_established He.
  - exfalso. rw /client_on_conn_established in Hcb. destruct (event_loops s !! l) as [pc|] eqn:Hpc; [|done].
    destruct (Hl l pc Hpc). by destruct pc.
  - rw /client_on_conn_closed in Hcb. destruct (event_loops s !! l) as [[]|] eqn:Hpc; simplify_eq/=;
      rw /signal_closed; repeat case_match; by apply never_established_loop.
  - rw /test_closed. by case_match.
Qed.

(** Only its own steps and a signal move a caller. *)
Lemma waiting_step s s' k : step s s' → never_established s → waiting s k → waiting s' k.
Proof.
  intros Hst (Hd & He & Hl) Hw. rw /waiting.
  assert (∀ k' pc, waiters s !! k' = Some pc → pc = Calling → k' ≠ k) as Hne.
  { intros k' pc Hk -> ->. by destruct Hw as [Hw|[Hw|Hw]]; rw Hw in Hk. }
  assert (∀ k' pc, (k' ≠ k ∨ pc = Testing ∨ pc = Gap ∨ pc = Asleep) →
    (<[k' := pc]> (waiters s) !! k = Some Testing ∨ <[k' := pc]> (waiters s) !! k = Some Gap ∨
     <[k' := pc]> (waiters s) !! k = Some Asleep)) as Hset.
  { intros k' pc Hpc. destruct (decide (k' = k)) as [->|Hk]; [|by rw lookup_insert_ne].
    rw lookup_insert_eq. destruct Hpc as [?|[->|[->| ->]]]; tauto. }
  destruct Hst as [s k' Hk'|s k' created Hk'|s k' Hk'|s k'|s k'|s l|s s' l created Hcb|s l k' Hs|s l Hs|s l|s s' l Hcb|s l|s l|s|s|s|s|s];
    try done; try (apply Hset; tauto).
  - apply Hset. left. intros ->. by destruct Hw as [Hw|[Hw|Hw]]; rw Hw in Hk'.
  - rw /start_waiting He. destruct created; apply Hset; left; by apply (Hne _ Calling).
  - rw /test_established He. apply Hset. tauto.
  - rw /client_on_conn_established in Hcb. destruct (event_loops s !! l) as [[]|]; simplify_eq/=; done.
  - rw /client_on_conn_closed in Hcb. destruct (event_loops s !! l) as [[]|]; simplify_eq/=; try done.
    rw /signal_closed. by case_match.
  - rw /test_closed. by case_match.
Qed.

(** What holds of a connection with one event loop. *)
Record inv (s : connection) : Prop := mkInv {
  inv_thread : ∀ l, event_loop_thread s = Some l → is_Some (event_loops s !! l);
  inv_loops : ∀ l, is_Some (event_loops s !! l) → is_Some (event_loop_thread s);
  inv_closing : closing s ≠ Open → ∀ k pc, waiters s !! k = Some pc → ∃ code, pc = Done code;
  inv_closed : closing s = Joining ∨ closing s = Freed → connection_closed s = true;
  inv_freed : closing s = Freed → ended s (event_loop_thread s) }.

(** While a caller is under way nothing has been closed. *)
Lemma under_way s k pc : inv s → waiters s !! k = Some pc → (∀ code, pc ≠ Done code) → closing s = Open.
Proof.
  intros Hi Hk Hpc. destruct (decide (closing s = Open)) as [|Hc]; [done|].
  destruct (inv_closing s Hi Hc k pc Hk) as [code ->]. by destruct (Hpc code).
Qed.

Lemma inv_waiter s k pc : inv s → closing s = Open → inv (set_waiter k pc s).
Proof.
  intros [Ht Hl _ _ _] Ho. split; simpl; rw ?Ho; try done. by intros [].
Qed.

(** A step of an event loop that has not ended. *)
Lemma inv_loop s l pc pc' : inv s → event_loops s !! l = Some pc → pc ≠ Returned → pc ≠ Killed → inv (set_loop l pc' s).
Proof.
  intros [Ht Hl Hw Hc Hf] Hpc Hr Hk. split; simpl; try done.
  - intros l' Hl'. rw lookup_insert_is_Some. destruct (decide (l = l')); [by left|right]. split; [done|by apply Ht].
  - intros l'. rw lookup_insert_is_Some. intros [->|[_ Hl']]; [apply (Hl l'); by rw Hpc|by apply (Hl l')].
  - intros Hfr. destruct (Hf Hfr) as (t & Hth & He). exists t. split; [done|]. simpl. rw lookup_insert_ne //.
    intros ->. rw Hpc in He. destruct He; congruence.
Qed.

Lemma inv_phase s p : inv s → inv (set_phase p s).
Proof. by intros []. Qed.

Lemma inv_flags s e c m d : inv s → (connection_closed s = true → c = true) → inv (set_flags e c m d s).
Proof. intros [Ht Hl Hw Hc Hf] Hcl. split; simpl; auto. Qed.

Lemma connection_step_inv s s' : step s s' → inv s → inv s'.
Proof.
  intros Hst Hi. pose proof Hi as [Ht Hl Hw Hc Hf].
  destruct Hst as [s k|s k created Hk|s k Hk|s k Hk|s k Hk|s l Hidle Hh|s s' l created Hcb|s l k Hs Hk|s l Hs|s l Hidle Hd'|s s' l Hcb|s l Hidle|s l Hidle|s Ho Hth Hdone|s Hct|s|s|s].
  - by apply inv_waiter.
  - assert (closing s = Open) as Ho by by apply (under_way s k Calling).
    rw /start_waiting. destruct (connection_established s); [by apply inv_waiter|].
    destruct created; [|by apply inv_waiter]. apply inv_waiter; [|done]. split; simpl; rw ?Ho; try done.
    + intros l [= <-]. by rw lookup_insert_eq.
    + by intros [].
  - assert (closing s = Open) as Ho by by apply (under_way s k Testing).
    rw /test_established. by destruct (connection_established s); apply inv_waiter.
  - apply inv_waiter; [done|]. by apply (under_way s k Gap).
  - apply inv_waiter; [done|]. by apply (under_way s k Asleep).
  - apply (inv_loop _ l Idle); [by apply inv_phase|done..].
  - rw /client_on_conn_established in Hcb. destruct (event_loops s !! l) as [pc|] eqn:Hpc; [|done].
    destruct pc; simplify_eq/=; (eapply inv_loop; [by apply inv_flags|exact Hpc|done..]).
  - apply (inv_loop _ l SignallingEstablished); [|done..]. apply inv_waiter; [done|]. by apply (under_way s k Asleep).
  - by apply (inv_loop _ l SignallingEstablished).
  - apply (inv_loop _ l Idle); [by apply inv_phase|done..].
  - rw /client_on_conn_closed in Hcb. destruct (event_loops s !! l) as [pc|] eqn:Hpc; [|done].
    destruct pc; simplify_eq/=; [eapply inv_loop; [by apply inv_flags|exact Hpc|done..]..|].
    rw /signal_closed. destruct (closing s) eqn:Hcl; try by apply (inv_loop _ l SignallingClosed).
    apply (inv_loop _ l SignallingClosed); [|done..]. split; simpl; [done|done| |by intros []|done].
    intros _. by apply Hw.
  - by apply (inv_loop _ l Idle).
  - by apply (inv_loop _ l Idle).
  - split; simpl; [done|done|done|by intros []|done].
  - rw /test_closed. destruct (connection_closed s) eqn:Hcl; (split; simpl; [done|done| |by intros []|done]);
      intros _; apply Hw; congruence.
  - split; simpl; [done|done| |by intros []|done]. intros _. apply Hw. congruence.
  - split; simpl; [done|done| |by intros []|done]. intros _. apply Hw. congruence.
  - split; simpl; [done|done| |auto|].
    + intros _. apply Hw. congruence.
    + by intros _.
Qed.

Lemma connection_reachable_inv s : reachable s → inv s.
Proof.
  revert s. apply (rtc_ind_r inv connecting); [|intros s1 s2 _ Hst Hi; exact (connection_step_inv _ _ Hst Hi)].
  split; simpl; [done| |done|by intros []|done]. by intros l [pc Hpc].
Qed.

(** * Theorems *)

(** When the handshake fails, the call that waits for the
    connection never returns: once the library has closed a connection that was not
    established, nothing sets the flag that [wait_for_connection_establishment] waits
    for, whatever the threads do and however often they wake up. *)
Theorem failed_handshake_hangs_the_call s s' k
    (Hs : never_established s) (Hk : waiting s k) (Hsteps : rtc step s s') : waiting s' k.
Proof.
  induction Hsteps as [s|s1 s2 s3 Hst _ IH]; [done|].
  apply IH; [by apply (never_established_step s1)|by apply (waiting_step s1)].
Qed.

(** The client frees a connection only when nobody uses it any
    more: if a single event loop was started, then when [free_rpc_connection_context]
    goes on to destroy the event loop, the endpoint and the lists, the connection has
    been closed, the thread of the event loop has ended and no call is under way. *)
Theorem closing_waits_for_the_event_loop s
    (Hs : reachable s) (Hone : ∀ l l', is_Some (event_loops s !! l) → is_Some (event_loops s !! l') → l = l')
    (Hf : closing s = Freed) :
  connection_closed s = true ∧
  (∀ l pc, event_loops s !! l = Some pc → pc = Returned ∨ pc = Killed) ∧
  (∀ k pc, waiters s !! k = Some pc → ∃ code, pc = Done code).
Proof.
  destruct (connection_reachable_inv s Hs) as [Ht Hl Hw Hc He]. split_and!; [by apply Hc; right| |by apply Hw; rw Hf].
  intros l pc Hpc. destruct (He Hf) as (t & Hth & Hend).
  assert (l = t) as ->; [|rw Hpc in Hend; destruct Hend; simplify_eq; auto].
  apply Hone; [by rw Hpc|by apply Ht].
Qed.

(** * Runs *)

Ltac go c := eapply rtc_l; [apply c; by vm_compute|].

(** The callbacks for an established and for a closed connection. *)
Definition establishing (l : thread) (s : connection) : connection :=
  default s (s ← client_on_conn_established true l (set_loop l MakingStream (set_phase Up s));
             client_on_conn_established true l s).

Definition closing_down (l : thread) (s : connection) : connection :=
  default s (s ← client_on_conn_closed l (set_loop l SettingClosed (set_phase Down s));
             s ← client_on_conn_closed l s; client_on_conn_closed l s).

Lemma establishing_steps l s :
  event_loops s !! l = Some Idle → library s = Handshake → rtc step s (establishing l s).
Proof.
  intros Hl Hh. eapply rtc_l; [by apply (step_handshake s l)|]. rw /establishing /client_on_conn_established /=.
  rw lookup_insert_eq /= lookup_insert_eq /=.
  eapply rtc_l; [eapply (step_established _ _ l true); by rw /client_on_conn_established /= lookup_insert_eq|].
  eapply rtc_l; [eapply (step_established _ _ l true); by rw /client_on_conn_established /= lookup_insert_eq|].
  apply rtc_refl.
Qed.

Lemma closing_down_steps l s :
  event_loops s !! l = Some Idle → library s ≠ Down → rtc step s (closing_down l s).
Proof.
  intros Hl Hh. eapply rtc_l; [by apply (step_down s l)|]. rw /closing_down /client_on_conn_closed /=.
  rw lookup_insert_eq /= lookup_insert_eq /= lookup_insert_eq /=.
  do 3 (eapply rtc_l; [eapply (step_closed _ _ l); by rw /client_on_conn_closed /= lookup_insert_eq|]).
  apply rtc_refl.
Qed.

(** A first call that has started the event loop. *)
Definition first_call : connection := start_waiting true 1 (set_waiter 1 Calling connecting).

Lemma first_call_reachable : reachable first_call.
Proof. go (step_call connecting 1). go (step_start (set_waiter 1 Calling connecting) 1 true). apply rtc_refl. Qed.

(** The server does not answer. *)
Definition unanswered : connection :=
  set_loop 1 SettingClosed (set_phase Down (set_waiter 1 Asleep (test_established 1 first_call))).

Lemma unanswered_reachable : reachable unanswered.
Proof.
  eapply rtc_trans; [exact first_call_reachable|].
  go (step_test first_call 1). go (step_sleep (test_established 1 first_call) 1).
  eapply rtc_l; [by apply (step_down (set_waiter 1 Asleep (test_established 1 first_call)) 1)|]. apply rtc_refl.
Qed.

Lemma failed_handshake_hangs_the_call_witness : reachable unanswered ∧ ∀ s, rtc step unanswered s → waiting s 1.
Proof.
  split; [exact unanswered_reachable|]. intros s Hst.
  apply (failed_handshake_hangs_the_call unanswered s 1); [|by right; right|done].
  split_and!; [done..|]. intros l pc. rw /unanswered /=. rw insert_insert_eq lookup_insert_Some.
  intros [[_ <-]|[_ Hpc]]; [done|by rw lookup_empty in Hpc].
Defined.

Lemma closing_down_facts l s :
  let s' := closing_down l s in
  event_loops s' !! l = Some Idle ∧ event_loop_thread s' = event_loop_thread s ∧ shutdown_requested s' = true ∧
  connection_closed s' = true ∧ closing s' = (if decide (closing s = CloseAsleep) then CloseTesting else closing s).
Proof.
  rw /closing_down /client_on_conn_closed /= lookup_insert_eq /= lookup_insert_eq /= lookup_insert_eq /= /signal_closed /=.
  destruct (closing s) eqn:Hc; (split; [apply lookup_insert_eq|]; by rw /= ?Hc).
Qed.

(** From there the event loop returns and the closing thread joins it. *)
Lemma join_steps s l :
  event_loops s !! l = Some Idle → event_loop_thread s = Some l → shutdown_requested s = true →
  connection_closed s = true → closing s = CloseTesting →
  rtc step s (set_closer Freed (set_closer Joining (set_loop l Returned s))).
Proof.
  intros Hl Hth Hsh Hc Hcl. eapply rtc_l; [by apply (step_shutdown s l)|].
  eapply rtc_l; [by apply (step_close_test (set_loop l Returned s))|]. rw /test_closed. cbn [connection_closed set_loop]. rw Hc.
  eapply rtc_l; [|apply rtc_refl]. apply step_join; [done|]. exists l. split; [done|]. left. apply lookup_insert_eq.
Qed.

Definition after_closing (l : thread) (s : connection) : connection :=
  set_closer Freed (set_closer Joining (set_loop l Returned (closing_down l (set_closer CloseTesting (set_loop l Idle s))))).

Lemma closing_reachable s l :
  reachable s → event_loops s !! l = Some SignallingEstablished → event_loop_thread s = Some l → library s = Up →
  closing s = Open → (∀ k pc, waiters s !! k = Some pc → ∃ code, pc = Done code) →
  reachable (after_closing l s).
Proof.
  intros Hs Hl Hth Hup Ho Hd. eapply rtc_trans; [exact Hs|].
  eapply rtc_l; [apply (step_signal_none s l); [done|]; intros k Hk; by destruct (Hd k _ Hk)|].
  eapply rtc_l; [apply (step_close (set_loop l Idle s)); [done|simpl; congruence|exact Hd]|]. rw /after_closing.
  set (s1 := set_closer CloseTesting (set_loop l Idle s)).
  eapply rtc_trans; [apply (closing_down_steps l s1); [apply lookup_insert_eq|rw /s1 /= Hup //]|].
  destruct (closing_down_facts l s1) as (Hl2 & Hth2 & Hsh & Hc2 & Hcl2). apply join_steps; [done| |done|done|done].
  by rw Hth2 /s1.
Qed.

(** A call that finds the connection established, and the closing of it. *)
Definition served_once : connection := test_established 1 (establishing 1 first_call).

Lemma served_once_reachable : reachable served_once.
Proof.
  eapply rtc_trans; [exact first_call_reachable|].
  eapply rtc_trans; [by apply (establishing_steps 1 first_call)|].
  eapply rtc_l; [by apply (step_test (establishing 1 first_call) 1)|]. apply rtc_refl.
Qed.

Lemma closing_waits_for_the_event_loop_witness :
  reachable (after_closing 1 served_once) ∧
  (∀ l pc, event_loops (after_closing 1 served_once) !! l = Some pc → pc = Returned ∨ pc = Killed).
Proof.
  assert (event_loops (after_closing 1 served_once) = {[1 := Returned]}) as Hl by by vm_compute.
  assert (reachable (after_closing 1 served_once)) as Hr.
  { apply closing_reachable; [exact served_once_reachable|by vm_compute..|].
    intros k pc. assert (waiters served_once = {[1 := Done 0]}) as -> by by vm_compute.
    rw lookup_singleton_Some. intros [_ <-]. by exists 0. }
  split; [exact Hr|].
  destruct (closing_waits_for_the_event_loop (after_closing 1 served_once) Hr) as (_ & H2 & _); [|done|exact H2].
  intros l l'. rw Hl. rw !lookup_singleton_is_Some. by intros -> ->.
Defined.

(** Two first calls at the same time start two event loops for one connection,
    and the second is freed while the first still runs. *)
Definition two_calls : connection :=
  start_waiting true 2 (start_waiting true 1 (set_waiter 2 Calling (set_waiter 1 Calling connecting))).

Definition two_served : connection :=
  test_established 2 (test_established 1 (establishing 2 two_calls)).

Theorem concurrent_first_calls_use_freed_memory :
  ∃ s, reachable s ∧ closing s = Freed ∧ event_loops s !! 1 = Some Idle.
Proof.
  exists (after_closing 2 two_served). split; [|by vm_compute].
  apply closing_reachable; [|by vm_compute..|].
  - go (step_call connecting 1). go (step_call (set_waiter 1 Calling connecting) 2).
    go (step_start (set_waiter 2 Calling (set_waiter 1 Calling connecting)) 1 true).
    go (step_start (start_waiting true 1 (set_waiter 2 Calling (set_waiter 1 Calling connecting))) 2 true).
    eapply rtc_trans; [by apply (establishing_steps 2 two_calls)|].
    eapply rtc_l; [by apply (step_test (establishing 2 two_calls) 1)|].
    eapply rtc_l; [by apply (step_test (test_established 1 (establishing 2 two_calls)) 2)|]. apply rtc_refl.
  - intros k pc. assert (waiters two_served = {[1 := Done 0; 2 := Done 0]}) as -> by by vm_compute.
    rw lookup_insert_Some lookup_singleton_Some. by intros [[_ <-]|[_ [_ <-]]]; exists 0.
Qed.

(** The signal of an established connection comes between the test of the flag
    and the wait: only a wake-up without a signal lets the call go on. *)
Theorem wakeup_of_the_first_call_can_be_lost :
  ∃ s, reachable s ∧ connection_established s = true ∧ waiters s !! 1 = Some Asleep ∧
       event_loops s = {[1 := Idle]} ∧ library s = Up.
Proof.
  exists (set_waiter 1 Asleep (set_loop 1 Idle (establishing 1 (test_established 1 first_call)))).
  split; [|by vm_compute]. eapply rtc_trans; [exact first_call_reachable|]. go (step_test first_call 1).
  eapply rtc_trans; [by apply (establishing_steps 1 (test_established 1 first_call))|].
  eapply rtc_l; [apply (step_signal_none (establishing 1 (test_established 1 first_call)) 1); [done|]|].
  - intros k Hk. assert (waiters (establishing 1 (test_established 1 first_call)) = {[1 := Gap]}) as Hw by by vm_compute.
    rw Hw lookup_singleton_Some in Hk. by destruct Hk.
  - eapply rtc_l; [|apply rtc_refl]. apply step_sleep. by vm_compute.
Qed.
