(* ===== verification/QuicShutdown.v ===== *)
(** The release of a QUIC client's memory at the end of
    [free_rpc_connection_context] ([src/common_rpc/rpc_connection_context.c]): the
    list of contexts ([src/transport/quic/client_stream_context.c]), the pool of
    streams ([streams.c]) and the allocation queue ([stream_allocation.c]), on the
    states that the threads of [QuicClient] can leave behind. *)
From S2P Require Import Prelude Messages RecordMarking RecordMarkingQuic QuicStreams QuicClient.

(** * Functions

    [None]: memory that is not allocated is freed or read, or the function does
    not end. *)

(** [free] of a NULL stream does nothing. *)
Fixpoint free_streams_list (h : gmap stream_ptr Stream) (curr : list (option stream_ptr))
    : option (gmap stream_ptr Stream) :=
  match curr with
  | [] => Some h
  | None :: next => free_streams_list h next
  | Some stream :: next => _ ← h !! stream; free_streams_list (delete stream h) next
  end.

(** The head of the list is passed by value: when it is not NULL at the call, the
    loop waits for a copy to change. *)
Definition free_stream_contexts_list (head : list (option call_ptr)) : option unit :=
  match head with [] => Some tt | _ :: _ => None end.

(** The entries of the queue that are left. *)
Fixpoint free_stream_allocation_queue (back : list call_ptr) : list call_ptr :=
  match back with [] => [] | _ :: next => free_stream_allocation_queue next end.

Section freeing.
Context {W : Type}.
Implicit Types (q : QuicClient W).

(** The memory that [free_rpc_connection_context] frees behind its wait for
    [connection_closed] and its [pthread_join] of the event loop, which are in
    [QuicConnection], in the order of the code: the contexts, the pool, the main
    stream, the queue. What is left: the streams, the contexts and the queue. *)
Definition free_quic_client q : option (gmap stream_ptr Stream * gmap call_ptr QuicClientStreamContext * list call_ptr) :=
  _ ← free_stream_contexts_list (stream_contexts q);
  h ← free_streams_list (stream_heap q) (auxiliary_streams_list q);
  h ← (match main_stream q with Some l => _ ← h !! l; Some (delete l h) | None => Some h end);
  Some (h, contexts q, free_stream_allocation_queue (stream_allocation_queue q)).

(** The streams in memory are those of the pool and the main stream, which is
    not in the pool. *)
Definition streams_accounted q : Prop :=
  (∀ l, is_Some (stream_heap q !! l) ↔ Some l ∈ auxiliary_streams_list q ∨ main_stream q = Some l) ∧
  ∀ l, main_stream q = Some l → Some l ∉ auxiliary_streams_list q.

(** A step that neither allocates nor frees a stream. *)
Definition same_streams q q' : Prop :=
  (∀ l, is_Some (stream_heap q' !! l) ↔ is_Some (stream_heap q !! l)) ∧
  auxiliary_streams_list q' = auxiliary_streams_list q ∧ main_stream q' = main_stream q.

Lemma same_streams_accounted q q' : same_streams q q' → streams_accounted q → streams_accounted q'.
Proof. intros (Hh & Ha & Hm) [H1 H2]. split; intros l; rw ?Hh ?Ha Hm; [apply H1|apply H2]. Qed.

Lemma same_streams_eq q q' :
  stream_heap q' = stream_heap q → auxiliary_streams_list q' = auxiliary_streams_list q → main_stream q' = main_stream q →
  same_streams q q'.
Proof. intros Hh Ha Hm. by rw /same_streams Hh Ha Hm. Qed.

Lemma mark_same (h : gmap stream_ptr Stream) l s s' l' :
  h !! l = Some s → is_Some (<[l := s']> h !! l') ↔ is_Some (h !! l').
Proof.
  intros Hs. rw lookup_insert_is_Some. split; [intros [->|[_ Hl]]; [by rw Hs|done]|].
  destruct (decide (l = l')); [by left|by right].
Qed.

(** An allocation marks a stream of the pool, adds one, or changes nothing. *)
Lemma get_available_accounted o (h : gmap stream_ptr Stream) l r h' l' :
  (∀ x, offered_ptr o = Some x → h !! x = None) →
  get_available_auxiliary_stream o h l = Some (r, h', l') →
  ((∀ x, is_Some (h' !! x) ↔ is_Some (h !! x)) ∧ l' = l) ∨
  ∃ x s, h !! x = None ∧ h' = <[x := s]> h ∧ l' = Some x :: l.
Proof.
  intros Ho. rw /get_available_auxiliary_stream. destruct (first_free h l 0) as [[|x|n]|]; simpl; [by intros [= <- <- <-]; left| | |done].
  - destruct (h !! x) as [s|] eqn:Hs; [|done]. intros [= <- <- <-]. left. split; [|done]. intros y. by apply (mark_same _ _ s).
  - destruct (n =? _); [by intros [= <- <- <-]; left|]. rw /create_new_stream.
    destruct (offered_ptr o) as [x|]; [|by intros [= <- <- <-]; left]. simpl.
    destruct (offered_number o) as [i|]; [|by intros [= <- <- <-]; left]. simpl.
    destruct (entry_ok o); intros [= <- <- <-]; [right|by left]. eexists x, _. by split; [apply Ho|].
Qed.
End freeing.

Section steps.
Context `{QuicStream W} `{Memory} `{Codec} (conn : Z).
Implicit Types (q : QuicClient W).

Lemma allocate_accounted o k q q' :
  offer_ok o q → allocate_stream o k q = Some q' → streams_accounted q → streams_accounted q'.
Proof.
  intros [Ho _] Ha Hq. rw /allocate_stream in Ha. destruct (contexts q !! k) as [c|]; [|done]. simpl in Ha.
  destruct (use_auxiliary_stream c).
  - destruct (get_available_auxiliary_stream o (stream_heap q) (auxiliary_streams_list q)) as [[[r h'] l']|] eqn:Hg; [|done].
    assert (streams_accounted (set_streams h' l' q)) as Hq'.
    { destruct (get_available_accounted _ _ _ _ _ _ Ho Hg) as [[Hh ->]|(x & s & Hx & -> & ->)];
        [by apply (same_streams_accounted q)|]. destruct Hq as [Hin Hmain].
      assert (main_stream q ≠ Some x) as Hm. { intros Hm. destruct (proj2 (Hin x) (or_intror Hm)). congruence. }
      split; intros l; simpl.
      - rw lookup_insert_is_Some elem_of_cons. specialize (Hin l). split; [intros [->|[_ Hl]]; [by left; left|]; tauto|].
        intros [[[= ->]|Hl]|Hl]; [by left|right|right]; (split; [|tauto]); intros ->; [|congruence].
        destruct (proj2 Hin (or_introl Hl)). congruence.
      - intros Hl [[= ->]|Hl']%elem_of_cons; [done|]. by apply (Hmain l). }
    simpl in Ha. destruct r; injection Ha as <-; (eapply same_streams_accounted; [|exact Hq']);
      apply same_streams_eq; rw /keep_allocator_lock /signal_allocation; by repeat case_match.
  - destruct (main_stream q); injection Ha as <-; (eapply same_streams_accounted; [|exact Hq]);
      apply same_streams_eq; rw /keep_allocator_lock /signal_allocation; by repeat case_match.
Qed.

Lemma client_step_accounted q q' : client_step conn false q q' → streams_accounted q → streams_accounted q'.
Proof.
  intros Hst Hq. destruct Hst as [q k msg memory Hk _|q k rest o q' _ Hqueue _ Ho Hr|q k q' _ _ Hr|q k memory|q sid q' _ _ Hr|
    q fuel memory sid q' _ _ _ Hr|q k q' _ Hr|q k|q k q' _ Hr|q k reply q' _ _ Hr|q k l reply q' _ Hr].
  - eapply same_streams_accounted; [|exact Hq]. apply same_streams_eq; rw /start_call /push_to_stream_allocation_queue;
      by repeat case_match.
  - rw /async_stream_allocator_round Hqueue in Hr. destruct (allocate_stream o k q) as [q1|] eqn:Ha; [|done].
    injection Hr as <-. eapply same_streams_accounted; [|exact (allocate_accounted o k q q1 Ho Ha Hq)]. by apply same_streams_eq.
  - rw /test_allocation in Hr. destruct (contexts q !! k) as [c|]; [|done]. injection Hr as <-.
    eapply same_streams_accounted; [|exact Hq]. apply same_streams_eq; by repeat case_match.
  - eapply same_streams_accounted; [|exact Hq]. apply same_streams_eq; rw /add_context /add_stream_context; by destruct memory.
  - eapply same_streams_accounted; [|exact Hq]. rw /client_on_stream_writable in Hr.
    destruct (find_stream_context q (stream_contexts q) sid) as [[k|]|]; simplify_eq/=; [|by apply same_streams_eq].
    destruct (contexts q !! k) as [c|]; [|done]. simpl in Hr. destruct (context_stream q k) as [n|]; [|done]. simpl in Hr.
    destruct (negb _); [by injection Hr as <-; apply same_streams_eq|].
    destruct (attempted_call_rpc_msg_send c); [by injection Hr as <-; apply same_streams_eq|].
    destruct (send_rm_record_quic conn sid (call_rpc_msg_buffer c) (client_net q)) as [[e w]|]; [|done].
    injection Hr as <-. by apply same_streams_eq; case_match.
  - eapply same_streams_accounted; [|exact Hq]. rw /client_on_stream_readable in Hr.
    destruct (find_stream_context q (stream_contexts q) sid) as [[k|]|]; simplify_eq/=; [|by apply same_streams_eq].
    destruct (contexts q !! k) as [c|]; [|done]. simpl in Hr.
    destruct (match rm_receiving_context c with Some _ => _ | None => _ end) as [rm|]; [|by injection Hr as <-; apply same_streams_eq].
    destruct (receive_available_loop fuel rm (client_net q)) as [[[e rm'] w]|]; [|done].
    injection Hr as <-. apply same_streams_eq; rw /signal_reply; by repeat case_match.
  - rw /test_reply in Hr. destruct (contexts q !! k) as [c|]; [|done]. injection Hr as <-. exact Hq.
  - exact Hq.
  - rw /read_reply in Hr. destruct (contexts q !! k) as [c|]; [|done]. simpl in Hr.
    destruct (wait_for_rpc_reply_result c !=? 0); [by injection Hr as <-|].
    destruct (rm_receiving_context c); [|done]. by injection Hr as <-.
  - rw /clean_up in Hr. destruct (contexts q !! k) as [c|]; [|done]. simpl in Hr. destruct (allocated_stream c) as [l|]; [|done].
    simpl in Hr. destruct (stream_heap q !! l) as [s|]; [|done]. simpl in Hr. rw /remove_and_free in Hr.
    destruct (remove_stream_context q (stream_number s)) as [[[e removed] ls]|]; [|done]. injection Hr as <-. exact Hq.
  - rw /release_stream in Hr. destruct (stream_heap q !! l) as [s|] eqn:Hs; [|done]. injection Hr as <-.
    eapply same_streams_accounted; [|exact Hq]. split_and!; [|done|done]. intros l'. by apply (mark_same _ _ s).
Qed.

Lemma reachable_accounted q : client_reachable conn q → streams_accounted q.
Proof.
  intros (main & n & Hr). revert q Hr. apply (rtc_ind_r streams_accounted (established main n)).
  - destruct main as [[l i]|]; split; intros l'; simpl.
    + rw lookup_singleton_is_Some elem_of_nil. split; [intros ->; by right|by intros [|[= ->]]].
    + by intros _ ?%elem_of_nil.
    + rw lookup_empty elem_of_nil. split; [by intros []|by intros []].
    + done.
  - intros q1 q2 _ [Hst|[w ->]] Hq; [exact (client_step_accounted _ _ Hst Hq)|exact Hq].
Qed.

Lemma elem_of_cons_decide {A} (x l : stream_ptr) ls (a b : A) :
  (if decide (x ∈ l :: ls) then a else b) = if decide (x = l) then a else if decide (x ∈ ls) then a else b.
Proof. repeat case_decide; set_solver. Qed.

(** A list of distinct streams is freed. *)
Lemma free_streams_list_val ls (h : gmap stream_ptr Stream) :
  NoDup ls → (∀ x, x ∈ ls → is_Some (h !! x)) →
  ∃ h', free_streams_list h (Some <$> ls) = Some h' ∧ ∀ x, h' !! x = if decide (x ∈ ls) then None else h !! x.
Proof.
  revert h. induction ls as [|l ls IH]; intros h Hnd Hall.
  { exists h. split; [done|]. intros x. case_decide as Hx; [by apply elem_of_nil in Hx|done]. }
  apply NoDup_cons in Hnd as [Hl Hnd]. destruct (Hall l) as [s Hs]; [by constructor|]. simpl. rw Hs /=.
  destruct (IH (delete l h) Hnd) as (h' & Hfree & Hh').
  { intros x Hx. rw lookup_delete_ne; [by intros ->|]. apply Hall. by constructor. }
  exists h'. split; [exact Hfree|]. intros x. rw Hh' elem_of_cons_decide. destruct (decide (x = l)) as [->|Hne].
  - rw lookup_delete_eq. by repeat case_match.
  - rw lookup_delete_ne; [congruence|done].
Qed.

Lemma free_stream_allocation_queue_val l : free_stream_allocation_queue l = [].
Proof. by induction l. Qed.
End steps.

(** * Theorems *)

Section theorems.
Context `{QuicStream W} `{Memory} `{Codec} (conn : Z).
Implicit Types (q : QuicClient W).

(** C36: the last part of [free_rpc_connection_context], which frees the memory of
    the QUIC client after the wait for [connection_closed] and the join of the event
    loop have returned (whether they do is not part of this). In every state that the
    threads of calls and the event loop can reach and in which all calls have
    returned, however they were interleaved and whatever failed, it ends and
    frees every stream exactly once: the list of contexts is empty, so that it is not
    waited for, no stream is freed twice, and neither a stream nor the context of a
    call nor an entry of the allocation queue is left in memory. *)
Theorem freeing_the_client_frees_everything q
    (Hq : client_reachable conn q) (Hdone : ∀ k pc, callers q !! k = Some pc → ∃ reply, pc = Returned reply) :
  free_quic_client q = Some (∅, ∅, []).
Proof.
  pose proof (inv_reachable conn q Hq) as Hi. destruct (reachable_accounted conn q Hq) as [Hin Hmain].
  assert (∀ k, v_listed (view_of q k) = false ∧ v_context (view_of q k) = None) as Hgone.
  { intros k. pose proof (inv_view _ Hi k) as Hv. rw /view_ok /= in Hv.
    destruct (callers q !! k) as [pc|] eqn:Hk; [destruct (Hdone k pc Hk) as [reply ->]|]; by destruct Hv as (_ & _ & ? & ?). }
  assert (stream_contexts q = []) as Hlist.
  { destruct (inv_list _ Hi) as ([|k ks] & Hks & _); [done|]. destruct (Hgone k) as [Hk _]. simpl in Hk.
    apply bool_decide_eq_false in Hk. destruct Hk. rw Hks. by constructor. }
  assert (contexts q = ∅) as Hctx. { apply map_eq. intros k. rw lookup_empty. apply (Hgone k). }
  destruct (inv_pool _ Hi) as (ls & Hls & Hnd & _ & Hall & _).
  destruct (free_streams_list_val ls (stream_heap q) Hnd Hall) as (h & Hfree & Hh).
  rw /free_quic_client Hlist /= Hls Hfree /= Hctx free_stream_allocation_queue_val.
  assert (∀ l, Some l ∈ auxiliary_streams_list q ↔ l ∈ ls) as Hpool.
  { intros l. rw Hls list_elem_of_fmap. split; [by intros (y & Heq & Hy); injection Heq as ->|intros Hl; by exists l]. }
  assert (∀ l, h !! l ≠ None → main_stream q = Some l) as Hleft.
  { intros l. rw Hh. case_decide as Hl; [done|]. intros Hs%not_eq_None_Some. apply Hin in Hs as [Hs|Hs]; [|done].
    by apply Hpool in Hs. }
  destruct (main_stream q) as [l|] eqn:Hm.
  - assert (is_Some (h !! l)) as [s Hs].
    { rw Hh. case_decide as Hl; [|apply Hin; by right]. apply Hpool in Hl. by destruct (Hmain l eq_refl). }
    rw Hs /=. do 3 f_equal. apply map_eq. intros x. rw lookup_empty. destruct (decide (x = l)) as [->|Hne]; [apply lookup_delete_eq|].
    rw lookup_delete_ne; [congruence|]. destruct (h !! x) eqn:Hx; [|done]. specialize (Hleft x). rw Hx in Hleft.
    pose proof (Hleft ltac:(done)). congruence.
  - simpl. do 3 f_equal. apply map_eq. intros x. rw lookup_empty. destruct (h !! x) eqn:Hx; [|done].
    specialize (Hleft x). rw Hx in Hleft. by specialize (Hleft ltac:(done)).
Qed.

(** The list of contexts that is not empty at the call is waited for without
    end, even when the calls return later. *)
Theorem freeing_with_a_call_under_way_hangs q k (Hk : Some k ∈ stream_contexts q) : free_quic_client q = None.
Proof. rw /free_quic_client. destruct (stream_contexts q); [by apply elem_of_nil in Hk|done]. Qed.
End theorems.
