(* ===== verification/RpcClient.v ===== *)
(** The client's end of a call: credentials ([src/authentication]),
    connection contexts ([src/common_rpc/rpc_connection_context.c]) and
    [src/transport/tcp/tcp_rpc_client.c].

    A call blocks in [recv] until the reply is there. What the other end does
    in the meantime is not code of the client: it is the class [Peer]. *)
From S2P Require Import Prelude Messages RecordMarking.

(** * Credentials *)

Definition MAX_MACHINENAME_LEN : nat := 255.
Definition MAX_N_GIDS : nat := 32.

(** Names and groups beyond the limits are cut off; [now] is [time(NULL)]. *)
Definition create_auth_sys_opaque_auth (now : Z) (machine_name : string) (uid gid : Z) (gids : list Z)
    : Rpc.OpaqueAuth :=
  Rpc.mkOpaqueAuth Rpc.AUTH_SYS
    (Rpc.AUTH_BODY_AUTH_SYS
      (Some (Rpc.mkAuthSysParams (wrap64 now)
        (Some (if (String.length machine_name <=? MAX_MACHINENAME_LEN)%nat then machine_name
               else String.substring 0 MAX_MACHINENAME_LEN machine_name))
        uid gid (Some (take MAX_N_GIDS gids))))).

(** * Connection contexts *)

Definition TRANSPORT_PROTOCOL_TCP : Z := 0.
Definition TRANSPORT_PROTOCOL_QUIC : Z := 1.

Record TcpClient := mkTcpClient { tcp_rpc_client_socket_fd : option Z }.

(** The part of [QuicClient] that connecting sets up: the numbers of the UDP
    socket and of the objects of the QUIC library. *)
Record QuicSetup := mkQuicSetup {
  socket_fd : Z; quic_config : Z; tls_config : Z; quic_endpoint : Z }.

(** The union of the two kinds of connection. *)
Inductive TransportConnection :=
  | TC_TCP_CLIENT (p : option TcpClient)
  | TC_QUIC_CLIENT (p : option QuicSetup).

Record RpcConnectionContext := mkRpcConnectionContext {
  server_ipv4_addr : option string;
  server_port : Z;
  ctx_credential : option Rpc.OpaqueAuth;
  ctx_verifier : option Rpc.OpaqueAuth;
  transport_protocol : Z;
  transport_connection : option TransportConnection }.

(** What the client asks of its operating system, beside sending and
    receiving. Results are those of the system calls: negative on failure,
    [None] for -1 or NULL. *)
Class ClientHost (W : Type) := {
  socket_stream : W → Z * W;
  connect : Z → string → Z → W → Z * W;
  close_socket : Z → W → W;
  gethostname : nat → W → option string;
  geteuid : W → Z;
  getegid : W → Z;
  getgroups : nat → W → option (list Z);
  time_now : W → Z;
  getaddrinfo : string → Z → W → option Z * W;
  socket_dgram : Z → W → Z * W;
  set_nonblocking : Z → W → Z * W;
  getsockname : Z → W → Z * W;
}.

(** The QUIC library (TQUIC), outside this repository. *)
Class QuicLibrary (W : Type) := {
  quic_config_new : W → option Z * W;
  quic_tls_config_new_client_config : W → option Z * W;
  quic_endpoint_new : Z → W → option Z * W;
  quic_endpoint_connect : Z → Z → W → Z * W;
}.

Section contexts.
Context `{ClientHost W} `{QuicLibrary W}.
Implicit Types (w : W) (ctx : RpcConnectionContext).

Definition set_connection ctx (tc : TransportConnection) : RpcConnectionContext :=
  mkRpcConnectionContext (server_ipv4_addr ctx) (server_port ctx) (ctx_credential ctx)
    (ctx_verifier ctx) (transport_protocol ctx) (Some tc).

(** A part of a function that fills in a context and returns an [int]. *)
Definition connecting (A : Type) : Type := prog (option RpcConnectionContext * W) Z A.

(** A system or library call. *)
Definition host {A} (f : W → A * W) : connecting A :=
  lift (λ s, let '(a, w) := f s.2 in (a, (s.1, w))).

(** [memory]: whether the three allocations succeed. The options set on the
    socket change no result. After a failed [connect] the socket is closed. *)
Definition connect_to_tcp_server (memory : bool * bool * bool) : connecting Z :=
  ctx ← gets fst;
  ctx ← orelse ctx 1;
  address ← orelse (server_ipv4_addr ctx) 2;
  return_if (negb memory.1.1) 3;;
  fd ← host socket_stream;
  return_if (fd <? 0) 4;;
  return_if (negb memory.1.2) 5;;
  return_if (negb memory.2) 6;;
  modify (λ s, (Some (set_connection ctx (TC_TCP_CLIENT (Some (mkTcpClient (Some fd))))), s.2));;
  r ← host (connect fd address (server_port ctx));
  if r <? 0 then modify (λ s, (s.1, close_socket fd s.2));; mret 7 else mret 0.

(** The address of the server and the socket; every failure is code 1. *)
Definition create_quic_udp_socket (address : string) (port : Z) : connecting (Z * Z) :=
  peer ← host (getaddrinfo address port);
  peer ← orelse peer 1;
  udp_socket ← host (socket_dgram peer);
  return_if (udp_socket <? 0) 1;;
  r ← host (set_nonblocking udp_socket);
  return_if (r !=? 0) 1;;
  r ← host (getsockname udp_socket);
  return_if (r !=? 0) 1;;
  mret (peer, udp_socket).

(** Run a part and turn each of its [return]s into another. *)
Definition returning {A} (code : Z) (m : connecting A) : connecting A :=
  λ s, match m s with Ret _ s => Ret code s | o => o end.

(** From the TLS configuration on, a failure frees the QuicClient and then
    reads its members to free them too, which is undefined. [memory]: whether
    the two allocations succeed. *)
Definition connect_to_quic_server (memory : bool * bool) : connecting Z :=
  ctx ← gets fst;
  ctx ← orelse ctx 1;
  address ← orelse (server_ipv4_addr ctx) 2;
  return_if (negb memory.1) 3;;
  '(peer, udp_socket) ← returning 4 (create_quic_udp_socket address (server_port ctx));
  config ← host quic_config_new;
  config ← orelse config 5;
  tls ← host quic_tls_config_new_client_config;
  tls ← deref tls;
  endpoint ← host (quic_endpoint_new config);
  endpoint ← deref endpoint;
  (if memory.2 then mret tt else fault);;
  modify (λ s, (Some (set_connection ctx (TC_QUIC_CLIENT (Some (mkQuicSetup udp_socket config tls endpoint)))), s.2));;
  r ← host (quic_endpoint_connect endpoint peer);
  if r <? 0 then fault else mret 0.

(** [None] for the context when connecting fails or the protocol is unknown. *)
Definition create_rpc_connection_context (memory : bool * bool * bool) (server_ipv4_address : string)
    (server_port : Z) (credential verifier : option Rpc.OpaqueAuth) (transport_protocol : Z) (w : W)
    : option (option RpcConnectionContext * W) :=
  let ctx := mkRpcConnectionContext (Some server_ipv4_address) server_port credential verifier
               transport_protocol None in
  let connected r :=
    '(error_code, s) ← r;
    Some (if (error_code : Z) >? 0 then (None, s.2) else (s : option RpcConnectionContext * W)) in
  if transport_protocol =? TRANSPORT_PROTOCOL_TCP then
    connected (run (connect_to_tcp_server memory) (Some ctx, w))
  else if transport_protocol =? TRANSPORT_PROTOCOL_QUIC then
    connected (run (connect_to_quic_server memory.1) (Some ctx, w))
  else Some (None, w).

Definition create_auth_none_rpc_connection_context (memory : bool * bool * bool)
    (server_ipv4_address : string) (server_port transport_protocol : Z) (w : W)
    : option (option RpcConnectionContext * W) :=
  create_rpc_connection_context memory server_ipv4_address server_port
    (Some Rpc.create_auth_none_opaque_auth) (Some Rpc.create_auth_none_opaque_auth) transport_protocol w.

Definition create_auth_sys_rpc_connection_context (memory : bool * bool * bool)
    (server_ipv4_address : string) (server_port transport_protocol : Z) (w : W)
    : option (option RpcConnectionContext * W) :=
  match gethostname MAX_MACHINENAME_LEN w, getgroups MAX_N_GIDS w with
  | Some hostname, Some gids =>
      create_rpc_connection_context memory server_ipv4_address server_port
        (Some (create_auth_sys_opaque_auth (time_now w) hostname (geteuid w) (getegid w) gids))
        (Some Rpc.create_auth_none_opaque_auth) transport_protocol w
  | _, _ => Some (None, w)
  end.

(** The socket is closed with the context. *)
Definition free_tcp_connection_context (ctx : option RpcConnectionContext) (w : W) : option W :=
  match ctx with
  | None => Some w
  | Some ctx =>
      match transport_connection ctx with
      | None => Some w
      | Some (TC_TCP_CLIENT None) => Some w
      | Some (TC_TCP_CLIENT (Some c)) =>
          Some (match tcp_rpc_client_socket_fd c with
                | Some fd => if 0 <=? fd then close_socket fd w else w
                | None => w
                end)
      | Some (TC_QUIC_CLIENT _) => None
      end
  end.
End contexts.

(** * Well-formed contexts *)

(** The connection is of the kind that the protocol says, and there is one:
    what every reader of the union relies on. *)
Definition connection_matches (ctx : RpcConnectionContext) : Prop :=
  if transport_protocol ctx =? TRANSPORT_PROTOCOL_TCP then
    ∃ fd, 0 ≤ fd ∧ transport_connection ctx = Some (TC_TCP_CLIENT (Some (mkTcpClient (Some fd))))
  else
    transport_protocol ctx = TRANSPORT_PROTOCOL_QUIC ∧
    ∃ q, 0 ≤ socket_fd q ∧ transport_connection ctx = Some (TC_QUIC_CLIENT (Some q)).

Section context_lemmas.
Context `{ClientHost W} `{QuicLibrary W}.
Implicit Types (w : W) (ctx : RpcConnectionContext).

(** The parts of the first context that stay. *)
Definition connects ctx (code : Z) (s : option RpcConnectionContext * W) : Prop :=
  code ≤ 0 →
  ∃ ctx', s.1 = Some ctx' ∧ connection_matches ctx' ∧
    ctx_credential ctx' = ctx_credential ctx ∧ ctx_verifier ctx' = ctx_verifier ctx.

Lemma connects_failure ctx code s : 0 < code → connects ctx code s.
Proof. rw /connects. lia. Qed.

Lemma wlp_host {A} (f : W → A * W) (Q : A → option RpcConnectionContext * W → Prop) E s :
  (∀ a w, Q a (s.1, w)) → wlp (host f) Q E s.
Proof. intros HQ. rw /wlp /host /lift /=. by destruct (f s.2). Qed.

Lemma wlp_returning {A} code (m : connecting A) Q E (s : option RpcConnectionContext * W) :
  wlp m Q (λ _, E code) s → wlp (returning code m) Q E s.
Proof. rw /wlp /returning. by destruct (m s). Qed.

Ltac connecting_step :=
  first [apply wlp_host; intros ? ? | apply wlp_returning | by apply connects_failure | wlp_step].

Lemma connect_to_tcp_server_connects memory ctx w :
  transport_protocol ctx = TRANSPORT_PROTOCOL_TCP →
  wlp (connect_to_tcp_server memory) (connects ctx) (connects ctx) (Some ctx, w).
Proof.
  intros Hp. rw /connect_to_tcp_server. repeat connecting_step. simplify_eq/=. c_bools. intros _.
  eexists. split; [done|]. split; [|done]. rw /connection_matches /= Hp. eexists. split; [|done]. lia.
Qed.

Lemma connect_to_quic_server_connects memory ctx w :
  transport_protocol ctx = TRANSPORT_PROTOCOL_QUIC →
  wlp (connect_to_quic_server memory) (connects ctx) (connects ctx) (Some ctx, w).
Proof.
  intros Hp. rw /connect_to_quic_server /create_quic_udp_socket. repeat connecting_step. simplify_eq/=. c_bools.
  intros _. eexists. split; [done|]. split; [|done]. rw /connection_matches /= Hp. split; [done|].
  eexists. split; [|done]. simpl. lia.
Qed.

Lemma create_rpc_connection_context_matches memory address port credential verifier protocol w ctx w' :
  create_rpc_connection_context memory address port credential verifier protocol w = Some (Some ctx, w') →
  connection_matches ctx ∧ ctx_credential ctx = credential ∧ ctx_verifier ctx = verifier.
Proof.
  rw /create_rpc_connection_context. set (c0 := mkRpcConnectionContext _ _ _ _ _ _).
  assert (∀ m, wlp m (connects c0) (connects c0) (Some c0, w) →
    ('(e, s) ← run m (Some c0, w); Some (if (e : Z) >? 0 then (None, s.2) else s)) = Some (Some ctx, w') →
    connection_matches ctx ∧ ctx_credential ctx = credential ∧ ctx_verifier ctx = verifier) as Hk.
  { intros m Hm. destruct (run m (Some c0, w)) as [[e s]|] eqn:Hr; [|done]. simpl.
    destruct (Z.gtb_spec e 0); intros [= ->]. apply (wlp_run _ _ _ _ _ Hm) in Hr.
    by destruct (Hr ltac:(lia)) as (ctx' & [= <-] & ? & ? & ?). }
  destruct (Z.eqb_spec protocol TRANSPORT_PROTOCOL_TCP) as [->|_].
  { by apply Hk, connect_to_tcp_server_connects. }
  destruct (Z.eqb_spec protocol TRANSPORT_PROTOCOL_QUIC) as [->|_]; [|done].
  by apply Hk, connect_to_quic_server_connects.
Qed.
End context_lemmas.

(** * Calls over TCP *)

(** The client's sockets, its counter of [generate_rpc_xid], and the rest of
    the world. *)
Record client (W P : Type) := mkClient { cnet : W; cxid : Z; peer : P }.

Arguments mkClient {W P} cnet cxid peer.
Arguments cnet {W P} c.
Arguments cxid {W P} c.
Arguments peer {W P} c.

(** What the other end of a connection and the network do between a call and
    its reply. *)
Class Peer (W P : Type) := peer_runs : Z → W → P → option (W * P).

Section tcp_rpc_client.
Context `{Codec} `{Socket W} `{Memory} `{Peer W P}.

(** A function of the client that returns a message or NULL. *)
Definition calling (A : Type) : Type := prog (client W P) (option Rpc.RpcMsg) A.

Definition on_cnet {A} (f : W → option (A * W)) : calling A :=
  λ c, match f (cnet c) with
       | Some (a, n) => Val a (mkClient n (cxid c) (peer c))
       | None => Fault
       end.

Definition wait_for_peer (fd : Z) : calling unit :=
  λ c, match peer_runs fd (cnet c) (peer c) with
       | Some (n, p) => Val tt (mkClient n (cxid c) p)
       | None => Fault
       end.

Definition client_rpc_xid : calling Z :=
  λ c, Val (wrap32 (cxid c)) (mkClient (cnet c) (cxid c + 1) (peer c)).

(** The mutex of the connection is held from the sending of the call to the
    arrival of the reply, so that this is one step of the client. *)
Definition exchange_tcp (fuel : nat) (fd : Z) (rpc_msg_buffer : list byte) : calling (list byte) :=
  error_code ← on_cnet (send_rm_record_tcp fd rpc_msg_buffer);
  return_if (error_code >? 0) None;;
  wait_for_peer fd;;
  buffer ← on_cnet (λ n, '(b, size, n) ← receive_rm_record_tcp fuel fd n; Some (b, n));
  orelse buffer None.

Definition execute_rpc_call_tcp (fuel : nat) (rpc_connection_context : option RpcConnectionContext)
    (call_rpc_msg : option Rpc.RpcMsg) : calling (option Rpc.RpcMsg) :=
  ctx ← orelse rpc_connection_context None;
  transport_connection ← orelse (transport_connection ctx) None;
  tcp_client ← match transport_connection with
               | TC_TCP_CLIENT p => orelse p None
               | TC_QUIC_CLIENT _ => fault
               end;
  fd ← orelse (tcp_rpc_client_socket_fd tcp_client) None;
  call_rpc_msg ← orelse call_rpc_msg None;
  reply_rpc_msg_buffer ← exchange_tcp fuel fd (pack_RpcMsg call_rpc_msg);
  mret (unpack_RpcMsg reply_rpc_msg_buffer).

Definition call_body_of (ctx : RpcConnectionContext) (program_number program_version procedure_number : Z)
    (parameters : Rpc.Any) : Rpc.CallBody :=
  Rpc.mkCallBody 2 program_number program_version procedure_number (ctx_credential ctx)
    (ctx_verifier ctx) (Some parameters).

Definition call_msg (xid : Z) (cb : Rpc.CallBody) : Rpc.RpcMsg :=
  Rpc.mkRpcMsg xid Rpc.CALL (Rpc.BODY_CBODY (Some cb)).

Definition invoke_rpc_remote_tcp (fuel : nat) (rpc_connection_context : option RpcConnectionContext)
    (program_number program_version procedure_number : Z) (parameters : Rpc.Any)
    : calling (option Rpc.RpcMsg) :=
  ctx ← orelse rpc_connection_context None;
  xid ← client_rpc_xid;
  call (execute_rpc_call_tcp fuel (Some ctx)
    (Some (call_msg xid (call_body_of ctx program_number program_version procedure_number parameters)))).
End tcp_rpc_client.
