(* ===== verification/ServerLife.v ===== *)
(** The life of the server ([src/nfs/server/server.c]): its command line, the
    resources that [run_server_tcp] and [run_server_quic] acquire and release
    ([src/transport/tcp/tcp_rpc_server.c], [src/transport/quic/quic_rpc_server.c]),
    and what the handler of SIGTERM frees once the threads of the connections are
    gone, which [ServerShutdown] is about. *)
From Stdlib Require Import Strings.Ascii.
From S2P Require Import Prelude CStrings Messages Parsing Posix InodeCache ReadDir ServerState RpcClient.

(** * The command line *)

(** What [main] does with its arguments. *)
Inductive started := ExitWith (code : Z) | RunServer (port_number protocol : Z).

Definition NFS_AND_MOUNT_TEST_RPC_SERVER_PORT : Z := 3000.

(** [None]: an invalid protocol. Without the flag the global keeps the value 0 it
    starts with. *)
Definition parse_protocol (argument : string) : option Z :=
  let proto_flag := "--proto=" in
  if String.prefix proto_flag argument then
    let protocol := String.substring (String.length proto_flag) (String.length argument - String.length proto_flag) argument in
    if String.eqb protocol "tcp" then Some TRANSPORT_PROTOCOL_TCP
    else if String.eqb protocol "quic" then Some TRANSPORT_PROTOCOL_QUIC
    else None
  else Some 0.

Definition parse_server_port (argument : string) : option Z :=
  if String.prefix "--" argument then
    if String.eqb argument "--test" then Some NFS_AND_MOUNT_TEST_RPC_SERVER_PORT else None
  else let port_number := parse_port_number argument in if port_number =? 0 then None else Some port_number.

(** [host]: whether [sigaction] and [pthread_create] succeed. *)
Definition main (host : bool * bool) (argv : list string) : started :=
  match argv with
  | [_; arg1; arg2] =>
      match parse_server_port arg1 with
      | None => ExitWith 1
      | Some port_number =>
          match parse_protocol arg2 with
          | None => ExitWith 1
          | Some protocol => if host.1 && host.2 then RunServer port_number protocol else ExitWith 1
          end
      end
  | _ => ExitWith 1
  end.

(** * Resources *)

Inductive resource :=
  | TcpSocket (fd : Z) | UdpSocket (fd : Z) | TlsConfig (p : Z) | Endpoint (p : Z) | EventLoop (p : Z) | QuicConfig (p : Z).

(** The sockets and pointers of the two transports, whether they have been
    released, and everything that has been freed. *)
Record listener := mkListener {
  rpc_server_socket_fd : Z;
  tcp_server_resources_released : bool;
  socket_fd : Z;
  tls_config : option Z;
  quic_endpoint : option Z;
  event_loop : option Z;
  config : option Z;
  quic_server_resources_released : bool;
  freed : list resource }.

Definition release_tcp_server_resources (r : listener) : listener :=
  if tcp_server_resources_released r then r
  else mkListener (rpc_server_socket_fd r) true (socket_fd r) (tls_config r) (quic_endpoint r) (event_loop r) (config r)
         (quic_server_resources_released r) (freed r ++ [TcpSocket (rpc_server_socket_fd r)]).

Definition held (f : Z → resource) (p : option Z) : list resource := match p with Some p => [f p] | None => [] end.

(** What the pointers hold, in the order in which it is freed. *)
Definition quic_resources (r : listener) : list resource :=
  held TlsConfig (tls_config r) ++ (if socket_fd r >? 0 then [UdpSocket (socket_fd r)] else []) ++
  held Endpoint (quic_endpoint r) ++ held EventLoop (event_loop r) ++ held QuicConfig (config r).

Definition release_quic_server_resources (r : listener) : listener :=
  if quic_server_resources_released r then r
  else mkListener (rpc_server_socket_fd r) (tcp_server_resources_released r) (socket_fd r) (tls_config r) (quic_endpoint r)
         (event_loop r) (config r) true (freed r ++ quic_resources r).

(** [None]: [ev_break] of a loop that has not been created. *)
Definition clean_up_quic_server_state (r : listener) : option listener :=
  _ ← event_loop r; Some (release_quic_server_resources r).

(** How creating the UDP socket goes: no socket at all; a socket that could not
    be set up, which is then lost; or a socket. *)
Inductive udp_answer := UdpNone | UdpLost (fd : Z) | UdpReady (fd : Z).

Definition set_udp (fd : Z) (r : listener) : listener :=
  mkListener (rpc_server_socket_fd r) (tcp_server_resources_released r) fd (tls_config r) (quic_endpoint r)
    (event_loop r) (config r) (quic_server_resources_released r) (freed r).

Definition create_socket (answer : udp_answer) (r : listener) : Z * listener :=
  match answer with
  | UdpNone | UdpLost _ => (1, r)
  | UdpReady fd => (0, set_udp fd r)
  end.

Definition set_quic (tls endpoint loop conf : option Z) (r : listener) : listener :=
  mkListener (rpc_server_socket_fd r) (tcp_server_resources_released r) (socket_fd r) tls endpoint loop conf
    (quic_server_resources_released r) (freed r).

(** What the libraries give: the socket, the configuration, the TLS configuration,
    the endpoint and the event loop. *)
Record answers := mkAnswers { udp : udp_answer; a_config : option Z; a_tls : option Z; a_endpoint : option Z; a_loop : Z }.

(** [run_server_quic] up to the event loop: an error code, or the server that
    listens. *)
Definition start_server_quic (a : answers) (r : listener) : Z * listener :=
  let r := set_quic None None None None r in
  let '(error_code, r) := create_socket (udp a) r in
  if error_code >? 0 then (1, release_quic_server_resources r)
  else match a_config a with
       | None => (1, release_quic_server_resources r)
       | Some conf =>
           match a_tls a with
           | None => (1, release_quic_server_resources (set_quic None None None (Some conf) r))
           | Some tls =>
               match a_endpoint a with
               | None => (1, release_quic_server_resources (set_quic (Some tls) None None (Some conf) r))
               | Some endpoint => (0, set_quic (Some tls) (Some endpoint) (Some (a_loop a)) (Some conf) r)
               end
           end
       end.

(** With [ev_run], whose callbacks are in [QuicServer], and its end. *)
Definition run_server_quic (a : answers) (r : listener) : Z * listener :=
  let '(ret, r) := start_server_quic a r in
  (ret, release_quic_server_resources r).

(** How [socket], [bind] and [listen] go. *)
Record tcp_answers := mkTcpAnswers { tcp_socket : Z; bind_ok : bool; listen_ok : bool }.

Definition set_tcp (fd : Z) (r : listener) : listener :=
  mkListener fd (tcp_server_resources_released r) (socket_fd r) (tls_config r) (quic_endpoint r)
    (event_loop r) (config r) (quic_server_resources_released r) (freed r).

Definition close_tcp (r : listener) : listener :=
  mkListener (rpc_server_socket_fd r) (tcp_server_resources_released r) (socket_fd r) (tls_config r) (quic_endpoint r)
    (event_loop r) (config r) (quic_server_resources_released r) (freed r ++ [TcpSocket (rpc_server_socket_fd r)]).

(** [run_server_tcp] up to the loop that accepts connections, which is in
    [ServerThreads]. *)
Definition start_server_tcp (a : tcp_answers) (r : listener) : Z * listener :=
  let r := set_tcp (tcp_socket a) r in
  if tcp_socket a <? 0 then (1, r)
  else if negb (bind_ok a) then (1, close_tcp r)
  else if negb (listen_ok a) then (1, close_tcp r)
  else (0, r).

(** * Shutdown *)

Fixpoint clean_up_inode_cache (inode_cache_mapping : InodeCache) : InodeCache :=
  match inode_cache_mapping with [] => [] | _ :: next => clean_up_inode_cache next end.

Fixpoint clean_up_mount_list (mount_list_head : list Mount.MountListEntry) : list Mount.MountListEntry :=
  match mount_list_head with [] => [] | _ :: next => clean_up_mount_list next end.

Section shutdown.
Context `{Posix OS}.

(** A NULL session is skipped by [free_readdir_session]. *)
Fixpoint clean_up_readdir_sessions_list (readdir_sessions : ReadDirSessionsList) (o : OS) : OS :=
  match readdir_sessions with
  | [] => o
  | None :: next => clean_up_readdir_sessions_list next o
  | Some s :: next => clean_up_readdir_sessions_list next (free_readdir_session s o)
  end.

Record process := mkProcess {
  protocol : Z;
  listening : listener;
  server : server_state OS;
  periodic_cleanup_thread : bool;
  exited : option Z }.

(** [None]: the event loop has not been created. *)
Definition clean_up_transport (protocol : Z) (r : listener) : option listener :=
  if protocol =? TRANSPORT_PROTOCOL_TCP then Some (release_tcp_server_resources r)
  else if protocol =? TRANSPORT_PROTOCOL_QUIC then clean_up_quic_server_state r
  else Some r.

(** [handle_signal] of SIGTERM behind [clean_up_nfs_server_threads_list]. Joining the
    thread of the periodic clean-up is taken to return: it is cancelled in its sleep.
    (It would not if a thread was cancelled with the mutex of the sessions.) *)
Definition finish_signal (p : process) : option process :=
  r ← clean_up_transport (protocol p) (listening p);
  let s := server p in
  let s := mkServerState (os s) (clean_up_inode_cache (inode_cache s)) (clean_up_mount_list (mount_list s)) (readdir_sessions_list s) in
  Some (mkProcess (protocol p) r
    (set_sessions [] (clean_up_readdir_sessions_list (readdir_sessions_list s) (os s)) s) false (Some 0)).
End shutdown.
Arguments process OS : clear implicits.
Arguments mkProcess {OS}.

(** * Lemmas *)

Lemma clean_up_inode_cache_val l : clean_up_inode_cache l = [].
Proof. by induction l. Qed.

Lemma clean_up_mount_list_val l : clean_up_mount_list l = [].
Proof. by induction l. Qed.

(** The streams of the sessions. *)
Definition streams_of (l : ReadDirSessionsList) : list DIR := omap (fmap directory_stream) l.

Lemma clean_up_sessions_val `{Posix OS} l (o : OS) :
  clean_up_readdir_sessions_list l o = foldl (λ o d, (closedir d o).2) o (streams_of l).
Proof. revert o. induction l as [|[s|] l IH]; intros o; [done|apply IH..]. Qed.

(** A printed number is not taken for a flag. *)
Lemma decimal_no_flag z : 0 ≤ z → String.prefix "--" (decimal z) = false.
Proof.
  intros Hz. destruct (decimal_number z Hz) as (l & Hl & Hd & _). destruct (decimal z) as [|c s]; [done|].
  simpl in Hl. subst l. apply Forall_cons in Hd as [Hc _]. cbn [String.prefix]. destruct (ascii_dec "-"%char c) as [Heq|]; [|done].
  subst c. by vm_compute in Hc.
Qed.

(** * Theorems *)

Section theorems.
Context `{Posix OS}.
Implicit Types (p : process OS).

(** Once the threads are gone, the handler of SIGTERM ends the process with code 0,
    after it has released the transport, emptied the inode cache and the mount list
    and closed the directory stream of every READDIR session. *)
Theorem sigterm_frees_the_state p r (Hr : clean_up_transport (protocol p) (listening p) = Some r) :
  ∃ p', finish_signal p = Some p' ∧ exited p' = Some 0 ∧ listening p' = r ∧ periodic_cleanup_thread p' = false ∧
    inode_cache (server p') = [] ∧ mount_list (server p') = [] ∧ readdir_sessions_list (server p') = [] ∧
    os (server p') = foldl (λ o d, (closedir d o).2) (os (server p)) (streams_of (readdir_sessions_list (server p))).
Proof.
  eexists. split; [by rw /finish_signal Hr|]. simpl. by rw clean_up_inode_cache_val clean_up_mount_list_val clean_up_sessions_val.
Qed.

(** What [run_server_quic] has acquired when it stops acquiring. *)
Definition acquired (a : answers) : list resource :=
  match udp a with
  | UdpReady fd =>
      UdpSocket fd ::
      match a_config a with
      | None => []
      | Some conf =>
          QuicConfig conf ::
          match a_tls a with
          | None => []
          | Some tls =>
              TlsConfig tls ::
              match a_endpoint a with None => [] | Some endpoint => [Endpoint endpoint; EventLoop (a_loop a)] end
          end
      end
  | _ => []
  end.

Definition fresh_listener : listener := mkListener 0 false 0 None None None None false [].

(** The QUIC server releases what it has acquired: whichever of the
    acquisitions fails, and when the event loop ends, [run_server_quic] has freed
    exactly what it acquired, each once; SIGTERM while the event loop runs frees the
    same, and releasing again frees nothing. The socket of a failed [fcntl], [bind]
    or [getsockname] is the exception: it was never stored. *)
Theorem quic_server_releases_what_it_acquired a
    (Hfd : ∀ fd, udp a = UdpReady fd → 0 < fd) :
  let '(ret, r) := run_server_quic a fresh_listener in
  Permutation (freed r) (acquired a) ∧ quic_server_resources_released r = true ∧ release_quic_server_resources r = r ∧
  (∀ r', start_server_quic a fresh_listener = (0, r') →
     ret = 0 ∧ clean_up_transport TRANSPORT_PROTOCOL_QUIC r' = Some r) ∧
  (ret ≠ 0 → ret = 1 ∧ (length (acquired a) < 5)%nat).
Proof.
  rw /run_server_quic /start_server_quic /acquired. destruct a as [u c t e l]. simpl in *.
  destruct u as [|fd|fd]; simpl; [by split_and!; [..|lia]|by split_and!; [..|lia]|].
  specialize (Hfd fd eq_refl). assert (fd >? 0 = true) as Hpos by lia.
  destruct c as [c|], t as [t|], e as [e|]; simpl; rw /release_quic_server_resources /= /quic_resources /= Hpos /=;
    (split_and!; try done; try (simpl; lia)); try (by intros r' [= <-]; rw /clean_up_transport /= /clean_up_quic_server_state
      /release_quic_server_resources /quic_resources /= Hpos).
  all: solve_Permutation.
Qed.

(** The command line selects the port and the transport: every
    printed port from 1 to 65535, and the flag for tests, starts the server there
    over the protocol that is named; and a server that starts has a port in that
    range and one of the two protocols. *)
Theorem command_line_starts_the_server program port (Hport : 1 ≤ port ≤ 65535) :
  main (true, true) [program; decimal port; "--proto=tcp"] = RunServer port TRANSPORT_PROTOCOL_TCP ∧
  main (true, true) [program; decimal port; "--proto=quic"] = RunServer port TRANSPORT_PROTOCOL_QUIC ∧
  main (true, true) [program; "--test"; "--proto=quic"] = RunServer NFS_AND_MOUNT_TEST_RPC_SERVER_PORT TRANSPORT_PROTOCOL_QUIC ∧
  ∀ host argv (port protocol : Z), main host argv = RunServer port protocol →
    1 ≤ port ≤ 65535 ∧ (protocol = TRANSPORT_PROTOCOL_TCP ∨ protocol = TRANSPORT_PROTOCOL_QUIC).
Proof.
  assert (parse_server_port (decimal port) = Some port) as Hp.
  { rw /parse_server_port decimal_no_flag; [lia|]. rw port_decimal; [lia|]. by destruct (Z.eqb_spec port 0); [lia|]. }
  split_and!; [by rw /main Hp..|by vm_compute|]. intros host argv port' protocol.
  rw /main. destruct argv as [|x0 [|x1 [|x2 [|]]]]; try done.
  destruct (parse_server_port x1) as [q|] eqn:Hq; [|done]. destruct (parse_protocol x2) as [pr|] eqn:Hpr; [|done].
  destruct (_ && _); [|done]. intros [= -> ->]. split.
  - revert Hq. rw /parse_server_port. pose proof (port_range x1). repeat case_match; intros [= <-]; [done|].
    destruct (Z.eqb_spec (parse_port_number x1) 0); [done|lia].
  - revert Hpr. rw /parse_protocol. repeat case_match; intros [= <-]; auto.
Qed.
End theorems.
