(* ===== verification/NfsClient.v ===== *)
(** The client stubs: [src/nfs/clients/nfs_client.c] and
    [src/nfs/clients/mount_client.c]. A stub packs its arguments, calls the
    remote procedure over the transport of the context, checks the reply and
    unpacks the results.

    The stubs are written against the class [Transports], the two functions
    [invoke_rpc_remote_tcp] and [invoke_rpc_remote_quic] that they call. *)
From S2P Require Import Prelude Messages RecordMarking RpcClient.

Definition NFS_RPC_PROGRAM : Z := 10003.
Definition MOUNT_RPC_PROGRAM : Z := 10005.

(** The part of protobuf-c that only the clients use. *)
Class ClientCodec := {
  pack_FHandle : Nfs.FHandle → list byte;
  pack_SAttrArgs : Nfs.SAttrArgs → list byte;
  pack_DirOpArgs : Nfs.DirOpArgs → list byte;
  pack_ReadArgs : Nfs.ReadArgs → list byte;
  pack_WriteArgs : Nfs.WriteArgs → list byte;
  pack_CreateArgs : Nfs.CreateArgs → list byte;
  pack_RenameArgs : Nfs.RenameArgs → list byte;
  pack_LinkArgs : Nfs.LinkArgs → list byte;
  pack_SymLinkArgs : Nfs.SymLinkArgs → list byte;
  pack_ReadDirArgs : Nfs.ReadDirArgs → list byte;
  pack_DirPath : Mount.DirPath → list byte;
  unpack_NfsStat : list byte → option Nfs.Stat;
  unpack_AttrStat : list byte → option Nfs.AttrStat;
  unpack_DirOpRes : list byte → option Nfs.DirOpRes;
  unpack_ReadLinkRes : list byte → option Nfs.ReadLinkRes;
  unpack_ReadRes : list byte → option Nfs.ReadRes;
  unpack_ReadDirRes : list byte → option Nfs.ReadDirRes;
  unpack_StatFsRes : list byte → option Nfs.StatFsRes;
  unpack_FhStatus : list byte → option Mount.FhStatus;
}.

(** Calling a remote procedure: program, version, procedure and parameters;
    the reply may be NULL. [None]: undefined behaviour, or the call does not
    end. *)
Class Transports (St : Type) := {
  rpc_tcp : RpcConnectionContext → Z → Z → Z → Rpc.Any → St → option (option Rpc.RpcMsg * St);
  rpc_quic : RpcConnectionContext → Z → Z → Z → Rpc.Any → bool → St → option (option Rpc.RpcMsg * St);
}.

(** * The stubs *)

Section stubs.
Context `{Transports St}.

(** The [int] a stub returns and what it stores in [*result]. *)
Definition stub (R A : Type) : Type := prog St (Z * option R) A.

Definition fails {R A} (code : Z) : stub R A := return_ (code, None).

(** The transport is chosen by the context, which is dereferenced first. *)
Definition invoke_rpc_remote {R} (rpc_connection_context : option RpcConnectionContext)
    (program procedure : Z) (parameters : Rpc.Any) : stub R (option Rpc.RpcMsg) :=
  ctx ← deref rpc_connection_context;
  attempt (if transport_protocol ctx =? TRANSPORT_PROTOCOL_QUIC
           then rpc_quic ctx program 2 procedure parameters true
           else rpc_tcp ctx program 2 procedure parameters).

(** [rpc_reply->rbody->areply]: NULL pointers on the way and a union that
    holds something else are [None]. *)
Definition areply_of (rpc_reply : option Rpc.RpcMsg) : option Rpc.AcceptedReply :=
  m ← rpc_reply;
  match Rpc.msg_body m with
  | Rpc.BODY_RBODY (Some (Rpc.mkReplyBody _ (Rpc.REPLY_AREPLY a))) => a
  | _ => None
  end.

(** [accepted_reply->results]: NULL unless the reply carries results. *)
Definition results_member (a : Rpc.AcceptedReply) : option Rpc.Any :=
  match Rpc.ar_reply_data a with Rpc.REPLY_DATA_RESULTS p => p | _ => None end.

(** From the reply to the results: positive codes are those of the
    validation, -1, -2 and -3 those of the stub. *)
Definition check_results {R} (results_type : string) (unpack : list byte → option R)
    (procedure_results : option Rpc.Any) : stub R (Z * option R) :=
  match procedure_results with
  | None => fails (-1)
  | Some results =>
      if decide (Rpc.type_url results = Some results_type) then
        match unpack (Rpc.value results) with
        | None => fails (-3)
        | Some r => mret (0, Some r)
        end
      else fails (-2)
  end.

(** The fifteen stubs with arguments and results do the same with other
    types. *)
Definition remote_procedure {A R} (program procedure : Z) (args_type : string) (pack : A → list byte)
    (results_type : string) (unpack : list byte → option R)
    (rpc_connection_context : option RpcConnectionContext) (args : A) : stub R (Z * option R) :=
  rpc_reply ← invoke_rpc_remote rpc_connection_context program procedure
                (Rpc.mkAny (Some args_type) (pack args));
  error_code ← deref (Validation.validate_successful_accepted_reply rpc_reply);
  return_if (error_code >? 0) (error_code, None);;
  accepted_reply ← deref (areply_of rpc_reply);
  check_results results_type unpack (results_member accepted_reply).

(** The NULL procedures: the reply's members are read before the error code
    is tested, and there is nothing to unpack. *)
Definition null_procedure (program : Z) (results_type : string)
    (rpc_connection_context : option RpcConnectionContext) : stub unit (Z * option unit) :=
  rpc_reply ← invoke_rpc_remote rpc_connection_context program 0 (Rpc.mkAny (Some "") []);
  error_code ← deref (Validation.validate_successful_accepted_reply rpc_reply);
  accepted_reply ← deref (areply_of rpc_reply);
  return_if (error_code >? 0) (error_code, None);;
  check_results results_type (λ _, Some tt) (results_member accepted_reply).

Definition nfs_procedure_0_do_nothing := null_procedure NFS_RPC_PROGRAM "nfs/None".
Definition mount_procedure_0_do_nothing := null_procedure MOUNT_RPC_PROGRAM "mount/None".

Context `{ClientCodec}.

Definition nfs_procedure_1_get_file_attributes :=
  remote_procedure NFS_RPC_PROGRAM 1 "nfs/FHandle" pack_FHandle "nfs/AttrStat" unpack_AttrStat.
Definition nfs_procedure_2_set_file_attributes :=
  remote_procedure NFS_RPC_PROGRAM 2 "nfs/SAttrArgs" pack_SAttrArgs "nfs/AttrStat" unpack_AttrStat.
Definition nfs_procedure_4_look_up_file_name :=
  remote_procedure NFS_RPC_PROGRAM 4 "nfs/DirOpArgs" pack_DirOpArgs "nfs/DirOpRes" unpack_DirOpRes.
Definition nfs_procedure_5_read_from_symbolic_link :=
  remote_procedure NFS_RPC_PROGRAM 5 "nfs/FHandle" pack_FHandle "nfs/ReadLinkRes" unpack_ReadLinkRes.
Definition nfs_procedure_6_read_from_file :=
  remote_procedure NFS_RPC_PROGRAM 6 "nfs/ReadArgs" pack_ReadArgs "nfs/ReadRes" unpack_ReadRes.
Definition nfs_procedure_8_write_to_file :=
  remote_procedure NFS_RPC_PROGRAM 8 "nfs/WriteArgs" pack_WriteArgs "nfs/AttrStat" unpack_AttrStat.
Definition nfs_procedure_9_create_file :=
  remote_procedure NFS_RPC_PROGRAM 9 "nfs/CreateArgs" pack_CreateArgs "nfs/DirOpRes" unpack_DirOpRes.
Definition nfs_procedure_10_remove_file :=
  remote_procedure NFS_RPC_PROGRAM 10 "nfs/DirOpArgs" pack_DirOpArgs "nfs/NfsStat" unpack_NfsStat.
Definition nfs_procedure_11_rename_file :=
  remote_procedure NFS_RPC_PROGRAM 11 "nfs/RenameArgs" pack_RenameArgs "nfs/NfsStat" unpack_NfsStat.
Definition nfs_procedure_12_create_link_to_file :=
  remote_procedure NFS_RPC_PROGRAM 12 "nfs/LinkArgs" pack_LinkArgs "nfs/NfsStat" unpack_NfsStat.
Definition nfs_procedure_13_create_symbolic_link :=
  remote_procedure NFS_RPC_PROGRAM 13 "nfs/SymLinkArgs" pack_SymLinkArgs "nfs/NfsStat" unpack_NfsStat.
Definition nfs_procedure_14_create_directory :=
  remote_procedure NFS_RPC_PROGRAM 14 "nfs/CreateArgs" pack_CreateArgs "nfs/DirOpRes" unpack_DirOpRes.
Definition nfs_procedure_15_remove_directory :=
  remote_procedure NFS_RPC_PROGRAM 15 "nfs/DirOpArgs" pack_DirOpArgs "nfs/NfsStat" unpack_NfsStat.
Definition nfs_procedure_16_read_from_directory :=
  remote_procedure NFS_RPC_PROGRAM 16 "nfs/ReadDirArgs" pack_ReadDirArgs "nfs/ReadDirRes" unpack_ReadDirRes.
Definition nfs_procedure_17_get_filesystem_attributes :=
  remote_procedure NFS_RPC_PROGRAM 17 "nfs/FHandle" pack_FHandle "nfs/StatFsRes" unpack_StatFsRes.
Definition mount_procedure_1_add_mount_entry :=
  remote_procedure MOUNT_RPC_PROGRAM 1 "mount/DirPath" pack_DirPath "mount/FhStatus" unpack_FhStatus.
End stubs.

(** * What a stub accepts *)

(** The results of a reply that says that the call was carried out. *)
Definition successful_results (rpc_reply : option Rpc.RpcMsg) : option Rpc.Any :=
  match rpc_reply with
  | Some (Rpc.mkRpcMsg _ Rpc.REPLY (Rpc.BODY_RBODY (Some (Rpc.mkReplyBody Rpc.MSG_ACCEPTED
      (Rpc.REPLY_AREPLY (Some (Rpc.mkAcceptedReply
        (Some (Rpc.mkOpaqueAuth Rpc.AUTH_NONE (Rpc.AUTH_BODY_EMPTY (Some _)))) Rpc.SUCCESS
        (Rpc.REPLY_DATA_RESULTS results)))))))) => results
  | _ => None
  end.

(** The reply says it was accepted but the reply itself is missing: the one
    message the validation dereferences a null pointer on. *)
Definition lacks_accepted_reply (rpc_reply : option Rpc.RpcMsg) : Prop :=
  ∃ xid, rpc_reply = Some (Rpc.mkRpcMsg xid Rpc.REPLY (Rpc.BODY_RBODY (Some
    (Rpc.mkReplyBody Rpc.MSG_ACCEPTED (Rpc.REPLY_AREPLY None))))).

(** The validation ends with 0 exactly on success, and never below 0. *)
Lemma validate_successful_cases rpc_reply :
  match Validation.validate_successful_accepted_reply rpc_reply with
  | None => lacks_accepted_reply rpc_reply
  | Some c => 0 ≤ c ∧ (c = 0 ↔ is_Some (successful_results rpc_reply))
  end.
Proof.
  assert (∀ c, 0 < c → 0 ≤ c ∧ (c = 0 ↔ is_Some (@None Rpc.Any))) as Hpos.
  { intros c Hc. split; [lia|]. split; [lia|by intros []]. }
  destruct rpc_reply as [[xid mt b]|]; [|by apply Hpos].
  destruct mt; [by apply Hpos|]. destruct b as [| |[[st r]|]]; try by apply Hpos.
  destruct st; destruct r as [|[[v ast d]|]|[[rs rd]|]]; try by apply Hpos.
  - destruct v as [[[] [|[[]|]|]]|]; try by apply Hpos.
    destruct ast; destruct d as [|[]|[]|[]]; try by apply Hpos. by split; [|split; [eauto|]].
  - by exists xid.
  - destruct rs; destruct rd as [|[]|]; by apply Hpos.
Qed.

Lemma validate_success rpc_reply any :
  successful_results rpc_reply = Some any →
  Validation.validate_successful_accepted_reply rpc_reply = Some 0.
Proof.
  intros Hs. pose proof (validate_successful_cases rpc_reply) as Hv.
  destruct (Validation.validate_successful_accepted_reply rpc_reply) as [c|].
  - destruct Hv as [_ [_ Hc]]. by rw Hc // Hs.
  - by destruct Hv as [xid ->].
Qed.

Lemma validate_failure rpc_reply c :
  successful_results rpc_reply = None →
  Validation.validate_successful_accepted_reply rpc_reply = Some c → (c >? 0) = true.
Proof.
  intros Hs Hc. pose proof (validate_successful_cases rpc_reply) as Hv. rw Hc Hs in Hv.
  destruct Hv as [H0 Hv]. apply Z.gtb_lt. destruct (decide (c = 0)) as [->|]; [|lia].
  by destruct (proj1 Hv eq_refl).
Qed.

Section stub_lemmas.
Context `{Transports St}.
Implicit Types (ctx : RpcConnectionContext) (s : St).

(** The remote call of a stub. *)
Definition remote_call ctx (program procedure : Z) (parameters : Rpc.Any) s : option (option Rpc.RpcMsg * St) :=
  if transport_protocol ctx =? TRANSPORT_PROTOCOL_QUIC
  then rpc_quic ctx program 2 procedure parameters true s
  else rpc_tcp ctx program 2 procedure parameters s.

Lemma invoke_rpc_remote_val {R} ctx program procedure parameters s reply s' :
  remote_call ctx program procedure parameters s = Some (reply, s') →
  invoke_rpc_remote (R:=R) (Some ctx) program procedure parameters s = Val reply s'.
Proof.
  rw /invoke_rpc_remote /remote_call /mbind /prog_bind /= /attempt. by destruct (_ =? _); intros ->.
Qed.

Lemma successful_areply reply any :
  successful_results reply = Some any →
  ∃ a, areply_of reply = Some a ∧ results_member a = Some any.
Proof.
  destruct reply as [[xid [] [| |[[[] [|[[[[[] [|[[]|]|]]|] [] [|p| |]]|]|]]|]]]|]; try done.
  intros Hp. simpl in Hp. subst p. by eexists.
Qed.

(** What a stub makes of a reply that is a success. *)
Definition accept {R} (results_type : string) (unpack : list byte → option R) (any : Rpc.Any) : Z * option R :=
  if decide (Rpc.type_url any = Some results_type) then
    match unpack (Rpc.value any) with None => (-3, None) | Some r => (0, Some r) end
  else (-2, None).

Lemma check_results_run {R} t (unpack : list byte → option R) any s :
  run (check_results t unpack (Some any)) s = Some (accept t unpack any, s).
Proof.
  rw /check_results /accept. case_decide; [|done]. by destruct (unpack _).
Qed.

(** A stub in terms of the reply it gets. *)
Lemma remote_procedure_run {A R} program procedure args_type (pack : A → list byte) results_type
    (unpack : list byte → option R) ctx args s reply s' :
  remote_call ctx program procedure (Rpc.mkAny (Some args_type) (pack args)) s = Some (reply, s') →
  run (remote_procedure program procedure args_type pack results_type unpack (Some ctx) args) s =
  match successful_results reply with
  | Some any => Some (accept results_type unpack any, s')
  | None => c ← Validation.validate_successful_accepted_reply reply; Some ((c, None), s')
  end.
Proof.
  intros Hcall. rw /remote_procedure /run. run_step (invoke_rpc_remote_val (R:=R) _ _ _ _ _ _ _ Hcall).
  destruct (successful_results reply) as [any|] eqn:Hs.
  - rw (validate_success _ _ Hs). destruct (successful_areply reply any Hs) as (a & -> & Hr).
    rw /mbind /prog_bind /= Hr. apply (check_results_run results_type unpack any s').
  - destruct (Validation.validate_successful_accepted_reply reply) as [c|] eqn:Hc; [|done].
    by rw /mbind /prog_bind /= (validate_failure _ _ Hs Hc).
Qed.

(** The NULL procedures dereference what the validation has just found
    missing or of another kind. *)
Lemma null_procedure_run program results_type ctx s reply s' :
  remote_call ctx program 0 (Rpc.mkAny (Some "") []) s = Some (reply, s') →
  run (null_procedure program results_type (Some ctx)) s =
  match successful_results reply, areply_of reply with
  | Some any, _ => Some (accept results_type (λ _, Some tt) any, s')
  | None, None => None
  | None, Some _ => c ← Validation.validate_successful_accepted_reply reply; Some ((c, None), s')
  end.
Proof.
  intros Hcall. rw /null_procedure /run. run_step (invoke_rpc_remote_val (R:=unit) _ _ _ _ _ _ _ Hcall).
  destruct (successful_results reply) as [any|] eqn:Hs.
  - rw (validate_success _ _ Hs). destruct (successful_areply reply any Hs) as (a & -> & Hr).
    rw /mbind /prog_bind /= Hr. apply (check_results_run results_type (λ _, Some tt) any s').
  - destruct (Validation.validate_successful_accepted_reply reply) as [c|] eqn:Hc; last by destruct (areply_of reply).
    rw /mbind /prog_bind /=. destruct (areply_of reply); [|done]. by rw /= (validate_failure _ _ Hs Hc).
Qed.
End stub_lemmas.

(** * Theorems *)

Section theorems.
Context `{Transports St} `{ClientCodec}.
Implicit Types (ctx : RpcConnectionContext) (s : St).

(** C21: what a stub with arguments (any but the two NULL procedures) does
    with the reply to its call, a missing one included. It has undefined
    behaviour exactly when the reply says it was accepted but its body is
    missing, which the validation dereferences. Otherwise it returns 0 with a
    result exactly when the reply is a successful accepted reply with an
    AUTH_NONE verifier that carries results of the stub's type, and the result
    is what they unpack to; a reply that fails the validation gives its positive
    code, results of another type give -2 and results that do not unpack give
    -3. *)
Theorem stub_returns_checked_results {A R} program procedure args_type (pack : A → list byte) results_type
    (unpack : list byte → option R) ctx args s reply s'
    (Hcall : remote_call ctx program procedure (Rpc.mkAny (Some args_type) (pack args)) s = Some (reply, s')) :
  match run (remote_procedure program procedure args_type pack results_type unpack (Some ctx) args) s with
  | None => lacks_accepted_reply reply
  | Some ((code, res), s1) =>
      ¬ lacks_accepted_reply reply ∧ s1 = s' ∧
      (code > 0 ↔ successful_results reply = None) ∧
      (∀ r, (code, res) = (0, Some r) ↔
        ∃ any, successful_results reply = Some any ∧ Rpc.type_url any = Some results_type ∧
               unpack (Rpc.value any) = Some r) ∧
      (code = -2 ↔ ∃ any, successful_results reply = Some any ∧ Rpc.type_url any ≠ Some results_type) ∧
      (code = -3 ↔ ∃ any, successful_results reply = Some any ∧ Rpc.type_url any = Some results_type ∧
                          unpack (Rpc.value any) = None) ∧
      (code ≠ 0 → res = None)
  end.
Proof.
  rw (remote_procedure_run _ _ _ _ _ _ _ _ _ _ _ Hcall).
  pose proof (validate_successful_cases reply) as Hv.
  assert (lacks_accepted_reply reply → Validation.validate_successful_accepted_reply reply = None) as Hlacks
    by by intros [xid ->].
  destruct (successful_results reply) as [any|] eqn:Hs.
  - pose proof (validate_success _ _ Hs) as Hok. rw /accept.
    assert (¬ lacks_accepted_reply reply) as Hno by (intros Hl; by rw (Hlacks Hl) in Hok).
    destruct (decide (Rpc.type_url any = Some results_type)) as [Ht|Ht];
      [destruct (unpack (Rpc.value any)) as [r|] eqn:Hu|]; (split; [done|]); (split; [done|]); try clear - Ht Hu;
      split_and!; try done; naive_solver.
  - destruct (Validation.validate_successful_accepted_reply reply) as [c|] eqn:Hc; [|done]. simpl.
    pose proof (validate_failure _ _ Hs Hc) as Hpos%Z.gtb_lt.
    split; [by intros Hl%Hlacks|]. split; [done|]. clear - Hpos.
    split_and!; try done; [split; [done|lia]|..]; naive_solver lia.
Qed.

(** The two NULL procedures crash the client when the server
    does not answer (the call returns NULL) or rejects the call: they follow the
    pointers of the reply before they look at the result of its validation. *)
Theorem null_procedures_crash_without_accepted_reply ctx s reply s'
    (Hnfs : remote_call ctx NFS_RPC_PROGRAM 0 (Rpc.mkAny (Some "") []) s = Some (reply, s'))
    (Hmount : remote_call ctx MOUNT_RPC_PROGRAM 0 (Rpc.mkAny (Some "") []) s = Some (reply, s'))
    (Hreply : reply = None ∨
      ∃ xid rr, reply = Some (Rpc.mkRpcMsg xid Rpc.REPLY (Rpc.BODY_RBODY (Some
                  (Rpc.mkReplyBody Rpc.MSG_DENIED (Rpc.REPLY_RREPLY (Some rr))))))) :
  run (nfs_procedure_0_do_nothing (Some ctx)) s = None ∧
  run (mount_procedure_0_do_nothing (Some ctx)) s = None.
Proof.
  rw (null_procedure_run _ _ _ _ _ _ Hnfs) (null_procedure_run _ _ _ _ _ _ Hmount).
  by destruct Hreply as [->|(xid & rr & ->)].
Qed.
End theorems.
