(* ===== verification/EndToEnd.v ===== *)
(** Client and server together: a call of a client stub travels over a TCP
    connection to the server of [Server] and its reply travels back.

    The two hosts have their own sockets; the network carries what one end of
    the connection has sent to the other end. *)
From S2P Require Import Prelude Messages Posix InodeCache Permissions FileManagement ReadDir.
From S2P Require Import ServerState ProcAttr ProcFile ProcCreate ProcRemove ProcMount RecordMarking Server.
From S2P Require Import Connections RpcClient NfsClient.

(** Bytes that arrive from the network become available to [recv]. *)
Class Arrivals (W : Type) `{StreamSocket W} := {
  arrive : Z → list byte → W → W;
  arrive_incoming fd bs w : incoming fd (arrive fd bs w) = incoming fd w ++ bs;
  arrive_outgoing fd bs w : outgoing fd (arrive fd bs w) = outgoing fd w;
}.

(** * The system *)

(** The server at the other end of the client's connection: its world, the
    socket of the connection, how much of either direction the network has
    carried so far, and whether the thread of the connection still runs. *)
Record remote (OS W : Type) := mkRemote {
  rworld : world OS W; rfd : Z; carried_up : nat; carried_down : nat; serving : bool }.

Arguments mkRemote {OS W} rworld rfd carried_up carried_down serving.
Arguments rworld {OS W} r.
Arguments rfd {OS W} r.
Arguments carried_up {OS W} r.
Arguments carried_down {OS W} r.
Arguments serving {OS W} r.

Definition on_rnet {OS W} (f : W → W) (w : world OS W) : world OS W :=
  mkWorld (srv w) (f (net w)) (next_xid w).

Section system.
Context `{Posix OS} `{Codec} `{Memory}.
Context `{StreamSocket W, !Arrivals W}.

(** The network carries the call to the server, whose thread processes it, and
    carries the answer back. A thread that gave up answers nothing. *)
#[global] Instance server_peer : Peer W (remote OS W) := λ fd n r,
  if serving r then
    let up := drop (carried_up r) (outgoing fd n) in
    let w := on_rnet (arrive (rfd r) up) (rworld r) in
    '(code, w) ← run (process_single_rpc_tcp (length up) (rfd r)) w;
    let down := drop (carried_down r) (outgoing (rfd r) (net w)) in
    Some (arrive fd down n,
          mkRemote w (rfd r) (length (outgoing fd n)) (length (outgoing (rfd r) (net w))) (code <=? 0))
  else Some (n, r).

(** Nothing is under way between the two ends. *)
Definition idle (fd : Z) (n : W) (r : remote OS W) : Prop :=
  serving r = true ∧ incoming fd n = [] ∧ incoming (rfd r) (net (rworld r)) = [] ∧
  carried_up r = length (outgoing fd n) ∧ carried_down r = length (outgoing (rfd r) (net (rworld r))).
End system.

(** * Calls *)

Section calls.
Context `{Posix OS} `{PackedSizeBounds, !CountRange, !PackSmall} `{Memory}.
Context `{LiveSocket W, !Arrivals W}.
Implicit Types (c : client W (remote OS W)) (r : remote OS W) (s : server_state OS).

(** Sending one record over the client's end. *)
Lemma send_call fd bytes (n : W) :
  bytes ≠ [] → small bytes →
  ∃ n' fs, send_rm_record_tcp fd bytes n = Some (0, n') ∧ concat fs = bytes ∧ sendable_fragments fs ∧
    fs ≠ [] ∧ outgoing fd n' = outgoing fd n ++ encode_fragments fs ∧ incoming fd n' = incoming fd n.
Proof.
  intros Hne Hs. destruct (send_rm_record_loop_live (length bytes) fd bytes n)
    as (n' & fs & Hsend & Hcat & Hok & Hnn & Hout & Hin); [done|done|].
  exists n', fs. split_and!; try done. intros ->. by rw -Hcat in Hne.
Qed.

Lemma fragments_le_bytes fs : sendable_fragments fs → (length fs ≤ length (encode_fragments fs))%nat.
Proof.
  intros [_ Hnn]. induction Hnn as [|f fs Hf _ IH]; [done|].
  rw encode_fragments_cons !length_app /=. lia.
Qed.

(** A message that protobuf-c encodes and decodes as it is. *)
Definition travels (m : Rpc.RpcMsg) : Prop :=
  pack_RpcMsg m ≠ [] ∧ unpack_RpcMsg (pack_RpcMsg m) = Some m.

(** The server's side of a call: [n0] is the client's end before the call was
    sent and [n] after it. *)
Lemma peer_answers fd n0 n r xid cb fs b code s' :
  memory_available → idle fd n0 r → is_Some (Rpc.params cb) →
  concat fs ≠ [] → sendable_fragments fs → unpack_RpcMsg (concat fs) = Some (call_msg xid cb) →
  outgoing fd n = outgoing fd n0 ++ encode_fragments fs → incoming fd n = incoming fd n0 →
  answer cb (srv (rworld r)) = Some (b, code, s') →
  ∃ n' r' fs',
    peer_runs fd n r = Some (n', r') ∧ srv (rworld r') = s' ∧
    next_xid (rworld r') = next_xid (rworld r) + 1 ∧
    concat fs' = pack_RpcMsg (reply_msg (next_xid (rworld r)) b) ∧ sendable_fragments fs' ∧
    incoming fd n' = encode_fragments fs' ∧ outgoing fd n' = outgoing fd n ∧
    serving r' = (code <=? 0) ∧ rfd r' = rfd r ∧ incoming (rfd r) (net (rworld r')) = [] ∧
    carried_up r' = length (outgoing fd n) ∧
    carried_down r' = length (outgoing (rfd r) (net (rworld r'))).
Proof.
  intros Hmem (Hserv & Hin & Hrin & Hup & Hdown) Hp Hne Hfs Hdec Hout Hinn Ha.
  rw /peer_runs /server_peer Hserv Hout Hup drop_app_length.
  set (w := on_rnet _ _).
  assert (incoming (rfd r) (net w) = encode_fragments fs ++ []) as Hw.
  { rw /w /= arrive_incoming Hrin /= app_nil_r //. }
  destruct (process_call_answers (length (encode_fragments fs)) (rfd r) (mkWireCall fs xid cb) [] b code s' w)
    as (w' & fs' & Hrun & Hsrv & Hx & Hin' & Hcat & Hfs' & Hout'); [done| |done|done|].
  { split_and!; try done. by apply fragments_le_bytes. }
  assert (outgoing (rfd r) (net w) = outgoing (rfd r) (net (rworld r))) as Hw' by by rw /w /= arrive_outgoing.
  rw Hw' in Hout'. rw Hrun /= {1}Hout' Hdown drop_app_length. eexists _, _, fs'. split; [done|]. simpl.
  split_and!; rw ?arrive_incoming ?arrive_outgoing ?Hinn ?Hin //.
Qed.

(** Sending a call and receiving its reply. *)
Lemma exchange_end_to_end fuel fd xid cb b code s' c :
  memory_available → idle fd (cnet c) (peer c) → is_Some (Rpc.params cb) →
  travels (call_msg xid cb) → travels (reply_msg (next_xid (rworld (peer c))) b) →
  (length (pack_RpcMsg (reply_msg (next_xid (rworld (peer c))) b)) ≤ fuel)%nat →
  answer cb (srv (rworld (peer c))) = Some (b, code, s') →
  ∃ c', exchange_tcp fuel fd (pack_RpcMsg (call_msg xid cb)) c =
          Val (pack_RpcMsg (reply_msg (next_xid (rworld (peer c))) b)) c' ∧
        srv (rworld (peer c')) = s' ∧ cxid c' = cxid c ∧
        next_xid (rworld (peer c')) = next_xid (rworld (peer c)) + 1 ∧
        (code ≤ 0 → idle fd (cnet c') (peer c')).
Proof.
  intros Hmem Hidle Hp [Hne Hdec] [Hrne _] Hfuel Ha.
  destruct (send_call fd (pack_RpcMsg (call_msg xid cb)) (cnet c)) as (n & fs & Hsend & Hcat & Hfs & _ & Hout & Hin);
    [done|apply pack_small|].
  destruct (peer_answers fd (cnet c) n (peer c) xid cb fs b code s')
    as (n' & r' & fs' & Hpeer & Hsrv & Hx & Hcat' & [Hok' Hnn'] & Hin' & Hout' & Hserv & Hfd & Hrin & Hup & Hdown);
    [done|done|done|by rw Hcat|done|by rw Hcat|done|done|done|].
  destruct (receive_rm_record_loop_live fuel fd None [] fs' [] n')
    as (buf & n'' & Hrecv & [Hb1 Hb2] & Hin'' & Hout''); [done| |done| |done|by rw app_nil_r|].
  { intros ->. by rw -Hcat' in Hrne. }
  { etrans; [by apply fragments_count|]. by rw Hcat'. }
  rw /= Hcat' in Hb1 Hb2. destruct (Hb2 Hrne) as [buf' ->]. simpl in Hb1. subst buf'.
  exists (mkClient n'' (cxid c) r'). split.
  { rw /exchange_tcp /mbind /prog_bind /on_cnet Hsend /= /wait_for_peer Hpeer /=.
    by rw /receive_rm_record_tcp Hrecv. }
  split_and!; try done. intros Hcode. rw /idle /= Hfd Hin'' Hout'' Hout' Hserv. split_and!; try done. lia.
Qed.

Lemma invoke_end_to_end fuel ctx fd program version procedure params b code s' c :
  memory_available → idle fd (cnet c) (peer c) →
  transport_connection ctx = Some (TC_TCP_CLIENT (Some (mkTcpClient (Some fd)))) →
  travels (call_msg (wrap32 (cxid c)) (call_body_of ctx program version procedure params)) →
  travels (reply_msg (next_xid (rworld (peer c))) b) →
  (length (pack_RpcMsg (reply_msg (next_xid (rworld (peer c))) b)) ≤ fuel)%nat →
  answer (call_body_of ctx program version procedure params) (srv (rworld (peer c))) = Some (b, code, s') →
  ∃ c', run (invoke_rpc_remote_tcp fuel (Some ctx) program version procedure params) c =
          Some (Some (reply_msg (next_xid (rworld (peer c))) b), c') ∧
        srv (rworld (peer c')) = s' ∧ cxid c' = cxid c + 1 ∧
        next_xid (rworld (peer c')) = next_xid (rworld (peer c)) + 1 ∧
        (code ≤ 0 → idle fd (cnet c') (peer c')).
Proof.
  intros Hmem Hidle Hctx Hcall Hreply Hfuel Ha.
  set (c1 := mkClient (cnet c) (cxid c + 1) (peer c)).
  destruct (exchange_end_to_end fuel fd (wrap32 (cxid c)) (call_body_of ctx program version procedure params) b
    code s' c1) as (c' & Hx & Hsrv & Hxid & Hnx & Hidle'); [done|done|by eexists|done..|].
  exists c'. split_and!; try done.
  rw /run /invoke_rpc_remote_tcp /mbind /prog_bind /= -/c1 /call /execute_rpc_call_tcp.
  rw /mbind /prog_bind /= Hctx /= Hx /=. by destruct Hreply as [_ ->].
Qed.
End calls.

(** * Stubs over the two transports *)

(** [invoke_rpc_remote_quic] of [src/transport/quic/quic_rpc_client.c]. *)
Class QuicCalls (St : Type) := invoke_rpc_remote_quic :
  RpcConnectionContext → Z → Z → Z → Rpc.Any → bool → St → option (option Rpc.RpcMsg * St).

(** The number of fragments a reply may have. *)
Class ReplyFuel := reply_fuel : nat.

#[global] Instance transports `{Codec} `{Socket W} `{Memory} `{Peer W P} `{QuicCalls (client W P), ReplyFuel}
    : Transports (client W P) := {
  rpc_tcp ctx program version procedure params :=
    run (invoke_rpc_remote_tcp reply_fuel (Some ctx) program version procedure params);
  rpc_quic := invoke_rpc_remote_quic }.

Section theorems.
Context `{Posix OS} `{PackedSizeBounds, !CountRange, !PackSmall} `{Memory}.
Context `{LiveSocket W, !Arrivals W} `{QuicCalls (client W (remote OS W)), ReplyFuel}.
Implicit Types (c : client W (remote OS W)) (r : remote OS W) (s : server_state OS) (ctx : RpcConnectionContext).

(** A context connected over TCP. *)
Definition tcp_context ctx (fd : Z) : Prop :=
  transport_protocol ctx = TRANSPORT_PROTOCOL_TCP ∧
  transport_connection ctx = Some (TC_TCP_CLIENT (Some (mkTcpClient (Some fd)))).

(** The call of a stub and the messages of its exchange. *)
Definition stub_call ctx (program procedure : Z) (args_type : string) (bytes : list byte) : Rpc.CallBody :=
  call_body_of ctx program 2 procedure (Rpc.mkAny (Some args_type) bytes).

(** The exchange can take place: call and reply can be encoded, and the reply
    fits the client's fuel. *)
Definition exchangeable c (cb : Rpc.CallBody) (b : Rpc.ReplyBody) : Prop :=
  travels (call_msg (wrap32 (cxid c)) cb) ∧ travels (reply_msg (next_xid (rworld (peer c))) b) ∧
  (length (pack_RpcMsg (reply_msg (next_xid (rworld (peer c))) b)) ≤ reply_fuel)%nat.

Lemma remote_call_end_to_end ctx fd program procedure args_type bytes b code s' c :
  memory_available → idle fd (cnet c) (peer c) → tcp_context ctx fd →
  exchangeable c (stub_call ctx program procedure args_type bytes) b →
  answer (stub_call ctx program procedure args_type bytes) (srv (rworld (peer c))) = Some (b, code, s') →
  ∃ c', remote_call ctx program procedure (Rpc.mkAny (Some args_type) bytes) c =
          Some (Some (reply_msg (next_xid (rworld (peer c))) b), c') ∧
        srv (rworld (peer c')) = s' ∧ (code ≤ 0 → idle fd (cnet c') (peer c')).
Proof.
  intros Hmem Hidle [Hp Hconn] (Hcall & Hreply & Hfuel) Ha.
  destruct (invoke_end_to_end reply_fuel ctx fd program 2 procedure (Rpc.mkAny (Some args_type) bytes) b code s' c)
    as (c' & Hrun & Hsrv & _ & _ & Hidle'); [done..|].
  exists c'. split_and!; [|done|done]. by rw /remote_call Hp.
Qed.

(** A stub called on an idle TCP connection. *)
Lemma stub_run {A R} program procedure args_type (pack : A → list byte) results_type
    (unpack : list byte → option R) ctx cred ver fd args bytes res s' c :
  memory_available → idle fd (cnet c) (peer c) → tcp_context ctx fd →
  ctx_credential ctx = Some cred → ctx_verifier ctx = Some ver →
  rejection (stub_call ctx program procedure args_type (pack args)) = None →
  run (forward_rpc_call_to_program cred ver program 2 procedure
         (Some (Rpc.mkAny (Some args_type) (pack args)))) (srv (rworld (peer c))) =
    Some (success bytes results_type, s') →
  unpack bytes = Some res →
  exchangeable c (stub_call ctx program procedure args_type (pack args)) (accepted (success bytes results_type)) →
  ∃ c', run (remote_procedure program procedure args_type pack results_type unpack (Some ctx) args) c =
          Some ((0, Some res), c') ∧
        srv (rworld (peer c')) = s' ∧ idle fd (cnet c') (peer c').
Proof.
  intros Hmem Hidle Hctx Hcred Hver Hrej Hrun Hres Hmsgs.
  destruct (remote_call_end_to_end ctx fd program procedure args_type (pack args)
    (accepted (success bytes results_type)) 0 s' c) as (c' & Hcall & Hsrv & Hidle'); [done..| |].
  { by rw /answer Hrej /= Hcred Hver /= Hrun. }
  exists c'. split_and!; [|done|by apply Hidle'].
  rw (remote_procedure_run _ _ _ _ _ _ _ _ _ _ _ Hcall) /= /accept /=. by rw decide_True // Hres.
Qed.

(** C5: end to end, a stub called on an idle TCP connection runs
    exactly one procedure on the server, with the stub's arguments and the
    credentials of the context, and returns 0 with the result that the procedure
    encoded; the server is left in the state the procedure left it in, and the
    connection idle again, ready for the next call. *)
Theorem stub_runs_procedure_on_server {A R} program procedure args_type (pack : A → list byte) results_type
    (unpack : list byte → option R) ctx cred ver fd args bytes res s' c
    (Hmem : memory_available) (Hidle : idle fd (cnet c) (peer c)) (Hctx : tcp_context ctx fd)
    (Hcred : ctx_credential ctx = Some cred) (Hver : ctx_verifier ctx = Some ver)
    (Hrej : rejection (stub_call ctx program procedure args_type (pack args)) = None)
    (Hrun : run (forward_rpc_call_to_program cred ver program 2 procedure
                   (Some (Rpc.mkAny (Some args_type) (pack args)))) (srv (rworld (peer c))) =
            Some (success bytes results_type, s'))
    (Hres : unpack bytes = Some res)
    (Hmsgs : exchangeable c (stub_call ctx program procedure args_type (pack args))
               (accepted (success bytes results_type))) :
  ∃ c', run (remote_procedure program procedure args_type pack results_type unpack (Some ctx) args) c =
          Some ((0, Some res), c') ∧
        srv (rworld (peer c')) = s' ∧ idle fd (cnet c') (peer c').
Proof. by apply (stub_run _ _ _ _ _ _ ctx cred ver fd args bytes). Qed.

(** C25: when the server rejects the call of a stub (which is
    always for its credential or verifier, the version being right), the stub
    returns 3 with no result, and nothing has changed on the server. *)
Theorem rejected_stub_changes_nothing {A R} program procedure args_type (pack : A → list byte) results_type
    (unpack : list byte → option R) ctx fd args rr code c
    (Hmem : memory_available) (Hidle : idle fd (cnet c) (peer c)) (Hctx : tcp_context ctx fd)
    (Hrej : rejection (stub_call ctx program procedure args_type (pack args)) = Some (rr, code))
    (Hmsgs : exchangeable c (stub_call ctx program procedure args_type (pack args)) (denied rr)) :
  ∃ c', run (remote_procedure program procedure args_type pack results_type unpack (Some ctx) args) c =
          Some ((3, None), c') ∧
        srv (rworld (peer c')) = srv (rworld (peer c)).
Proof.
  destruct (remote_call_end_to_end ctx fd program procedure args_type (pack args) (denied rr) code
    (srv (rworld (peer c))) c) as (c' & Hcall & Hsrv & _); [done..|by rw /answer Hrej|].
  exists c'. split; [|done]. rw (remote_procedure_run _ _ _ _ _ _ _ _ _ _ _ Hcall) /=.
  revert Hrej. rw /rejection /=. repeat case_match; intros [= <- <-]; done.
Qed.
End theorems.

(** * Contexts *)

Lemma substring_length n m s : (String.length (String.substring n m s) ≤ m)%nat.
Proof.
  revert n m. induction s as [|a s IH]; intros [|n] [|m]; simpl; try lia; try apply IH.
  specialize (IH 0%nat m). lia.
Qed.

(** Every context that the client makes for a call is well
    formed: its connection is of the kind its protocol says, with an open
    socket, so that no reader takes one kind for the other; its credential is
    AUTH_SYS with the effective user and group of the process, a machine name of
    at most 255 characters and at most 32 groups; and a
    server that gets a call made with it as it was sent does not reject it. *)
Theorem created_contexts_are_well_formed `{ClientHost W} `{QuicLibrary W} memory address port protocol
    (w w' : W) ctx
    (Hctx : create_auth_sys_rpc_connection_context memory address port protocol w = Some (Some ctx, w')) :
  connection_matches ctx ∧
  (∃ stamp name gids,
     ctx_credential ctx = Some (Rpc.mkOpaqueAuth Rpc.AUTH_SYS (Rpc.AUTH_BODY_AUTH_SYS (Some
       (Rpc.mkAuthSysParams stamp (Some name) (geteuid w) (getegid w) (Some gids))))) ∧
     (String.length name ≤ MAX_MACHINENAME_LEN)%nat ∧ (length gids ≤ MAX_N_GIDS)%nat) ∧
  (∀ program procedure args_type bytes, rejection (stub_call ctx program procedure args_type bytes) = None).
Proof.
  revert Hctx. rw /create_auth_sys_rpc_connection_context.
  destruct (gethostname _ w) as [name|]; [|done]. destruct (getgroups _ w) as [gids|]; [|done].
  intros Hctx. destruct (create_rpc_connection_context_matches _ _ _ _ _ _ _ _ _ Hctx) as (Hm & Hc & Hv).
  split_and!; [done| |].
  - rw Hc /create_auth_sys_opaque_auth. eexists _, _, _. split; [done|]. split; [|rw length_take; lia].
    destruct (Nat.leb_spec (String.length name) MAX_MACHINENAME_LEN); [done|]. apply substring_length.
  - intros program procedure args_type bytes. by rw /rejection /anonymous /= Hc Hv /=.
Qed.
