(* ===== verification/QuicEndToEnd.v ===== *)
(** Client and server over QUIC: the calls that the stubs make over the client of
    [QuicClient], and a peer that answers each message as the server does, on the
    state that the messages before it have left. That the server over QUIC does so,
    whatever the order in which the pieces of the messages arrive, is shown in
    [QuicServer]. *)
From S2P Require Import Prelude Messages Posix InodeCache Permissions FileManagement ReadDir.
From S2P Require Import ServerState ProcAttr ProcFile ProcCreate ProcRemove ProcMount RecordMarking RecordMarkingQuic.
From S2P Require Import QuicStreams Server Connections QuicClient QuicReplies RpcClient.

(** * The call *)

(** [invoke_rpc_remote_quic] up to [execute_rpc_call_quic], and the tests at the
    beginning of that function: NULL is returned without a context or a connection.
    [xid]: the number that [generate_rpc_xid] gives. *)
Definition quic_call_message (xid : Z) (ctx : RpcConnectionContext) (program_number program_version procedure_number : Z)
    (parameters : Rpc.Any) : Rpc.RpcMsg :=
  call_msg (wrap32 xid) (call_body_of ctx program_number program_version procedure_number parameters).

Definition invoke_rpc_remote_quic `{Codec} {W} (memory : bool * bool) (k : call_ptr) (xid : Z)
    (rpc_connection_context : option RpcConnectionContext) (program_number program_version procedure_number : Z)
    (parameters : Rpc.Any) (use_auxiliary_stream : bool) (q : QuicClient W) : QuicClient W :=
  match rpc_connection_context with
  | None => set_caller k (Returned None) q
  | Some ctx =>
      match transport_connection ctx with
      | Some (TC_QUIC_CLIENT (Some _)) =>
          start_call memory use_auxiliary_stream k
            (quic_call_message xid ctx program_number program_version procedure_number parameters) q
      | _ => set_caller k (Returned None) q
      end
  end.

(** * The system *)

Section system.
Context `{StreamArrivals W} `{Memory} `{Codec, !PackSmall} `{Posix OS}.
Variable conn : Z.

(** The exchange of messages, the server, and what it has answered so far. *)
Record quic_system := mkQuicSystem {
  messages : exchange W;
  server : server_state OS;
  reply_xid : Z;
  answered : list (list byte * list byte) }.

(** A message is answered. *)
Definition serves (message : list byte) (xid : Z) (s : server_state OS) (rep : list byte) (s' : server_state OS) : Prop :=
  ∃ call_xid cb b code,
    unpack_RpcMsg message = Some (Rpc.mkRpcMsg call_xid Rpc.CALL (Rpc.BODY_CBODY (Some cb))) ∧
    answer cb s = Some (b, code, s') ∧ rep = pack_RpcMsg (reply_msg xid b).

Inductive system_step : quic_system → quic_system → Prop :=
  (* a step of the client, or of the network *)
  | system_client y e :
      exchange_step conn (λ _ _, False) (messages y) e →
      system_step y (mkQuicSystem e (server y) (reply_xid y) (answered y))
  (* the server has received a message and answers it *)
  | system_answer y sid fs fs' s' :
      let e := messages y in
      written (conn, sid) (client_net (quic_client e)) = QuicReplies.bytes_at (seen e) sid ++ encode_fragments fs →
      fs ≠ [] → sendable_fragments fs → QuicReplies.bytes_at (to_come e) sid = [] →
      serves (concat fs) (reply_xid y) (server y) (concat fs') s' → fs' ≠ [] → sendable_fragments fs' →
      system_step y
        (mkQuicSystem
           (mkExchange (quic_client e) (<[sid := written (conn, sid) (client_net (quic_client e))]> (seen e))
              (<[sid := encode_fragments fs']> (to_come e)) (asked e))
           s' (reply_xid y + 1) (answered y ++ [(concat fs, concat fs')])).

Definition new_system (main : option (stream_ptr * Z)) (n : W) (s : server_state OS) (xid : Z) : quic_system :=
  mkQuicSystem (new_exchange main n) s xid [].

(** What was answered, one after the other, from one state of the server to
    another. *)
Fixpoint replays (xid : Z) (s : server_state OS) (l : list (list byte * list byte)) (s' : server_state OS) : Prop :=
  match l with
  | [] => s = s'
  | (message, rep) :: l => ∃ s1, serves message xid s rep s1 ∧ replays (xid + 1) s1 l s'
  end.

(** * Lemmas *)

Lemma replays_app xid s l1 l2 s' :
  replays xid s (l1 ++ l2) s' ↔ ∃ s1, replays xid s l1 s1 ∧ replays (xid + Z.of_nat (length l1)) s1 l2 s'.
Proof.
  revert xid s. induction l1 as [|[m r] l1 IH]; intros xid s; cbn [replays app].
  { rw Z.add_0_r. split; [intros Hr; by exists s|by intros (s1 & -> & Hr)]. }
  split.
  - intros (s1 & Hs & (s2 & Ha & Hb)%IH). exists s2. split; [by exists s1|]. by rw length_cons Nat2Z.inj_succ -Z.add_1_l Z.add_assoc.
  - intros (s2 & (s1 & Hs & Ha) & Hb). exists s1. split; [done|]. apply IH. exists s2. split; [done|].
    by rw length_cons Nat2Z.inj_succ -Z.add_1_l Z.add_assoc in Hb.
Qed.

Lemma system_step_answered y y' : system_step y y' → ∃ l, answered y' = answered y ++ l.
Proof. intros []; [exists []; by rw app_nil_r|eauto]. Qed.

Lemma exchange_step_mono (P Q : list byte → list byte → Prop) e e' :
  (∀ m r, P m r → Q m r) → exchange_step conn P e e' → exchange_step conn Q e e'.
Proof. intros HPQ []; [by apply exchange_call|by apply exchange_client|eapply exchange_answer; eauto|by apply exchange_arrive]. Qed.

(** The system is an exchange with a peer that answers what is in the list, and
    the list leads from the first state of the server to the present one. *)
Lemma system_refines main n s0 xid0 y :
  rtc system_step (new_system main n s0 xid0) y →
  rtc (exchange_step conn (λ m r, (m, r) ∈ answered y)) (new_exchange main n) (messages y) ∧
  replays xid0 s0 (answered y) (server y) ∧ reply_xid y = xid0 + Z.of_nat (length (answered y)).
Proof.
  revert y. apply (rtc_ind_r (λ y, rtc (exchange_step conn (λ m r, (m, r) ∈ answered y)) (new_exchange main n) (messages y) ∧
    replays xid0 s0 (answered y) (server y) ∧ reply_xid y = xid0 + Z.of_nat (length (answered y)))).
  { split_and!; [apply rtc_refl|done|simpl; lia]. }
  intros y1 y2 _ Hst (Hx & Hr & Hn). pose proof Hst as [l Hl]%system_step_answered.
  assert (rtc (exchange_step conn (λ m r, (m, r) ∈ answered y2)) (new_exchange main n) (messages y1)) as Hx'.
  { eapply (rtc_congruence id); [|exact Hx]. intros e e'. apply exchange_step_mono. intros m r Hin. rw Hl. set_solver. }
  destruct Hst as [y e He|y sid fs fs' s' e Hw Hfs Hok Hcome Hs Hfs' Hok']; simpl in *.
  - split_and!; [|done|done]. eapply rtc_r; [exact Hx'|]. by eapply exchange_step_mono; [|exact He].
  - split_and!.
    + eapply rtc_r; [exact Hx'|]. apply (exchange_answer conn _ e sid fs fs'); try done. set_solver.
    + apply replays_app. exists (server y). split; [done|]. rw -Hn. exists s'. by split.
    + rw length_app Hn /=. lia.
Qed.

(** What a call has got is the answer to its message. *)
Lemma returned_answered main n s0 xid0 y k reply :
  memory_available → (∀ sid, pending conn sid n = [] ∧ written (conn, sid) n = []) →
  rtc system_step (new_system main n s0 xid0) y → callers (quic_client (messages y)) !! k = Some (Returned reply) →
  ∃ msg rep, asked (messages y) !! k = Some msg ∧ (pack_RpcMsg msg, rep) ∈ answered y ∧ reply = unpack_RpcMsg rep.
Proof.
  intros Hmem Hn Hy Hk. destruct (system_refines main n s0 xid0 y Hy) as (Hx & _ & _).
  pose proof (good_reachable conn _ main n (messages y) Hmem Hn Hx) as Hg.
  exact (proj2 (x_calls _ _ _ _ Hg k) (Returned reply) reply Hk eq_refl).
Qed.

(** * Theorem *)

(** C8: the calls of a QUIC client run on the server: when a call
    with the message of a stub has returned, then, however the calls, the event loop,
    the server and the arrivals interleaved, the server has carried out the call of
    that stub, with its arguments and the credentials of its context, on the state
    that the calls before it had left; the calls behind it went on from the state it
    left; and the caller has the reply of exactly that execution. *)
Theorem quic_stubs_run_on_the_server main n s0 xid0 y k reply xid ctx program version procedure params
    (Hmem : memory_available) (Hn : ∀ sid, pending conn sid n = [] ∧ written (conn, sid) n = [])
    (Hy : rtc system_step (new_system main n s0 xid0) y)
    (Hask : asked (messages y) !! k = Some (quic_call_message xid ctx program version procedure params))
    (Htravels : ∀ m, m = quic_call_message xid ctx program version procedure params → unpack_RpcMsg (pack_RpcMsg m) = Some m)
    (Hret : callers (quic_client (messages y)) !! k = Some (Returned reply)) :
  ∃ before after s1 s2 b code,
    answered y = before ++ (pack_RpcMsg (quic_call_message xid ctx program version procedure params),
                            pack_RpcMsg (reply_msg (xid0 + Z.of_nat (length before)) b)) :: after ∧
    replays xid0 s0 before s1 ∧
    answer (call_body_of ctx program version procedure params) s1 = Some (b, code, s2) ∧
    replays (xid0 + Z.of_nat (length before) + 1) s2 after (server y) ∧
    reply = unpack_RpcMsg (pack_RpcMsg (reply_msg (xid0 + Z.of_nat (length before)) b)).
Proof.
  destruct (system_refines main n s0 xid0 y Hy) as (_ & Hr & _).
  destruct (returned_answered main n s0 xid0 y k reply Hmem Hn Hy Hret) as (msg & rep & Hmsg & Hin & ->).
  rw Hask in Hmsg. injection Hmsg as <-. apply list_elem_of_split in Hin as (before & after & Heq).
  rw Heq in Hr. apply replays_app in Hr as (s1 & Hb & s2 & (cx & cb & b & code & Hu & Ha & ->) & Hafter).
  rw (Htravels _ eq_refl) /quic_call_message in Hu. injection Hu as _ <-.
  exists before, after, s1, s2, b, code. split_and!; try done.
Qed.
End system.
