(* ===== verification/FusePaths.v ===== *)
(** Paths of the FUSE client: the C library functions it takes paths apart
    with, and [src/fuse/path_resolution.c], which looks up a path component by
    component on the server. *)
From Stdlib Require Import Strings.Ascii.
From S2P Require Import Prelude CStrings Messages RecordMarking RpcClient NfsClient.

(** * Error numbers *)

Module Errno.
Definition EPERM : Z := 1.
Definition ENOENT : Z := 2.
Definition EIO : Z := 5.
Definition ENXIO : Z := 6.
Definition EACCES : Z := 13.
Definition EEXIST : Z := 17.
Definition ENODEV : Z := 19.
Definition ENOTDIR : Z := 20.
Definition EISDIR : Z := 21.
Definition EINVAL : Z := 22.
Definition EFBIG : Z := 27.
Definition ENOSPC : Z := 28.
Definition EROFS : Z := 30.
Definition ENAMETOOLONG : Z := 36.
Definition ENOTEMPTY : Z := 39.
Definition ESTALE : Z := 116.
Definition EDQUOT : Z := 122.
End Errno.

(** * Paths as characters *)

Definition slash : Ascii.ascii := "/"%char.
Definition is_slash (c : Ascii.ascii) : bool := Ascii.eqb c slash.

(** The tokens of [strtok_r(path, "/", ..)]: the longest pieces without a
    slash. [word] is the piece being read. *)
Fixpoint tokens (word : list Ascii.ascii) (l : list Ascii.ascii) : list string :=
  let token := match word with [] => [] | _ => [of_chars word] end in
  match l with
  | [] => token
  | c :: l => if is_slash c then token ++ tokens [] l else tokens (word ++ [c]) l
  end.

Definition components (path : string) : list string := tokens [] (chars path).

(** [dirname] and [basename] of libgen.h, on the reversed characters. *)
Definition dirname (path : string) : string :=
  match drop_while is_slash (reverse (chars path)) with
  | [] => if decide (path = "") then "." else "/"
  | l =>
      match drop_while (negb ∘ is_slash) l with
      | [] => "."
      | l => match drop_while is_slash l with [] => "/" | l => of_chars (reverse l) end
      end
  end.

Definition basename (path : string) : string :=
  match drop_while is_slash (reverse (chars path)) with
  | [] => if decide (path = "") then "." else "/"
  | l => of_chars (reverse (take_while (negb ∘ is_slash) l))
  end.

(** [strcmp(directory_path, ".") == 0 ? "/" : directory_path] *)
Definition containing_directory (path : string) : string :=
  if decide (dirname path = ".") then "/" else dirname path.

Example path_parts :
  components "/a//bc/d" = ["a"; "bc"; "d"] ∧ dirname "/a/bc/d" = "/a/bc" ∧ basename "/a/bc/d" = "d" ∧
  dirname "/d" = "/" ∧ basename "/d/" = "d" ∧ containing_directory "d" = "/".
Proof. vm_compute. done. Qed.

(** * Path resolution *)

Section resolution.
Context `{Transports St} `{ClientCodec}.
Import Nfs Errno.

(** A part of a function that leaves with an error number. *)
Definition resolving (A : Type) : Type := prog St Z A.

(** A stub, called by another function. *)
Definition call_stub {R E} (m : stub R (Z * option R)) : prog St E (Z * option R) := attempt (run m).

(** One round of the loop: the handle and the type of a name in a directory. *)
Definition look_up_component (ctx : RpcConnectionContext) (dir : FHandle) (component : string)
    : resolving (FHandle * FType) :=
  '(status, diropres) ← call_stub (nfs_procedure_4_look_up_file_name (Some ctx)
      (mkDirOpArgs (Some dir) (Some (mkFileName (Some component)))));
  return_if (status !=? 0) EIO;;
  diropres ← deref diropres;
  invalid ← deref (Validation.validate_nfs_dir_op_res (Some diropres));
  return_if (invalid >? 0) EIO;;
  stat ← deref (nfs_status diropres);
  return_if (bool_decide (stat = NFSERR_ACCES)) EACCES;;
  return_if (bool_decide (stat ≠ NFS_OK)) ENOENT;;
  diropok ← match body diropres with BODY_OK (Some p) => mret p | _ => fault end;
  attributes ← deref (attributes diropok);
  ftype ← deref (fa_ftype attributes);
  file ← deref (file diropok);
  nfs_filehandle ← deref (nfs_filehandle file);
  mret (mkFHandle (Some nfs_filehandle), ftype).

Fixpoint resolve_components (ctx : RpcConnectionContext) (curr_fhandle : FHandle) (curr_ftype : FType)
    (l : list string) : resolving (FHandle * FType) :=
  match l with
  | [] =>
      nfs_filehandle ← deref (nfs_filehandle curr_fhandle);
      mret (mkFHandle (Some nfs_filehandle), curr_ftype)
  | component :: l =>
      return_if (bool_decide (curr_ftype ≠ NFDIR)) ENOTDIR;;
      '(fhandle, ftype) ← look_up_component ctx curr_fhandle component;
      resolve_components ctx fhandle ftype l
  end.

Definition resolve_absolute_path (rpc_connection_context : option RpcConnectionContext)
    (filesystem_root_fhandle : option FHandle) (path : option string) : resolving (FHandle * FType) :=
  ctx ← orelse rpc_connection_context EINVAL;
  root ← orelse filesystem_root_fhandle EINVAL;
  path ← orelse path EINVAL;
  return_if (negb (String.prefix "/" path)) EINVAL;;
  resolve_components ctx root NFDIR (components path).
End resolution.

(** * Taking paths apart *)

Abbreviation slashes := (Forall (λ c, is_slash c = true)).
Abbreviation no_slash := (Forall (λ c, is_slash c = false)).

Lemma tokens_all_slashes w l : slashes l → tokens w l = tokens w [].
Proof.
  intros Hl. revert w. induction Hl as [|c l Hc _ IH]; intros w; [done|]. rw /= Hc IH /= app_nil_r //.
Qed.

Lemma tokens_app_slashes w l s : slashes s → tokens w (l ++ s) = tokens w l.
Proof.
  intros Hs. revert w. induction l as [|c l IH]; intros w; simpl; [by apply tokens_all_slashes|].
  destruct (is_slash c); by rw IH.
Qed.

Lemma tokens_app_slash w l c l' :
  is_slash c = true → tokens w (l ++ c :: l') = tokens w l ++ tokens [] l'.
Proof.
  intros Hc. revert w. induction l as [|x l IH]; intros w; simpl; [by rw Hc|].
  destruct (is_slash x); [by rw IH app_assoc|by rw IH].
Qed.

Lemma tokens_word w l : no_slash l → w ++ l ≠ [] → tokens w l = [of_chars (w ++ l)].
Proof.
  intros Hl. revert w. induction Hl as [|c l Hc _ IH]; intros w Hne.
  - rw app_nil_r in Hne |- *. by destruct w.
  - rw /= Hc IH; [by destruct w|]. by rw -app_assoc.
Qed.

Lemma no_slash_take l : no_slash (take_while (negb ∘ is_slash) l).
Proof.
  eapply Forall_impl; [apply take_while_Forall|]. intros c Hc. by apply negb_true_iff in Hc.
Qed.

Lemma components_of_chars l : components (of_chars l) = tokens [] l.
Proof. by rw /components chars_of_chars. Qed.

(** What is left of a path when its last component and the slash before it
    are taken away has the remaining components. *)
Lemma components_drop_slashes l :
  tokens [] (reverse (drop_while is_slash l)) = tokens [] (reverse l).
Proof.
  destruct (while_split is_slash l) as (s & l' & -> & Hs & _ & ->).
  rw reverse_app tokens_app_slashes //. by rw Forall_reverse.
Qed.

Lemma drop_while_dot l : of_chars (reverse (drop_while is_slash l)) = "." →
  ∃ s, slashes s ∧ l = s ++ ["."%char].
Proof.
  destruct (while_split is_slash l) as (s & l' & -> & Hs & _ & ->). intros Hdot.
  exists s. split; [done|]. f_equal. apply (f_equal chars) in Hdot. rw chars_of_chars /= in Hdot.
  apply (f_equal reverse) in Hdot. by rw reverse_involutive in Hdot.
Qed.

(** [dirname] and [basename] split the components of a path. A relative path
    whose directory is "." is taken to be in the root directory. *)
Lemma components_split path :
  String.prefix "/" path = true → components path ≠ [] →
  components path = components (containing_directory path) ++ [basename path].
Proof.
  intros Habs Hne. rw /containing_directory /dirname /basename.
  assert (components path = tokens [] (reverse (reverse (chars path)))) as Hc by by rw reverse_involutive.
  destruct (while_split is_slash (reverse (chars path))) as (s & l & Hl & Hs & _ & Hd). rw Hd.
  rw Hl reverse_app tokens_app_slashes in Hc; [by rw Forall_reverse|].
  destruct l as [|c l]; [by rw Hc in Hne|]. pose proof (drop_while_head _ _ _ _ Hd) as Hcs.
  assert (∃ b l', c :: l = b ++ l' ∧ no_slash b ∧ b ≠ [] ∧ take_while (negb ∘ is_slash) (c :: l) = b ∧
            drop_while (negb ∘ is_slash) (c :: l) = l') as (b & l' & Hl' & Hb & Hbne & -> & Hd').
  { exists (take_while (negb ∘ is_slash) (c :: l)), (drop_while (negb ∘ is_slash) (c :: l)).
    split_and!; [by rw take_drop_while|apply no_slash_take| |done|done]. by rw /= Hcs. }
  rw Hd' Hc Hl' reverse_app.
  assert (tokens [] (reverse b) = [of_chars (reverse b)]) as Htok.
  { apply tokens_word; [by rw Forall_reverse|]. intros Hr%(f_equal reverse).
    by rw reverse_involutive in Hr. }
  destruct l' as [|x l']; [by rw /= Htok|].
  pose proof (drop_while_head _ _ _ _ Hd') as Hx. apply negb_false_iff in Hx.
  rw reverse_cons -app_assoc /= tokens_app_slash // Htok Hx. f_equal. rw -components_drop_slashes.
  destruct (drop_while is_slash l') as [|y l3] eqn:Hd3; [done|]. rw -Hd3. case_decide as Hdot.
  - exfalso. apply drop_while_dot in Hdot as (s' & _ & ->).
    rw Hl' in Hl. apply (f_equal reverse) in Hl. rw reverse_involutive !reverse_app reverse_cons reverse_app /= in Hl.
    destruct path as [|z path]; [done|]. simpl in Hl. injection Hl as -> _. done.
  - by rw components_of_chars.
Qed.

(** * What path resolution implements *)

(** A tree of names as the client sees it: the handle and the type of a name
    in a directory, or the status of the failure. It speaks of some names in some
    directories only. *)
Record namespace := mkNamespace {
  entry :> Nfs.NfsFileHandle → string → Nfs.Stat + (Nfs.NfsFileHandle * Nfs.FType);
  nameable : Nfs.NfsFileHandle → string → Prop }.

Definition lookup_error (st : Nfs.Stat) : Z :=
  if decide (st = Nfs.NFSERR_ACCES) then Errno.EACCES else Errno.ENOENT.

(** Walking down a path, name by name. *)
Fixpoint walk (tree : namespace) (h : Nfs.NfsFileHandle) (t : Nfs.FType) (l : list string)
    : Z + (Nfs.NfsFileHandle * Nfs.FType) :=
  match l with
  | [] => inr (h, t)
  | n :: l =>
      if decide (t = Nfs.NFDIR) then
        match tree h n with
        | inl st => inl (lookup_error st)
        | inr (h, t) => walk tree h t l
        end
      else inl Errno.ENOTDIR
  end.

(** The tree speaks of every name that the walk looks up. *)
Fixpoint walkable (tree : namespace) (h : Nfs.NfsFileHandle) (t : Nfs.FType) (l : list string) : Prop :=
  match l with
  | [] => True
  | n :: l =>
      t = Nfs.NFDIR →
      nameable tree h n ∧ match tree h n with inl _ => True | inr (h, t) => walkable tree h t l end
  end.

Section lookup_service.
Context `{Transports St} `{ClientCodec}.

(** A reply to LOOKUP that says what the tree says. *)
Definition tree_reply (answer : Nfs.Stat + (Nfs.NfsFileHandle * Nfs.FType)) (res : Nfs.DirOpRes) : Prop :=
  match answer with
  | inl st => st ≠ Nfs.NFS_OK ∧ res = Nfs.mkRes (Some st) (Nfs.BODY_DEFAULT_CASE (Some tt))
  | inr (h, t) =>
      ∃ a, Validation.validate_nfs_fattr (Some a) = 0 ∧ Nfs.fa_ftype a = Some t ∧
           res = Nfs.ok_res (Nfs.mkDirOpOk (Some (Nfs.mkFHandle (Some h))) (Some a))
  end.

(** What LOOKUP promises to the client: in a state in which [inv] holds it
    answers according to the tree, and [inv] still holds. *)
Class LookupService (ctx : RpcConnectionContext) (inv : St → Prop) (tree : namespace) := lookup_serves h n s :
  inv s → nameable tree h n →
  ∃ res s', run (nfs_procedure_4_look_up_file_name (Some ctx)
              (Nfs.mkDirOpArgs (Some (Nfs.mkFHandle (Some h))) (Some (Nfs.mkFileName (Some n))))) s =
              Some ((0, Some res), s') ∧ tree_reply (tree h n) res ∧ inv s'.

Context `{LookupService ctx inv tree}.

(** The outcome of a resolution. *)
Definition resolved (answer : Z + (Nfs.NfsFileHandle * Nfs.FType)) (s : St) : outcome St Z (Nfs.FHandle * Nfs.FType) :=
  match answer with inl e => Ret e s | inr (h, t) => Val (Nfs.mkFHandle (Some h), t) s end.

Lemma look_up_component_serves h n s :
  inv s → nameable tree h n →
  ∃ s', look_up_component ctx (Nfs.mkFHandle (Some h)) n s =
          resolved (match tree h n with inl st => inl (lookup_error st) | inr x => inr x end) s' ∧ inv s'.
Proof.
  intros Hs Hn. destruct (lookup_serves h n s Hs Hn) as (res & s' & Hrun & Hres & Hs').
  exists s'. split; [|done]. rw /look_up_component.
  rw (bind_val _ _ s (0, Some res) s'); [by rw /call_stub /attempt Hrun|].
  destruct (tree h n) as [st|[h' t]]; simpl in Hres.
  - destruct Hres as [Hst ->]. rw /lookup_error. by destruct st.
  - destruct Hres as (a & Ha & Ht & ->). rw /mbind /prog_bind /= Ha /=. by rw Ht.
Qed.

Lemma resolve_components_walk h t l s :
  inv s → walkable tree h t l →
  ∃ s', resolve_components ctx (Nfs.mkFHandle (Some h)) t l s = resolved (walk tree h t l) s' ∧ inv s'.
Proof.
  revert h t s. induction l as [|n l IH]; intros h t s Hs Hl; [by exists s|].
  cbn [resolve_components walk]. destruct (decide (t = Nfs.NFDIR)) as [->|Ht]; last first.
  { exists s. by rw bool_decide_true. }
  destruct (Hl eq_refl) as [Hn Hrest]. destruct (look_up_component_serves h n s Hs Hn) as (s' & Hc & Hs').
  rw /mbind {1}/prog_bind /= {1}/prog_bind Hc. destruct (tree h n) as [st|[h' t']] eqn:He; [by exists s'|].
  by apply (IH h' t' s' Hs').
Qed.
End lookup_service.

(** * Theorems *)

Section theorems.
Context `{Transports St} `{ClientCodec} `{!LookupService ctx inv tree}.

(** C20: for every server whose LOOKUP answers according to a tree
    of names, for the names that the walk comes to, the resolution of an absolute
    path is the walk down that tree from the handle of the root, one LOOKUP per component: it ends with the handle
    and type of the file, with ENOTDIR where a component on the way is not a
    directory (a symbolic link included, links are not followed), with EACCES
    where the server denies the search and with ENOENT for every other failure;
    and a path that is not absolute is refused with EINVAL before any call. *)
Theorem resolution_walks_the_tree root path (s : St) (Hs : inv s)
    (Hnames : walkable tree root Nfs.NFDIR (components path)) :
  ∃ s', resolve_absolute_path (Some ctx) (Some (Nfs.mkFHandle (Some root))) (Some path) s =
          (if String.prefix "/" path then resolved (walk tree root Nfs.NFDIR (components path)) s'
           else Ret Errno.EINVAL s) ∧ inv s'.
Proof.
  rw /resolve_absolute_path /mbind /prog_bind /=. destruct (String.prefix "/" path); simpl; [|by exists s].
  by apply resolve_components_walk.
Qed.
End theorems.
