(* ===== verification/FuseHandlers.v ===== *)
(** The handlers of the FUSE client: [src/fuse/handlers]. Each handler runs a
    blocking function in a thread of its own and waits for it; the blocking
    function resolves the path, calls one or more procedures and leaves an error
    code for the handler.

    A handler is a computation whose [return]s are error codes. After a status
    other than NFS_OK and NFSERR_ACCES all blocking functions but one release
    the reply and then read the status in it again, which is undefined; those
    reads are faults here. [blocking_read] calls [free] on a variable of its
    caller in the same cases and in all other failures of a READ. *)
From S2P Require Import Prelude Messages Posix InodeCache RecordMarking RpcClient NfsClient FusePaths.

(** * Error codes *)

Definition map_nfs_error (nfs_status : Nfs.Stat) : Z :=
  match nfs_status with
  | Nfs.NFS_OK => 0
  | Nfs.NFSERR_PERM => - Errno.EPERM
  | Nfs.NFSERR_NOENT => - Errno.ENOENT
  | Nfs.NFSERR_IO => - Errno.EIO
  | Nfs.NFSERR_NXIO => Errno.ENXIO
  | Nfs.NFSERR_ACCES => - Errno.EACCES
  | Nfs.NFSERR_EXIST => - Errno.EEXIST
  | Nfs.NFSERR_NODEV => - Errno.ENODEV
  | Nfs.NFSERR_NOTDIR => - Errno.ENOTDIR
  | Nfs.NFSERR_ISDIR => - Errno.EISDIR
  | Nfs.NFSERR_FBIG => - Errno.EFBIG
  | Nfs.NFSERR_NOSPC => - Errno.ENOSPC
  | Nfs.NFSERR_ROFS => - Errno.EROFS
  | Nfs.NFSERR_NAMETOOLONG => - Errno.ENAMETOOLONG
  | Nfs.NFSERR_NOTEMPTY => - Errno.ENOTEMPTY
  | Nfs.NFSERR_DQUOT => - Errno.EDQUOT
  | Nfs.NFSERR_STALE => - Errno.ESTALE
  | Nfs.NFSERR_WFLUSH => - Errno.EIO
  end.

Definition UTIME_NOW : Z := 2 ^ 30 - 1.
Definition UTIME_OMIT : Z := 2 ^ 30 - 2.
Definition O_TRUNC : Z := 512.
Definition READ_BYTES_PER_RPC : Z := 5000.
Definition WRITE_BYTES_PER_RPC : Z := 5000.
Definition READDIR_BYTES_PER_RPC : Z := 500.

Section handlers.
Context `{Transports St} `{ClientCodec}.
(** The globals of [nfs_fuse.c]. *)
Variables (rpc_connection_context : option RpcConnectionContext) (filesystem_root_fhandle : option Nfs.FHandle).
Import Nfs Errno.

(** A part of a blocking function: a [return] is a jump to [signal] with the
    error code set. *)
Definition blocking (A : Type) : Type := prog St Z A.

(** * The steps that the handlers share *)

(** A path to a handle; a failure is the negated error number. *)
Definition resolve_path (path : string) : blocking (FHandle * FType) :=
  λ s, match resolve_absolute_path rpc_connection_context filesystem_root_fhandle (Some path) s with
       | Ret e s => Ret (- e) s
       | o => o
       end.

(** The reply of a procedure. [invalid] is what happens to one that is
    missing, [failed] what happens after a status other than NFS_OK and
    NFSERR_ACCES. *)
Definition reply_or {R} (invalid : blocking R) (m : stub R (Z * option R)) : blocking R :=
  '(status, res) ← call_stub m;
  if status !=? 0 then invalid else deref res.

Definition ok_body {T} (validate : option (Res T) → option Z) (invalid denied : blocking T)
    (failed : Stat → blocking T) (res : Res T) : blocking T :=
  bad ← deref (validate (Some res));
  if bad >? 0 then invalid else
  stat ← deref (nfs_status res);
  if decide (stat = NFSERR_ACCES) then denied
  else if decide (stat = NFS_OK) then
    match body res with BODY_OK (Some p) => mret p | _ => fault end
  else failed stat.

Definition read_after_free {A} (_ : Stat) : blocking A := fault.

Definition results {T} (validate : option (Res T) → option Z) (m : stub (Res T) (Z * option (Res T))) : blocking T :=
  res ← reply_or (return_ (- EIO)) m;
  ok_body validate (return_ (- EIO)) (return_ (- EACCES)) read_after_free res.

(** The same for procedures whose result is only a status. *)
Definition status_only (m : stub Stat (Z * option Stat)) : blocking unit :=
  stat ← reply_or (return_ (- EIO)) m;
  return_if (Validation.validate_nfs_nfs_stat (Some stat) >? 0) (- EIO);;
  if decide (stat = NFSERR_ACCES) then return_ (- EACCES)
  else if decide (stat = NFS_OK) then mret tt
  else read_after_free stat.

(** Run a blocking function in a thread and wait for it. [thread_created]: the
    result of [pthread_create]; [nothing]: what the caller's buffers hold when
    there is no result. *)
Definition in_thread {A} (thread_created : bool) (nothing : A) (m : blocking A) (s : St)
    : option (Z * A * St) :=
  if negb thread_created then Some (- EIO, nothing, s) else
  match m s with
  | Val a s => Some (0, a, s)
  | Ret e s => Some (e, nothing, s)
  | Fault => None
  end.

(** Attributes that leave a file as it is. *)
Definition unset_time : option TimeVal := Some (mkTimeVal UINT64_MAX UINT64_MAX).
Definition unset_sattr : SAttr := mkSAttr UINT32_MAX UINT32_MAX UINT32_MAX UINT64_MAX unset_time unset_time.

Definition name_in (dir : FHandle) (name : string) : DirOpArgs :=
  mkDirOpArgs (Some dir) (Some (mkFileName (Some name))).

(** * Attributes *)

Definition zero_time : timespec := mkTimespec 0 0.
Definition zero_stat : stat := mkStat 0 0 0 0 0 0 0 0 0 0 zero_time zero_time zero_time.

Definition timespec_of (t : TimeVal) : timespec := mkTimespec (to_int64 (seconds t)) (to_int64 (useconds t)).

(** The members of [struct stat] filled in from the reply. *)
Definition stat_of_fattr (a : FAttr) : blocking stat :=
  atime ← deref (fa_atime a);
  mtime ← deref (fa_mtime a);
  ctime ← deref (fa_ctime a);
  mret (mkStat (fa_fsid a) (fa_fileid a) (fa_mode a) (fa_nlink a) (fa_uid a) (fa_gid a) (fa_rdev a)
    (to_int64 (fa_size a)) (to_int64 (fa_blocksize a)) (to_int64 (fa_blocks a))
    (timespec_of atime) (timespec_of mtime) (timespec_of ctime)).

Definition blocking_getattr (path : string) : blocking stat :=
  '(file_fhandle, _) ← resolve_path path;
  attributes ← results Validation.validate_nfs_attr_stat
    (nfs_procedure_1_get_file_attributes rpc_connection_context file_fhandle);
  stat_of_fattr attributes.

Definition nfs_getattr (thread_created : bool) (path : string) : St → option (Z * stat * St) :=
  in_thread thread_created zero_stat (blocking_getattr path).

(** SETATTR of one file. *)
Definition set_attributes (file_fhandle : FHandle) (sattr : SAttr) : blocking unit :=
  _ ← results Validation.validate_nfs_attr_stat
        (nfs_procedure_2_set_file_attributes rpc_connection_context
           (mkSAttrArgs (Some file_fhandle) (Some sattr)));
  mret tt.

(** A time of [utimens] as it is sent: omitted when either member says so. *)
Definition utimens_time (now t : timespec) : TimeVal :=
  if (tv_sec t =? UTIME_OMIT) || (tv_nsec t =? UTIME_OMIT) then mkTimeVal UINT64_MAX UINT64_MAX
  else if tv_nsec t =? UTIME_NOW then mkTimeVal (wrap64 (tv_sec now)) (wrap64 (Z.quot (tv_nsec now) 1000))
  else mkTimeVal (wrap64 (tv_sec t)) (wrap64 (Z.quot (tv_nsec t) 1000)).

(** [now1] and [now2]: what [clock_gettime] says for the two times. *)
Definition blocking_utimens (now1 now2 : timespec) (path : string) (atime mtime : timespec) : blocking unit :=
  '(file_fhandle, _) ← resolve_path path;
  set_attributes file_fhandle (mkSAttr UINT32_MAX UINT32_MAX UINT32_MAX UINT64_MAX
    (Some (utimens_time now1 atime)) (Some (utimens_time now2 mtime))).

Definition nfs_utimens (thread_created : bool) (now1 now2 : timespec) (path : string) (atime mtime : timespec)
    : St → option (Z * unit * St) :=
  in_thread thread_created tt (blocking_utimens now1 now2 path atime mtime).

(** A path that cannot be resolved is ENOENT here, whatever the reason. *)
Definition blocking_truncate (path : string) (new_file_size : Z) : blocking unit :=
  '(file_fhandle, _) ← (λ s, match resolve_path path s with Ret _ s => Ret (- ENOENT) s | o => o end);
  set_attributes file_fhandle
    (mkSAttr UINT32_MAX UINT32_MAX UINT32_MAX (wrap64 new_file_size) unset_time unset_time).

Definition nfs_truncate (thread_created : bool) (path : string) (size : Z) : St → option (Z * unit * St) :=
  in_thread thread_created tt (blocking_truncate path size).

Definition blocking_open (path : string) (flags : Z) : blocking unit :=
  '(file_fhandle, file_type) ← resolve_path path;
  return_if (bool_decide (file_type ≠ NFREG)) (- EISDIR);;
  if Z.land flags O_TRUNC !=? 0 then
    set_attributes file_fhandle (mkSAttr UINT32_MAX UINT32_MAX UINT32_MAX 0 unset_time unset_time)
  else mret tt.

Definition nfs_open (thread_created : bool) (path : string) (flags : Z) : St → option (Z * unit * St) :=
  in_thread thread_created tt (blocking_open path flags).

(** * Names *)

(** The user and group of an AUTH_SYS credential. *)
Definition credential_ids : blocking (Z * Z) :=
  ctx ← deref rpc_connection_context;
  credential ← deref (ctx_credential ctx);
  match Rpc.body credential with
  | Rpc.AUTH_BODY_AUTH_SYS (Some a) => mret (Rpc.uid a, Rpc.gid a)
  | _ => fault
  end.

(** The arguments of CREATE and MKDIR: the mode, and the client as owner. *)
Definition creation (dir : FHandle) (name : string) (mode : Z) : blocking CreateArgs :=
  '(uid, gid) ← credential_ids;
  mret (mkCreateArgs (Some (name_in dir name))
    (Some (mkSAttr mode uid gid UINT64_MAX unset_time unset_time))).

Definition blocking_mknod (containing_directory_path new_file_name : string) (mode : Z) : blocking unit :=
  '(dir, _) ← resolve_path containing_directory_path;
  createargs ← creation dir new_file_name mode;
  _ ← results Validation.validate_nfs_dir_op_res
        (nfs_procedure_9_create_file rpc_connection_context createargs);
  mret tt.

Definition nfs_mknod (thread_created : bool) (path : string) (mode : Z) : St → option (Z * unit * St) :=
  in_thread thread_created tt (blocking_mknod (containing_directory path) (basename path) mode).

Definition blocking_mkdir (containing_directory_path new_directory_name : string) (mode : Z) : blocking unit :=
  '(dir, _) ← resolve_path containing_directory_path;
  createargs ← creation dir new_directory_name mode;
  _ ← results Validation.validate_nfs_dir_op_res
        (nfs_procedure_14_create_directory rpc_connection_context createargs);
  mret tt.

Definition nfs_mkdir (thread_created : bool) (path : string) (mode : Z) : St → option (Z * unit * St) :=
  in_thread thread_created tt (blocking_mkdir (containing_directory path) (basename path) mode).

Definition blocking_unlink (containing_directory_path file_name : string) : blocking unit :=
  '(dir, _) ← resolve_path containing_directory_path;
  status_only (nfs_procedure_10_remove_file rpc_connection_context (name_in dir file_name)).

Definition nfs_unlink (thread_created : bool) (path : string) : St → option (Z * unit * St) :=
  in_thread thread_created tt (blocking_unlink (containing_directory path) (basename path)).

Definition blocking_rmdir (containing_directory_path directory_name : string) : blocking unit :=
  '(dir, _) ← resolve_path containing_directory_path;
  status_only (nfs_procedure_15_remove_directory rpc_connection_context (name_in dir directory_name)).

Definition nfs_rmdir (thread_created : bool) (path : string) : St → option (Z * unit * St) :=
  in_thread thread_created tt (blocking_rmdir (containing_directory path) (basename path)).

Definition blocking_rename (old_directory old_name new_directory new_name : string) : blocking unit :=
  '(old_dir, _) ← resolve_path old_directory;
  '(new_dir, _) ← resolve_path new_directory;
  status_only (nfs_procedure_11_rename_file rpc_connection_context
    (mkRenameArgs (Some (name_in old_dir old_name)) (Some (name_in new_dir new_name)))).

Definition nfs_rename (thread_created : bool) (from to : string) : St → option (Z * unit * St) :=
  in_thread thread_created tt
    (blocking_rename (containing_directory from) (basename from) (containing_directory to) (basename to)).

Definition blocking_link (target_path containing_directory_path link_name : string) : blocking unit :=
  '(dir, _) ← resolve_path containing_directory_path;
  '(target, _) ← resolve_path target_path;
  status_only (nfs_procedure_12_create_link_to_file rpc_connection_context
    (mkLinkArgs (Some target) (Some (name_in dir link_name)))).

Definition nfs_link (thread_created : bool) (target_path link_path : string) : St → option (Z * unit * St) :=
  in_thread thread_created tt
    (blocking_link target_path (containing_directory link_path) (basename link_path)).

Definition blocking_symlink (target_path containing_directory_path symlink_name : string) : blocking unit :=
  '(dir, _) ← resolve_path containing_directory_path;
  status_only (nfs_procedure_13_create_symbolic_link rpc_connection_context
    (mkSymLinkArgs (Some (name_in dir symlink_name)) (Some (mkPath (Some target_path))) (Some unset_sattr))).

Definition nfs_symlink (thread_created : bool) (target_path link_path : string) : St → option (Z * unit * St) :=
  in_thread thread_created tt
    (blocking_symlink target_path (containing_directory link_path) (basename link_path)).

(** The caller's buffer gets at most [size - 1] characters and a terminator. *)
Definition blocking_readlink (path : string) (max_bytes_to_read : Z) : blocking string :=
  '(file_fhandle, _) ← resolve_path path;
  target ← results Validation.validate_nfs_read_link_res
    (nfs_procedure_5_read_from_symbolic_link rpc_connection_context file_fhandle);
  target ← deref (Nfs.path target);
  if max_bytes_to_read <? 1 then fault
  else mret (String.substring 0 (Z.to_nat (max_bytes_to_read - 1)) target).

Definition nfs_readlink (thread_created : bool) (path : string) (size : Z) : St → option (Z * string * St) :=
  in_thread thread_created "" (blocking_readlink path size).

(** * Data *)

(** One WRITE of the loop: the bytes from [bytes_written] on, at most 5000 of
    them. The offset of the call has 32 bits. *)
Definition write_some (file_fhandle : FHandle) (write_buffer : list byte) (offset bytes_written : Z) : blocking Z :=
  let bytes_left_to_write := Z.of_nat (length write_buffer) - bytes_written in
  let n := if bytes_left_to_write <? WRITE_BYTES_PER_RPC then bytes_left_to_write else WRITE_BYTES_PER_RPC in
  let chunk := take (Z.to_nat n) (drop (Z.to_nat bytes_written) write_buffer) in
  _ ← results Validation.validate_nfs_attr_stat
        (nfs_procedure_8_write_to_file rpc_connection_context
           (mkWriteArgs (Some file_fhandle) 0 (wrap32 (wrap64 (offset + bytes_written))) 0
              (mkBinaryData n (Some chunk))));
  mret n.

Fixpoint write_loop (fuel : nat) (file_fhandle : FHandle) (write_buffer : list byte) (offset bytes_written : Z)
    : blocking Z :=
  if bytes_written <? Z.of_nat (length write_buffer) then
    match fuel with
    | O => fault
    | S fuel =>
        n ← write_some file_fhandle write_buffer offset bytes_written;
        write_loop fuel file_fhandle write_buffer offset (bytes_written + n)
    end
  else mret bytes_written.

(** Every round writes at least one byte. *)
Definition blocking_write (path : string) (write_buffer : list byte) (offset : Z) : blocking Z :=
  '(file_fhandle, _) ← resolve_path path;
  write_loop (length write_buffer) file_fhandle write_buffer offset 0.

(** The number of bytes written, or the error code. *)
Definition nfs_write (thread_created : bool) (path : string) (buffer : list byte) (offset : Z) (s : St)
    : option (Z * St) :=
  '(e, n, s) ← in_thread thread_created 0 (blocking_write path buffer offset) s;
  Some (if e !=? 0 then e else to_int32 n, s).

(** One READ of the loop: the bytes to store and the size of the file. Every
    failure is a fault: the structure of the caller is passed to [free]. *)
Definition read_some (file_fhandle : FHandle) (bytes_to_read offset bytes_read : Z) : blocking (list byte * Z) :=
  let bytes_left_to_read := bytes_to_read - bytes_read in
  let count := if bytes_left_to_read <? READ_BYTES_PER_RPC then bytes_left_to_read else READ_BYTES_PER_RPC in
  readres ← reply_or fault
    (nfs_procedure_6_read_from_file rpc_connection_context
       (mkReadArgs (Some file_fhandle) (wrap32 (wrap64 (offset + bytes_read))) (wrap32 count) 0));
  readresbody ← ok_body Validation.validate_nfs_read_res fault fault read_after_free readres;
  let nfsdata := rr_nfsdata readresbody in
  let bytes_to_save := if len nfsdata <=? bytes_left_to_read then len nfsdata else bytes_left_to_read in
  let saved := take (Z.to_nat bytes_to_save) (default [] (data nfsdata)) in
  attributes ← deref (rr_attributes readresbody);
  if Z.of_nat (length saved) =? bytes_to_save then mret (saved, fa_size attributes) else fault.

(** The loop; [saved] is what the caller's buffer holds. A round that gets no
    data before the end of the file is repeated. *)
Fixpoint read_loop (fuel : nat) (file_fhandle : FHandle) (bytes_to_read offset : Z) (saved : list byte)
    : blocking (list byte) :=
  match fuel with
  | O => fault
  | S fuel =>
      '(some, file_size) ← read_some file_fhandle bytes_to_read offset (Z.of_nat (length saved));
      let saved := saved ++ some in
      let bytes_read := Z.of_nat (length saved) in
      if (bytes_read <? bytes_to_read) && (wrap64 (offset + bytes_read) <? file_size)
      then read_loop fuel file_fhandle bytes_to_read offset saved
      else mret saved
  end.

Definition blocking_read (fuel : nat) (path : string) (bytes_to_read offset : Z) : blocking (list byte) :=
  '(file_fhandle, _) ← resolve_path path;
  read_loop fuel file_fhandle bytes_to_read offset [].

(** The number of bytes read or the error code, and the caller's buffer. *)
Definition nfs_read (fuel : nat) (thread_created : bool) (path : string) (size offset : Z) (s : St)
    : option (Z * list byte * St) :=
  '(e, saved, s) ← in_thread thread_created [] (blocking_read fuel path size offset) s;
  Some (if e !=? 0 then e else to_int32 (Z.of_nat (length saved)), saved, s).

(** * Directories *)

(** The names of a page and the cookie of its last entry. *)
Fixpoint collect (l : list DirectoryEntry) (names : list string) (cookie : Z) : blocking (list string * Z) :=
  match l with
  | [] => mret (names, cookie)
  | e :: l =>
      name ← deref (de_name e);
      name ← deref (filename name);
      c ← deref (de_cookie e);
      collect l (names ++ [name]) (value c)
  end.

(** The loop over pages: the one function that reads the status before it
    releases the reply. *)
Fixpoint readdir_loop (fuel : nat) (file_fhandle : FHandle) (names : list string) (offset_cookie : Z)
    : blocking (list string) :=
  match fuel with
  | O => fault
  | S fuel =>
      readdirres ← reply_or (return_ (- EIO))
        (nfs_procedure_16_read_from_directory rpc_connection_context
           (mkReadDirArgs (Some file_fhandle) (Some (mkNfsCookie offset_cookie)) READDIR_BYTES_PER_RPC));
      readdirok ← ok_body Validation.validate_nfs_read_dir_res (return_ (- EIO)) (return_ (- EACCES))
        (λ stat, return_ (map_nfs_error stat)) readdirres;
      '(names, offset_cookie) ← collect (entries readdirok) names offset_cookie;
      if eof readdirok !=? 0 then mret names else readdir_loop fuel file_fhandle names offset_cookie
  end.

(** The names are passed to [filler] in order. *)
Definition blocking_readdir (fuel : nat) (path : string) : blocking (list string) :=
  '(file_fhandle, _) ← resolve_path path;
  readdir_loop fuel file_fhandle [] 0.

Definition nfs_readdir (fuel : nat) (thread_created : bool) (path : string) : St → option (Z * list string * St) :=
  in_thread thread_created [] (blocking_readdir fuel path).
End handlers.

(** * Offsets *)

Section offsets.
Context `{Transports St} `{ClientCodec}.

Lemma wrap32_wrap64_add_32 z k : wrap32 (wrap64 (z + k * 2 ^ 32)) = wrap32 (wrap64 z).
Proof.
  rw /wrap32 /wrap64 !Z.mod_mod_divide; try (exists (2 ^ 32); lia). apply Z.mod_add. lia.
Qed.

Lemma write_loop_offset c (fh : Nfs.FHandle) buffer off k fuel n (s : St) :
  write_loop c fuel fh buffer (off + k * 2 ^ 32) n s = write_loop c fuel fh buffer off n s.
Proof.
  revert n s. induction fuel as [|fuel IH]; intros n s; [done|]. cbn [write_loop].
  assert (write_some c fh buffer (off + k * 2 ^ 32) n = write_some c fh buffer off n) as ->.
  { rw /write_some (_ : off + k * 2 ^ 32 + n = off + n + k * 2 ^ 32) ?wrap32_wrap64_add_32 //. lia. }
  destruct (_ <? _); [|done]. rw /mbind /prog_bind.
  by destruct (write_some c fh buffer off n s) as [m s'| |]; [apply IH|..].
Qed.

(** Offsets of WRITE have 32 bits and the FUSE client does not
    look at what it cuts off: writing at an offset of 4 GiB or more is writing
    at the offset modulo 4 GiB, and the start of the file is overwritten while
    the caller is told of success. *)
Theorem writes_beyond_4GiB_wrap c filesystem_root thread_created path buffer offset k (s : St) :
  nfs_write c filesystem_root thread_created path buffer (offset + k * 2 ^ 32) s =
  nfs_write c filesystem_root thread_created path buffer offset s.
Proof.
  rw /nfs_write /in_thread /blocking_write. destruct thread_created; [|done]. simpl.
  rw /mbind /prog_bind. destruct (resolve_path c filesystem_root path s) as [[fh t] s'| |]; [|done..].
  by rw write_loop_offset.
Qed.
End offsets.

(** * Mounting *)

Section mounting.
Context `{Transports St} `{ClientCodec}.
(** [create_auth_sys_rpc_connection_context] and [free_rpc_connection_context]
    on the state of the client. *)
Variables (create : St → option (option RpcConnectionContext * St))
          (release : RpcConnectionContext → St → option St).

(** After a failure the context is released and the code is 1. *)
Definition release_and_fail {A} (ctx : RpcConnectionContext) : prog St Z A :=
  λ s, match release ctx s with Some s => Ret 1 s | None => Fault end.

(** The two globals of a client that is mounted. [memory]: whether the two
    allocations for the root's handle succeed. *)
Definition mount_remote_filesystem (memory : bool * bool) (remote_absolute_path : string)
    : prog St Z (RpcConnectionContext * Nfs.FHandle) :=
  ctx ← attempt create;
  ctx ← orelse ctx 1;
  '(status, fhstatus) ← call_stub (mount_procedure_1_add_mount_entry (Some ctx)
                          (Mount.mkDirPath (Some remote_absolute_path)));
  if status !=? 0 then release_and_fail ctx else
  if Validation.validate_mount_fh_status fhstatus >? 0 then release_and_fail ctx else
  fhstatus ← deref fhstatus;
  mnt_status ← deref (Mount.mnt_status fhstatus);
  if decide (mnt_status ≠ Mount.MNT_OK) then release_and_fail ctx else
  if negb memory.1 then release_and_fail ctx else
  directory ← match Mount.fhstatus_body fhstatus with
              | Mount.FHSTATUS_BODY_DIRECTORY p => deref p
              | _ => fault
              end;
  nfs_filehandle ← deref (Nfs.nfs_filehandle directory);
  if negb memory.2 then release_and_fail ctx else
  mret (ctx, Nfs.mkFHandle (Some (deep_copy_nfs_filehandle nfs_filehandle))).
End mounting.
