(* ===== verification/FuseData.v ===== *)
(** What the loops of the FUSE client's handlers achieve: reading and writing
    files in pieces, and listing directories page by page. The theorems hold for
    every server that keeps the promises stated by the classes [LookupService]
    (in [FusePaths]), [FileService] and [DirectoryService]. *)
From S2P Require Import Prelude Messages Posix FileManagement RecordMarking RpcClient NfsClient.
From S2P Require Import FusePaths FuseHandlers.

Import Nfs.

(** * Lemmas on data *)

Lemma splice_cons_length off data c : length (splice off data c) = Nat.max (length c) (off + length data).
Proof.
  rw /splice !length_app length_replicate length_take length_drop. lia.
Qed.

(** Two pieces written one behind the other are one piece. *)
Lemma splice_app off d1 d2 c :
  splice (off + length d1) d2 (splice off d1 c) = splice off (d1 ++ d2) c.
Proof.
  rw /splice. set (pre := take off c ++ replicate (off - length c) x00).
  assert (length pre = off) as Hpre by (rw /pre length_app length_replicate length_take; lia).
  set (rest := drop (off + length d1) c).
  assert (take off c ++ replicate (off - length c) x00 ++ d1 ++ rest = (pre ++ d1) ++ rest) as ->
    by by rw /pre -!app_assoc.
  assert (length (pre ++ d1) = off + length d1)%nat as Hl by by rw length_app Hpre.
  rw -Hl take_app_length (_ : length (pre ++ d1) - length ((pre ++ d1) ++ rest) = 0)%nat; [rw (length_app (pre ++ d1)); lia|].
  rw -drop_drop drop_app_length /rest drop_drop /= /pre length_app -!app_assoc Nat.add_assoc //.
Qed.

(** * The steps of the handlers *)

Section steps.
Context `{Transports St} `{ClientCodec}.
Implicit Types (s : St).

Lemma reply_or_val {R} (invalid : blocking R) m r s s' :
  run m s = Some ((0, Some r), s') → reply_or invalid m s = Val r s'.
Proof.
  intros Hrun. rw /reply_or (bind_val _ _ s (0, Some r) s'); [by rw /call_stub /attempt Hrun|]. done.
Qed.

Lemma ok_body_val {T} (validate : option (Res T) → option Z) (invalid denied : blocking T) failed p s :
  validate (Some (ok_res p)) = Some 0 → ok_body validate invalid denied failed (ok_res p) s = Val p s.
Proof. intros Hv. by rw /ok_body /mbind /prog_bind Hv. Qed.

Lemma results_val {T} (validate : option (Res T) → option Z) m p s s' :
  run m s = Some ((0, Some (ok_res p)), s') → validate (Some (ok_res p)) = Some 0 →
  results validate m s = Val p s'.
Proof.
  intros Hrun Hv. rw /results. run_step (reply_or_val (return_ (- Errno.EIO)) m _ s s' Hrun).
  by apply ok_body_val.
Qed.

(** A path that the walk leads to a file. *)
Lemma resolve_val `{!LookupService ctx inv tree} root path h t s :
  inv s → String.prefix "/" path = true → walkable tree root NFDIR (components path) →
  walk tree root NFDIR (components path) = inr (h, t) →
  ∃ s', resolve_path (Some ctx) (Some (mkFHandle (Some root))) path s = Val (mkFHandle (Some h), t) s' ∧ inv s'.
Proof.
  intros Hs Habs Hnames Hw.
  destruct (resolve_components_walk root NFDIR (components path) s Hs Hnames) as (s' & Hr & Hs').
  exists s'. split; [|done]. rw Hw in Hr.
  by rw /resolve_path /resolve_absolute_path /mbind /prog_bind /= Habs /= Hr.
Qed.
End steps.

(** * Files *)

Section files.
Context `{Transports St} `{ClientCodec}.

(** The bytes of a file in a range, up to its end. *)
Definition bytes_at (off size : Z) (c : list byte) : list byte := take (Z.to_nat size) (drop (Z.to_nat off) c).

(** The reply to a READ. *)
Definition read_ok (a : FAttr) (data : list byte) : ReadRes :=
  ok_res (mkReadResBody (Some a)
    (mkBinaryData (Z.of_nat (length data)) (match data with [] => None | _ => Some data end))).

(** What READ and WRITE promise of one file: [inv c] holds while the file has
    the content [c]; READ returns the bytes asked for and the size, WRITE puts
    the data where it is told to. Both may refuse more than 5000 bytes, and
    offsets have 32 bits. *)
Class FileService (ctx : RpcConnectionContext) (h : NfsFileHandle) (inv : list byte → St → Prop) := {
  read_serves off count c s :
    inv c s → 0 ≤ off < 2 ^ 32 → 0 ≤ count ≤ 5000 →
    ∃ a s', run (nfs_procedure_6_read_from_file (Some ctx)
                   (mkReadArgs (Some (mkFHandle (Some h))) off count 0)) s =
              Some ((0, Some (read_ok a (bytes_at off count c))), s') ∧
            Validation.validate_nfs_fattr (Some a) = 0 ∧ fa_size a = Z.of_nat (length c) ∧ inv c s';
  write_serves off data c s :
    inv c s → 0 ≤ off < 2 ^ 32 → data ≠ [] → Z.of_nat (length data) ≤ 5000 →
    ∃ a s', run (nfs_procedure_8_write_to_file (Some ctx)
                   (mkWriteArgs (Some (mkFHandle (Some h))) 0 off 0
                      (mkBinaryData (Z.of_nat (length data)) (Some data)))) s =
              Some ((0, Some (ok_res a)), s') ∧
            Validation.validate_nfs_fattr (Some a) = 0 ∧ inv (splice (Z.to_nat off) data c) s' }.

Context `{!FileService ctx h inv}.
Implicit Types (s : St) (c buf : list byte).

Lemma wrap_offset z : 0 ≤ z < 2 ^ 32 → wrap32 (wrap64 z) = z.
Proof. intros Hz. rw wrap64_small; [rw /u64; lia|]. by apply wrap32_small. Qed.

Lemma write_some_val buf off done_ c s :
  inv c s → 0 ≤ off → 0 ≤ done_ < Z.of_nat (length buf) → off + Z.of_nat (length buf) ≤ 2 ^ 32 →
  ∃ n s', write_some (Some ctx) (mkFHandle (Some h)) buf off done_ s = Val n s' ∧
    0 < n ≤ Z.of_nat (length buf) - done_ ∧
    inv (splice (Z.to_nat (off + done_)) (take (Z.to_nat n) (drop (Z.to_nat done_) buf)) c) s'.
Proof.
  intros Hs Hoff Hd Hmax. rw /write_some.
  set (left := Z.of_nat (length buf) - done_).
  set (n := if left <? WRITE_BYTES_PER_RPC then left else WRITE_BYTES_PER_RPC).
  assert (0 < n ≤ left ∧ n ≤ 5000) as [Hn Hn5].
  { rw /n /WRITE_BYTES_PER_RPC. destruct (Z.ltb_spec left 5000) as [Hlt|Hlt]; rw /left in Hlt |- *; lia. }
  set (chunk := take _ (drop _ buf)).
  assert (Z.of_nat (length chunk) = n) as Hlen by (rw /chunk length_take length_drop; lia).
  destruct (write_serves (off + done_) chunk c s Hs) as (a & s' & Hrun & Ha & Hs'); [lia| |lia|].
  { intros Hnil. rw Hnil /= in Hlen. lia. }
  exists n, s'. split_and!; [|lia|lia|done].
  rw wrap_offset; [lia|]. rw -{1}Hlen. rw Hlen in Hrun |- *.
  run_step (results_val Validation.validate_nfs_attr_stat _ _ _ _ Hrun
    (Messages.validate_res_ok _ _ (f_equal Some Ha))). done.
Qed.

(** The loop writes what is left of the buffer. *)
Lemma write_loop_val fuel buf off done_ c s :
  inv c s → 0 ≤ off → 0 ≤ done_ < Z.of_nat (length buf) → off + Z.of_nat (length buf) ≤ 2 ^ 32 →
  Z.of_nat (length buf) - done_ ≤ Z.of_nat fuel →
  ∃ s', write_loop (Some ctx) fuel (mkFHandle (Some h)) buf off done_ s = Val (Z.of_nat (length buf)) s' ∧
        inv (splice (Z.to_nat (off + done_)) (drop (Z.to_nat done_) buf) c) s'.
Proof.
  revert done_ c s. induction fuel as [|fuel IH]; intros done_ c s Hs Hoff Hd Hmax Hf; [lia|].
  destruct (write_some_val buf off done_ c s Hs Hoff Hd Hmax) as (n & s1 & Hw & Hn & Hs1).
  cbn [write_loop]. rw (proj2 (Z.ltb_lt done_ _)); [lia|]. run_step Hw.
  set (chunk := take (Z.to_nat n) (drop (Z.to_nat done_) buf)) in Hs1.
  assert (length chunk = Z.to_nat n) as Hchunk by (rw /chunk length_take length_drop; lia).
  assert (drop (Z.to_nat done_) buf = chunk ++ drop (Z.to_nat (done_ + n)) buf) as Hsplit.
  { rw /chunk Z2Nat.inj_add; [lia..|]. rw -drop_drop take_drop //. }
  destruct (decide (done_ + n = Z.of_nat (length buf))) as [Heq|Hne].
  - exists s1. rw Heq. split; [destruct fuel; by rw /= Z.ltb_irrefl|].
    rw Hsplit drop_ge ?app_nil_r //. lia.
  - destruct (IH (done_ + n) _ s1 Hs1 Hoff) as (s2 & Hl & Hs2); [lia..|].
    exists s2. split; [done|]. rw Hsplit. rw -splice_app Hchunk.
    rw (_ : Z.to_nat (off + done_) + Z.to_nat n = Z.to_nat (off + (done_ + n)))%nat //. lia.
Qed.

(** One READ gets the next bytes of the file. *)
Lemma read_some_val size off got c s :
  inv c s → 0 ≤ off → 0 ≤ got → got ≤ size → off + got < 2 ^ 32 →
  ∃ s', read_some (Some ctx) (mkFHandle (Some h)) size off got s =
          Val (take (Z.to_nat (Z.min 5000 (size - got))) (drop (Z.to_nat (off + got)) c), Z.of_nat (length c)) s' ∧
        inv c s'.
Proof.
  intros Hs Hoff Hgot Hsize Hmax. rw /read_some. set (left := size - got).
  assert ((if left <? READ_BYTES_PER_RPC then left else READ_BYTES_PER_RPC) = Z.min 5000 left) as ->.
  { rw /READ_BYTES_PER_RPC. destruct (Z.ltb_spec left 5000); lia. }
  set (count := Z.min 5000 left).
  assert (0 ≤ count ≤ 5000) as Hcount by (rw /count /left; lia).
  destruct (read_serves (off + got) count c s Hs) as (a & s' & Hrun & Ha & Hsz & Hs'); [lia|done|].
  exists s'. split; [|done]. rw wrap_offset; [lia|]. rw (wrap32_small count); [rw /u32; lia|].
  set (data := take _ (drop _ c)) in Hrun |- *.
  assert (Z.of_nat (length data) ≤ left) as Hdata by (rw /data length_take /count; lia).
  run_step (reply_or_val fault _ _ _ _ Hrun). rw /read_ok.
  rw (bind_val _ _ s' (mkReadResBody (Some a) (mkBinaryData (Z.of_nat (length data))
    (match data with [] => None | _ => Some data end))) s').
  { apply ok_body_val, Messages.validate_res_ok. rw /Validation.validate_read_res_body.
    cbn [rr_nfsdata rr_attributes len Nfs.data]. rw Ha. by destruct data. }
  cbn [rr_nfsdata rr_attributes len Nfs.data]. rw (proj2 (Z.leb_le _ _) Hdata) Nat2Z.id.
  assert (take (length data) (default [] (match data with [] => None | _ => Some data end)) = data) as ->.
  { destruct data; [done|]. apply firstn_all. }
  rw Z.eqb_refl /mbind /prog_bind /= Hsz. done.
Qed.

(** Appending the next bytes of a list to a prefix of it. *)
Lemma take_extend {A} (l : list A) (n m : nat) :
  take n l ++ take m (drop n l) = take (n + m) l.
Proof. apply take_take_drop. Qed.

(** The loop reads up to the size asked for or the end of the file. *)
Lemma read_loop_val fuel size off saved c s :
  inv c s → 0 ≤ off → off < 2 ^ 32 → off + size ≤ 2 ^ 32 →
  saved = take (length saved) (drop (Z.to_nat off) c) → Z.of_nat (length saved) ≤ size →
  off + Z.of_nat (length saved) < 2 ^ 32 → size - Z.of_nat (length saved) < Z.of_nat fuel →
  ∃ s', read_loop (Some ctx) fuel (mkFHandle (Some h)) size off saved s =
          Val (take (Z.to_nat size) (drop (Z.to_nat off) c)) s' ∧ inv c s'.
Proof.
  revert saved s. induction fuel as [|fuel IH]; intros saved s Hs Hoff Hoff' Hmax Hsaved Hle Hlt Hf; [lia|].
  destruct (read_some_val size off (Z.of_nat (length saved)) c s Hs) as (s1 & Hr & Hs1); [lia..|].
  cbn [read_loop]. run_step Hr. cbv zeta. set (k := Z.to_nat (Z.min 5000 (size - Z.of_nat (length saved)))).
  assert (Z.to_nat (off + Z.of_nat (length saved)) = Z.to_nat off + length saved)%nat as -> by lia.
  rw -drop_drop. set (rest := drop (Z.to_nat off) c) in Hsaved |- *.
  assert (saved ++ take k (drop (length saved) rest) = take (length saved + k) rest) as ->.
  { rw {1}Hsaved. apply take_extend. }
  assert (length rest = length c - Z.to_nat off)%nat as Hrest by (rw /rest length_drop //).
  set (saved' := take (length saved + k) rest).
  assert (length saved' = Nat.min (length saved + k) (length rest)) as Hlen by rw /saved' length_take //.
  rw wrap64_small; [rw /u64; lia|].
  destruct (Z.ltb_spec (Z.of_nat (length saved')) size) as [H1|H1]; last first.
  { exists s1. split; [|done]. simpl. f_equal. rw /saved'. f_equal. lia. }
  destruct (Z.ltb_spec (off + Z.of_nat (length saved')) (Z.of_nat (length c))) as [H2|H2]; simpl; last first.
  { exists s1. split; [|done]. f_equal. rw /saved' !take_ge //; lia. }
  apply IH; [done|lia|lia|lia| |lia|lia|lia].
  rw {2}/saved'. symmetry. rw Hlen. destruct (decide (length saved + k ≤ length rest)%nat) as [Hk|Hk].
  - by rw Nat.min_l.
  - rw Nat.min_r; [lia|]. by rw /saved' !take_ge; [lia|lia|].
Qed.
End files.

(** * Directories *)

Section directories.
Context `{Transports St} `{ClientCodec}.
Implicit Types (s : St).

(** An entry as it is sent. *)
Definition entry_of (x : string * Z) (ino : Z) : DirectoryEntry :=
  mkDirectoryEntry ino (Some (mkFileName (Some x.1))) (Some (mkNfsCookie x.2)).

(** What READDIR, called with a byte count, promises of one directory with the
    given names: asked to go on at a cookie that stands for the place behind the
    first [i] names it returns some of the next ones in order, with cookies, and
    says whether the listing ends with them; if not it returns at least one, and
    the cookie of the last one stands for the place behind it. Which cookies stand
    for which places may change with the state: [place] says so, and 0 always
    stands for the beginning. *)
Class DirectoryService (byte_count : Z) (ctx : RpcConnectionContext) (h : NfsFileHandle) (inv : St → Prop)
    (place : nat → Z → St → Prop) (names : list string) := {
  place_start s : inv s → place O 0 s;
  readdir_serves i cookie s :
    inv s → place i cookie s → (i ≤ length names)%nat →
    ∃ (page : list (string * Z)) inodes (eof : bool) s',
      run (nfs_procedure_16_read_from_directory (Some ctx)
             (mkReadDirArgs (Some (mkFHandle (Some h))) (Some (mkNfsCookie cookie)) byte_count)) s =
        Some ((0, Some (ok_res (mkReadDirOk (zip_with entry_of page inodes) (if eof then 1 else 0)))), s') ∧
      (length page ≤ length inodes)%nat ∧ (i + length page ≤ length names)%nat ∧
      page.*1 = take (length page) (drop i names) ∧ inv s' ∧
      (if eof then (i + length page = length names)%nat
       else (0 < length page)%nat ∧ place (i + length page)%nat (default cookie (snd <$> last page)) s') }.

Lemma collect_page (page : list (string * Z)) inodes names cookie s :
  (length page ≤ length inodes)%nat →
  collect (zip_with entry_of page inodes) names cookie s =
  Val (names ++ page.*1, default cookie (snd <$> last page)) s.
Proof.
  revert inodes names cookie. induction page as [|[n c] page IH]; intros [|ino inodes] names cookie Hl;
    simpl in Hl; try lia; [by rw /= app_nil_r..|].
  cbn [zip_with collect]. rw /mbind /prog_bind /= IH; [lia|]. rw -app_assoc. f_equal. f_equal.
  rw last_cons. by destruct (last page).
Qed.

Lemma validate_page (page : list (string * Z)) inodes (last : bool) :
  Validation.validate_nfs_read_dir_res
    (Some (ok_res (mkReadDirOk (zip_with entry_of page inodes) (if last then 1 else 0)))) = Some 0.
Proof.
  apply Messages.validate_res_ok. rw /Validation.validate_nfs_read_dir_ok. f_equal. simpl.
  revert inodes. induction page as [|x page IH]; intros [|ino inodes]; try done. apply IH.
Qed.

Context `{!DirectoryService READDIR_BYTES_PER_RPC ctx h inv place names}.

(** The loop reads the rest of the directory: as many rounds as there are
    entries left, and one for the end, are enough. *)
Lemma readdir_loop_val fuel i cookie s :
  inv s → place i cookie s → (i ≤ length names)%nat → (length names - i < fuel)%nat →
  ∃ s', readdir_loop (Some ctx) fuel (mkFHandle (Some h)) (take i names) cookie s = Val names s' ∧ inv s'.
Proof.
  revert i cookie s. induction fuel as [|fuel IH]; intros i cookie s Hs Hp Hi Hf; [lia|].
  destruct (readdir_serves i cookie s Hs Hp Hi) as (page & inodes & e & s1 & Hrun & Hlen & Hin & Hpage & Hs1 & Hend).
  cbn [readdir_loop]. run_step (reply_or_val (return_ (- Errno.EIO)) _ _ _ _ Hrun).
  rw (bind_val _ _ s1 (mkReadDirOk (zip_with entry_of page inodes) (if e then 1 else 0)) s1).
  { apply ok_body_val, validate_page. }
  cbn [entries eof]. run_step (collect_page _ _ (take i names) cookie s1 Hlen).
  rw Hpage take_take_drop. destruct e; simpl.
  - exists s1. by rw Hend firstn_all.
  - destruct Hend as [Hpos Hp1]. by apply IH; [| |lia|lia].
Qed.
End directories.

(** * Theorems *)

Section theorems.
Context `{Transports St} `{ClientCodec}.
Context (ctx : RpcConnectionContext) (tree : namespace) (root h : NfsFileHandle).
Abbreviation mounted f := (f (Some ctx) (Some (mkFHandle (Some root)))).

(** An absolute path that leads to the file. *)
Definition leads_to_file (path : string) : Prop :=
  String.prefix "/" path = true ∧ walkable tree root NFDIR (components path) ∧
  ∃ t, walk tree root NFDIR (components path) = inr (h, t).

Lemma leads_resolve inv `{!LookupService ctx inv tree} path s :
  inv s → leads_to_file path →
  ∃ t s', resolve_path (Some ctx) (Some (mkFHandle (Some root))) path s = Val (mkFHandle (Some h), t) s' ∧ inv s'.
Proof.
  intros Hs (Habs & Hnames & t & Hw). destruct (resolve_val root path h t s) as (s' & Hr); [done..|].
  by exists t, s'.
Qed.

Section files.
Context (inv : list byte → St → Prop) `{!∀ c, LookupService ctx (inv c) tree} `{!FileService ctx h inv}.
Implicit Types (s : St).

Lemma nfs_read_val path c size off s :
  inv c s → leads_to_file path →
  0 ≤ size < 2 ^ 31 → 0 ≤ off < 2 ^ 32 → off + size ≤ 2 ^ 32 →
  ∃ s', mounted nfs_read (S (Z.to_nat size)) true path size off s =
      (let d := bytes_at off size c in Some (Z.of_nat (length d), d, s')) ∧ inv c s'.
Proof.
  intros Hs Hpath Hsize Hoff Hmax.
  destruct (leads_resolve _ path s Hs Hpath) as (t & s1 & Hr & Hs1).
  destruct (read_loop_val (S (Z.to_nat size)) size off [] c s1 Hs1) as (s2 & Hl & Hs2); [simpl; try lia; try done..|].
  exists s2. split; [|done]. rw /nfs_read /in_thread.
  assert (mounted blocking_read (S (Z.to_nat size)) path size off s =
    Val (take (Z.to_nat size) (drop (Z.to_nat off) c)) s2) as -> by (rw /blocking_read; by run_step Hr).
  cbv zeta. simpl. rw to_int32_small // length_take. lia.
Qed.

Lemma nfs_write_val path c buffer offset s :
  inv c s → leads_to_file path →
  buffer ≠ [] → Z.of_nat (length buffer) < 2 ^ 31 → 0 ≤ offset → offset + Z.of_nat (length buffer) ≤ 2 ^ 32 →
  ∃ s', mounted nfs_write true path buffer offset s = Some (Z.of_nat (length buffer), s') ∧
        inv (splice (Z.to_nat offset) buffer c) s'.
Proof.
  intros Hs Hpath Hbuf Hlen Hoff Hmax.
  assert (0 < length buffer)%nat as Hpos by (destruct buffer; [done|simpl; lia]).
  destruct (leads_resolve _ path s Hs Hpath) as (t & s0 & Hr & Hs0).
  destruct (write_loop_val (length buffer) buffer offset 0 c s0 Hs0) as (s1 & Hl & Hs1); [lia..|].
  rw Z.add_0_r drop_0 in Hs1. exists s1. split; [|done]. rw /nfs_write /in_thread.
  assert (mounted blocking_write path buffer offset s = Val (Z.of_nat (length buffer)) s1) as ->
    by (rw /blocking_write; by run_step Hr).
  simpl. by rw to_int32_small; [lia|].
Qed.

(** Writing a buffer to a file through the FUSE client and
    reading the range back returns the buffer, for every server that keeps the
    promises of LOOKUP, READ and WRITE: [nfs_write] ends, reports the whole
    length and leaves the file with the buffer spliced in at the offset, however
    many calls of at most 5000 bytes that takes (buffers below 2 GiB, whose length
    an [int] can report); and from then on [nfs_read] ends
    and returns exactly the bytes of the file in the range asked for, up to the
    end of the file. *)
Theorem fuse_write_then_read path buffer offset c s
    (Hs : inv c s) (Hpath : leads_to_file path)
    (Hbuf : buffer ≠ []) (Hlen : Z.of_nat (length buffer) < 2 ^ 31) (Hoff : 0 ≤ offset) (Hmax : offset + Z.of_nat (length buffer) ≤ 2 ^ 32) :
  ∃ s1, mounted nfs_write true path buffer offset s = Some (Z.of_nat (length buffer), s1) ∧
    inv (splice (Z.to_nat offset) buffer c) s1 ∧
    (∃ s2, mounted nfs_read (S (length buffer)) true path (Z.of_nat (length buffer)) offset s1 =
             Some (Z.of_nat (length buffer), buffer, s2)) ∧
    (∀ size off, 0 ≤ size < 2 ^ 31 → 0 ≤ off < 2 ^ 32 → off + size ≤ 2 ^ 32 →
       ∃ s2, mounted nfs_read (S (Z.to_nat size)) true path size off s1 =
         let d := bytes_at off size (splice (Z.to_nat offset) buffer c) in
         Some (Z.of_nat (length d), d, s2)).
Proof.
  destruct (nfs_write_val path c buffer offset s) as (s1 & Hw & Hs1); [done..|].
  exists s1. split_and!; [done|done| |].
  - assert (0 < length buffer)%nat as Hpos by (destruct buffer; [done|simpl; lia]).
    destruct (nfs_read_val path _ (Z.of_nat (length buffer)) offset s1 Hs1 Hpath)
      as (s2 & Heq & Hs2); [lia..|].
    exists s2. rw /bytes_at Nat2Z.id splice_read in Heq. exact Heq.
  - intros size off Hsz Ho Hm.
    destruct (nfs_read_val path _ size off s1 Hs1 Hpath Hsz Ho Hm) as (s2 & Heq & _). by exists s2.
Qed.
End files.

Section directories.
Context (inv : St → Prop) (place : nat → Z → St → Prop) (names : list string).
Context `{!LookupService ctx inv tree} `{!DirectoryService READDIR_BYTES_PER_RPC ctx h inv place names}.

Lemma nfs_readdir_val path fuel s :
  inv s → leads_to_file path → (length names < fuel)%nat →
  ∃ s', mounted nfs_readdir fuel true path s = Some (0, names, s') ∧ inv s'.
Proof.
  intros Hs Hpath Hfuel. destruct (leads_resolve _ path s Hs Hpath) as (t & s1 & Hr & Hs1).
  destruct (readdir_loop_val fuel 0 0 s1 Hs1 (place_start s1 Hs1)) as (s2 & Hl & Hs2); [lia..|].
  exists s2. split; [|done]. rw /nfs_readdir /in_thread.
  assert (mounted blocking_readdir fuel path s = Val names s2) as ->
    by (rw /blocking_readdir; by run_step Hr).
  done.
Qed.

(** Listing a directory ends and is complete: for every
    server that keeps the promise of READDIR, [nfs_readdir] calls it page by page,
    at most once per entry and once for the end, and passes on every name of the
    directory exactly once, in order. *)
Theorem fuse_readdir_lists_directory path fuel s
    (Hs : inv s) (Hpath : leads_to_file path)
    (Hfuel : (length names < fuel)%nat) :
  ∃ s', mounted nfs_readdir fuel true path s = Some (0, names, s') ∧ inv s'.
Proof. by apply nfs_readdir_val. Qed.
End directories.
End theorems.
