(* ===== verification/FuseMain.v ===== *)
(** The FUSE client's program: [main] of [src/fuse/nfs_fuse.c], its command line,
    the mounting of the remote file system and the arguments that libfuse gets, and
    [clean_up]. *)
From S2P Require Import Prelude CStrings Messages Parsing InodeCache RpcClient ServerLife NfsClient FuseHandlers.

(** What [main] ends in: an exit code, or [fuse_main] of libfuse with its arguments and the
    two globals of a mounted client. *)
Inductive fuse_started :=
  | FuseExit (code : Z)
  | FuseMain (args : list string) (rpc_connection_context : RpcConnectionContext) (filesystem_root_fhandle : Nfs.FHandle).

(** [struct fuse_args] as [main] fills it. *)
Definition fuse_arguments (program mount_point : string) : list string :=
  [program; mount_point; "-d"; "-oentry_timeout=60"; "-oattr_timeout=60"; "-oac_attr_timeout=60"].

(** What [nfs_fuse_init] sets. *)
Record fuse_conn_info := mkConnInfo { max_background : Z; max_write : Z; max_readahead : Z }.

Definition nfs_fuse_init (conn : fuse_conn_info) : fuse_conn_info := mkConnInfo 512 131072 (1024 * 1024).

Section program.
Context `{Transports St} `{ClientCodec}.
Variables (create : string → Z → Z → St → option (option RpcConnectionContext * St))
          (release : RpcConnectionContext → St → option St).

Definition main (memory : bool * bool) (argv : list string) (s : St) : option (fuse_started * St) :=
  match argv with
  | [program; server_ipv4_address; port; proto; remote_absolute_path; mount_point] =>
      let port_number := parse_port_number port in
      if port_number =? 0 then Some (FuseExit 1, s)
      else match parse_protocol proto with
           | None => Some (FuseExit 1, s)
           | Some protocol =>
               match mount_remote_filesystem (create server_ipv4_address port_number protocol) release memory
                       remote_absolute_path s with
               | Val (ctx, root) s => Some (FuseMain (fuse_arguments program mount_point) ctx root, s)
               | Ret error_code s =>
                   if error_code >? 0 then Some (FuseExit 1, s) else None
               | Fault => None
               end
           end
  | _ => Some (FuseExit 1, s)
  end.

(** [clean_up]; [None]: without a context or a root. *)
Definition clean_up (rpc_connection_context : option RpcConnectionContext) (filesystem_root_fhandle : option Nfs.FHandle)
    (s : St) : option St :=
  s ← (match rpc_connection_context with None => Some s | Some ctx => release ctx s end);
  _ ← filesystem_root_fhandle;
  Some s.

(** A program that hands over to libfuse has mounted the directory it was asked
    for, on the server, the port and the transport of its command line, and passes
    on its mount point. *)
Theorem fuse_serves_what_was_mounted memory program address port proto path mount_point s args ctx root s'
    (Hmain : main memory [program; address; port; proto; path; mount_point] s = Some (FuseMain args ctx root, s')) :
  ∃ protocol, parse_protocol proto = Some protocol ∧ 1 ≤ parse_port_number port ≤ 65535 ∧
    mount_remote_filesystem (create address (parse_port_number port) protocol) release memory path s = Val (ctx, root) s' ∧
    args = fuse_arguments program mount_point.
Proof.
  rw /main in Hmain. destruct (Z.eqb_spec (parse_port_number port) 0) as [|Hp]; [done|].
  destruct (parse_protocol proto) as [protocol|]; [|done]. exists protocol.
  destruct (mount_remote_filesystem _ _ _ _ s) as [[c r] s1|e s1|]; [|by destruct (e >? 0)|done].
  injection Hmain as <- <- <- <-. pose proof (port_range port). split_and!; try done; lia.
Qed.
End program.
