(* ===== verification/ReplDag.v ===== *)
(** The tree of directories that the REPL has entered:
    [src/repl/filesystem_dag/filesystem_dag.c].

    Nodes live on a heap, and a pointer to one is its address there; reading
    or freeing a node that is not on the heap is undefined ([None]). The
    handle of a node is owned by it and is a value here. *)
From S2P Require Import Prelude Messages.

Abbreviation loc := nat (only parsing).

Record DAGNode := mkDAGNode {
  absolute_path : string;
  ftype : Nfs.FType;
  fhandle : Nfs.FHandle;
  parent : option loc;
  is_root : bool;
  children : option (list loc);
  child_count : nat;
  ref_count : Z }.

Abbreviation heap := (gmap nat DAGNode) (only parsing).

(** [memory]: whether the allocation succeeds. *)
Definition create_dag_node (memory : bool) (path : string) (t : Nfs.FType) (h : Nfs.FHandle) (root : bool)
    (m : heap) : option loc * heap :=
  if negb memory then (None, m) else
  let node := fresh (dom m) in
  (Some node, <[node := mkDAGNode path t h None root None 0 1]> m).

Definition set_children (c : option (list loc)) (n : DAGNode) : DAGNode :=
  mkDAGNode (absolute_path n) (ftype n) (fhandle n) (parent n) (is_root n) c (child_count n) (ref_count n).
Definition set_child_count (k : nat) (n : DAGNode) : DAGNode :=
  mkDAGNode (absolute_path n) (ftype n) (fhandle n) (parent n) (is_root n) (children n) k (ref_count n).
Definition set_parent (p : option loc) (n : DAGNode) : DAGNode :=
  mkDAGNode (absolute_path n) (ftype n) (fhandle n) p (is_root n) (children n) (child_count n) (ref_count n).
Definition set_ref_count (r : Z) (n : DAGNode) : DAGNode :=
  mkDAGNode (absolute_path n) (ftype n) (fhandle n) (parent n) (is_root n) (children n) (child_count n) r.

(** An assignment through a pointer. *)
Definition update (l : loc) (f : DAGNode → DAGNode) (m : heap) : option heap :=
  n ← m !! l; Some (<[l := f n]> m).

(** [memory]: whether [realloc] succeeds. When it does not, the pointer to the
    children is overwritten with NULL and their number is kept. *)
Definition add_child (memory : bool) (parent child : option loc) (m : heap) : option (Z * heap) :=
  match parent with
  | None => Some (1, m)
  | Some p =>
      n ← m !! p;
      if decide (ftype n ≠ Nfs.NFDIR) then Some (1, m) else
      match child with
      | None => Some (1, m)
      | Some c =>
          if negb memory then m ← update p (set_children None) m; Some (1, m) else
          m ← update p (set_children (Some (take (child_count n) (default [] (children n)) ++ [c]))) m;
          m ← update p (set_child_count (S (child_count n))) m;
          m ← update c (set_parent (Some p)) m;
          cn ← m !! c;
          m ← update c (set_ref_count (wrap64 (ref_count cn + 1))) m;
          Some (0, m)
      end
  end.

Definition decrement_ref_count (node : option loc) (m : heap) : option heap :=
  match node with
  | None => Some m
  | Some l =>
      n ← m !! l;
      let r := wrap64 (ref_count n - 1) in
      if r =? 0 then Some (delete l m) else update l (set_ref_count r) m
  end.

(** A [for] loop whose body may be undefined. *)
Fixpoint for_each {A S} (body : A → S → option S) (l : list A) (s : S) : option S :=
  match l with
  | [] => Some s
  | x :: l => s ← body x s; for_each body l s
  end.

(** The recursion goes down one level per unit of [fuel]. *)
Fixpoint clean_up_dag (fuel : nat) (node : option loc) (m : heap) : option heap :=
  match node, fuel with
  | None, _ => Some m
  | Some _, O => None
  | Some l, S fuel =>
      n ← m !! l;
      m ← for_each (λ i m,
             n ← m !! l;
             children ← children n;
             child ← children !! i;
             clean_up_dag fuel (Some child) m) (seq 0 (child_count n)) m;
      decrement_ref_count (Some l) m
  end.

Example node_life :
  let '(root, m) := create_dag_node true "/x" Nfs.NFDIR (Nfs.mkFHandle None) true ∅ in
  let '(sub, m) := create_dag_node true "/x/d" Nfs.NFDIR (Nfs.mkFHandle None) false m in
  (add_child true root sub m ≫= λ r, ref_count <$> (sub ≫= λ l, r.2 !! l)) = Some 2 ∧
  (add_child true root sub m ≫= λ r, m ← clean_up_dag 2 root r.2; Some (size m)) = Some 1%nat.
Proof. vm_compute. done. Qed.

(** * The shape of the structure *)

(** The nodes form a tree. *)
Inductive node_tree := Tree (l : loc) (ts : list node_tree).

Definition top (t : node_tree) : loc := let 'Tree l _ := t in l.
Definition subtrees (t : node_tree) : list node_tree := let 'Tree _ ts := t in ts.

Fixpoint tree_rec' (P : node_tree → Prop) (Hnode : ∀ l ts, Forall P ts → P (Tree l ts)) (t : node_tree) : P t :=
  match t with
  | Tree l ts =>
      Hnode l ts ((fix go ts : Forall P ts :=
        match ts with
        | [] => Forall_nil_2 P
        | t :: ts => Forall_cons_2 P t ts (tree_rec' P Hnode t) (go ts)
        end) ts)
  end.

(** Its addresses, the top first, and its height. *)
Fixpoint locs (t : node_tree) : list loc := let 'Tree l ts := t in l :: flat_map locs ts.
Fixpoint height (t : node_tree) : nat := let 'Tree _ ts := t in S (list_max (map height ts)).

(** A node of the tree with its parent and its children. The root is
    referenced once, every other node twice: by its creation and by its
    parent. *)
Record node_ok (up : option loc) (ts : list node_tree) (n : DAGNode) : Prop := {
  ok_ftype : ftype n = Nfs.NFDIR;
  ok_parent : parent n = up;
  ok_is_root : is_root n = bool_decide (up = None);
  ok_children : default [] (children n) = map top ts;
  ok_child_count : child_count n = length ts;
  ok_ref_count : ref_count n = match up with None => 1 | Some _ => 2 end;
}.

Inductive shaped (m : heap) : option loc → node_tree → Prop :=
  | shaped_node up l n ts :
      m !! l = Some n → node_ok up ts n → Forall (shaped m (Some l)) ts → shaped m up (Tree l ts).

Lemma shaped_inv m up l ts :
  shaped m up (Tree l ts) → ∃ n, m !! l = Some n ∧ node_ok up ts n ∧ Forall (shaped m (Some l)) ts.
Proof. inversion 1; subst. eauto. Qed.

Lemma top_in_locs t : top t ∈ locs t.
Proof. destruct t. by left. Qed.

Lemma elem_of_flat_map {A B} (f : A → list B) l y : y ∈ flat_map f l ↔ ∃ x, x ∈ l ∧ y ∈ f x.
Proof.
  induction l as [|x l IH]; simpl; [set_solver|]. rw elem_of_app IH. set_solver.
Qed.

(** The shape is a matter of the nodes of the tree alone. *)
Lemma shaped_frame m m' up t :
  shaped m up t → (∀ l, l ∈ locs t → m' !! l = m !! l) → shaped m' up t.
Proof.
  revert up. induction t as [l ts IH] using tree_rec'. intros up (n & Hn & Hok & Hts)%shaped_inv Heq.
  apply (shaped_node _ _ _ n); [by rw Heq; [left|]|done|].
  apply Forall_forall. intros t Ht. apply (proj1 (Forall_forall _ _) IH t Ht).
  - by apply (proj1 (Forall_forall _ _) Hts).
  - intros k Hk. apply Heq. right. apply elem_of_flat_map. eauto.
Qed.

(** A node of the tree: the top, or one below another. *)
Lemma shaped_node_at m up t l :
  shaped m up t → l ∈ locs t →
  ∃ n up' ts, m !! l = Some n ∧ node_ok up' ts n ∧
    ((top t = l ∧ up' = up) ∨ ∃ p, up' = Some p ∧ p ∈ locs t).
Proof.
  revert up. induction t as [k ts IH] using tree_rec'.
  intros up (n & Hn & Hok & Hts)%shaped_inv [->|Hl]%elem_of_cons; [exists n, up, ts; auto|].
  apply elem_of_flat_map in Hl as (t & Ht & Hl).
  destruct (proj1 (Forall_forall _ _) IH t Ht (Some k)) as (n' & up' & ts' & Hn' & Hok' & Hcase);
    [by apply (proj1 (Forall_forall _ _) Hts)|done|].
  exists n', up', ts'. split_and!; [done|done|right]. destruct Hcase as [[_ ->]|(p & -> & Hp)].
  - exists k. split; [done|]. by left.
  - exists p. split; [done|]. right. apply elem_of_flat_map. eauto.
Qed.

Lemma shaped_live m up t l : shaped m up t → l ∈ locs t → is_Some (m !! l).
Proof. intros Ht Hl. destruct (shaped_node_at m up t l Ht Hl) as (n & _ & _ & Hn & _). by exists n. Qed.

Lemma shaped_alloc m up t l n : shaped m up t → m !! l = None → shaped (<[l := n]> m) up t.
Proof.
  intros Ht Hl. apply (shaped_frame m); [done|]. intros k Hk. rw lookup_insert_ne //. intros <-.
  destruct (shaped_live _ _ _ _ Ht Hk). by simplify_eq.
Qed.

(** * Cleaning up *)

(** What is left of a node when a reference to it is dropped. *)
Definition dropped (n : DAGNode) : option DAGNode :=
  let r := wrap64 (ref_count n - 1) in if r =? 0 then None else Some (set_ref_count r n).

Lemma decrement_ref_count_lookup l n m :
  m !! l = Some n →
  ∃ m', decrement_ref_count (Some l) m = Some m' ∧
        ∀ k, m' !! k = if decide (k = l) then dropped n else m !! k.
Proof.
  intros Hn. rw /decrement_ref_count /update /dropped Hn /=. destruct (_ =? 0).
  - eexists. split; [done|]. intros k. case_decide as Hk; [subst; apply lookup_delete_eq|apply lookup_delete_ne; auto].
  - eexists. split; [done|]. intros k. case_decide as Hk; [subst; apply lookup_insert_eq|apply lookup_insert_ne; auto].
Qed.

(** The heap after a reference to each of some nodes was dropped. *)
Definition each_dropped (ls : list loc) (m m' : heap) : Prop :=
  ∀ k, m' !! k = if decide (k ∈ ls) then m !! k ≫= dropped else m !! k.

Lemma each_dropped_nil m : each_dropped [] m m.
Proof. done. Qed.

Lemma each_dropped_app ls1 ls2 m m1 m2 :
  (∀ k, k ∈ ls1 → k ∉ ls2) → each_dropped ls1 m m1 → each_dropped ls2 m1 m2 → each_dropped (ls1 ++ ls2) m m2.
Proof.
  intros Hdisj H1 H2 k. rw (H2 k) (H1 k). destruct (decide (k ∈ ls1)) as [Hk1|Hk1].
  - rw (decide_False (P:=k ∈ ls2)); [by apply Hdisj|]. rw decide_True //. set_solver.
  - destruct (decide (k ∈ ls2)) as [Hk2|Hk2]; [rw decide_True //|rw decide_False //]; set_solver.
Qed.

(** The loop over the children that were not cleaned up yet. *)
Lemma clean_up_children m l n fuel ts done_ :
  NoDup (l :: flat_map locs (done_ ++ ts)) → m !! l = Some n →
  default [] (children n) = map top (done_ ++ ts) → Forall (shaped m (Some l)) ts →
  (∀ t m, t ∈ ts → shaped m (Some l) t → NoDup (locs t) →
     ∃ m', clean_up_dag fuel (Some (top t)) m = Some m' ∧ each_dropped (locs t) m m') →
  ∃ m', for_each (λ i m,
             n ← m !! l;
             children ← children n;
             child ← children !! i;
             clean_up_dag fuel (Some child) m) (seq (length done_) (length ts)) m = Some m' ∧
        each_dropped (flat_map locs ts) m m'.
Proof.
  revert m done_. induction ts as [|t ts IH]; intros m done_ Hnd Hl Hch Hts Hrec.
  { exists m. split; [done|]. apply each_dropped_nil. }
  cbn [length seq for_each]. rw Hl /=.
  assert (children n = Some (map top (done_ ++ t :: ts))) as ->.
  { destruct (children n); simpl in Hch; [by subst|]. by destruct done_. }
  simpl. rw map_app lookup_app_r ?length_map // Nat.sub_diag /=.
  assert (NoDup (locs t) ∧ (∀ k, k ∈ locs t → k ∉ flat_map locs ts) ∧ l ∉ locs t) as (Hnt & Hdisj & Hlt).
  { rw flat_map_app NoDup_cons NoDup_app /= NoDup_app in Hnd. set_solver. }
  destruct (Hrec t m) as (m1 & -> & Hm1); [by left|by apply Forall_inv in Hts|done|]. simpl.
  assert (m1 !! l = Some n) as Hl1 by by rw (Hm1 l) decide_False.
  assert (done_ ++ t :: ts = (done_ ++ [t]) ++ ts) as Happ by by rw -app_assoc.
  destruct (IH m1 (done_ ++ [t])) as (m2 & Hfor & Hm2).
  - by rw -Happ.
  - done.
  - by rw -Happ.
  - apply Forall_forall. intros t' Ht'. apply (shaped_frame m).
    + apply (proj1 (Forall_forall _ _) Hts). by right.
    + intros k Hk. rw (Hm1 k) decide_False //. intros Hk'. apply (Hdisj k Hk'), elem_of_flat_map. eauto.
  - intros t' m' Ht'. apply Hrec. by right.
  - exists m2. split; [|by apply (each_dropped_app _ _ m m1)].
    rw length_app /= Nat.add_1_r in Hfor. exact Hfor.
Qed.

(** Cleaning up a tree drops one reference to each of its nodes, and never
    touches a node that was freed. *)
Lemma clean_up_dag_drops t up m fuel :
  shaped m up t → NoDup (locs t) → (height t ≤ fuel)%nat →
  ∃ m', clean_up_dag fuel (Some (top t)) m = Some m' ∧ each_dropped (locs t) m m'.
Proof.
  revert up m fuel. induction t as [l ts IH] using tree_rec'. intros up m [|fuel] Ht Hnd Hh; [simpl in Hh; lia|].
  apply shaped_inv in Ht as (n & Hn & Hok & Hts). cbn [clean_up_dag top]. rw Hn /= (ok_child_count _ _ _ Hok).
  destruct (clean_up_children m l n fuel ts []) as (m1 & Hfor & Hm1); [done|done|by apply ok_children in Hok|done|..].
  { intros t m' Ht Hsh Hnt. apply (proj1 (Forall_forall _ _) IH t Ht (Some l) m' fuel Hsh Hnt).
    simpl in Hh. pose proof (proj1 (list_max_le (map height ts) fuel) ltac:(lia)) as Hle.
    rw List.Forall_forall in Hle. apply Hle, in_map. by apply list_elem_of_In. }
  simpl in Hfor. rw Hfor /=. rw NoDup_cons in Hnd. destruct Hnd as [Hl Hnd].
  assert (m1 !! l = Some n) as Hl1 by by rw (Hm1 l) decide_False.
  destruct (decrement_ref_count_lookup l n m1 Hl1) as (m2 & Hdec & Hm2). rw /decrement_ref_count in Hdec. rw Hdec.
  exists m2. split; [done|]. intros k. rw (Hm2 k) (Hm1 k). simpl.
  destruct (decide (k = l)) as [->|Hk]; [rw decide_True ?Hn //; by left|].
  destruct (decide (k ∈ flat_map locs ts)); [rw decide_True //|rw decide_False //]; set_solver.
Qed.

(** As many levels as there are nodes on the heap are enough. *)
Lemma height_locs t : (height t ≤ length (locs t))%nat.
Proof.
  induction t as [l ts IH] using tree_rec'. simpl. apply le_n_S.
  induction IH as [|t ts Ht _ IH]; simpl; [done|]. rw length_app. lia.
Qed.

Lemma height_size m up t : shaped m up t → NoDup (locs t) → (height t ≤ size m)%nat.
Proof.
  intros Ht Hnd. etrans; [apply height_locs|]. rw -size_dom -(size_list_to_set (C:=gset loc)) //.
  apply subseteq_size. intros l Hl%elem_of_list_to_set. apply elem_of_dom. by apply (shaped_live m up t).
Qed.

(** * Adding a node *)

(** The tree with a new node below one of its nodes. *)
Fixpoint graft (p c : loc) (t : node_tree) : node_tree :=
  let 'Tree l ts := t in Tree l (map (graft p c) ts ++ if decide (l = p) then [Tree c []] else []).

Lemma top_graft p c t : top (graft p c t) = top t.
Proof. by destruct t. Qed.

Lemma graft_absent p c t : p ∉ locs t → graft p c t = t.
Proof.
  induction t as [l ts IH] using tree_rec'. rw /= not_elem_of_cons elem_of_flat_map. intros [Hl Hts].
  rw decide_False ?app_nil_r; [congruence|]. f_equal. rw -{2}(map_id ts). apply map_ext_in.
  intros t Ht%list_elem_of_In. apply (proj1 (Forall_forall _ _) IH t Ht). eauto.
Qed.

Lemma graft_locs p c t : NoDup (locs t) → p ∈ locs t → locs (graft p c t) ≡ₚ c :: locs t.
Proof.
  induction t as [l ts IH] using tree_rec'. cbn [locs graft]. rw NoDup_cons elem_of_cons. intros [Hl Hnd] Hp.
  rw flat_map_app. destruct (decide (l = p)) as [<-|Hlp].
  - assert (map (graft l c) ts = ts) as ->.
    { rw -{2}(map_id ts). apply map_ext_in. intros t Ht%list_elem_of_In. apply graft_absent. intros Hlt.
      apply Hl, elem_of_flat_map. eauto. }
    simpl. rw -Permutation_middle app_nil_r. apply Permutation_swap.
  - destruct Hp as [->|Hp]; [done|]. rw app_nil_r. rw Permutation_swap. f_equiv.
    clear Hl Hlp. induction IH as [|t ts Ht _ IH]; [by apply elem_of_nil in Hp|].
    simpl in Hnd, Hp |- *. apply NoDup_app in Hnd as (Hn1 & Hn2 & Hn3). apply elem_of_app in Hp as [Hp|Hp].
    + rw (Ht Hn1 Hp) /=. f_equiv. f_equiv. assert (p ∉ flat_map locs ts) as Hnp by by apply Hn2.
      assert (map (graft p c) ts = ts) as ->; [|done]. rw -{2}(map_id ts). apply map_ext_in.
      intros t' Ht'%list_elem_of_In. apply graft_absent. intros Hlt. apply Hnp, elem_of_flat_map. eauto.
    + rw (IH Hn3 Hp) graft_absent; [intros Ht'; by apply (Hn2 p)|]. by rw Permutation_middle.
Qed.

(** The heap after a node was added below another. *)
Definition linked (p c : loc) (m m' : heap) : Prop :=
  ∃ pn cn, m !! p = Some pn ∧ m !! c = Some cn ∧
    m' = <[c := set_ref_count 2 (set_parent (Some p) cn)]>
         (<[p := set_child_count (S (child_count pn)) (set_children
                   (Some (take (child_count pn) (default [] (children pn)) ++ [c])) pn)]> m).

Lemma add_child_linked p c m pn cn :
  p ≠ c → m !! p = Some pn → ftype pn = Nfs.NFDIR → m !! c = Some cn → ref_count cn = 1 →
  ∃ m', add_child true (Some p) (Some c) m = Some (0, m') ∧ linked p c m m'.
Proof.
  intros Hpc Hp Hd Hc Hr. eexists. split; [|by exists pn, cn].
  rw /add_child /update Hp /= decide_False; [auto|].
  rw /= lookup_insert_eq /= insert_insert_eq lookup_insert_ne // Hc /= lookup_insert_eq /= insert_insert_eq.
  by rw Hr.
Qed.

Lemma linked_shaped_absent p c m m' up t :
  linked p c m m' → shaped m up t → p ∉ locs t → c ∉ locs t → shaped m' up t.
Proof.
  intros (pn & cn & _ & _ & ->) Ht Hp Hc. apply (shaped_frame m); [done|]. intros k Hk.
  by rw !lookup_insert_ne //; intros <-.
Qed.

Lemma linked_child p c m m' cn :
  p ≠ c → linked p c m m' → m !! c = Some cn → ftype cn = Nfs.NFDIR → is_root cn = false →
  children cn = None → child_count cn = 0%nat → shaped m' (Some p) (Tree c []).
Proof.
  intros Hpc (pn & cn' & _ & Hc' & ->) Hc Hd Hr Hch Hcc. simplify_eq.
  eapply shaped_node; [apply lookup_insert_eq| |constructor]. by split; rw ?Hch.
Qed.

Lemma linked_parent p c m m' up l n ts (leaf : list node_tree) :
  p ≠ c → linked p c m m' → m !! l = Some n → node_ok up ts n → l ≠ c →
  leaf = (if decide (l = p) then [Tree c []] else []) →
  ∃ n', m' !! l = Some n' ∧ node_ok up (map (graft p c) ts ++ leaf) n'.
Proof.
  intros Hpc (pn & cn & Hp & _ & ->) Hl [? ? ? Hch Hcc ?] Hlc ->. rw lookup_insert_ne; [auto|].
  assert (map top (map (graft p c) ts) = map top ts) as Htops.
  { rw map_map. apply map_ext. intros t. apply top_graft. }
  destruct (decide (l = p)) as [->|Hlp].
  - simplify_eq. rw lookup_insert_eq. eexists. split; [done|]. split; simpl; try done.
    + rw map_app Htops Hch. by rw take_ge // length_map Hcc.
    + by rw length_app length_map Hcc Nat.add_1_r.
  - rw lookup_insert_ne; [auto|]. eexists. split; [exact Hl|]. split; try done; rw app_nil_r.
    + by rw Htops.
    + by rw length_map.
Qed.

Lemma linked_shaped p c m m' cn up t :
  p ≠ c → linked p c m m' → m !! c = Some cn → ftype cn = Nfs.NFDIR → is_root cn = false →
  children cn = None → child_count cn = 0%nat →
  shaped m up t → c ∉ locs t → shaped m' up (graft p c t).
Proof.
  intros Hpc Hlink Hc Hd Hr Hch Hcc. revert up. induction t as [l ts IH] using tree_rec'.
  intros up (n & Hn & Hok & Hts)%shaped_inv Hnc. cbn [locs] in Hnc. apply not_elem_of_cons in Hnc as [Hlc Hnc].
  destruct (linked_parent p c m m' up l n ts _ Hpc Hlink Hn Hok ltac:(auto) eq_refl) as (n' & Hn' & Hok').
  cbn [graft]. apply (shaped_node _ _ _ n'); [done|done|]. apply Forall_app. split.
  - apply Forall_forall. intros t' (t & -> & Ht)%list_elem_of_fmap.
    apply (proj1 (Forall_forall _ _) IH t Ht).
    + by apply (proj1 (Forall_forall _ _) Hts).
    + intros Hct. apply Hnc, elem_of_flat_map. eauto.
  - destruct (decide (l = p)) as [->|]; [|constructor]. constructor; [|constructor].
    by apply (linked_child p c m m' cn).
Qed.

(** * The way to the root *)

(** The paths and handles of a node and its ancestors. *)
Inductive ancestors (m : heap) : loc → list (string * Nfs.FHandle) → Prop :=
  | anc_root l n :
      m !! l = Some n → is_root n = true → ancestors m l [(absolute_path n, fhandle n)]
  | anc_child l n p st :
      m !! l = Some n → is_root n = false → parent n = Some p → ancestors m p st →
      ancestors m l ((absolute_path n, fhandle n) :: st).

(** The top of the stack is the node itself. *)
Lemma ancestors_top m l st : ancestors m l st → ∃ n st', m !! l = Some n ∧ st = (absolute_path n, fhandle n) :: st'.
Proof. destruct 1; eauto. Qed.

Lemma ancestors_det m l st1 st2 : ancestors m l st1 → ancestors m l st2 → st1 = st2.
Proof.
  intros H1. revert st2. induction H1 as [l n Hn Hr|l n p st Hn Hr Hp _ IH]; inversion 1; simplify_eq; try congruence.
  f_equal. by apply IH; simplify_eq.
Qed.

(** Only the fields on the way matter. *)
Lemma ancestors_frame m m' l st :
  (∀ l n, m !! l = Some n → ∃ n', m' !! l = Some n' ∧ absolute_path n' = absolute_path n ∧
     fhandle n' = fhandle n ∧ parent n' = parent n ∧ is_root n' = is_root n) →
  ancestors m l st → ancestors m' l st.
Proof.
  intros Heq. induction 1 as [l n Hn Hr|l n p st Hn Hr Hp _ IH];
    destruct (Heq l n Hn) as (n' & Hn' & <- & <- & Hp' & Hr').
  - apply (anc_root m' l n'); congruence.
  - apply (anc_child m' l n' p); congruence.
Qed.

Lemma shaped_ancestors m up t l :
  shaped m up t → (∀ p, up = Some p → ∃ st, ancestors m p st) → l ∈ locs t → ∃ st, ancestors m l st.
Proof.
  revert up. induction t as [k ts IH] using tree_rec'. intros up (n & Hn & Hok & Hts)%shaped_inv Hup Hl.
  destruct Hok as [_ Hpar Hroot _ _ _].
  assert (∃ st, ancestors m k st) as Hk.
  { destruct up as [p|].
    - destruct (Hup p eq_refl) as (st & Hst). eexists. by apply (anc_child m k n p st).
    - eexists. by apply (anc_root m k n). }
  cbn [locs] in Hl. apply elem_of_cons in Hl as [->|Hl]; [done|]. apply elem_of_flat_map in Hl as (t & Ht & Hl).
  apply (proj1 (Forall_forall _ _) IH t Ht (Some k)); [by apply (proj1 (Forall_forall _ _) Hts)| |done].
  by intros p [= <-].
Qed.

(** * Growing and releasing the tree *)

(** The structure below a root, with one of its nodes. *)
Definition dag (m : heap) (root l : loc) : Prop :=
  ∃ t, top t = root ∧ shaped m None t ∧ NoDup (locs t) ∧ l ∈ locs t.

Lemma create_dag_node_fresh path t h root m :
  ∃ c, create_dag_node true path t h root m = (Some c, <[c := mkDAGNode path t h None root None 0 1]> m) ∧
       m !! c = None.
Proof. eexists. split; [done|]. apply not_elem_of_dom, is_fresh. Qed.

Lemma dag_root path h m :
  ∃ c m', create_dag_node true path Nfs.NFDIR h true m = (Some c, m') ∧ dag m' c c ∧ ancestors m' c [(path, h)].
Proof.
  destruct (create_dag_node_fresh path Nfs.NFDIR h true m) as (c & Hc & _). eexists c, _. split; [exact Hc|]. split.
  - exists (Tree c []). split_and!; [done| |apply NoDup_singleton|by left].
    eapply shaped_node; [apply lookup_insert_eq|by split|constructor].
  - eapply (anc_root _ c (mkDAGNode path Nfs.NFDIR h None true None 0 1)); [apply lookup_insert_eq|done].
Qed.

(** A new node below a node of the structure. *)
Lemma dag_enter m root p path h :
  dag m root p →
  ∃ c m1 m2, create_dag_node true path Nfs.NFDIR h false m = (Some c, m1) ∧
    add_child true (Some p) (Some c) m1 = Some (0, m2) ∧ dag m2 root c ∧
    (∀ l st, ancestors m l st → ancestors m2 l st) ∧
    (∀ st, ancestors m p st → ancestors m2 c ((path, h) :: st)).
Proof.
  intros (t & <- & Ht & Hnd & Hp). destruct (create_dag_node_fresh path Nfs.NFDIR h false m) as (c & Hc & Hfresh).
  set (cn := mkDAGNode path Nfs.NFDIR h None false None 0 1) in Hc.
  destruct (shaped_live _ _ _ _ Ht Hp) as [pn Hpn].
  assert (p ≠ c) as Hpc by by intros ->; simplify_eq.
  assert (c ∉ locs t) as Hct by (intros Hct; destruct (shaped_live _ _ _ _ Ht Hct); by simplify_eq).
  assert (ftype pn = Nfs.NFDIR) as Hd.
  { destruct (shaped_node_at m None t p Ht Hp) as (n & up & ts & Hn & [Hd _ _ _ _ _] & _). by simplify_eq. }
  destruct (add_child_linked p c (<[c := cn]> m) pn cn) as (m2 & Hadd & Hlink);
    [done|rw lookup_insert_ne; auto|done|apply lookup_insert_eq|done|].
  assert (∀ l n, m !! l = Some n → ∃ n', m2 !! l = Some n' ∧ absolute_path n' = absolute_path n ∧
     fhandle n' = fhandle n ∧ parent n' = parent n ∧ is_root n' = is_root n) as Hsame.
  { destruct Hlink as (pn' & cn' & Hpn' & _ & ->). intros l n Hn.
    assert (c ≠ l) as Hcl by by intros <-; simplify_eq. rw lookup_insert_ne //.
    destruct (decide (p = l)) as [<-|Hpl].
    - rw lookup_insert_eq. eexists. split; [done|]. rw lookup_insert_ne in Hpn'; [auto|].
      assert (pn' = pn ∧ n = pn) as [-> ->] by (split; congruence). done.
    - rw !lookup_insert_ne; [auto|auto|]. by exists n. }
  exists c, (<[c := cn]> m), m2. split_and!; [done|done| |intros; by apply (ancestors_frame m)|].
  - exists (graft p c t). split_and!.
    + apply top_graft.
    + by apply (linked_shaped p c (<[c := cn]> m) m2 cn); try done; [apply lookup_insert_eq|apply shaped_alloc].
    + rw graft_locs // NoDup_cons //.
    + rw graft_locs //. by left.
  - intros st Hst. assert (m2 !! c = Some (set_ref_count 2 (set_parent (Some p) cn))) as Hc2.
    { destruct Hlink as (pn' & cn' & _ & Hcn' & ->). rw lookup_insert_eq in Hcn'. simplify_eq. apply lookup_insert_eq. }
    by apply (anc_child m2 c _ p st Hc2); [..|apply (ancestors_frame m)].
Qed.

(** The parent of a node that is not the root. *)
Lemma dag_parent m root l :
  dag m root l →
  ∃ n, m !! l = Some n ∧
    (if is_root n then ancestors m l [(absolute_path n, fhandle n)]
     else ∃ p st, parent n = Some p ∧ dag m root p ∧ ancestors m p st ∧
                  ancestors m l ((absolute_path n, fhandle n) :: st)).
Proof.
  intros (t & <- & Ht & Hnd & Hl).
  assert (∃ st, ancestors m l st) as [st Hst] by (apply (shaped_ancestors m None t); try done; by intros p).
  destruct (shaped_node_at m None t l Ht Hl) as (n & up & ts & Hn & [_ Hup _ _ _ _] & Hcase).
  exists n. split; [done|].
  inversion Hst as [l' n' Hn' Hr|l' n' p st' Hn' Hr Hp Hst']; simplify_eq; rw Hr; [done|].
  exists p, st'. split_and!; [done| |done|done]. destruct Hcase as [[_ Hnone]|(p' & Hp' & Hin)]; [congruence|].
  exists t. split_and!; try done. congruence.
Qed.

(** The ways from a node and from the root. *)
Lemma dag_node m root l : dag m root l → (∃ st, ancestors m l st) ∧ (∃ st, ancestors m root st).
Proof.
  intros (t & <- & Ht & Hnd & Hl).
  split; (apply (shaped_ancestors m None t); [done|by intros p|try apply top_in_locs; done]).
Qed.

(** Cleaning up frees the root and drops one of the two references to
    every other node: it touches no freed node and nothing outside the tree, and
    ends after at most as many levels as there are nodes. *)
Lemma clean_up_dag_tree m t :
  shaped m None t → NoDup (locs t) →
  ∃ m', clean_up_dag (size m) (Some (top t)) m = Some m' ∧
    m' !! top t = None ∧
    (∀ l, l ∈ locs t → l ≠ top t → ∃ n, m !! l = Some n ∧ m' !! l = Some (set_ref_count 1 n)) ∧
    (∀ l, l ∉ locs t → m' !! l = m !! l).
Proof.
  intros Ht Hnd. destruct (clean_up_dag_drops t None m (size m) Ht Hnd) as (m' & Hrun & Hm').
  { by apply (height_size m None). }
  exists m'. split; [done|]. split_and!.
  - rw (Hm' _) decide_True; [apply top_in_locs|]. destruct t as [r ts]. apply shaped_inv in Ht as (n & Hn & Hok & _).
    by rw Hn /= /dropped (ok_ref_count _ _ _ Hok).
  - intros l Hl Hne. rw (Hm' l) decide_True //.
    destruct (shaped_node_at m None t l Ht Hl) as (n & up & ts & Hn & Hok & [[Htop _]|(p & -> & _)]); [congruence|].
    exists n. split; [done|]. by rw Hn /= /dropped (ok_ref_count _ _ _ Hok).
  - intros l Hl. by rw (Hm' l) decide_False.
Qed.

#[global] Arguments create_dag_node : simpl never.
#[global] Arguments add_child : simpl never.
#[global] Arguments clean_up_dag : simpl never.
