(* ===== verification/ReplState.v ===== *)
(** The state of the REPL ([src/repl/repl.c]), what its commands share, and
    the symbolic links it follows ([src/repl/soft_links/soft_links.c]).

    The state holds the globals of the program, the heap of directory nodes,
    what was printed and the world behind the stubs. Messages of the layers
    below the REPL are not part of what is printed. *)
From S2P Require Import Prelude CStrings Messages Parsing RecordMarking RpcClient NfsClient FusePaths ReplDag.

(** * The state *)

Record Repl (St : Type) := mkRepl {
  world : St;
  rpc_connection_context : option RpcConnectionContext;
  filesystem_dag_root : option loc;
  cwd_node : option loc;
  nodes : heap;
  chosen_transport_protocol : Z;
  stdout : list string }.
Arguments mkRepl {St}.
Arguments world {St}.
Arguments rpc_connection_context {St}.
Arguments filesystem_dag_root {St}.
Arguments cwd_node {St}.
Arguments nodes {St}.
Arguments chosen_transport_protocol {St}.
Arguments stdout {St}.

Section repl.
Context {St : Type}.
Implicit Types (g : Repl St).

Definition set_world (s : St) g : Repl St :=
  mkRepl s (rpc_connection_context g) (filesystem_dag_root g) (cwd_node g) (nodes g)
    (chosen_transport_protocol g) (stdout g).
Definition set_nodes (m : heap) g : Repl St :=
  mkRepl (world g) (rpc_connection_context g) (filesystem_dag_root g) (cwd_node g) m
    (chosen_transport_protocol g) (stdout g).
Definition set_cwd (l : option loc) g : Repl St :=
  mkRepl (world g) (rpc_connection_context g) (filesystem_dag_root g) l (nodes g)
    (chosen_transport_protocol g) (stdout g).
Definition set_mounted (c : option RpcConnectionContext) (root cwd : option loc) g : Repl St :=
  mkRepl (world g) c root cwd (nodes g) (chosen_transport_protocol g) (stdout g).
Definition print (message : string) g : Repl St :=
  mkRepl (world g) (rpc_connection_context g) (filesystem_dag_root g) (cwd_node g) (nodes g)
    (chosen_transport_protocol g) (stdout g ++ [message]).

(** A part of a function of the REPL that returns an [R]. *)
Definition repl (R A : Type) : Type := prog (Repl St) R A.

Definition printf {R} (message : string) : repl R unit := modify (print message).

(** [printf(message); return r;] *)
Definition complain {R A} (message : string) (r : R) : repl R A := printf message;; return_ r.

Definition is_filesystem_mounted g : bool :=
  bool_decide (is_Some (rpc_connection_context g)) && bool_decide (is_Some (filesystem_dag_root g)) &&
  bool_decide (is_Some (cwd_node g)).

(** The two globals that a command of a mounted REPL dereferences. *)
Definition context {R} : repl R RpcConnectionContext :=
  c ← gets rpc_connection_context; deref c.

(** [node->...] *)
Definition node_at {R} (l : option loc) : repl R DAGNode :=
  l ← deref l;
  m ← gets nodes;
  deref (m !! l).

Definition cwd {R} : repl R DAGNode := l ← gets cwd_node; node_at l.

(** A stub, called in the world behind the REPL. *)
Definition remote {R X} (m : prog St (Z * option X) (Z * option X)) : repl R (Z * option X) :=
  λ g, match run m (world g) with
       | Some (r, s) => Val r (set_world s g)
       | None => Fault
       end.

Definition invalid_reply (status : Z) : string :=
  "Error: Invalid RPC reply received from the server with status " +:+ decimal status +:+ nl.

(** The reply of a procedure, if there is one. *)
Definition reply {R X} (r : R) (m : prog St (Z * option X) (Z * option X)) : repl R X :=
  '(status, res) ← remote m;
  if status !=? 0 then complain (invalid_reply status) r else deref res.

(** The results of a procedure with a status: the messages for results that
    are not valid, for a denial and for other failures. *)
Definition ok_results {R T} (r : R) (validate : option (Nfs.Res T) → option Z)
    (invalid denied : string) (failed : string → string)
    (m : prog St (Z * option (Nfs.Res T)) (Z * option (Nfs.Res T))) : repl R T :=
  res ← reply r m;
  bad ← deref (validate (Some res));
  if bad >? 0 then complain invalid r else
  stat ← deref (Nfs.nfs_status res);
  if decide (stat = Nfs.NFSERR_ACCES) then complain denied r
  else if decide (stat = Nfs.NFS_OK) then
    match Nfs.body res with Nfs.BODY_OK (Some p) => mret p | _ => fault end
  else complain (failed (nfs_stat_to_string stat)) r.

(** The same for procedures whose result is only a status. *)
Definition ok_status {R} (r : R) (denied : string) (failed : string → string)
    (m : prog St (Z * option Nfs.Stat) (Z * option Nfs.Stat)) : repl R unit :=
  stat ← reply r m;
  if Validation.validate_nfs_nfs_stat (Some stat) >? 0 then
    complain (line "Error: Invalid NFS procedure result received from the server") r
  else if decide (stat = Nfs.NFSERR_ACCES) then complain denied r
  else if decide (stat = Nfs.NFS_OK) then mret tt
  else complain (failed (nfs_stat_to_string stat)) r.

(** The handle and the type in the results of LOOKUP, copied. *)
Definition looked_up {R} (ok : Nfs.DirOpOk) : repl R (Nfs.FHandle * Nfs.FType) :=
  attributes ← deref (Nfs.attributes ok);
  t ← deref (Nfs.fa_ftype attributes);
  file ← deref (Nfs.file ok);
  nfs_filehandle ← deref (Nfs.nfs_filehandle file);
  mret (Nfs.mkFHandle (Some nfs_filehandle), t).

Definition name_in (dir : Nfs.FHandle) (name : string) : Nfs.DirOpArgs :=
  Nfs.mkDirOpArgs (Some dir) (Some (Nfs.mkFileName (Some name))).

(** * Symbolic links *)

Context `{Transports St} `{ClientCodec}.

Definition SYMLINK_LEVELS_LIMIT : nat := 40.

Definition lookup_component_failed (component path status : string) : string :=
  "Error: Failed to lookup pathname component " +:+ component +:+ " while resolving pathname " +:+ path +:+
  ", with status " +:+ status +:+ nl.

(** The loop over the components of a path. *)
Fixpoint resolve_components (command_name : string) (ctx : RpcConnectionContext) (path : string)
    (curr_fhandle : Nfs.FHandle) (curr_ftype : Nfs.FType) (l : list string)
    : repl (option (Nfs.FHandle * Nfs.FType)) (Nfs.FHandle * Nfs.FType) :=
  match l with
  | [] =>
      nfs_filehandle ← deref (Nfs.nfs_filehandle curr_fhandle);
      mret (Nfs.mkFHandle (Some nfs_filehandle), curr_ftype)
  | component :: l =>
      return_if (bool_decide (curr_ftype ≠ Nfs.NFDIR)) None;;
      diropok ← ok_results None Validation.validate_nfs_dir_op_res
        (line "Error: Invalid NFS LOOKUP procedure result received from the server")
        (command_name +:+ (line ": Permission denied"))
        (lookup_component_failed component path)
        (nfs_procedure_4_look_up_file_name (Some ctx) (name_in curr_fhandle component));
      '(fhandle, ftype) ← looked_up diropok;
      resolve_components command_name ctx path fhandle ftype l
  end.

(** The handle and the type of the file at a path; [None] stands for NULL, and
    the type is not set then. An absolute path starts at the mounted root, a
    relative one at the current working directory. *)
Definition resolve_path (command_name path : string) : repl (option (Nfs.FHandle * Nfs.FType)) (Nfs.FHandle * Nfs.FType) :=
  c ← gets rpc_connection_context;
  ctx ← orelse c None;
  root ← gets filesystem_dag_root;
  root ← orelse root None;
  cwd ← gets cwd_node;
  cwd ← orelse cwd None;
  return_if (bool_decide (path = "")) None;;
  start ← node_at (Some (if String.prefix "/" path then root else cwd));
  resolve_components command_name ctx path (fhandle start) Nfs.NFDIR (components path).

(** [call] for a function that returns a pointer: what it returns. *)
Definition pointer {R X} (m : repl (option X) X) : repl R (option X) :=
  call (x ← m; mret (Some x)).

(** The loop. [levels] is what is left of the limit. A target that cannot be
    resolved leaves a NULL handle and a type that is not set: the next step
    dereferences the handle, whatever the type is. *)
Fixpoint follow_links (levels : nat) (command_name : string) (ctx : RpcConnectionContext)
    (curr_fhandle : Nfs.FHandle) (curr_file_type : Nfs.FType) : repl (option Nfs.FHandle) Nfs.FHandle :=
  if decide (curr_file_type = Nfs.NFLNK) then
    match levels with
    | O => complain (line "Error: Too many levels of symbolic links") None
    | S levels =>
        data ← ok_results None Validation.validate_nfs_read_link_res
          (line "Error: Invalid NFS READLINK procedure result received from the server")
          (command_name +:+ (line ": Permission denied"))
          (λ status, "Error: Failed to read from a symbolic link in the current working directory with status "
                     +:+ status +:+ nl)
          (nfs_procedure_5_read_from_symbolic_link (Some ctx) curr_fhandle);
        target_path ← deref (Nfs.path data);
        next ← pointer (resolve_path command_name target_path);
        '(next_file_fhandle, next_file_type) ← deref next;
        follow_links levels command_name ctx next_file_fhandle next_file_type
    end
  else
    nfs_filehandle ← deref (Nfs.nfs_filehandle curr_fhandle);
    mret (Nfs.mkFHandle (Some nfs_filehandle)).

Definition follow_symbolic_links (command_name : string) (start_file_fhandle : Nfs.FHandle)
    (start_file_type : Nfs.FType) : repl (option Nfs.FHandle) Nfs.FHandle :=
  c ← gets rpc_connection_context;
  ctx ← orelse c None;
  root ← gets filesystem_dag_root;
  root ← orelse root None;
  cwd ← gets cwd_node;
  cwd ← orelse cwd None;
  follow_links SYMLINK_LEVELS_LIMIT command_name ctx start_file_fhandle start_file_type.
End repl.
