(* ===== verification/ReplHandlers.v ===== *)
(** The commands of the REPL: [src/repl/handlers]. A handler returns 0 on
    success and 1 on failure, after it has printed a message. *)
From S2P Require Import Prelude CStrings Messages Posix Permissions FileManagement Parsing.
From S2P Require Import RecordMarking RpcClient NfsClient FusePaths ReplDag ReplState.

Definition READDIR_BYTES_PER_RPC : Z := 50.
Definition READ_BYTES_PER_RPC : Z := 5000.
Definition WRITE_BYTES_PER_RPC : Z := 5000.

(** Bytes as text. *)
Definition text_of (l : list byte) : list char := map Ascii.ascii_of_byte l.
Definition bytes_of (l : list char) : list byte := map Ascii.byte_of_ascii l.

Section handlers.
Context {St OS : Type} `{Transports St} `{ClientCodec} `{Posix OS}.
(** The file system of the machine that the REPL runs on. *)
Variable local_files : St → OS.
(** Whether the allocation of a node and the one for a list of children
    succeed. *)
Variable memory : St → bool * bool.
(** [create_auth_sys_rpc_connection_context] and [free_rpc_connection_context]. *)
Variable create : string → Z → Z → St → option (option RpcConnectionContext * St).
Variable release : RpcConnectionContext → St → option St.
Import Nfs.

(** A handler. *)
Definition handler (A : Type) : Type := repl (St:=St) Z A.

Definition not_mounted : string := line "Error: No remote file system is currently mounted".
Definition invalid_result : string := line "Error: Invalid NFS procedure result received from the server".

(** The first lines of every handler but one. *)
Definition require_mounted {R} (r : R) : repl (St:=St) R unit :=
  mounted ← gets is_filesystem_mounted;
  if negb mounted then complain not_mounted r else mret tt.

(** [rpc_connection_context->credential->auth_sys] *)
Definition auth_sys {R} : repl (St:=St) R Rpc.AuthSysParams :=
  ctx ← context;
  credential ← deref (ctx_credential ctx);
  match Rpc.body credential with
  | Rpc.AUTH_BODY_AUTH_SYS (Some a) => mret a
  | _ => fault
  end.

(** * Creating and removing *)

Definition unset_time : option TimeVal := Some (mkTimeVal UINT64_MAX UINT64_MAX).

(** The arguments of CREATE and MKDIR. *)
Definition creation (name : string) (mode : Z) : handler CreateArgs :=
  dir ← cwd;
  a ← auth_sys;
  mret (mkCreateArgs (Some (name_in (fhandle dir) name))
    (Some (mkSAttr mode (Rpc.uid a) (Rpc.gid a) UINT64_MAX unset_time unset_time))).

Definition handle_touch (file_name : string) : handler Z :=
  require_mounted 1;;
  createargs ← creation file_name 420; (* 0644 *)
  ctx ← context;
  _ ← ok_results 1 Validation.validate_nfs_dir_op_res invalid_result
        (line "touch: Permission denied")
        (λ status, "Error: Failed to create a file in the current working directory with status " +:+ line status)
        (nfs_procedure_9_create_file (Some ctx) createargs);
  mret 0.

Definition handle_mkdir (directory_name : string) : handler Z :=
  require_mounted 1;;
  createargs ← creation directory_name UINT32_MAX;
  ctx ← context;
  _ ← ok_results 1 Validation.validate_nfs_dir_op_res invalid_result
        (line "mkdir: Permission denied")
        (λ status, "Error: Failed to create a directory in the current working directory with status " +:+ line status)
        (nfs_procedure_14_create_directory (Some ctx) createargs);
  mret 0.

Definition handle_rm (file_name : string) : handler Z :=
  require_mounted 1;;
  dir ← cwd;
  ctx ← context;
  ok_status 1 (line "rm: Permission denied")
    (λ status, "Error: Failed to remove a file in the current working directory with status " +:+ line status)
    (nfs_procedure_10_remove_file (Some ctx) (name_in (fhandle dir) file_name));;
  mret 0.

Definition handle_rmdir (directory_name : string) : handler Z :=
  require_mounted 1;;
  dir ← cwd;
  ctx ← context;
  ok_status 1 (line "rmdir: Permission denied")
    (λ status, "Error: Failed to remove a directory in the current working directory with status " +:+ line status)
    (nfs_procedure_15_remove_directory (Some ctx) (name_in (fhandle dir) directory_name));;
  mret 0.

(** * Changing the directory *)

(** The permission is checked on the files of this machine, at the path that
    the directory has on the server. *)
Definition check_local_permission (child_absolute_path directory_name : string) : repl (St:=St) (option Z) unit :=
  a ← auth_sys;
  s ← gets world;
  let status := check_execute_permission child_absolute_path (Rpc.uid a) (Rpc.gid a) (local_files s) in
  if status <? 0 then
    complain ("Error: Failed to check if client has execute permission on directory " +:+ child_absolute_path +:+
      " with status " +:+ line (decimal status)) (Some 1)
  else if status =? 1 then complain ("cd: Permission denied: " +:+ line directory_name) (Some 1)
  else mret tt.

(** The node for a directory below the current one, which becomes the current
    one. *)
Definition enter_child (child_absolute_path : string) (t : FType) (child_fhandle : FHandle)
    : repl (St:=St) (option Z) unit :=
  s ← gets world;
  child_node ← lift (λ g,
    let '(l, m) := create_dag_node (memory s).1 child_absolute_path t child_fhandle false (nodes g) in
    (l, set_nodes m g));
  (if bool_decide (child_node = None) then
     complain (line "Error: Failed to create a new filesystem DAG node") (Some 1)
   else mret tt);;
  cwd_node ← gets cwd_node;
  error_code ← attempt (λ g,
    '(e, m) ← add_child (memory s).2 cwd_node child_node (nodes g);
    Some (e, set_nodes m g));
  (if error_code >? 0 then
     complain (line "Error: Failed to add the new filesystem DAG node as a child of the parent directory") (Some 1)
   else mret tt);;
  modify (set_cwd child_node).

(** [None]: the function ends without a [return]. *)
Definition handle_cd (directory_name : string) : repl (St:=St) (option Z) (option Z) :=
  require_mounted (Some 1);;
  dir ← cwd;
  ctx ← context;
  diropok ← ok_results (Some 1) Validation.validate_nfs_dir_op_res invalid_result
    ("cd: Permission denied: " +:+ line directory_name)
    (λ status, "Error: Failed to enter the specified directory with status " +:+ line status)
    (nfs_procedure_4_look_up_file_name (Some ctx) (name_in (fhandle dir) directory_name));
  attributes ← deref (attributes diropok);
  t ← deref (fa_ftype attributes);
  (if decide (t ≠ NFDIR) then complain ("Error: Not a directory: " +:+ line directory_name) (Some 1) else mret tt);;
  return_if (String.eqb directory_name ".") (Some 0);;
  if String.eqb directory_name ".." then
    if is_root dir then return_ (Some 0) else modify (set_cwd (parent dir));; return_ (Some 0)
  else
    let child_absolute_path := get_file_absolute_path (absolute_path dir) directory_name in
    check_local_permission child_absolute_path directory_name;;
    file ← deref (file diropok);
    nfs_filehandle ← deref (nfs_filehandle file);
    enter_child child_absolute_path t (mkFHandle (Some nfs_filehandle));;
    mret None.

(** * Listing the directory *)

(** The names of a page and the cookie of its last entry. *)
Fixpoint collect (l : list DirectoryEntry) (names : list string) (cookie : Z) : handler (list string * Z) :=
  match l with
  | [] => mret (names, cookie)
  | e :: l =>
      name ← deref (de_name e);
      name ← deref (filename name);
      c ← deref (de_cookie e);
      collect l (names ++ [name]) (value c)
  end.

Fixpoint ls_loop (fuel : nat) (names : list string) (offset_cookie : Z) : handler (list string) :=
  match fuel with
  | O => fault
  | S fuel =>
      dir ← cwd;
      ctx ← context;
      readdirok ← ok_results 1 Validation.validate_nfs_read_dir_res invalid_result
        (line "ls: Permission denied")
        (λ status, "Error: Failed to read entries in cwd with status " +:+ line status)
        (nfs_procedure_16_read_from_directory (Some ctx)
          (mkReadDirArgs (Some (fhandle dir)) (Some (mkNfsCookie offset_cookie)) READDIR_BYTES_PER_RPC));
      '(names, offset_cookie) ← collect (entries readdirok) names offset_cookie;
      if eof readdirok !=? 0 then mret names else ls_loop fuel names offset_cookie
  end.

(** The names with blanks between them. *)
Fixpoint joined (names : list string) : string :=
  match names with
  | [] => ""
  | [n] => n
  | n :: names => n +:+ " " +:+ joined names
  end.

Definition handle_ls (fuel : nat) : handler Z :=
  require_mounted 1;;
  names ← ls_loop fuel [] 0;
  printf (line (joined names));;
  mret 0.

(** * Reading and writing files *)

(** The file that a name in the current directory leads to. *)
Definition find_file (command_name file_name : string) : handler FHandle :=
  dir ← cwd;
  ctx ← context;
  diropok ← ok_results 1 Validation.validate_nfs_dir_op_res
    (line "Error: Invalid NFS LOOKUP procedure result received from the server")
    (command_name +:+ line ": Permission denied")
    (λ status, "Error: Failed to lookup a file in the current working directory with status " +:+ line status)
    (nfs_procedure_4_look_up_file_name (Some ctx) (name_in (fhandle dir) file_name));
  attributes ← deref (attributes diropok);
  t ← deref (fa_ftype attributes);
  (if decide (t = NFDIR) then complain ("Error: Is a directory: " +:+ line file_name) 1 else mret tt);;
  '(start_file_fhandle, _) ← looked_up diropok;
  file_fhandle ← pointer (follow_symbolic_links command_name start_file_fhandle t);
  orelse file_fhandle 1.

(** [realloc(read_data, size)] on a buffer to which data will be appended:
    a size of 0 frees a buffer that exists and returns NULL. *)
Definition grow_buffer (read_data : option (list byte)) (some : list byte) : option (list byte) :=
  match read_data, some with
  | Some [], [] => None
  | _, _ => Some (default [] read_data ++ some)
  end.

(** The loop; [bytes_read] is the length of the data. Reading more bytes of a
    reply than it has is undefined. *)
Fixpoint read_all (fuel : nat) (ctx : RpcConnectionContext) (file_fhandle : FHandle)
    (read_data : option (list byte)) (file_size : Z) : handler (list byte) :=
  let bytes_read := Z.of_nat (length (default [] read_data)) in
  if bytes_read <? file_size then
    match fuel with
    | O => fault
    | S fuel =>
        readresbody ← ok_results 1 Validation.validate_nfs_read_res
          (line "Error: Invalid NFS READ procedure result received from the server")
          (line "cat: Permission denied")
          (λ status, "Error: Failed to read a file in the current working directory with status " +:+ line status)
          (nfs_procedure_6_read_from_file (Some ctx)
             (mkReadArgs (Some file_fhandle) (wrap32 bytes_read) READ_BYTES_PER_RPC 0));
        let nfsdata := rr_nfsdata readresbody in
        let some := take (Z.to_nat (len nfsdata)) (default [] (data nfsdata)) in
        (if Z.of_nat (length some) =? len nfsdata then mret tt else fault);;
        match grow_buffer read_data some with
        | None => complain (line "Error: Failed to allocate memory for the read data") 1
        | Some read_data =>
            attributes ← deref (rr_attributes readresbody);
            read_all fuel ctx file_fhandle (Some read_data) (fa_size attributes)
        end
    end
  else mret (default [] read_data).

(** What is printed ends at the first NUL. *)
Definition print_file (fuel : nat) (file_fhandle : FHandle) : handler Z :=
  ctx ← context;
  read_data ← read_all fuel ctx file_fhandle None READ_BYTES_PER_RPC;
  printf (of_chars (c_string (text_of read_data)));;
  printf nl;;
  mret 0.

Definition handle_cat (fuel : nat) (file_name : string) : handler Z :=
  require_mounted 1;;
  file_fhandle ← find_file "cat" file_name;
  print_file fuel file_fhandle.

Definition write_failed (status : string) : string :=
  "Error: Failed to write to a file in the current working directory with status " +:+ line status.

Definition size_failed (status : string) : string :=
  "Error: Failed to get file attributes of a file in the current working directory with status " +:+ line status.

(** The loop over pieces of at most 5000 bytes; every round writes at least
    one. *)
Fixpoint write_all (fuel : nat) (ctx : RpcConnectionContext) (file_fhandle : FHandle) (text : list byte)
    (original_file_size bytes_written : Z) : handler unit :=
  if bytes_written <? Z.of_nat (length text) then
    match fuel with
    | O => fault
    | S fuel =>
        let bytes_left := Z.of_nat (length text) - bytes_written in
        let n := if bytes_left <? WRITE_BYTES_PER_RPC then bytes_left else WRITE_BYTES_PER_RPC in
        let piece := take (Z.to_nat n) (drop (Z.to_nat bytes_written) text) in
        _ ← ok_results 1 Validation.validate_nfs_attr_stat
              (line "Error: Invalid NFS READ procedure result received from the server")
              (line "echo: Permission denied") write_failed
              (nfs_procedure_8_write_to_file (Some ctx)
                (mkWriteArgs (Some file_fhandle) 0 (wrap32 (wrap64 (original_file_size + bytes_written))) 0
                   (mkBinaryData n (Some piece))));
        write_all fuel ctx file_fhandle text original_file_size (bytes_written + n)
    end
  else mret tt.

(** The text goes behind the end of the file, with a newline in front. *)
Definition append_to_file (file_fhandle : FHandle) (text : string) : handler Z :=
  ctx ← context;
  attributes ← ok_results 1 Validation.validate_nfs_attr_stat
    (line "Error: Invalid NFS READ procedure result received from the server")
    (line "echo: Permission denied") size_failed
    (nfs_procedure_1_get_file_attributes (Some ctx) file_fhandle);
  let text_with_newline := bytes_of (newline :: chars text) in
  write_all (length text_with_newline) ctx file_fhandle text_with_newline (fa_size attributes) 0;;
  mret 0.

Definition handle_echo (text file_name : string) : handler Z :=
  require_mounted 1;;
  file_fhandle ← find_file "echo" file_name;
  append_to_file file_fhandle text.

(** * Mounting *)

(** The context of the previous mount, if there is one, and its directories
    are released. *)
Definition unmount {R} : repl (St:=St) R unit :=
  c ← gets rpc_connection_context;
  attempt (λ g, match c with
                | None => Some (tt, g)
                | Some ctx => s ← release ctx (world g); Some (tt, set_world s g)
                end);;
  attempt (λ g, m ← clean_up_dag (size (nodes g)) (filesystem_dag_root g) (nodes g);
                Some (tt, set_nodes m g)).

(** [printf(message); free_rpc_connection_context(ctx); return 1;] *)
Definition release_and_complain {A} (ctx : RpcConnectionContext) (message : string) : handler A :=
  printf message;;
  attempt (λ g, s ← release ctx (world g); Some (tt, set_world s g));;
  return_ 1.

Definition handle_mount (server_ip : string) (server_port : Z) (remote_absolute_path : string) : handler Z :=
  unmount;;
  modify (set_mounted None None None);;
  printf (line "Mounting NFS share...");;
  printf ("Server IP: " +:+ line server_ip);;
  printf ("Port: " +:+ line (decimal server_port));;
  printf ("Remote Path: " +:+ line (line remote_absolute_path));;
  transport ← gets chosen_transport_protocol;
  new_context ← attempt (λ g, '(c, s) ← create server_ip server_port transport (world g);
                              Some (c, set_world s g));
  ctx ← match new_context with
        | None => complain (line "Error: Failed to create AUTH_SYS Rpc connection context") 1
        | Some ctx => mret ctx
        end;
  '(status, fhstatus) ← remote (mount_procedure_1_add_mount_entry (Some ctx)
                          (Mount.mkDirPath (Some remote_absolute_path)));
  if status !=? 0 then release_and_complain ctx (invalid_reply status) else
  if Validation.validate_mount_fh_status fhstatus >? 0 then release_and_complain ctx invalid_result else
  fhstatus ← deref fhstatus;
  mnt_status ← deref (Mount.mnt_status fhstatus);
  if decide (mnt_status = Mount.MNTERR_ACCES) then
    release_and_complain ctx ("mount: Permission denied: " +:+ line remote_absolute_path)
  else if decide (mnt_status ≠ Mount.MNT_OK) then
    release_and_complain ctx ("Error: Failed to mount the NFS share with status " +:+ line (mount_stat_to_string mnt_status))
  else
  directory ← match Mount.fhstatus_body fhstatus with
              | Mount.FHSTATUS_BODY_DIRECTORY p => deref p
              | _ => fault
              end;
  nfs_filehandle ← deref (nfs_filehandle directory);
  s ← gets world;
  root ← lift (λ g,
    let '(l, m) := create_dag_node (memory s).1 remote_absolute_path NFDIR
                     (mkFHandle (Some nfs_filehandle)) true (nodes g) in
    (l, set_nodes m g));
  if bool_decide (root = None) then
    release_and_complain ctx (line "Error: Failed to create a new filesystem DAG node")
  else
  modify (set_mounted (Some ctx) root root);;
  mret 0.
End handlers.
