(* ===== verification/ReplCommands.v ===== *)
(** The commands a user types: the loop of [src/repl/repl.c], the menu in
    which the transport is chosen, and the prompt. *)
From Stdlib Require Import Strings.Ascii.
From S2P Require Import Prelude CStrings Messages Posix Parsing RecordMarking RpcClient NfsClient ReplDag ReplState ReplHandlers.

Definition BUFFER_SIZE : nat := 256.

(** * Command lines *)

(** What the loop makes of a line. *)
Inductive command :=
  | Mount_ (server_ip : string) (port_number : Z) (remote_path : string)
  | Ls
  | Cd (directory_name : string)
  | Touch (file_name : string)
  | Mkdir (directory_name : string)
  | Cat (file_name : string)
  | Echo (text file_name : string)
  | Rmdir (directory_name : string)
  | Rm (file_name : string)
  | Exit
  | Invalid (message : string).

(** The part of a line behind the [n] characters of a command's name. *)
Definition behind (n : nat) (input : list char) : list char := drop n input.

(** [strncmp(input, name, strlen(name)) == 0] *)
Definition starts_with (name : string) (input : list char) : bool := String.prefix name (of_chars input).

(** The commands with one argument. *)
Definition one_argument (input : list char) (name usage : string) (c : string → command) : command :=
  match sscanf (behind (String.length name) input) [Blank; Word] with
  | [argument] => c argument
  | _ => Invalid (line ("Error: Invalid '" +:+ name +:+ "' command. Correct usage: " +:+ usage))
  end.

Definition quote : char := "'"%char.

Definition parse_command (input : list char) : command :=
  let text := of_chars input in
  if String.eqb text "exit" then Exit
  else if starts_with "mount" input then
    match sscanf (behind 5 input) [Blank; Word; Blank; Word; Blank; Word] with
    | [server_ip; port_number_string; remote_path] =>
        let port_number := parse_port_number port_number_string in
        if port_number =? 0 then
          Invalid (line "Error: Invalid port number. Correct usage: mount <server_ip> <port> <remote_path>")
        else Mount_ server_ip port_number remote_path
    | _ => Invalid (line "Error: Invalid 'mount' command. Correct usage: mount <server_ip> <port> <remote_path>")
    end
  else if String.eqb text "ls" then Ls
  else if starts_with "cd" input then one_argument input "cd" "cd <directory name>" Cd
  else if starts_with "touch" input then one_argument input "touch" "touch <file name>" Touch
  else if starts_with "mkdir" input then one_argument input "mkdir" "mkdir <directory name>" Mkdir
  else if starts_with "cat" input then one_argument input "cat" "cat <file name>" Cat
  else if starts_with "echo" input then
    match sscanf (behind 4 input)
            [Blank; Literal quote; Until quote; Literal quote; Blank; Literal ">"; Literal ">"; Blank; Word] with
    | [text; file_name] => Echo text file_name
    | _ => Invalid (line "Error: Invalid 'echo' command. Correct usage: echo '<text>' >> <file name>")
    end
  else if starts_with "rmdir" input then one_argument input "rmdir" "rmdir  <directory name>" Rmdir
  else if starts_with "rm" input then one_argument input "rm" "rm  <file name>" Rm
  else Invalid (line ("Unrecognized command: '" +:+ text +:+ "'")).

Example parsed :
  parse_command (chars "mount 10.0.0.1 3000 /nfs_share") = Mount_ "10.0.0.1" 3000 "/nfs_share" ∧
  parse_command (chars "echo 'a  b' >> f") = Echo "a  b" "f" ∧
  parse_command (chars "rmdir d") = Rmdir "d" ∧ parse_command (chars "rm d") = Rm "d" ∧
  parse_command (chars "cdrom") = Cd "rom" ∧ parse_command (chars "ls ") = Invalid (line "Unrecognized command: 'ls '").
Proof. vm_compute. done. Qed.

(** * The menu *)

Definition UP_ARROW : char := "A"%char.
Definition DOWN_ARROW : char := "B"%char.
Definition ESCAPE : char := "027"%char.

(** Escape sequences of the terminal: colours, and the cursor [n] lines up. *)
Definition escape (code : string) : string := String ESCAPE ("[" +:+ code).
Definition KNRM : string := escape "0m".
Definition KRED : string := escape "31m".
Definition KGRN : string := escape "32m".
Definition KYLW : string := escape "33m".
Definition KBLU : string := escape "34m".
Definition cursor_up (n : Z) : string := escape (decimal n +:+ "A").

(** The lines that [print_transport_protocol_menu_choices] prints. *)
Definition print_transport_protocol_menu_choices (choices : list string) (highlighted_choice : Z) : list string :=
  [line "Use arrow keys to select the transport protocol, and press Enter to select:"] ++
  imap (λ i choice, if Z.of_nat i =? highlighted_choice then KRED +:+ choice +:+ line KNRM
                    else KNRM +:+ line choice) choices ++
  [cursor_up (Z.of_nat (length choices) - highlighted_choice)].

Definition clear_transport_protocol_menu (num_choices : nat) (highlighted_choice : Z) : list string :=
  [cursor_up (highlighted_choice + 1)] ++ replicate (num_choices + 1) (line (escape "K")) ++
  [cursor_up (Z.of_nat num_choices + 1)].

Definition choices : list string := ["TCP"; "QUIC"].

(** The loop of the menu: the keys that are pressed, up to the choice ([None]
    if it is not made), and what is printed so far. An escape takes two more
    characters with it. *)
Fixpoint transport_menu (highlighted_choice : Z) (keys : list char) (out : list string)
    : option (Z * list char * list string) :=
  match keys with
  | [] => None
  | ch :: keys =>
      let out := out ++ clear_transport_protocol_menu 2 highlighted_choice in
      if Ascii.eqb ch ESCAPE then
        match keys with
        | _ :: arrow :: keys =>
            let highlighted_choice :=
              if Ascii.eqb arrow UP_ARROW then (if highlighted_choice >? 0 then highlighted_choice - 1 else 0)
              else if Ascii.eqb arrow DOWN_ARROW then (if highlighted_choice <? 1 then highlighted_choice + 1 else highlighted_choice)
              else highlighted_choice in
            transport_menu highlighted_choice keys (out ++ print_transport_protocol_menu_choices choices highlighted_choice)
        | _ => None
        end
      else if Ascii.eqb ch newline then
        Some (if highlighted_choice =? 0 then TRANSPORT_PROTOCOL_TCP else TRANSPORT_PROTOCOL_QUIC, keys, out)
      else transport_menu highlighted_choice keys (out ++ print_transport_protocol_menu_choices choices highlighted_choice)
  end.

Definition display_transport_protocol_menu (keys : list char) (out : list string)
    : option (Z * list char * list string) :=
  transport_menu 0 keys (out ++ print_transport_protocol_menu_choices choices 0).

(** The command in blue, padded to 48 columns, and its explanation. *)
Definition explained (name : string) (explanation : string) : list string :=
  [KBLU +:+ name +:+ of_chars (replicate (48 - String.length name) " "%char); KNRM +:+ "- " +:+ line explanation].

Definition display_introduction : list string :=
  [line "NFS Client REPL"; line (line "Supported commands:")] ++
  explained "mount <server_ip> <port> <remote_path>" "mount a remote NFS share" ++
  explained "ls" "list all entries in the current working directory" ++
  explained "cd <directory name>" "change cwd to the given directory name which is in the current working directory" ++
  explained "touch <file name>" "create a file in the current working directory" ++
  explained "mkdir <directory name>" "create a directory in the current working directory" ++
  explained "cat <file name>" "print out contents of a file in the current working directory" ++
  explained "echo '<text>' >> <file name>" "appends the given text to the file in the current working directory" ++
  explained "rm '<file name>" "removes a file in the current working directory" ++
  explained "rmdir '<directory name>" "removes a directory in the current working directory" ++
  [nl +:+ "Type "; KBLU +:+ "exit"; KNRM +:+ line (line " to quit the REPL.")].

(** * The loop *)

Section loop.
Context {St OS : Type} `{Transports St} `{ClientCodec} `{Posix OS}.
Variable local_files : St → OS.
Variable memory : St → bool * bool.
Variable create : string → Z → Z → St → option (option RpcConnectionContext * St).
Variable release : RpcConnectionContext → St → option St.
(** How many rounds the loops of [ls] and [cat] may take. *)
Variable fuel : nat.

Definition display_prompt {R} : repl (St:=St) R unit :=
  transport ← gets chosen_transport_protocol;
  printf (KYLW +:+ "{" +:+ (if transport =? TRANSPORT_PROTOCOL_TCP then "TCP" else "QUIC") +:+ "}" +:+ KNRM +:+ " ");;
  mounted ← gets is_filesystem_mounted;
  (if negb mounted then printf (KRED +:+ "(no NFS share mounted)")
   else
     ctx ← context;
     address ← deref (server_ipv4_addr ctx);
     n ← cwd;
     printf (KRED +:+ "(" +:+ address +:+ ":" +:+ absolute_path n +:+ ")"));;
  printf (KGRN +:+ " >" +:+ KNRM +:+ " ").

(** The result of a handler is not looked at. *)
Definition perform {R} (c : command) : repl (St:=St) R unit :=
  match c with
  | Mount_ server_ip port_number remote_path =>
      _ ← call (handle_mount memory create release server_ip port_number remote_path); mret tt
  | Ls => _ ← call (handle_ls fuel); mret tt
  | Cd directory_name => _ ← call (handle_cd local_files memory directory_name); mret tt
  | Touch file_name => _ ← call (handle_touch file_name); mret tt
  | Mkdir directory_name => _ ← call (handle_mkdir directory_name); mret tt
  | Cat file_name => _ ← call (handle_cat fuel file_name); mret tt
  | Echo text file_name => _ ← call (handle_echo text file_name); mret tt
  | Rmdir directory_name => _ ← call (handle_rmdir directory_name); mret tt
  | Rm file_name => _ ← call (handle_rm file_name); mret tt
  | Exit => mret tt
  | Invalid message => printf message
  end.

(** The end of a session: the globals keep their values. *)
Definition clean_up {R} : repl (St:=St) R unit := unmount release.

(** The loop reads at least one character per round. 0: [exit]; 1: the input
    ends. *)
Fixpoint main_loop (rounds : nat) (input : list char) : repl (St:=St) Z Z :=
  match rounds with
  | O => fault
  | S rounds =>
      display_prompt;;
      match fgets BUFFER_SIZE input with
      | None => return_ 1
      | Some (buffer, input) =>
          match parse_command (strip_newline buffer) with
          | Exit => clean_up;; printf (line "Exiting REPL. Goodbye! ");; return_ 0
          | c => perform c;; main_loop rounds input
          end
      end
  end.

Definition main (input : list char) (g : Repl St) : option (Z * Repl St) :=
  match display_transport_protocol_menu input (stdout g) with
  | None => None
  | Some (transport, input, out) =>
      run (main_loop (S (length input)) input)
        (mkRepl (world g) None None None (nodes g) transport (out ++ display_introduction))
  end.
End loop.

(** * Command lines that are read back *)

(** A word, as [%s] reads it. *)
Definition word (s : string) : Prop :=
  s ≠ "" ∧ Forall (λ c, isspace c = false ∧ c ≠ NUL) (chars s).

(** A text between quotes. *)
Definition quotable (s : string) : Prop :=
  s ≠ "" ∧ Forall (λ c, c ≠ quote ∧ c ≠ newline ∧ c ≠ NUL) (chars s).

(** The commands that can be typed, and how. *)
Definition typed (c : command) : option string :=
  match c with
  | Mount_ server_ip port_number remote_path =>
      Some ("mount " +:+ server_ip +:+ " " +:+ decimal port_number +:+ " " +:+ remote_path)
  | Ls => Some "ls"
  | Cd d => Some ("cd " +:+ d)
  | Touch f => Some ("touch " +:+ f)
  | Mkdir d => Some ("mkdir " +:+ d)
  | Cat f => Some ("cat " +:+ f)
  | Echo text f => Some ("echo '" +:+ text +:+ "' >> " +:+ f)
  | Rmdir d => Some ("rmdir " +:+ d)
  | Rm f => Some ("rm " +:+ f)
  | Exit => Some "exit"
  | Invalid _ => None
  end.

Definition well_formed (c : command) : Prop :=
  match c with
  | Mount_ server_ip port_number remote_path => word server_ip ∧ 0 < port_number ≤ 65535 ∧ word remote_path
  | Cd a | Touch a | Mkdir a | Cat a | Rmdir a | Rm a => word a
  | Echo text f => quotable text ∧ word f
  | _ => True
  end.

Section scanning.
Implicit Types (l : list char).

Lemma word_chars s : word s → ∃ c w, chars s = c :: w ∧ isspace c = false ∧ Forall (λ c, negb (isspace c) = true) (c :: w).
Proof.
  intros [Hne Hw]. destruct s as [|c s]; [done|]. exists c, (chars s). split_and!; [done|by apply Forall_inv in Hw as []|].
  apply (Forall_impl _ _ _ Hw). by intros x [-> _].
Qed.

(** A word with something else behind it. *)
Lemma scan_word s rest format :
  word s → (∀ c, head rest = Some c → isspace c = true) →
  sscanf (" "%char :: chars s ++ rest) (Blank :: Word :: format) = s :: sscanf rest format.
Proof.
  intros Hs Hrest. destruct (word_chars s Hs) as (c & w & Hc & Hsp & Hall). cbn [sscanf drop_while].
  assert (isspace " "%char = true) as -> by done. rw Hc. cbn [app drop_while]. rw Hsp. cbn [drop_while]. rw Hsp.
  destruct (take_while_app (negb ∘ isspace) (c :: w) rest Hall) as [Ht Hd].
  { intros x Hx. by rw /= (Hrest x Hx). }
  cbn [app] in Ht, Hd. rw Ht Hd -Hc of_chars_chars. done.
Qed.

Lemma scan_last_word s : word s → sscanf (" "%char :: chars s) [Blank; Word] = [s].
Proof. intros Hs. rw -(app_nil_r (chars s)). by rw scan_word. Qed.

(** The commands with one argument. *)
Lemma one_argument_read input name usage c s :
  input = chars name ++ " "%char :: chars s → word s → one_argument input name usage c = c s.
Proof.
  intros -> Hs. rw /one_argument /behind -(chars_length name) drop_app_length. by rw scan_last_word.
Qed.

Lemma scan_echo text f :
  quotable text → word f →
  sscanf (" "%char :: quote :: chars text ++ quote :: chars " >> " ++ chars f)
    [Blank; Literal quote; Until quote; Literal quote; Blank; Literal ">"; Literal ">"; Blank; Word] = [text; f].
Proof.
  intros [Hne Ht] Hf. cbn [sscanf drop_while].
  assert (isspace " "%char = true ∧ isspace quote = false) as [-> ->] by done.
  cbn [drop_while]. rw Ascii.eqb_refl.
  destruct (take_while_app (λ x, negb (Ascii.eqb x quote)) (chars text) (quote :: chars " >> " ++ chars f)) as [Htk Hdr].
  { apply (Forall_impl _ _ _ Ht). intros x [Hx _]. apply negb_true_iff. by apply Ascii.eqb_neq. }
  { intros x [= <-]. done. }
  rw Htk Hdr. destruct text as [|c text]; [done|]. cbn [String.list_ascii_of_string]. f_equal; [by rw /= of_chars_chars|].
  pose proof (scan_last_word f Hf) as Hlast. cbn [sscanf] in Hlast |- *. exact Hlast.
Qed.
End scanning.

Lemma printable_line (c : command) (s : string) :
  typed c = Some s → well_formed c → Forall (λ x, x ≠ newline ∧ x ≠ NUL) (chars s).
Proof.
  assert (∀ w, word w → Forall (λ x, x ≠ newline ∧ x ≠ NUL) (chars w)) as Hword.
  { intros w [_ Hw]. apply (Forall_impl _ _ _ Hw). intros x [Hsp Hn]. split; [|done]. by intros ->. }
  assert (∀ z, 0 ≤ z → Forall (λ x, x ≠ newline ∧ x ≠ NUL) (chars (decimal z))) as Hdec.
  { intros z Hz. destruct (decimal_number z Hz) as (l & -> & Hl & _). apply (Forall_impl _ _ _ Hl).
    intros x Hx. by split; intros ->. }
  destruct c; intros [= <-] Hwf; rw ?chars_app; repeat (apply Forall_app; split);
    try (by repeat constructor); try (by apply Hword; naive_solver).
  - apply Hdec. destruct Hwf. lia.
  - destruct Hwf as [[_ Ht] _]. apply (Forall_impl _ _ _ Ht). naive_solver.
Qed.

(** What is typed is parsed back. *)
Lemma parse_typed c s : typed c = Some s → well_formed c → parse_command (chars s) = c.
Proof.
  destruct c as [ip port path| |a|a|a|a|text f|a|a| |]; intros [= <-] Hwf; try done;
    rw /parse_command /starts_with of_chars_chars.
  - rw (_ : String.eqb _ "exit" = false) // (_ : String.prefix "mount" _ = true) //. destruct Hwf as (Hip & Hp & Hpath).
    rw (_ : behind 5 _ = " "%char :: chars ip ++ " "%char :: chars (decimal port) ++ " "%char :: chars path).
    { rw !chars_app. done. }
    assert (word (decimal port)) as Hport.
    { destruct (decimal_number port) as (l & Hl & Hd & _ & Hne); [lia|]. split; [by intros E; rw E in Hl; subst|].
      rw Hl. apply (Forall_impl _ _ _ Hd). intros x Hx. split; [by apply digit_not_space|by intros ->]. }
    rw scan_word // ; [by intros ? [= <-]|]. rw scan_word //; [by intros ? [= <-]|]. rw scan_last_word //.
    rw port_decimal; [lia|]. by rw (proj2 (Z.eqb_neq port 0)); [lia|].
  - by apply (one_argument_read _ "cd").
  - by apply (one_argument_read _ "touch").
  - by apply (one_argument_read _ "mkdir").
  - by apply (one_argument_read _ "cat").
  - destruct Hwf as [Ht Hf].
    rw (_ : behind 4 _ = " "%char :: quote :: chars text ++ quote :: chars " >> " ++ chars f).
    { rw !chars_app. done. }
    by rw scan_echo.
  - by apply (one_argument_read _ "rmdir").
  - by apply (one_argument_read _ "rm").
Qed.

(** * Theorems *)

(** C34: every command with well-formed arguments that is typed on a
    line of at most 254 characters is read and understood: [fgets] and the cut at
    the newline give the line back and leave the rest of the input, and the
    parsing of the loop, prefix tests and [sscanf] formats, finds exactly this
    command with these arguments ([rmdir] before [rm], quoted texts with blanks,
    port numbers included). *)
Theorem typed_commands_are_understood c s rest
    (Hs : typed c = Some s) (Hwf : well_formed c) (Hlen : (String.length s ≤ 254)%nat) :
  ∃ buffer, fgets BUFFER_SIZE (chars s ++ newline :: rest) = Some (buffer, rest) ∧
    strip_newline buffer = chars s ∧ parse_command (strip_newline buffer) = c.
Proof.
  pose proof (printable_line c s Hs Hwf) as Hp.
  exists (chars s ++ [newline]).
  assert (strip_newline (chars s ++ [newline]) = chars s) as Hstrip.
  { rw /strip_newline /c_string.
    destruct (take_while_app (λ c, negb (Ascii.eqb c NUL)) (chars s ++ [newline]) []) as [Ht _]; [|done|].
    { apply Forall_app. split; [|by repeat constructor]. apply (Forall_impl _ _ _ Hp). intros x [_ Hx].
      apply negb_true_iff. by apply Ascii.eqb_neq. }
    rw app_nil_r in Ht. rw Ht.
    apply (take_while_app (λ c, negb (Ascii.eqb c newline)) (chars s) [newline]); [|by intros x [= <-]].
    apply (Forall_impl _ _ _ Hp). intros x [Hx _]. apply negb_true_iff. by apply Ascii.eqb_neq. }
  split_and!; [|done|by rw Hstrip; apply parse_typed].
  rw /fgets fgets_loop_line; [apply (Forall_impl _ _ _ Hp); naive_solver|rw chars_length /BUFFER_SIZE; lia|].
  by destruct (chars s).
Qed.

(** No line that is typed overflows the buffers of the REPL: the
    line that [fgets] reads, and every string that [sscanf] stores from any part
    of it with any of the formats, is shorter than the 256 bytes of the buffer it
    goes to, whether or not the command is complete. *)
Theorem arguments_fit_their_buffers input buffer rest n format
    (Hline : fgets BUFFER_SIZE input = Some (buffer, rest)) :
  (length buffer < BUFFER_SIZE)%nat ∧
  Forall (λ argument, String.length argument < BUFFER_SIZE)%nat (sscanf (behind n (strip_newline buffer)) format).
Proof.
  pose proof (fgets_length 255 _ _ _ Hline) as Hb.
  split; [rw /BUFFER_SIZE; lia|].
  assert (length (behind n (strip_newline buffer)) ≤ 255)%nat as Hs.
  { rw /behind length_drop /strip_newline /c_string.
    pose proof (take_while_length (λ c, negb (Ascii.eqb c newline)) (take_while (λ c, negb (Ascii.eqb c NUL)) buffer)).
    pose proof (take_while_length (λ c, negb (Ascii.eqb c NUL)) buffer). lia. }
  apply (Forall_impl _ _ _ (sscanf_length _ format 255 Hs)). intros x Hx. rw /BUFFER_SIZE. lia.
Qed.
