(* ===== verification/ReplSafety.v ===== *)
(** The state of the REPL through a session: which commands change what, the
    invariant of the directory nodes, and that commands end.

    The abstract view of the current working directory is a stack of paths and
    handles: [mount] starts a new one, [cd] pushes and pops. *)
From S2P Require Import Prelude CStrings Messages Posix Permissions FileManagement Parsing.
From S2P Require Import RecordMarking RpcClient NfsClient FusePaths ReplDag ReplState ReplHandlers ReplCommands.

(** * What a command leaves alone *)

(** The same globals and nodes; the world and the output may differ. *)
Definition same {St} (g g' : Repl St) : Prop :=
  rpc_connection_context g' = rpc_connection_context g ∧
  filesystem_dag_root g' = filesystem_dag_root g ∧ cwd_node g' = cwd_node g ∧
  nodes g' = nodes g ∧ chosen_transport_protocol g' = chosen_transport_protocol g.

#[global] Instance same_preorder {St} : PreOrder (@same St).
Proof. split; [done|]. intros g1 g2 g3 (?&?&?&?&?) (?&?&?&?&?). split_and!; congruence. Qed.

Definition framed {St R A} (m : repl (St:=St) R A) : Prop :=
  ∀ g, wlp m (λ _, same g) (λ _, same g) g.

Create HintDb framed discriminated.

Section framed.
Context {St : Type}.
Implicit Types (g : Repl St).

Lemma wlp_mono {S R A} (m : prog S R A) (Q Q' : A → S → Prop) (E E' : R → S → Prop) s :
  wlp m Q E s → (∀ a s', Q a s' → Q' a s') → (∀ r s', E r s' → E' r s') → wlp m Q' E' s.
Proof. rw /wlp. destruct (m s); auto. Qed.

Lemma wlp_call {S R T} (body : prog S T T) (Q : T → S → Prop) (E : R → S → Prop) s :
  wlp body Q Q s → wlp (call body) Q E s.
Proof. rw /wlp /call. by destruct (body s). Qed.

Lemma wlp_attempt {S R A} (f : S → option (A * S)) (Q : A → S → Prop) (E : R → S → Prop) s :
  (∀ a s', f s = Some (a, s') → Q a s') → wlp (attempt f) Q E s.
Proof. rw /wlp /attempt. destruct (f s) as [[]|]; auto. Qed.

(** Steps whose outcome is known. *)
Lemma wlp_val {S R A B} (m : prog S R A) (k : A → prog S R B) (Q : B → S → Prop) (E : R → S → Prop) s a s1 :
  m s = Val a s1 → wlp (k a) Q E s1 → wlp (m ≫= k) Q E s.
Proof. intros Hm. by rw /wlp (bind_val _ _ _ _ _ Hm). Qed.

Lemma wlp_ret {S R A B} (m : prog S R A) (k : A → prog S R B) (Q : B → S → Prop) (E : R → S → Prop) s r s1 :
  m s = Ret r s1 → E r s1 → wlp (m ≫= k) Q E s.
Proof. intros Hm. by rw /wlp (bind_ret _ _ _ _ _ Hm). Qed.

Lemma framed_mret {R A} (a : A) : framed (St:=St) (R:=R) (mret a).
Proof. intros g. done. Qed.
Lemma framed_return {R A} (r : R) : framed (St:=St) (A:=A) (return_ r).
Proof. intros g. done. Qed.
Lemma framed_fault {R A} : framed (St:=St) (R:=R) (A:=A) fault.
Proof. intros g. done. Qed.
Lemma framed_gets {R A} (f : Repl St → A) : framed (R:=R) (gets f).
Proof. intros g. done. Qed.
Lemma framed_deref {R A} (o : option A) : framed (St:=St) (R:=R) (deref o).
Proof. intros g. by destruct o. Qed.
Lemma framed_orelse {R A} (o : option A) (r : R) : framed (St:=St) (orelse o r).
Proof. intros g. by destruct o. Qed.
Lemma framed_return_if {R} b (r : R) : framed (St:=St) (return_if b r).
Proof. intros g. by destruct b. Qed.
Lemma framed_printf {R} t : framed (St:=St) (R:=R) (printf t).
Proof. intros g. done. Qed.

Lemma framed_bind {R A B} (m : repl (St:=St) R A) (k : A → repl R B) :
  framed m → (∀ a, framed (k a)) → framed (m ≫= k).
Proof.
  intros Hm Hk g. apply wlp_bind. eapply wlp_mono; [apply Hm| |done].
  intros a g1 H1. eapply wlp_mono; [apply Hk|..]; intros; by trans g1.
Qed.

Lemma framed_call {R T} (body : repl (St:=St) T T) : framed body → framed (R:=R) (call body).
Proof. intros Hb g. apply wlp_call, Hb. Qed.

Lemma framed_remote {R X} (m : prog St (Z * option X) (Z * option X)) : framed (R:=R) (remote m).
Proof. intros g. rw /wlp /remote. by destruct (run m (world g)) as [[]|]. Qed.
End framed.

#[export] Hint Resolve framed_mret framed_return framed_fault framed_gets framed_deref framed_orelse
  framed_return_if framed_printf framed_remote : framed.

(** Walk through a computation that is put together from framed parts. *)
Ltac frame_step :=
  lazymatch goal with
  | |- framed (mbind _ _) => apply framed_bind; [|intros]
  | |- framed (call _) => apply framed_call
  | |- framed (match ?x with _ => _ end) => destruct x
  | |- framed (let '(_, _) := ?x in _) => destruct x
  | |- framed _ => solve [auto with framed]
  end; cbv beta.
Ltac frame_auto := repeat frame_step.

Section framed_handlers.
Context {St : Type}.

Lemma framed_complain {R A} message (r : R) : framed (St:=St) (A:=A) (complain message r).
Proof. rw /complain. frame_auto. Qed.
#[local] Hint Resolve framed_complain : framed.

Lemma framed_node_at {R} l : framed (St:=St) (R:=R) (node_at l).
Proof. rw /node_at. frame_auto. Qed.
#[local] Hint Resolve framed_node_at : framed.

Lemma framed_cwd {R} : framed (St:=St) (R:=R) cwd.
Proof. rw /cwd. frame_auto. Qed.
Lemma framed_context {R} : framed (St:=St) (R:=R) context.
Proof. rw /context. frame_auto. Qed.

Lemma framed_reply {R X} (r : R) (m : prog St (Z * option X) (Z * option X)) : framed (reply r m).
Proof. rw /reply. frame_auto. Qed.
#[local] Hint Resolve framed_reply : framed.

Lemma framed_ok_results {R T} (r : R) validate invalid denied failed
    (m : prog St (Z * option (Nfs.Res T)) (Z * option (Nfs.Res T))) :
  framed (ok_results r validate invalid denied failed m).
Proof. rw /ok_results. frame_auto. Qed.

Lemma framed_ok_status {R} (r : R) denied failed (m : prog St (Z * option Nfs.Stat) (Z * option Nfs.Stat)) :
  framed (ok_status r denied failed m).
Proof. rw /ok_status. frame_auto. Qed.

Lemma framed_looked_up {R} ok : framed (St:=St) (R:=R) (looked_up ok).
Proof. rw /looked_up. frame_auto. Qed.
End framed_handlers.

#[export] Hint Resolve framed_complain framed_node_at framed_cwd framed_context framed_reply framed_ok_results
  framed_ok_status framed_looked_up : framed.

Section framed_commands.
Context {St OS : Type} `{Transports St} `{ClientCodec} `{Posix OS}.

Lemma framed_resolve_components command ctx path h t l :
  framed (St:=St) (ReplState.resolve_components command ctx path h t l).
Proof. revert h t. induction l as [|n l IH]; intros h t; simpl; frame_auto. Qed.
#[local] Hint Resolve framed_resolve_components : framed.

Lemma framed_resolve_path command path : framed (St:=St) (ReplState.resolve_path command path).
Proof. rw /ReplState.resolve_path. frame_auto. Qed.
#[local] Hint Resolve framed_resolve_path : framed.

Lemma framed_pointer {R X} (m : repl (St:=St) (option X) X) : framed m → framed (R:=R) (pointer m).
Proof. intros Hm. rw /pointer. frame_auto. Qed.
#[local] Hint Resolve framed_pointer : framed.

Lemma framed_follow_links levels command ctx h t : framed (St:=St) (follow_links levels command ctx h t).
Proof. revert h t. induction levels as [|n IH]; intros h t; simpl; frame_auto. Qed.
#[local] Hint Resolve framed_follow_links : framed.

Lemma framed_follow_symbolic_links command h t : framed (St:=St) (follow_symbolic_links command h t).
Proof. rw /follow_symbolic_links. frame_auto. Qed.
#[local] Hint Resolve framed_follow_symbolic_links : framed.

Lemma framed_require_mounted {R} (r : R) : framed (St:=St) (require_mounted r).
Proof. rw /require_mounted. frame_auto. Qed.
#[local] Hint Resolve framed_require_mounted : framed.

Lemma framed_auth_sys {R} : framed (St:=St) (R:=R) auth_sys.
Proof. rw /auth_sys. frame_auto. Qed.
#[local] Hint Resolve framed_auth_sys : framed.

Lemma framed_creation name mode : framed (St:=St) (creation name mode).
Proof. rw /creation. frame_auto. Qed.
#[local] Hint Resolve framed_creation : framed.

Lemma framed_check_local_permission local_files path name :
  framed (St:=St) (check_local_permission (OS:=OS) local_files path name).
Proof. rw /check_local_permission. frame_auto. Qed.

Lemma framed_collect l names cookie : framed (St:=St) (collect l names cookie).
Proof. revert names cookie. induction l as [|e l IH]; intros names cookie; simpl; frame_auto. Qed.
#[local] Hint Resolve framed_collect : framed.

Lemma framed_ls_loop fuel names cookie : framed (St:=St) (ls_loop fuel names cookie).
Proof. revert names cookie. induction fuel as [|n IH]; intros names cookie; simpl; frame_auto. Qed.
#[local] Hint Resolve framed_ls_loop : framed.

Lemma framed_find_file command name : framed (St:=St) (find_file command name).
Proof. rw /find_file. frame_auto. Qed.
#[local] Hint Resolve framed_find_file : framed.

Lemma framed_read_all fuel ctx h d size : framed (St:=St) (read_all fuel ctx h d size).
Proof. revert d size. induction fuel as [|n IH]; intros d size; simpl; frame_auto. Qed.
#[local] Hint Resolve framed_read_all : framed.

Lemma framed_print_file fuel h : framed (St:=St) (print_file fuel h).
Proof. rw /print_file. frame_auto. Qed.
#[local] Hint Resolve framed_print_file : framed.

Lemma framed_write_all fuel ctx h text size n : framed (St:=St) (write_all fuel ctx h text size n).
Proof. revert n. induction fuel as [|k IH]; intros n; simpl; frame_auto. Qed.
#[local] Hint Resolve framed_write_all : framed.

Lemma framed_append_to_file h text : framed (St:=St) (append_to_file h text).
Proof. rw /append_to_file. frame_auto. Qed.
#[local] Hint Resolve framed_append_to_file : framed.

Lemma framed_display_prompt {R} : framed (St:=St) (R:=R) display_prompt.
Proof. rw /display_prompt. frame_auto. Qed.

(** The commands that only talk to the server. *)
Definition only_asks (c : command) : bool :=
  match c with Mount_ _ _ _ | Cd _ => false | _ => true end.

Lemma framed_perform {R} local_files memory create release fuel c :
  only_asks c = true → framed (St:=St) (R:=R) (perform (OS:=OS) local_files memory create release fuel c).
Proof.
  destruct c; try done; intros _; simpl; try (apply framed_bind; [apply framed_call|by intros; apply framed_mret]).
  - rw /handle_ls. frame_auto.
  - rw /handle_touch. frame_auto.
  - rw /handle_mkdir. frame_auto.
  - rw /handle_cat. frame_auto.
  - rw /handle_echo. frame_auto.
  - rw /handle_rmdir. frame_auto.
  - rw /handle_rm. frame_auto.
Qed.
End framed_commands.

#[export] Hint Resolve framed_resolve_components framed_resolve_path framed_follow_links
  framed_follow_symbolic_links framed_require_mounted framed_auth_sys framed_creation
  framed_check_local_permission framed_display_prompt : framed.

(** * The invariant *)

(** A context whose members the REPL may read: its address and its AUTH_SYS
    credential are there. *)
Definition usable (ctx : RpcConnectionContext) : Prop :=
  is_Some (server_ipv4_addr ctx) ∧
  ∃ credential a, ctx_credential ctx = Some credential ∧ Rpc.body credential = Rpc.AUTH_BODY_AUTH_SYS (Some a).

(** Nothing is mounted, or there are a context and a tree of nodes in which
    the current directory is. *)
Definition repl_ok {St} (g : Repl St) : Prop :=
  match rpc_connection_context g, filesystem_dag_root g, cwd_node g with
  | None, None, None => True
  | Some ctx, Some root, Some l => usable ctx ∧ dag (nodes g) root l
  | _, _, _ => False
  end.

(** The current directory and the ones above it up to the mounted one; empty
    when nothing is mounted. *)
Definition located {St} (g : Repl St) (st : list (string * Nfs.FHandle)) : Prop :=
  match cwd_node g with
  | None => st = []
  | Some l => ancestors (nodes g) l st
  end.

Section invariant.
Context {St OS : Type} `{Transports St} `{ClientCodec} `{Posix OS}.
Context (local_files : St → OS) (memory : St → bool * bool).
Context (create : string → Z → Z → St → option (option RpcConnectionContext * St)).
Context (release : RpcConnectionContext → St → option St).
Implicit Types (g : Repl St).

Lemma same_ok g g' : same g g' → repl_ok g → repl_ok g'.
Proof. intros (Hc & Hr & Hw & Hn & _). by rw /repl_ok Hc Hr Hw Hn. Qed.

Lemma same_located g g' st : same g g' → located g st → located g' st.
Proof. intros (_ & _ & Hw & Hn & _). by rw /located Hw Hn. Qed.

(** ** The specification: what a command makes of the stack *)

(** The results of a procedure that were valid and successful, and the world
    behind the call. *)
Definition ok_answer {T} (validate : option (Nfs.Res T) → option Z)
    (m : prog St (Z * option (Nfs.Res T)) (Z * option (Nfs.Res T))) (s : St) : option (T * St) :=
  match run m s with
  | Some ((status, Some res), s') =>
      if status !=? 0 then None else
      match validate (Some res), Nfs.body res with
      | Some bad, Nfs.BODY_OK (Some p) =>
          if (bad >? 0) || negb (bool_decide (Nfs.nfs_status res = Some Nfs.NFS_OK)) then None else Some (p, s')
      | _, _ => None
      end
  | _ => None
  end.

(** The file of that path on the machine of the REPL lets the user of the
    credential in. *)
Definition lets_in (ctx : RpcConnectionContext) (path : string) (s : St) : bool :=
  match Rpc.body <$> ctx_credential ctx with
  | Some (Rpc.AUTH_BODY_AUTH_SYS (Some a)) =>
      let status := check_execute_permission path (Rpc.uid a) (Rpc.gid a) (local_files s) in
      negb (status <? 0) && negb (status =? 1)
  | _ => false
  end.

(** [cd]: the server must know the name as a directory. Then [.] stays, [..]
    pops unless there is only the mounted directory, and any other name is pushed
    with its path and the handle that LOOKUP returned, if the local machine lets
    the user in and there is memory for a node. *)
Definition cd_stack (d : string) g (st : list (string * Nfs.FHandle)) : list (string * Nfs.FHandle) :=
  match st, rpc_connection_context g with
  | (path, h) :: up, Some ctx =>
      match ok_answer Validation.validate_nfs_dir_op_res
              (nfs_procedure_4_look_up_file_name (Some ctx) (name_in h d)) (world g) with
      | Some (ok, s) =>
          if negb (bool_decide (Nfs.attributes ok ≫= Nfs.fa_ftype = Some Nfs.NFDIR)) then st
          else if String.eqb d "." then st
          else if String.eqb d ".." then match up with [] => st | _ => up end
          else
            let child := get_file_absolute_path path d in
            match Nfs.file ok ≫= Nfs.nfs_filehandle with
            | Some fh => if lets_in ctx child s && (memory s).1 then (child, Nfs.mkFHandle (Some fh)) :: st else st
            | None => st
            end
      | None => st
      end
  | _, _ => st
  end.

(** [mount]: only the directory, with the handle that MNT returned; nothing when
    the connection, MNT or the allocation of the node fails. *)
Definition mount_stack (ip : string) (port : Z) (path : string) g : list (string * Nfs.FHandle) :=
  match (match rpc_connection_context g with None => Some (world g) | Some ctx => release ctx (world g) end)
        ≫= create ip port (chosen_transport_protocol g) with
  | Some (Some ctx, s) =>
      match run (mount_procedure_1_add_mount_entry (Some ctx) (Mount.mkDirPath (Some path))) s with
      | Some ((status, Some f), s) =>
          if (status !=? 0) || (Validation.validate_mount_fh_status (Some f) >? 0) ||
             negb (bool_decide (Mount.mnt_status f = Some Mount.MNT_OK)) || negb (memory s).1 then []
          else match Mount.fhstatus_body f with
               | Mount.FHSTATUS_BODY_DIRECTORY (Some dir) =>
                   match Nfs.nfs_filehandle dir with
                   | Some fh => [(path, Nfs.mkFHandle (Some fh))]
                   | None => []
                   end
               | _ => []
               end
      | _ => []
      end
  | _ => []
  end.

Definition stack_after (c : command) g (st : list (string * Nfs.FHandle)) : list (string * Nfs.FHandle) :=
  match c with
  | Cd d => cd_stack d g st
  | Mount_ ip port path => mount_stack ip port path g
  | _ => st
  end.

(** The goal of every command. *)
Definition good_end (st : list (string * Nfs.FHandle)) g : Prop := repl_ok g ∧ located g st.

Lemma good_end_same st g g' : repl_ok g → located g st → same g g' → good_end st g'.
Proof. intros Hok Hst Hs. split; [by apply (same_ok g)|by apply (same_located g)]. Qed.

Lemma mounted_cases g :
  repl_ok g →
  (is_filesystem_mounted g = false ∧ cwd_node g = None ∧ filesystem_dag_root g = None ∧ rpc_connection_context g = None) ∨
  (is_filesystem_mounted g = true ∧
   ∃ ctx root l, rpc_connection_context g = Some ctx ∧ filesystem_dag_root g = Some root ∧ cwd_node g = Some l ∧
     usable ctx ∧ dag (nodes g) root l).
Proof.
  rw /repl_ok /is_filesystem_mounted.
  destruct (rpc_connection_context g) as [ctx|], (filesystem_dag_root g) as [r|], (cwd_node g) as [l|]; try done.
  - intros [Hu Hd]. right. split; [done|]. by exists ctx, r, l.
  - intros _. by left.
Qed.

Lemma located_exists g : repl_ok g → ∃ st, located g st.
Proof.
  intros Hok. destruct (mounted_cases g Hok) as [(_ & Hw & _)|(_ & ctx & root & l & _ & _ & Hw & _ & Hdag)];
    rw /located Hw; [eauto|]. destruct (dag_parent _ _ _ Hdag) as (n & Hn & Hup).
  destruct (is_root n); [eauto|]. destruct Hup as (p & st & _ & _ & _ & Hst). eauto.
Qed.

(** Parts of a command that are framed can be skipped. *)
Lemma wlp_framed g0 {R A B} (m : repl (St:=St) R A) (k : A → repl R B) (Q : B → Repl St → Prop) (E : R → Repl St → Prop) g :
  same g0 g → framed m → (∀ r g', same g0 g' → E r g') → (∀ a g', same g0 g' → wlp (k a) Q E g') →
  wlp (m ≫= k) Q E g.
Proof.
  intros Hg Hm HE Hk. apply wlp_bind. eapply wlp_mono; [apply Hm|..]; intros; [apply Hk|apply HE]; by trans g.
Qed.

Lemma require_mounted_unmounted {R} (r : R) g :
  is_filesystem_mounted g = false → require_mounted r g = Ret r (print not_mounted g).
Proof. intros Hm. by rw /require_mounted /mbind /prog_bind /= Hm. Qed.

Lemma require_mounted_mounted {R} (r : R) g : is_filesystem_mounted g = true → require_mounted r g = Val tt g.
Proof. intros Hm. by rw /require_mounted /mbind /prog_bind /= Hm. Qed.

Lemma cwd_val {R} g l n : cwd_node g = Some l → nodes g !! l = Some n → cwd (R:=R) g = Val n g.
Proof. intros Hl Hn. by rw /cwd /node_at /mbind /prog_bind /= Hl /= Hn. Qed.

(** ** Changing the directory *)

Hypothesis realloc_succeeds : ∀ s, (memory s).2 = true.

Lemma enter_child_good path child g root l st :
  filesystem_dag_root g = Some root → cwd_node g = Some l → repl_ok g → ancestors (nodes g) l st →
  let st' := if (memory (world g)).1 then (path, child) :: st else st in
  wlp (enter_child memory path Nfs.NFDIR child) (λ _, good_end st') (λ _, good_end st') g.
Proof.
  intros Hr Hl Hok Hst.
  destruct (rpc_connection_context g) as [ctx|] eqn:Hctx; [|by rw /repl_ok Hctx Hr in Hok].
  pose proof Hok as Hok'. rw /repl_ok Hctx Hr Hl in Hok'. destruct Hok' as [Hu Hdag].
  destruct (dag_enter (nodes g) root l path child Hdag) as (c & m1 & m2 & Hcreate & Hadd & Hdag' & _ & Hanc).
  cbv zeta. rw /enter_child /wlp /mbind /prog_bind /= /lift /=.
  destruct ((memory (world g)).1); [|by apply (good_end_same st g); try done; rw /located Hl].
  rw Hcreate /= realloc_succeeds /attempt Hl /= Hadd /=. split; [by rw /repl_ok /= Hctx Hr|by apply Hanc].
Qed.

(** Skip one framed part: its result and the state behind it. *)
Ltac skip_part a g' Hs :=
  match goal with Hall : ∀ g', same ?g g' → _ |- _ =>
    apply (wlp_framed g); [done|auto with framed|eauto|]; intros a g' Hs
  end.

(** The results of a procedure. *)
Lemma wlp_ok_results {R T} (r : R) validate invalid denied failed m (Q : T → Repl St → Prop) (E : R → Repl St → Prop) g :
  (∀ p s, ok_answer validate m (world g) = Some (p, s) → Q p (set_world s g)) →
  (ok_answer validate m (world g) = None → ∀ g', same g g' → E r g') →
  wlp (ok_results r validate invalid denied failed m) Q E g.
Proof.
  rw /ok_results /reply /remote /complain /ok_answer /wlp /mbind /prog_bind /=. intros HQ HE.
  destruct (run m (world g)) as [[[status res] s]|]; [|done].
  destruct (status !=? 0); [simpl; apply HE; by destruct res|]. destruct res as [res|]; [|done]. simpl.
  destruct (validate (Some res)) as [bad|]; [|done]. simpl. destruct (bad >? 0); simpl in HQ, HE |- *.
  { apply HE; [by repeat case_match|done]. }
  destruct (Nfs.nfs_status res) as [stat|]; [|done]. simpl.
  assert (stat ≠ Nfs.NFS_OK → ∀ g', same g g' → E r g') as Hno.
  { intros Hne. apply HE. rw bool_decide_false; [congruence|]. by repeat case_match. }
  destruct (decide (stat = Nfs.NFSERR_ACCES)) as [->|Ha]; [by apply Hno|].
  destruct (decide (stat = Nfs.NFS_OK)) as [->|Hne]; [|by apply Hno].
  destruct (Nfs.body res) as [|[p|]|]; try done. by apply HQ.
Qed.

(** The check on the local machine. *)
Lemma check_local_permission_good path d g ctx :
  rpc_connection_context g = Some ctx →
  wlp (check_local_permission local_files path d)
    (λ _ g', g' = g ∧ lets_in ctx path (world g) = true)
    (λ _ g', same g g' ∧ lets_in ctx path (world g) = false) g.
Proof.
  intros Hctx. rw /check_local_permission /auth_sys /context /lets_in /wlp /mbind /prog_bind /= Hctx /=.
  destruct (ctx_credential ctx) as [c|]; [|done]. simpl. destruct (Rpc.body c) as [| |[a|]]; try done. simpl.
  destruct (_ <? 0); [done|]. destruct (_ =? 1); done.
Qed.

Lemma handle_cd_good d g st :
  repl_ok g → located g st →
  wlp (handle_cd local_files memory d) (λ _, good_end (cd_stack d g st)) (λ _, good_end (cd_stack d g st)) g.
Proof.
  intros Hok Hst. pose proof (good_end_same st g) as Hsame. specialize (λ g', Hsame g' Hok Hst).
  rw /handle_cd /cd_stack. destruct (mounted_cases g Hok) as [(Hm & Hw & _ & Hc)|(Hm & ctx & root & l & Hctx & Hr & Hl & Hu & Hdag)].
  { apply (wlp_ret _ _ _ _ _ _ _ (require_mounted_unmounted (Some 1) g Hm)). rw Hc. destruct st as [|[]]; by apply Hsame. }
  apply (wlp_val _ _ _ _ _ _ _ (require_mounted_mounted (Some 1) g Hm)).
  destruct (dag_parent _ _ _ Hdag) as (n & Hn & Hup). apply (wlp_val _ _ _ _ _ _ _ (cwd_val g l n Hl Hn)).
  rw Hctx. apply (wlp_val _ _ _ _ g ctx g); [by rw /context /mbind /prog_bind /= Hctx|].
  pose proof Hst as Hanc. rw /located Hl in Hanc.
  destruct (ancestors_top _ _ _ Hanc) as (n' & up & Hn' & ->). simplify_eq. apply wlp_bind, wlp_ok_results; [|by intros ->].
  intros ok s ->. set (g1 := set_world s g).
  assert (∀ g', same g1 g' → same g g') as Hg1 by (intros g' Hs; by trans g1).
  destruct (Nfs.attributes ok) as [at_|]; [|done]. eapply wlp_val; [done|].
  destruct (Nfs.fa_ftype at_) as [ft|] eqn:Hft; [|done]. eapply wlp_val; [done|]. rw /= Hft.
  destruct (decide (ft ≠ Nfs.NFDIR)) as [Ht|Ht%dec_stable].
  { rw bool_decide_false; [congruence|]. eapply wlp_ret; [done|]. by apply Hsame, Hg1. }
  subst ft. eapply wlp_val; [done|]. rw bool_decide_true //=.
  destruct (String.eqb_spec d ".") as [->|Hd1]; [by apply Hsame, Hg1|]. apply (wlp_val _ _ _ _ g1 tt g1); [done|].
  destruct (String.eqb_spec d "..") as [->|Hd2].
  - inversion Hanc as [l' n0 Hn0 Hroot|l' n0 p st' Hn0 Hroot Hp Hanc']; simplify_eq; rw Hroot in Hup |- *.
    { by apply Hsame, Hg1. }
    destruct Hup as (p' & st' & Hp' & Hdag' & Hanc2 & _). simplify_eq. rw Hp /wlp /mbind /prog_bind /=.
    destruct (ancestors_top _ _ _ Hanc') as (n2 & up2 & _ & ->). split; [by rw /repl_ok /= Hctx Hr|done].
  - cbv zeta. apply wlp_bind. eapply wlp_mono; [by apply (check_local_permission_good _ _ g1 ctx)|..]; simpl; last first.
    { intros r g' [Hs Hin]. change (world g1) with s in Hin. rw Hin. destruct (_ ≫= _); by apply Hsame, Hg1. }
    intros _ g' [-> Hin]. change (world g1) with s in Hin. rw Hin.
    destruct (Nfs.file ok) as [f|]; [|done]. eapply wlp_val; [done|]. simpl.
    destruct (Nfs.nfs_filehandle f) as [fh|]; [|done]. eapply wlp_val; [done|]. simpl.
    pose proof (enter_child_good (get_file_absolute_path (absolute_path n) d) (Nfs.mkFHandle (Some fh)) g1 root l _ Hr Hl
      (same_ok g g1 (Hg1 g1 ltac:(done)) Hok) Hanc) as Henter.
    apply wlp_bind. eapply wlp_mono; [exact Henter|intros ? ? Hend; exact Hend..].
Qed.

(** ** Mounting *)

Hypothesis creates_usable : ∀ ip port transport s ctx s',
  create ip port transport s = Some (Some ctx, s') → usable ctx.

Lemma framed_world {R A} (f : St → option (A * St)) :
  framed (R:=R) (attempt (λ g, '(a, s) ← f (world g); Some (a, set_world s g))).
Proof. intros g. apply wlp_attempt. intros a g' Hf. by destruct (f (world g)) as [[]|]; simplify_eq/=. Qed.

Lemma framed_release {R} ctx :
  framed (R:=R) (attempt (λ g, s ← release ctx (world g); Some (tt, set_world s g))).
Proof. intros g. apply wlp_attempt. intros a g' Hf. by destruct (release ctx (world g)); simplify_eq/=. Qed.
#[local] Hint Resolve framed_release : framed.

Lemma framed_release_and_complain {A} ctx message : framed (A:=A) (release_and_complain release ctx message).
Proof. rw /release_and_complain. frame_auto. Qed.
#[local] Hint Resolve framed_release_and_complain : framed.

Lemma wlp_framed_end {R A} g0 (m : repl (St:=St) R A) (Q : A → Repl St → Prop) (E : R → Repl St → Prop) g :
  same g0 g → framed m → (∀ r g', same g0 g' → E r g') → (∀ a g', same g0 g' → Q a g') → wlp m Q E g.
Proof. intros Hg Hm HE HQ. eapply wlp_mono; [apply Hm|..]; intros; [apply HQ|apply HE]; by trans g. Qed.

(** The state right after the old mount was given up. *)
Lemma good_end_unmounted g g' :
  rpc_connection_context g = None → filesystem_dag_root g = None → cwd_node g = None → same g g' → good_end [] g'.
Proof.
  intros Hc Hr Hw (Hc' & Hr' & Hw' & _). split; [by rw /repl_ok Hc' Hr' Hw' Hc Hr Hw|by rw /located Hw' Hw].
Qed.

(** The end of a successful mount. *)
Lemma mount_root_good path g ctx h :
  usable ctx → rpc_connection_context g = None → filesystem_dag_root g = None → cwd_node g = None →
  let st := if (memory (world g)).1 then [(path, h)] else [] in
  wlp (s ← gets world;
       root ← lift (λ g,
         let '(l, m) := create_dag_node (memory s).1 path Nfs.NFDIR h true (nodes g) in (l, set_nodes m g));
       if bool_decide (root = None) then
         release_and_complain release ctx (line "Error: Failed to create a new filesystem DAG node")
       else modify (set_mounted (Some ctx) root root);; mret 0)
    (λ _, good_end st) (λ _ : Z, good_end st) g.
Proof.
  intros Hu Hc Hr Hw. cbv zeta. apply (wlp_val _ _ _ _ g (world g) g); [done|]. destruct ((memory (world g)).1) eqn:Hmem.
  - destruct (dag_root path h (nodes g)) as (l & m & Hcreate & Hdag & Hanc).
    rw /wlp /mbind /prog_bind /lift Hcreate /=. by split.
  - eapply wlp_val; [done|]. simpl. apply (wlp_framed_end g); [by destruct g|auto with framed|..];
      intros; by apply (good_end_unmounted g).
Qed.

(** The part behind MNT. *)
Lemma mount_reply_good path g ctx status fhstatus :
  usable ctx → rpc_connection_context g = None → filesystem_dag_root g = None → cwd_node g = None →
  let st := match fhstatus with
    | Some f =>
        if (status !=? 0) || (Validation.validate_mount_fh_status (Some f) >? 0) ||
           negb (bool_decide (Mount.mnt_status f = Some Mount.MNT_OK)) || negb (memory (world g)).1 then []
        else match Mount.fhstatus_body f with
             | Mount.FHSTATUS_BODY_DIRECTORY (Some dir) =>
                 match Nfs.nfs_filehandle dir with
                 | Some fh => [(path, Nfs.mkFHandle (Some fh))]
                 | None => []
                 end
             | _ => []
             end
    | None => []
    end in
  wlp (if status !=? 0 then release_and_complain release ctx (invalid_reply status) else
       if Validation.validate_mount_fh_status fhstatus >? 0 then release_and_complain release ctx invalid_result else
       fhstatus ← deref fhstatus;
       mnt_status ← deref (Mount.mnt_status fhstatus);
       if decide (mnt_status = Mount.MNTERR_ACCES) then
         release_and_complain release ctx ("mount: Permission denied: " +:+ line path)
       else if decide (mnt_status ≠ Mount.MNT_OK) then
         release_and_complain release ctx
           ("Error: Failed to mount the NFS share with status " +:+ line (mount_stat_to_string mnt_status))
       else
       directory ← match Mount.fhstatus_body fhstatus with
                   | Mount.FHSTATUS_BODY_DIRECTORY p => deref p
                   | _ => fault
                   end;
       nfs_filehandle ← deref (Nfs.nfs_filehandle directory);
       s ← gets world;
       root ← lift (λ g,
         let '(l, m) := create_dag_node (memory s).1 path Nfs.NFDIR
                          (Nfs.mkFHandle (Some nfs_filehandle)) true (nodes g) in
         (l, set_nodes m g));
       if bool_decide (root = None) then
         release_and_complain release ctx (line "Error: Failed to create a new filesystem DAG node")
       else
       modify (set_mounted (Some ctx) root root);;
       mret 0) (λ _, good_end st) (λ _ : Z, good_end st) g.
Proof.
  intros Hu Hc Hr Hw. cbv zeta.
  assert (∀ message, wlp (A:=Z) (release_and_complain release ctx message) (λ _, good_end []) (λ _, good_end []) g) as Hrel.
  { intros. apply (wlp_framed_end g); [done|auto with framed|..]; intros; by apply (good_end_unmounted g). }
  destruct (status !=? 0); [by destruct fhstatus|]. destruct fhstatus as [f|]; simpl; last first.
  { apply Hrel. }
  destruct (_ >? 0); [done|]. eapply wlp_val; [done|].
  destruct (Mount.mnt_status f) as [mst|]; [|done]. eapply wlp_val; [done|].
  destruct (decide (mst = Mount.MNTERR_ACCES)) as [->|Hacc]; [done|]. simpl.
  destruct (decide (mst ≠ Mount.MNT_OK)) as [Hne|Heq%dec_stable].
  { rw bool_decide_false; [congruence|done]. }
  subst mst. rw bool_decide_true //=. destruct (Mount.fhstatus_body f) as [|[dir|]|]; try done. eapply wlp_val; [done|].
  destruct (Nfs.nfs_filehandle dir) as [fh|]; [|done]. eapply wlp_val; [done|].
  pose proof (mount_root_good path g ctx (Nfs.mkFHandle (Some fh)) Hu Hc Hr Hw) as Hroot. cbv zeta in Hroot.
  by destruct ((memory (world g)).1).
Qed.

Lemma handle_mount_good ip port path g :
  wlp (handle_mount memory create release ip port path)
    (λ _, good_end (mount_stack ip port path g)) (λ _, good_end (mount_stack ip port path g)) g.
Proof.
  rw /handle_mount /mount_stack /unmount.
  destruct (match rpc_connection_context g with None => Some (world g) | Some ctx => release ctx (world g) end)
    as [s1|] eqn:Hrel; last first.
  { destruct (rpc_connection_context g) as [ctx|] eqn:Hc; [|done].
    by rw /wlp /mbind /prog_bind /= /attempt Hc Hrel. }
  assert (match rpc_connection_context g with
          | None => Some (tt, g) | Some ctx => s ← release ctx (world g); Some (tt, set_world s g) end =
          Some (tt, set_world s1 g)) as Hun.
  { destruct (rpc_connection_context g); simpl in *; [by rw Hrel|]. simplify_eq. by destruct g. }
  rw /wlp /mbind /prog_bind /= /attempt Hun /=. destruct (clean_up_dag _ _ _) as [m|]; [|done]. simpl.
  destruct (create ip port (chosen_transport_protocol g) s1) as [[[ctx|] s2]|] eqn:Hcreate; [| |done].
  - simpl. rw /remote /=. destruct (run (mount_procedure_1_add_mount_entry _ _) s2) as [[[status fhstatus] s3]|]; [|done].
    eapply (mount_reply_good path (set_world s3 (set_world s2 _)) ctx status fhstatus);
      [by apply creates_usable in Hcreate|done..].
  - by split.
Qed.

(** ** All commands *)

Lemma perform_good {R} fuel c g st :
  repl_ok g → located g st →
  wlp (perform (R:=R) local_files memory create release fuel c) (λ _, good_end (stack_after c g st)) (λ _ _, False) g.
Proof.
  intros Hok Hst. destruct (only_asks c) eqn:Hc.
  - pose proof (framed_perform (R:=R) local_files memory create release fuel c Hc g) as Hf.
    revert Hf. rw /wlp. destruct (perform _ _ _ _ _ _ g) as [u g'|r g'|] eqn:E; [| |done].
    + intros Hs. rw (_ : stack_after c g st = st); [by destruct c|]. by apply (good_end_same st g).
    + exfalso. by destruct c; simpl in E; unfold mbind, prog_bind, call in E; repeat case_match.
  - destruct c; try done; simpl; apply wlp_bind, wlp_call.
    + eapply wlp_mono; [apply (handle_mount_good _ _ _ g)|done..].
    + eapply wlp_mono; [by apply (handle_cd_good _ g st)|done..].
Qed.
End invariant.

(** * Commands end *)

(** Every call to the server comes back, with any reply or none, but for an
    accepted reply without a body, on which every stub crashes. *)
Class Answers (St : Type) `{Transports St} := call_answers ctx program procedure parameters s :
  ∃ reply s', remote_call ctx program procedure parameters s = Some (reply, s') ∧ ¬ lacks_accepted_reply reply.

(** A part that ends in every mounted state, in a mounted state, with a value
    that satisfies [F]. *)
Definition mounted_ok {St} (g : Repl St) : Prop := repl_ok g ∧ is_filesystem_mounted g = true.

Definition ends {St R A} (m : repl (St:=St) R A) (F : A → Prop) : Prop :=
  ∀ g, mounted_ok g → wp m (λ a g', F a ∧ mounted_ok g') (λ _, mounted_ok) g.

Section ends.
Context {St : Type}.
Implicit Types (g : Repl St).

Lemma same_mounted g g' : same g g' → mounted_ok g → mounted_ok g'.
Proof.
  intros Hs [Hok Hm]. split; [by apply (same_ok g)|]. destruct Hs as (Hc & Hr & Hw & _).
  by rw /is_filesystem_mounted Hc Hr Hw.
Qed.

Lemma ends_bind {R A B} (m : repl (St:=St) R A) (k : A → repl R B) F G :
  ends m F → (∀ a, F a → ends (k a) G) → ends (m ≫= k) G.
Proof.
  intros Hm Hk g Hg. apply wp_bind. eapply wp_mono; [by apply Hm| |done]. intros a g' [Ha Hg']. by apply Hk.
Qed.

Lemma ends_weaken {R A} (m : repl (St:=St) R A) (F G : A → Prop) : ends m F → (∀ a, F a → G a) → ends m G.
Proof. intros Hm HF g Hg. eapply wp_mono; [by apply Hm| |done]. naive_solver. Qed.

Lemma ends_mret {R A} (a : A) (F : A → Prop) : F a → ends (St:=St) (R:=R) (mret a) F.
Proof. by intros Ha g Hg. Qed.
Lemma ends_return {R A} (r : R) (F : A → Prop) : ends (St:=St) (return_ r) F.
Proof. by intros g Hg. Qed.
Lemma ends_printf {R} t : ends (St:=St) (R:=R) (printf t) (λ _, True).
Proof. by intros g Hg. Qed.
Lemma ends_complain {R A} t (r : R) (F : A → Prop) : ends (St:=St) (complain t r) F.
Proof. by intros g Hg. Qed.
Lemma ends_deref {R A} (o : option A) (F : A → Prop) :
  (∃ a, o = Some a ∧ F a) → ends (St:=St) (R:=R) (deref o) F.
Proof. by intros (a & -> & Ha) g Hg. Qed.
Lemma ends_return_if {R} b (r : R) : ends (St:=St) (return_if b r) (λ _, True).
Proof. intros g Hg. by destruct b. Qed.
Lemma ends_gets {R A} (f : Repl St → A) : ends (R:=R) (gets f) (λ _, True).
Proof. by intros g Hg. Qed.

Lemma ends_require_mounted {R} (r : R) : ends (St:=St) (require_mounted r) (λ _, True).
Proof. intros g Hg. by rw /wp (require_mounted_mounted r g (proj2 Hg)). Qed.

Lemma ends_cwd {R} : ends (St:=St) (R:=R) cwd (λ _, True).
Proof.
  intros g Hg. destruct (mounted_cases g (proj1 Hg)) as [[Hm _]|(_ & ctx & root & l & _ & _ & Hl & _ & Hdag)];
    [destruct Hg; congruence|]. destruct (dag_parent _ _ _ Hdag) as (n & Hn & _). by rw /wp (cwd_val g l n Hl Hn).
Qed.

Lemma ends_context {R} : ends (St:=St) (R:=R) context usable.
Proof.
  intros g Hg. destruct (mounted_cases g (proj1 Hg)) as [[Hm _]|(_ & ctx & root & l & Hc & _ & _ & Hu & _)];
    [destruct Hg; congruence|]. by rw /wp /context /mbind /prog_bind /= Hc.
Qed.

Lemma ends_auth_sys {R} : ends (St:=St) (R:=R) auth_sys (λ _, True).
Proof.
  rw /auth_sys. apply (ends_bind _ _ _ _ ends_context). intros ctx (_ & cred & a & Hcred & Ha).
  eapply ends_bind; [apply (ends_deref _ (eq cred)); eauto|]. intros ? <-. rw Ha. by apply ends_mret.
Qed.

Lemma ends_display_prompt {R} : ends (St:=St) (R:=R) display_prompt (λ _, True).
Proof.
  rw /display_prompt. eapply ends_bind; [apply ends_gets|intros transport _].
  eapply ends_bind; [apply ends_printf|intros _ _]. eapply ends_bind; [apply ends_gets|intros b _].
  eapply ends_bind; [|intros; apply ends_printf]. destruct b; simpl; [|apply ends_printf].
  apply (ends_bind _ _ _ _ ends_context). intros ctx ((a & Ha) & _).
  eapply ends_bind; [apply (ends_deref _ (eq a)); eauto|intros ? <-].
  eapply ends_bind; [apply ends_cwd|intros n _]. apply ends_printf.
Qed.
End ends.

Section commands_end.
Context {St OS : Type} `{Answers St} `{ClientCodec} `{Posix OS}.
Implicit Types (g : Repl St).

(** A stub comes back, with results when its code is 0. *)
Lemma stub_ends {A X} program procedure args_type (pack : A → list byte) results_type
    (unpack : list byte → option X) ctx args s :
  ∃ status res s', run (remote_procedure program procedure args_type pack results_type unpack (Some ctx) args) s =
    Some ((status, res), s') ∧ (status = 0 → is_Some res).
Proof.
  destruct (call_answers ctx program procedure (Rpc.mkAny (Some args_type) (pack args)) s) as (rep & s' & Hcall & Hrep).
  rw (remote_procedure_run _ _ _ _ _ _ _ _ _ _ _ Hcall). pose proof (validate_successful_cases rep) as Hv.
  destruct (successful_results rep) as [any|] eqn:Hs.
  - rw /accept. case_decide; [destruct (unpack _)|]; eexists _, _, s'; by split; [|intros].
  - destruct (Validation.validate_successful_accepted_reply rep) as [c|] eqn:Hc; [|done].
    pose proof (validate_failure _ _ Hs Hc) as Hpos%Z.gtb_lt. eexists _, _, s'. split; [done|lia].
Qed.

Lemma ends_reply {R A X} (r : R) program procedure args_type (pack : A → list byte) results_type
    (unpack : list byte → option X) ctx args :
  ends (St:=St) (reply r (remote_procedure program procedure args_type pack results_type unpack (Some ctx) args))
    (λ _, True).
Proof.
  intros g Hg. rw /reply /remote /wp /mbind /prog_bind.
  destruct (stub_ends program procedure args_type pack results_type unpack ctx args (world g))
    as (status & res & s' & -> & Hres).
  destruct (status !=? 0) eqn:E; [done|]. c_bools. destruct (Hres E) as [x ->]. by split.
Qed.

(** Results that were checked are there. *)
Lemma validate_res_body {T} (check : option T → Z) (res : Nfs.Res T) :
  check None > 0 →
  ∃ bad, Validation.validate_res (λ p, Some (check p)) (Some res) = Some bad ∧
    ((bad >? 0) = false → ∃ stat, Nfs.nfs_status res = Some stat ∧
       (stat = Nfs.NFS_OK → ∃ p, Nfs.body res = Nfs.BODY_OK (Some p) ∧ check (Some p) ≤ 0)).
Proof.
  intros Hnone. destruct res as [[stat|] b]; [|by exists 1]. rw /Validation.validate_res /=.
  destruct (decide (stat = Nfs.NFS_OK)) as [->|Hst].
  - destruct b as [|p|p]; try by exists 1. exists (if check p >? 0 then 1 else 0). split; [done|].
    destruct (check p >? 0) eqn:E; [done|]. intros _. eexists. split; [done|]. intros _.
    destruct p as [p|]; [|c_bools; lia]. exists p. split; [done|]. c_bools. lia.
  - assert (match b with Nfs.BODY_DEFAULT_CASE p => Some (if Validation.is_null p then 1 else 0) | _ => Some 1 end
            = Some (match b with Nfs.BODY_DEFAULT_CASE (Some _) => 0 | _ => 1 end)) as Hb
      by by destruct b as [| |[]].
    eexists. split; [by destruct stat; rw ?Hb|]. intros _. by exists stat.
Qed.

Lemma ends_ok_results {R A T} (r : R) (check : option T → Z) invalid denied failed program procedure args_type
    (pack : A → list byte) results_type unpack ctx args :
  check None > 0 →
  ends (St:=St) (ok_results r (Validation.validate_res (λ p, Some (check p))) invalid denied failed
         (remote_procedure program procedure args_type pack results_type unpack (Some ctx) args))
    (λ p, check (Some p) ≤ 0).
Proof.
  intros Hnone. rw /ok_results. apply (ends_bind _ _ (λ _, True)); [apply ends_reply|]. intros res _.
  destruct (validate_res_body check res Hnone) as (bad & -> & Hbad).
  eapply ends_bind; [by apply (ends_deref _ (eq bad)); eauto|]. intros ? <-.
  destruct (bad >? 0); [apply ends_complain|]. destruct (Hbad eq_refl) as (stat & -> & Hok).
  eapply ends_bind; [by apply (ends_deref _ (eq stat)); eauto|]. intros ? <-.
  case_decide; [apply ends_complain|]. case_decide as Hst; [|apply ends_complain].
  destruct (Hok Hst) as (p & -> & Hp). by apply ends_mret.
Qed.

Lemma ends_ok_status {R A} (r : R) denied failed program procedure args_type
    (pack : A → list byte) results_type unpack ctx args :
  ends (St:=St) (ok_status r denied failed
         (remote_procedure program procedure args_type pack results_type unpack (Some ctx) args)) (λ _, True).
Proof.
  rw /ok_status. apply (ends_bind _ _ (λ _, True)); [apply ends_reply|]. intros stat _. simpl.
  case_decide; [apply ends_complain|]. case_decide; [by apply ends_mret|apply ends_complain].
Qed.

Lemma dir_op_ok_present (ok : Nfs.DirOpOk) :
  Validation.validate_nfs_dir_op_ok (Some ok) ≤ 0 →
  ∃ h a t, Nfs.file ok = Some (Nfs.mkFHandle (Some h)) ∧ Nfs.attributes ok = Some a ∧ Nfs.fa_ftype a = Some t.
Proof.
  destruct ok as [[[[h|]]|] [a|]]; simpl; try lia. rw /Validation.validate_nfs_fattr.
  destruct (Nfs.fa_ftype a) as [t|] eqn:Ht; simpl; [|lia]. intros _. by exists h, a, t.
Qed.

Lemma ends_creation name mode : ends (St:=St) (creation name mode) (λ _, True).
Proof.
  rw /creation. apply (ends_bind _ _ _ _ ends_cwd). intros dir _.
  apply (ends_bind _ _ _ _ ends_auth_sys). intros a _. by apply ends_mret.
Qed.

(** ** The handlers *)

Context (local_files : St → OS) (memory : St → bool * bool).
Context (create : string → Z → Z → St → option (option RpcConnectionContext * St)).
Context (release : RpcConnectionContext → St → option St).
Hypothesis realloc_succeeds : ∀ s, (memory s).2 = true.
Hypothesis create_ends : ∀ ip port transport s, is_Some (create ip port transport s).
Hypothesis release_ends : ∀ ctx s, is_Some (release ctx s).

Lemma ends_handle_touch name : ends (St:=St) (handle_touch name) (λ _, True).
Proof.
  rw /handle_touch. eapply ends_bind; [apply ends_require_mounted|intros _ _].
  apply (ends_bind _ _ _ _ (ends_creation _ _)). intros args _. apply (ends_bind _ _ _ _ ends_context). intros ctx _.
  eapply ends_bind; [by apply (ends_ok_results 1 Validation.validate_nfs_dir_op_ok)|]. intros ok _. by apply ends_mret.
Qed.

Lemma ends_handle_mkdir name : ends (St:=St) (handle_mkdir name) (λ _, True).
Proof.
  rw /handle_mkdir. eapply ends_bind; [apply ends_require_mounted|intros _ _].
  apply (ends_bind _ _ _ _ (ends_creation _ _)). intros args _. apply (ends_bind _ _ _ _ ends_context). intros ctx _.
  eapply ends_bind; [by apply (ends_ok_results 1 Validation.validate_nfs_dir_op_ok)|]. intros ok _. by apply ends_mret.
Qed.

Lemma ends_handle_rm name : ends (St:=St) (handle_rm name) (λ _, True).
Proof.
  rw /handle_rm. eapply ends_bind; [apply ends_require_mounted|intros _ _].
  apply (ends_bind _ _ _ _ ends_cwd). intros dir _. apply (ends_bind _ _ _ _ ends_context). intros ctx _.
  eapply ends_bind; [apply ends_ok_status|]. intros ok _. by apply ends_mret.
Qed.

Lemma ends_handle_rmdir name : ends (St:=St) (handle_rmdir name) (λ _, True).
Proof.
  rw /handle_rmdir. eapply ends_bind; [apply ends_require_mounted|intros _ _].
  apply (ends_bind _ _ _ _ ends_cwd). intros dir _. apply (ends_bind _ _ _ _ ends_context). intros ctx _.
  eapply ends_bind; [apply ends_ok_status|]. intros ok _. by apply ends_mret.
Qed.

Lemma ends_check_local_permission path name :
  ends (St:=St) (check_local_permission local_files path name) (λ _, True).
Proof.
  rw /check_local_permission. apply (ends_bind _ _ _ _ ends_auth_sys). intros a _.
  eapply ends_bind; [apply ends_gets|intros s _]. cbv zeta.
  case_match; [apply ends_complain|]. case_match; [apply ends_complain|by apply ends_mret].
Qed.

Lemma enter_child_ends path h : ends (St:=St) (enter_child memory path Nfs.NFDIR h) (λ _, True).
Proof.
  intros g Hg. destruct (mounted_cases g (proj1 Hg)) as [[Hm _]|(_ & ctx & root & l & Hc & Hr & Hl & Hu & Hdag)];
    [destruct Hg; congruence|].
  destruct (dag_enter (nodes g) root l path h Hdag) as (c & m1 & m2 & Hcreate & Hadd & Hdag' & _).
  rw /enter_child /wp /mbind /prog_bind /= /lift /=. destruct ((memory (world g)).1); [|done]. rw Hcreate /=.
  rw realloc_succeeds /attempt Hl /= Hadd /=. split; [done|].
  split; [by rw /repl_ok /= Hc Hr|by rw /is_filesystem_mounted /= Hc Hr].
Qed.

(** A part that ends and leaves the state of the REPL alone. *)
Lemma wp_part g0 {R A B} (m : repl (St:=St) R A) (k : A → repl R B) F (Q : B → Repl St → Prop) (E : R → Repl St → Prop) g :
  mounted_ok g0 → same g0 g → ends m F → framed m → (∀ r g', same g0 g' → E r g') →
  (∀ a g', F a → same g0 g' → wp (k a) Q E g') → wp (m ≫= k) Q E g.
Proof.
  intros Hg0 Hs Hm Hf HE Hk. apply wp_bind. pose proof (Hm g (same_mounted _ _ Hs Hg0)) as Hend. pose proof (Hf g) as Hsame.
  revert Hend Hsame. rw /wp /wlp. destruct (m g) as [a g'|r g'|]; [|intros _ Hs'; apply HE; by trans g|done].
  intros [Ha _] Hs'. apply Hk; [done|by trans g].
Qed.

Lemma handle_cd_ends name g : mounted_ok g → handle_cd local_files memory name g ≠ Fault.
Proof.
  intros Hg. enough (wp (handle_cd local_files memory name) (λ _ _, True) (λ _ _, True) g) as Hwp
    by (intros E; by rw /wp E in Hwp).
  destruct (mounted_cases g (proj1 Hg)) as [[Hm _]|(Hm & ctx & root & l & Hc & Hr & Hl & Hu & Hdag)];
    [destruct Hg; congruence|]. destruct (dag_parent _ _ _ Hdag) as (n & Hn & _).
  rw /handle_cd. apply wp_bind. rw /wp (require_mounted_mounted _ g Hm). apply wp_bind. rw /wp (cwd_val g l n Hl Hn).
  apply (wp_part g _ _ usable); [done|done|apply ends_context|auto with framed|done|]. intros c g1 _ Hg1.
  eapply (wp_part g); [done|done|by apply (ends_ok_results (Some 1) Validation.validate_nfs_dir_op_ok)|auto with framed|done|].
  intros ok g2 Hok Hg2. destruct (dir_op_ok_present ok Hok) as (h & a & t & Hfile & Ha & Ht).
  rw Ha. apply (wp_part g _ _ (eq a)); [done|done|apply ends_deref; eauto|auto with framed|done|]. intros ? g3 <- Hg3.
  rw Ht. apply (wp_part g _ _ (eq t)); [done|done|apply ends_deref; eauto|auto with framed|done|]. intros ? g4 <- Hg4.
  apply wp_bind. case_decide as Hd; [done|]. subst t. apply wp_bind. rw /wp /=.
  destruct (String.eqb name "."); [done|]. simpl. destruct (String.eqb name "..").
  { by destruct (is_root n). }
  cbv zeta. eapply (wp_part g); [done|done|apply ends_check_local_permission|auto with framed|done|].
  intros _ g5 _ Hg5. rw Hfile.
  apply (wp_part g _ _ (eq (Nfs.mkFHandle (Some h)))); [done|done|apply ends_deref; eauto|auto with framed|done|].
  intros ? g6 <- Hg6. apply wp_bind. rw /wp /=. apply wp_bind. eapply wp_mono; [apply enter_child_ends|done..].
  by apply (same_mounted g).
Qed.

(** ** Mounting and leaving *)

(** The previous mount, if there is one, can be given up. *)
Lemma unmount_ends {R} g : repl_ok g → ∃ g', unmount (R:=R) release g = Val tt g'.
Proof.
  intros Hok. rw /unmount /mbind /prog_bind /= /attempt.
  destruct (mounted_cases g Hok) as [(_ & _ & Hr & Hc)|(_ & ctx & root & l & Hc & Hr & _ & _ & t & Htop & Ht & Hnd & _)];
    rw Hc /= ?Hr.
  - rw /clean_up_dag /=. destruct (size (nodes g)); eauto.
  - destruct (release_ends ctx (world g)) as [s ->]. simpl. rw Hr.
    destruct (clean_up_dag_tree (nodes g) t Ht Hnd) as (m & Hm & _). rw -Htop Hm. eauto.
Qed.

Lemma release_and_complain_ends {A} ctx message g : release_and_complain (A:=A) release ctx message g ≠ Fault.
Proof.
  rw /release_and_complain /mbind /prog_bind /= /attempt /=. by destruct (release_ends ctx (world g)) as [s ->].
Qed.

Lemma fh_status_present f :
  (Validation.validate_mount_fh_status (Some f) >? 0) = false →
  ∃ stat, Mount.mnt_status f = Some stat ∧
    (stat = Mount.MNT_OK → ∃ h, Mount.fhstatus_body f = Mount.FHSTATUS_BODY_DIRECTORY (Some (Nfs.mkFHandle (Some h)))).
Proof.
  rw /Validation.validate_mount_fh_status. destruct (Mount.mnt_status f) as [stat|]; [|done]. intros Hv. exists stat.
  split; [done|]. intros ->. destruct (Mount.fhstatus_body f) as [|[[[h|]]|]|]; try done. eauto.
Qed.

Lemma handle_mount_ends ip port path g : repl_ok g → handle_mount memory create release ip port path g ≠ Fault.
Proof.
  intros Hok. destruct (unmount_ends (R:=Z) g Hok) as (g1 & Hun).
  enough (wp (handle_mount memory create release ip port path) (λ _ _, True) (λ _ _, True) g) as Hwp
    by (intros E; by rw /wp E in Hwp).
  assert (∀ {A} ctx message g, wp (release_and_complain (A:=A) release ctx message) (λ _ _, True) (λ _ _, True) g) as Hrel.
  { intros A ctx message g0. pose proof (release_and_complain_ends (A:=A) ctx message g0). rw /wp. by case_match. }
  rw /handle_mount. apply wp_bind. rw /wp Hun. do 6 (apply wp_bind; rw /wp /=).
  apply wp_bind. rw /wp /attempt. destruct (create_ends ip port (chosen_transport_protocol g1) (world g1)) as [[c s] Hcr].
  simpl. rw Hcr /=. apply wp_bind. destruct c as [ctx|]; [|done]. rw /wp /=. apply wp_bind. rw /wp /remote.
  match goal with |- context [run ?m ?s] => assert (∃ status res s', run m s = Some ((status, res), s') ∧
    (status = 0 → is_Some res)) as (status & res & s' & -> & Hres) by apply stub_ends end.
  destruct (status !=? 0) eqn:Est; [apply Hrel|]. c_bools. destruct (Hres Est) as [f ->].
  destruct (_ >? 0) eqn:Hv; [apply Hrel|]. destruct (fh_status_present f Hv) as (stat & Hstat & Hdir).
  apply wp_bind. rw /wp /= -/(wp _ _ _ _). apply wp_bind. rw Hstat /wp /=.
  case_decide; [apply Hrel|]. case_decide as Hok'; [apply Hrel|].
  destruct (Hdir Hok') as (h & ->). do 3 (apply wp_bind; rw /wp /=). apply wp_bind. rw /wp /lift.
  destruct (create_dag_node _ _ _ _ _ _) as [[l|] m]; [|apply Hrel]. done.
Qed.
End commands_end.

(** * Theorems *)

Section theorems.
Context {St OS : Type} `{Transports St} `{ClientCodec} `{Posix OS}.
Context (local_files : St → OS) (memory : St → bool * bool).
Context (create : string → Z → Z → St → option (option RpcConnectionContext * St)).
Context (release : RpcConnectionContext → St → option St) (fuel : nat).
Implicit Types (g : Repl St).
Abbreviation execute := (perform (R:=Z) local_files memory create release fuel).

(** A sequence of commands that all end, and the stack the specification makes
    of them. *)
Inductive session : list command → Repl St → list (string * Nfs.FHandle) → Repl St → list (string * Nfs.FHandle) → Prop :=
  | session_nil g st : session [] g st g st
  | session_cons c cs g g1 g2 st st2 :
      execute c g = Val tt g1 →
      session cs g1 (stack_after local_files memory create release c g st) g2 st2 →
      session (c :: cs) g st g2 st2.

(** C22: the directory nodes of the REPL, a heap of nodes with parent pointers
    and reference counts, implement a stack of directories, provided that
    [realloc] does not fail when a node gets a child. In every session of commands
    that end, whatever the server answers, the nodes stay a tree in which the
    current directory is (so that no command follows a dangling pointer), and the
    paths and handles on the way from it to the root are exactly the stack of the
    specification: [mount] starts anew with the handle MNT returned or, if it
    fails, with nothing mounted; [cd] of a name for which the server's LOOKUP
    returns a directory pushes its path and the handle in the reply (if the local
    machine lets the user in and a node can be allocated), [cd ..] pops unless the
    bottom is reached, and every other [cd] and every other command leaves the
    stack as it is. *)
Theorem cwd_is_a_stack cs g g' st st'
    (Hrealloc : ∀ s, (memory s).2 = true)
    (Hcreate : ∀ ip port transport s ctx s', create ip port transport s = Some (Some ctx, s') → usable ctx)
    (Hok : repl_ok g) (Hst : located g st) (Hrun : session cs g st g' st') :
  repl_ok g' ∧ located g' st'.
Proof.
  revert Hok Hst. induction Hrun as [g st|c cs g g1 g2 st st2 Hc _ IH]; intros Hok Hst; [done|].
  pose proof (perform_good (R:=Z) local_files memory create release Hrealloc Hcreate fuel c g st Hok Hst) as Hgood.
  rw /wlp Hc in Hgood. by apply IH; destruct Hgood.
Qed.

(** What leaving the REPL (or mounting anew) frees: the node of the
    mounted directory. The node of every other directory that was entered loses
    one of its two references and stays allocated for good. *)
Theorem clean_up_frees_only_the_root g root t ctx s
    (Hc : rpc_connection_context g = Some ctx) (Hrel : release ctx (world g) = Some s)
    (Hr : filesystem_dag_root g = Some root)
    (Htop : top t = root) (Ht : shaped (nodes g) None t) (Hnd : NoDup (locs t)) :
  ∃ g', clean_up (R:=Z) release g = Val tt g' ∧
    nodes g' !! root = None ∧
    ∀ l, l ∈ locs t → l ≠ root → ∃ n, nodes g !! l = Some n ∧ nodes g' !! l = Some (set_ref_count 1 n).
Proof.
  destruct (clean_up_dag_tree (nodes g) t Ht Hnd) as (m & Hm & Hroot & Hrest & _). subst root.
  exists (set_nodes m (set_world s g)). split; [|by split; [|intros; apply Hrest]].
  rw /clean_up /unmount /mbind /prog_bind /= Hc /attempt /= Hrel /= Hr Hm //.
Qed.

Section answering.
Context `{!Answers St}.
Hypothesis realloc_succeeds : ∀ s, (memory s).2 = true.
Hypothesis create_ends : ∀ ip port transport s, is_Some (create ip port transport s).
Hypothesis creates_usable : ∀ ip port transport s ctx s',
  create ip port transport s = Some (Some ctx, s') → usable ctx.
Hypothesis release_ends : ∀ ctx s, is_Some (release ctx s).

(** The commands that ask the server a bounded number of times and follow no
    links. *)
Definition bounded (c : command) : bool := match c with Ls | Cat _ | Echo _ _ => false | _ => true end.

(** A handler that starts with the test for a mounted file system. *)
Lemma handler_ends {T R} (m : repl (St:=St) T unit) (k : unit → repl (St:=St) T T) (r : T) g :
  m = require_mounted r → ends (m ≫= k) (λ _, True) → repl_ok g →
  ∃ g', (_ ← call (m ≫= k); mret tt : repl (St:=St) R unit) g = Val tt g'.
Proof.
  intros -> Hm Hok. rw /mbind {1}/prog_bind /call.
  destruct (mounted_cases g Hok) as [[Hu _]|(Hu & _)].
  - rw -/(mbind k (require_mounted r)) (bind_ret _ _ _ _ _ (require_mounted_unmounted r g Hu)). eauto.
  - pose proof (Hm g (conj Hok Hu)) as Hwp. revert Hwp. rw /wp /mbind. destruct (prog_bind _ _ _ _ g); [eauto..|done].
Qed.

Lemma bounded_ends {R} c g : bounded c = true → repl_ok g →
  ∃ g', perform (R:=R) local_files memory create release fuel c g = Val tt g'.
Proof.
  intros Hb Hok. destruct c; try done.
  - rw /perform /mbind /prog_bind /call. pose proof (handle_mount_ends memory create release create_ends release_ends
      server_ip port_number remote_path g Hok) as He. destruct (handle_mount _ _ _ _ _ _ g); [eauto..|done].
  - rw /perform /mbind /prog_bind /call.
    assert (handle_cd local_files memory directory_name g ≠ Fault) as He.
    { destruct (mounted_cases g Hok) as [[Hu _]|(Hu & _)]; [|by apply handle_cd_ends].
      by rw /handle_cd (bind_ret _ _ _ _ _ (require_mounted_unmounted (Some 1) g Hu)). }
    destruct (handle_cd _ _ _ g); [eauto..|done].
  - apply (handler_ends _ _ 1); [done|apply ends_handle_touch|done].
  - apply (handler_ends _ _ 1); [done|apply ends_handle_mkdir|done].
  - apply (handler_ends _ _ 1); [done|apply ends_handle_rmdir|done].
  - apply (handler_ends _ _ 1); [done|apply ends_handle_rm|done].
  - by eexists.
  - by eexists.
Qed.

Lemma prompt_ends {R} g : repl_ok g → ∃ g', display_prompt (R:=R) g = Val tt g' ∧ same g g'.
Proof.
  intros Hok. rw /display_prompt /mbind /prog_bind /= /is_filesystem_mounted /=.
  destruct (mounted_cases g Hok) as [(_ & Hw & Hr & Hc)|(_ & ctx & root & l & Hc & Hr & Hw & Hu & Hdag)]; rw Hc Hr Hw /=.
  - by eexists.
  - destruct Hu as [[a Ha] _]. destruct (dag_parent _ _ _ Hdag) as (n & Hn & _).
    rw /context /cwd /node_at /mbind /prog_bind /= Hc /= Ha /= Hw /= Hn /=. by eexists.
Qed.

Definition is_exit (c : command) : bool := match c with Exit => true | _ => false end.

(** The commands of the lines of an input, up to [exit]. *)
Fixpoint commands_of (rounds : nat) (input : list char) : list command :=
  match rounds, fgets BUFFER_SIZE input with
  | S rounds, Some (buffer, input) =>
      let c := parse_command (strip_newline buffer) in
      if is_exit c then [] else c :: commands_of rounds input
  | _, _ => []
  end.

Lemma commands_of_enough rounds input :
  (length input ≤ rounds)%nat → commands_of rounds input = commands_of (length input) input.
Proof.
  assert (∀ n r1 r2 input, (length input ≤ n)%nat → (length input ≤ r1)%nat → (length input ≤ r2)%nat →
    commands_of r1 input = commands_of r2 input) as Heq; [|by intros; apply (Heq (length input))].
  clear. induction n as [|n IH]; intros r1 r2 input Hn Hr1 Hr2.
  - destruct input; [|simpl in *; lia]. by destruct r1, r2.
  - destruct input as [|c input]; [by destruct r1, r2|]. destruct r1 as [|r1], r2 as [|r2]; simpl in Hr1, Hr2; try lia.
    cbn [commands_of]. destruct (fgets BUFFER_SIZE (c :: input)) as [[buffer rest]|] eqn:Hf; [|done].
    pose proof (fgets_shorter 254 _ _ _ Hf) as Hshort. simpl in Hn, Hshort.
    rw (IH r1 r2 rest); [lia..|done].
Qed.

End answering.
End theorems.
