(* ===== verification/ReplData.v ===== *)
(** What the commands of the REPL show and change: following symbolic links,
    [cat] and [echo], [ls] and [cd]. The theorems hold for every server that
    keeps the promises of the classes of [FusePaths] and [FuseData], and of
    [LinkService] and [SizeService] here. *)
From S2P Require Import Prelude CStrings Messages Posix Permissions FileManagement Parsing.
From S2P Require Import RecordMarking RpcClient NfsClient FusePaths FuseHandlers FuseData.
From S2P Require Import ReplDag ReplState ReplHandlers ReplCommands ReplSafety.

Import Nfs.
Abbreviation READDIR_BYTES_PER_RPC := ReplHandlers.READDIR_BYTES_PER_RPC.
Abbreviation collect := ReplHandlers.collect.
Abbreviation resolve_components := ReplState.resolve_components.
Abbreviation resolve_path := ReplState.resolve_path.

(** A failure as procedures report it. *)
Abbreviation error_res st := (mkRes (Some st) (BODY_DEFAULT_CASE (Some tt))).

(** * The steps of the commands *)

Section steps.
Context {St : Type}.
Implicit Types (g : Repl St).

Lemma reply_val {R X} (r : R) (m : prog St (Z * option X) (Z * option X)) x g s :
  run m (world g) = Some ((0, Some x), s) → reply r m g = Val x (set_world s g).
Proof. intros Hrun. by rw /reply /remote /mbind /prog_bind Hrun. Qed.

Lemma ok_results_val {R T} (r : R) (validate : option (Res T) → option Z) invalid denied failed m p g s :
  run m (world g) = Some ((0, Some (ok_res p)), s) → validate (Some (ok_res p)) = Some 0 →
  ok_results r validate invalid denied failed m g = Val p (set_world s g).
Proof.
  intros Hrun Hv. rw /ok_results. run_step (reply_val r m _ g s Hrun). by rw /mbind /prog_bind Hv.
Qed.

(** A status other than NFS_OK prints a message and returns. *)
Lemma ok_results_fails {R T} (r : R) (check : option T → option Z) invalid denied failed m st g s :
  st ≠ NFS_OK → run m (world g) = Some ((0, Some (error_res st)), s) →
  ok_results r (Validation.validate_res check) invalid denied failed m g =
  Ret r (print (if decide (st = NFSERR_ACCES) then denied else failed (nfs_stat_to_string st)) (set_world s g)).
Proof.
  intros Hst Hrun. rw /ok_results. run_step (reply_val r m _ g s Hrun).
  rw /mbind /prog_bind /Validation.validate_res /=. by destruct st.
Qed.

Lemma context_val {R} g ctx : rpc_connection_context g = Some ctx → context (R:=R) g = Val ctx g.
Proof. intros Hc. by rw /context /mbind /prog_bind /= Hc. Qed.

Lemma collect_fuse l names cookie : collect (St:=St) l names cookie = FuseHandlers.collect l names cookie.
Proof. done. Qed.
End steps.

(** A mounted REPL: its context, and the nodes and handles of the root and of
    the current directory. *)
Record mounted_at {St} (g : Repl St) (ctx : RpcConnectionContext) (root dir : NfsFileHandle) (path : string) : Prop := {
  at_context : rpc_connection_context g = Some ctx;
  at_root : ∃ l n, filesystem_dag_root g = Some l ∧ nodes g !! l = Some n ∧ fhandle n = mkFHandle (Some root);
  at_cwd : ∃ l n, cwd_node g = Some l ∧ nodes g !! l = Some n ∧ fhandle n = mkFHandle (Some dir) ∧ absolute_path n = path;
}.

Section mounted.
Context {St : Type}.
Implicit Types (g : Repl St).

Lemma mounted_at_same g g' ctx root dir path : same g g' → mounted_at g ctx root dir path → mounted_at g' ctx root dir path.
Proof.
  intros (Hc & Hr & Hw & Hn & _) [Hctx (l & n & ? & ? & ?) (l' & n' & ? & ? & ? & ?)].
  split; [congruence|exists l, n|exists l', n']; split_and!; congruence.
Qed.

Lemma mounted_at_is g ctx root dir path : mounted_at g ctx root dir path → is_filesystem_mounted g = true.
Proof.
  intros [Hctx (l & n & Hr & _) (l' & n' & Hw & _)]. by rw /is_filesystem_mounted Hctx Hr Hw.
Qed.

Lemma mounted_cwd {R} g ctx root dir path :
  mounted_at g ctx root dir path →
  ∃ n, cwd (R:=R) g = Val n g ∧ fhandle n = mkFHandle (Some dir) ∧ absolute_path n = path.
Proof. intros [_ _ (l & n & Hl & Hn & Hh & Hp)]. exists n. split; [by apply (cwd_val g l)|done]. Qed.
End mounted.

(** * Symbolic links *)

(** The targets of links as the client sees them, or the status of the failure;
    some links only are spoken of. *)
Record linkspace := mkLinkspace {
  target_of :> NfsFileHandle → Stat + string;
  readable : NfsFileHandle → Prop }.

(** What READLINK promises: the targets of the links, or a failure. *)
Class LinkService {St} `{Transports St} `{ClientCodec} (ctx : RpcConnectionContext) (inv : St → Prop)
    (links : linkspace) := readlink_serves h s :
  inv s → readable links h →
  ∃ s', inv s' ∧
    match links h with
    | inl st => st ≠ NFS_OK ∧
        run (nfs_procedure_5_read_from_symbolic_link (Some ctx) (mkFHandle (Some h))) s = Some ((0, Some (error_res st)), s')
    | inr target =>
        run (nfs_procedure_5_read_from_symbolic_link (Some ctx) (mkFHandle (Some h))) s =
          Some ((0, Some (ok_res (mkPath (Some target)))), s')
    end.

(** Where a chain of links ends: at a file, with a failure that is reported
    (a link that cannot be read, or too many links), or at a target that does not
    exist or cannot be resolved. *)
Inductive chain_end := Reached (h : NfsFileHandle) | Failed | Dangling.

(** A target is resolved from the mounted root or from the current directory,
    wherever the link is. *)
Definition resolve_target (tree : namespace) (root dir : NfsFileHandle) (target : string)
    : Z + (NfsFileHandle * FType) :=
  if decide (target = "") then inl Errno.ENOENT
  else walk tree (if String.prefix "/" target then root else dir) NFDIR (components target).

Definition resolvable (tree : namespace) (root dir : NfsFileHandle) (target : string) : Prop :=
  walkable tree (if String.prefix "/" target then root else dir) NFDIR (components target).

Fixpoint chase (tree : namespace) (links : linkspace) (root dir : NfsFileHandle)
    (levels : nat) (h : NfsFileHandle) (t : FType) : chain_end :=
  if decide (t = NFLNK) then
    match levels with
    | O => Failed
    | S levels =>
        match links h with
        | inl _ => Failed
        | inr target =>
            match resolve_target tree root dir target with
            | inl _ => Dangling
            | inr (h, t) => chase tree links root dir levels h t
            end
        end
    end
  else Reached h.

(** The tree and the links speak of everything on the way. *)
Fixpoint chaseable (tree : namespace) (links : linkspace) (root dir : NfsFileHandle)
    (levels : nat) (h : NfsFileHandle) (t : FType) : Prop :=
  match levels with
  | O => True
  | S levels =>
      t = NFLNK →
      readable links h ∧
      match links h with
      | inl _ => True
      | inr target =>
          resolvable tree root dir target ∧
          match resolve_target tree root dir target with
          | inl _ => True
          | inr (h, t) => chaseable tree links root dir levels h t
          end
      end
  end.

Section links.
Context `{Transports St} `{ClientCodec} `{!LookupService ctx inv tree} `{!LinkService ctx inv links}.
Implicit Types (g : Repl St).

(** A step from a state to another one with the same globals. *)
Definition stepped g g' : Prop := same g g' ∧ inv (world g').

Lemma stepped_trans g1 g2 g3 : stepped g1 g2 → stepped g2 g3 → stepped g1 g3.
Proof. intros [H1 _] [H2 Hi]. split; [by trans g2|done]. Qed.

Lemma resolve_components_walks command path h t l g :
  inv (world g) → walkable tree h t l →
  ∃ g', stepped g g' ∧
    resolve_components command ctx path (mkFHandle (Some h)) t l g =
    match walk tree h t l with inr (h, t) => Val (mkFHandle (Some h), t) g' | inl _ => Ret None g' end ∧
    (∀ x, walk tree h t l = inr x → stdout g' = stdout g).
Proof.
  revert h t g. induction l as [|n l IH]; intros h t g Hg Hl; [by exists g|].
  cbn [resolve_components walk]. destruct (decide (t = NFDIR)) as [->|Ht]; last first.
  { exists g. by rw bool_decide_true. }
  destruct (Hl eq_refl) as [Hn Hrest].
  rw (bind_val _ _ g tt g) //. destruct (lookup_serves h n (world g) Hg Hn) as (res & s & Hrun & Hres & Hs).
  destruct (tree h n) as [st|[h' t']] eqn:He; simpl in Hres.
  - destruct Hres as [Hst ->].
    rw (bind_ret _ _ _ _ _ (ok_results_fails None _ _ _ _ _ st g s Hst Hrun)).
    eexists. split; [|split; [done|by intros x]]. done.
  - destruct Hres as (a & Ha & Ht & ->).
    assert (Validation.validate_nfs_dir_op_res
      (Some (ok_res (mkDirOpOk (Some (mkFHandle (Some h'))) (Some a)))) = Some 0) as Hv.
    { apply Messages.validate_res_ok. by rw /Validation.validate_nfs_dir_op_ok /= Ha. }
    rw (bind_val _ _ _ _ _ (ok_results_val None _ _ _ _ _ _ g s Hrun Hv)).
    rw (bind_val _ _ _ (mkFHandle (Some h'), t') (set_world s g)); [by rw /looked_up /mbind /prog_bind /= Ht|].
    destruct (IH h' t' (set_world s g) Hs Hrest) as (g' & Hstep & Hrun' & Hout). exists g'. split_and!; [|done|done].
    by apply (stepped_trans _ (set_world s g)).
Qed.

(** The path of a link's target. *)
Lemma resolve_path_target command target root dir path g :
  mounted_at g ctx root dir path → inv (world g) →
  resolvable tree root dir target →
  ∃ g', stepped g g' ∧
    pointer (R:=option FHandle) (resolve_path command target) g =
    Val (match resolve_target tree root dir target with inr (h, t) => Some (mkFHandle (Some h), t) | inl _ => None end) g' ∧
    (∀ x, resolve_target tree root dir target = inr x → stdout g' = stdout g).
Proof.
  intros Hm Hg Htarget. destruct Hm as [Hctx (lr & nr & Hr & Hnr & Hhr) (lc & nc & Hc & Hnc & Hhc & _)].
  rw /pointer /call /resolve_path /resolve_target.
  rw /mbind /prog_bind /= Hctx /= Hr /= Hc /=. destruct (decide (target = "")) as [->|Hne].
  { exists g. by split. }
  rw bool_decide_false //=. set (start := if String.prefix "/" target then root else dir).
  assert (∃ n, node_at (R:=option (FHandle * FType)) (Some (if String.prefix "/" target then lr else lc)) g = Val n g ∧
    fhandle n = mkFHandle (Some start)) as (n & Hn & Hh).
  { rw /start. destruct (String.prefix "/" target); [exists nr|exists nc];
      (split; [by rw /node_at /mbind /prog_bind /= ?Hnr ?Hnc|done]). }
  rw Hn /= Hh. destruct (resolve_components_walks command target start NFDIR (components target) g Hg Htarget) as (g' & Hst & -> & Hout).
  exists g'. split_and!; [done|by destruct (walk _ _ _ _) as [|[]]|done].
Qed.

(** The loop follows the chain. *)
Lemma follow_links_chase levels command root dir path h t g :
  mounted_at g ctx root dir path → inv (world g) →
  chaseable tree links root dir levels h t →
  ∃ g', stepped g g' ∧
    follow_links levels command ctx (mkFHandle (Some h)) t g =
    match chase tree links root dir levels h t with
    | Reached h => Val (mkFHandle (Some h)) g'
    | Failed => Ret None g'
    | Dangling => Fault
    end ∧ (∀ h', chase tree links root dir levels h t = Reached h' → stdout g' = stdout g).
Proof.
  revert h t g. induction levels as [|levels IH]; intros h t g Hm Hg Hh; cbn [follow_links chase];
    (destruct (decide (t = NFLNK)) as [->|Ht]; [|by exists g; split]).
  { eexists. by split; [|split; [done|]]. }
  destruct (Hh eq_refl) as [Hread Hnext].
  destruct (readlink_serves h (world g) Hg Hread) as (s & Hs & Hl). destruct (links h) as [st|target].
  - destruct Hl as [Hst Hrun].
    rw (bind_ret _ _ _ _ _ (ok_results_fails None _ _ _ _ _ st g s Hst Hrun)). eexists. by split; [|split; [done|]].
  - destruct Hnext as [Htarget Hnext]. rw (bind_val _ _ _ _ _ (ok_results_val None _ _ _ _ _ _ g s Hl eq_refl)).
    rw (bind_val _ _ _ target (set_world s g)) //.
    assert (mounted_at (set_world s g) ctx root dir path) as Hm' by by apply (mounted_at_same g).
    destruct (resolve_path_target command target root dir path (set_world s g) Hm' Hs Htarget) as (g2 & Hstep & Hres & Hout).
    rw (bind_val _ _ _ _ _ Hres). destruct (resolve_target tree root dir target) as [e|[h' t']] eqn:Hrt.
    + exists g2. split; [|done]. by apply (stepped_trans _ (set_world s g)).
    + rw (bind_val _ _ _ (mkFHandle (Some h'), t') g2) //.
      destruct (IH h' t' g2) as (g' & Hstep' & Hrun & Hout');
        [by apply (mounted_at_same (set_world s g)); [destruct Hstep|]|by destruct Hstep|done|].
      exists g'. split_and!; [|done|].
      * apply (stepped_trans _ g2); [|done]. by apply (stepped_trans _ (set_world s g)).
      * intros h'' Hch. by rw (Hout' h'' Hch) (Hout _ eq_refl).
Qed.

Lemma follow_symbolic_links_chase command root dir path h t g :
  mounted_at g ctx root dir path → inv (world g) →
  chaseable tree links root dir SYMLINK_LEVELS_LIMIT h t →
  ∃ g', stepped g g' ∧
    follow_symbolic_links command (mkFHandle (Some h)) t g =
    match chase tree links root dir SYMLINK_LEVELS_LIMIT h t with
    | Reached h => Val (mkFHandle (Some h)) g'
    | Failed => Ret None g'
    | Dangling => Fault
    end ∧ (∀ h', chase tree links root dir SYMLINK_LEVELS_LIMIT h t = Reached h' → stdout g' = stdout g).
Proof.
  intros Hm Hg. rw /follow_symbolic_links. generalize SYMLINK_LEVELS_LIMIT. intros levels Hh. pose proof Hm as [Hctx (lr & nr & Hr & _) (lc & nc & Hc & _)].
  rw /mbind /prog_bind /= Hctx /= Hr /= Hc /=. by apply (follow_links_chase _ command root dir path).
Qed.
End links.

(** * Files *)

(** What GETATTR promises of one file: its size. *)
Class SizeService {St} `{Transports St} `{ClientCodec} (ctx : RpcConnectionContext) (h : NfsFileHandle)
    (inv : list byte → St → Prop) := getattr_serves c s :
  inv c s →
  ∃ a s', run (nfs_procedure_1_get_file_attributes (Some ctx) (mkFHandle (Some h))) s =
            Some ((0, Some (ok_res a)), s') ∧
          Validation.validate_nfs_fattr (Some a) = 0 ∧ fa_size a = Z.of_nat (length c) ∧ inv c s'.

Section files.
Context `{Transports St} `{ClientCodec} (ctx : RpcConnectionContext) (h : NfsFileHandle) (inv : list byte → St → Prop).
Context `{!FileService ctx h inv} `{!SizeService ctx h inv}.
Implicit Types (g : Repl St) (c : list byte).

(** The state after some calls. *)
Definition called c g g' : Prop := ∃ s, g' = set_world s g ∧ inv c s.

Lemma called_trans c c' g1 g2 g3 : called c g1 g2 → called c' g2 g3 → called c' g1 g3.
Proof. intros (s & -> & _) (s' & -> & Hs'). by exists s'. Qed.

(** The first bytes of a file in a buffer, and the rest of it. *)
Lemma read_all_val fuel c read_data g size :
  inv c (world g) → Z.of_nat (length c) < 2 ^ 32 →
  default [] read_data = take (length (default [] read_data)) c →
  (size = Z.of_nat (length c) ∨ read_data = None ∧ 0 < size) →
  (read_data = None ∨ read_data ≠ Some [] ∨ c = []) →
  (length c - length (default [] read_data) < fuel ∨
   size = Z.of_nat (length c) ∧ length (default [] read_data) = length c)%nat →
  ∃ g', read_all fuel ctx (mkFHandle (Some h)) read_data size g = Val c g' ∧ called c g g'.
Proof.
  revert read_data size g. induction fuel as [|fuel IH]; intros d size g Hg Hmax Hd Hsize Hne Hfuel; cbn [read_all];
    destruct (Z.ltb_spec (Z.of_nat (length (default [] d))) size) as [Hlt|Hge];
    try (exists g; split; [|by exists (world g); destruct g]; f_equal; destruct Hsize as [->|[-> Hpos]];
         [rw Hd take_ge //; lia|simpl in Hge; lia]).
  { destruct Hfuel as [Hf|[-> Hf]]; [lia|]. rw Hf in Hlt. lia. }
  set (n := length (default [] d)).
  assert (n ≤ length c)%nat as Hn.
  { rw /n Hd length_take. lia. }
  assert (Z.of_nat n < 2 ^ 32) as Hn32 by lia.
  destruct (read_serves (Z.of_nat n) READ_BYTES_PER_RPC c (world g) Hg) as (a & s & Hrun & Ha & Hsz & Hs);
    [lia|rw /READ_BYTES_PER_RPC; lia|].
  rw wrap32_small; [rw /u32; lia|].
  set (chunk := bytes_at (Z.of_nat n) READ_BYTES_PER_RPC c) in Hrun.
  assert (∃ k, (0 < k)%nat ∧ chunk = take k (drop n c)) as (k & Hk & Hchunk).
  { exists (Z.to_nat READ_BYTES_PER_RPC). split; [|by rw /chunk /bytes_at Nat2Z.id]. rw /READ_BYTES_PER_RPC. lia. }
  assert (Validation.validate_nfs_read_res (Some (read_ok a chunk)) = Some 0) as Hv.
  { apply Messages.validate_res_ok. rw /Validation.validate_read_res_body. cbn [rr_nfsdata rr_attributes len Nfs.data].
    rw Ha. by destruct chunk. }
  rw (bind_val _ _ _ _ _ (ok_results_val 1 _ _ _ _ _ _ g s Hrun Hv)). cbn [rr_nfsdata rr_attributes len Nfs.data].
  assert (take (Z.to_nat (Z.of_nat (length chunk))) (default [] (match chunk with [] => None | _ => Some chunk end)) = chunk) as ->.
  { rw Nat2Z.id. destruct chunk; [done|]. apply firstn_all. }
  rw Z.eqb_refl (bind_val _ _ _ tt (set_world s g)) //.
  assert (default [] d ++ chunk = take (n + k) c) as Happ by by rw Hchunk Hd take_extend.
  set (d' := default [] d ++ chunk) in Happ.
  assert (length d' = Nat.min (n + k) (length c)) as Hlen by rw Happ length_take //.
  assert (grow_buffer d chunk = Some d') as ->.
  { rw /grow_buffer. destruct d as [[|b d]|]; [|done|done]. destruct chunk as [|b chunk]; [|done].
    exfalso. destruct Hne as [?|[?| ->]]; [done..|]. destruct Hsize as [->|[? _]]; [simpl in Hlt; lia|done]. }
  rw (bind_val _ _ _ a (set_world s g)) // Hsz.
  destruct (IH (Some d') (Z.of_nat (length c)) (set_world s g)) as (g' & Hg' & Hcalled).
  - done.
  - done.
  - rw /= Hlen Happ. destruct (decide (n + k ≤ length c)%nat); [by rw Nat.min_l|]. rw Nat.min_r; [lia|]. rw !take_ge //; lia.
  - by left.
  - right. destruct c as [|b c]; [by right|]. left. intros [= Hnil]. rw Hnil /= in Hlen. lia.
  - simpl. rw Hlen. fold n in Hfuel. lia.
  - exists g'. split; [done|]. destruct Hcalled as (s' & -> & Hs'). by exists s'.
Qed.

(** The whole file. *)
Definition shown (c : list byte) : string := of_chars (c_string (text_of c)).

Lemma print_file_val fuel c g :
  rpc_connection_context g = Some ctx → inv c (world g) → Z.of_nat (length c) < 2 ^ 32 → (length c < fuel)%nat →
  ∃ s, print_file fuel (mkFHandle (Some h)) g = Val 0 (print nl (print (shown c) (set_world s g))) ∧ inv c s.
Proof.
  intros Hc Hg Hmax Hf. rw /print_file. run_step (context_val (R:=Z) g ctx Hc).
  destruct (read_all_val fuel c None g READ_BYTES_PER_RPC Hg Hmax) as (g' & Hrun & s & -> & Hs);
    [done|by right|by left|by left; simpl; lia|].
  exists s. by run_step Hrun.
Qed.

(** The loop writes what is left of the text. *)
Lemma write_all_val fuel text off done_ c g :
  inv c (world g) → 0 ≤ off → 0 ≤ done_ < Z.of_nat (length text) → off + Z.of_nat (length text) ≤ 2 ^ 32 →
  Z.of_nat (length text) - done_ ≤ Z.of_nat fuel →
  ∃ g', write_all fuel ctx (mkFHandle (Some h)) text off done_ g = Val tt g' ∧
        called (splice (Z.to_nat (off + done_)) (drop (Z.to_nat done_) text) c) g g'.
Proof.
  revert done_ c g. induction fuel as [|fuel IH]; intros done_ c g Hg Hoff Hd Hmax Hf; [lia|]. cbn [write_all].
  rw (proj2 (Z.ltb_lt done_ _)); [lia|]. set (left := Z.of_nat (length text) - done_).
  set (n := if left <? WRITE_BYTES_PER_RPC then left else WRITE_BYTES_PER_RPC).
  assert (0 < n ≤ left ∧ n ≤ 5000) as [Hn Hn5].
  { rw /n /WRITE_BYTES_PER_RPC. destruct (Z.ltb_spec left 5000) as [Hl|Hl]; rw /left in Hl |- *; lia. }
  set (chunk := take (Z.to_nat n) (drop (Z.to_nat done_) text)).
  assert (Z.of_nat (length chunk) = n) as Hlen by (rw /chunk length_take length_drop; lia).
  destruct (write_serves (off + done_) chunk c (world g) Hg) as (a & s & Hrun & Ha & Hs); [lia| |lia|].
  { intros Hnil. rw Hnil /= in Hlen. lia. }
  rw wrap_offset; [lia|]. rw Hlen in Hrun.
  rw (bind_val _ _ _ _ _ (ok_results_val 1 Validation.validate_nfs_attr_stat _ _ _ _ _ g s Hrun
    (Messages.validate_res_ok _ _ (f_equal Some Ha)))).
  assert (drop (Z.to_nat done_) text = chunk ++ drop (Z.to_nat (done_ + n)) text) as Hsplit.
  { rw /chunk Z2Nat.inj_add; [lia..|]. rw -drop_drop take_drop //. }
  destruct (decide (done_ + n = Z.of_nat (length text))) as [Heq|Hne].
  - exists (set_world s g). rw Heq. split; [destruct fuel; by rw /= Z.ltb_irrefl|].
    exists s. split; [done|]. rw Hsplit drop_ge ?app_nil_r //. lia.
  - destruct (IH (done_ + n) _ (set_world s g) Hs Hoff) as (g2 & Hl & s2 & -> & Hs2); [lia..|].
    exists (set_world s2 g). split; [done|]. exists s2. split; [done|]. rw Hsplit -splice_app.
    rw (_ : Z.to_nat (off + done_) + length chunk = Z.to_nat (off + (done_ + n)))%nat //. lia.
Qed.

(** Data written behind the end of a file. *)
Lemma splice_end (data c : list byte) : splice (length c) data c = c ++ data.
Proof. rw /splice firstn_all Nat.sub_diag drop_ge ?app_nil_r //. lia. Qed.

Definition line_of (text : string) : list byte := bytes_of (newline :: chars text).

Lemma append_to_file_val text c g :
  rpc_connection_context g = Some ctx → inv c (world g) →
  Z.of_nat (length c) + Z.of_nat (length (line_of text)) ≤ 2 ^ 32 →
  ∃ s, append_to_file (mkFHandle (Some h)) text g = Val 0 (set_world s g) ∧ inv (c ++ line_of text) s.
Proof.
  intros Hc Hg Hmax. rw /append_to_file. run_step (context_val (R:=Z) g ctx Hc).
  destruct (getattr_serves c (world g) Hg) as (a & s & Hrun & Ha & Hsz & Hs).
  rw (bind_val _ _ _ _ _ (ok_results_val 1 Validation.validate_nfs_attr_stat _ _ _ _ _ g s Hrun
    (Messages.validate_res_ok _ _ (f_equal Some Ha)))). fold (line_of text). rw Hsz.
  assert (0 < length (line_of text))%nat as Hpos by (rw /line_of /bytes_of /=; lia).
  destruct (write_all_val (length (line_of text)) (line_of text) (Z.of_nat (length c)) 0 c (set_world s g) Hs)
    as (g2 & Hw & s2 & -> & Hs2); [lia..|].
  exists s2. run_step Hw. split; [done|]. by rw Z.add_0_r drop_0 Nat2Z.id splice_end in Hs2.
Qed.
End files.

(** * Finding a file *)

Section find.
Context `{Transports St} `{ClientCodec} `{!LookupService ctx inv tree} `{!LinkService ctx inv links}.
Implicit Types (g : Repl St).

Lemma lookup_val {R} (r : R) invalid denied failed dir name h t g :
  inv (world g) → nameable tree dir name → tree dir name = inr (h, t) →
  ∃ a s, ok_results r Validation.validate_nfs_dir_op_res invalid denied failed
           (nfs_procedure_4_look_up_file_name (Some ctx) (name_in (mkFHandle (Some dir)) name)) g =
         Val (mkDirOpOk (Some (mkFHandle (Some h))) (Some a)) (set_world s g) ∧ fa_ftype a = Some t ∧ inv s.
Proof.
  intros Hg Hname Ht. destruct (lookup_serves dir name (world g) Hg Hname) as (res & s & Hrun & Hres & Hs).
  rw Ht /= in Hres. destruct Hres as (a & Ha & Hft & ->). exists a, s. split_and!; [|done|done].
  apply ok_results_val; [done|]. apply Messages.validate_res_ok. by rw /Validation.validate_nfs_dir_op_ok /= Ha.
Qed.

Lemma find_file_chase command name root dir path h0 t0 g :
  mounted_at g ctx root dir path → inv (world g) → nameable tree dir name →
  tree dir name = inr (h0, t0) → t0 ≠ NFDIR → chaseable tree links root dir SYMLINK_LEVELS_LIMIT h0 t0 →
  ∃ g', stepped (inv:=inv) g g' ∧
    find_file command name g =
    match chase tree links root dir SYMLINK_LEVELS_LIMIT h0 t0 with
    | Reached h => Val (mkFHandle (Some h)) g'
    | Failed => Ret 1 g'
    | Dangling => Fault
    end ∧ (∀ h', chase tree links root dir SYMLINK_LEVELS_LIMIT h0 t0 = Reached h' → stdout g' = stdout g).
Proof.
  intros Hm Hg Hname Ht Hd Hlinks. rw /find_file. destruct (mounted_cwd (R:=Z) g ctx root dir path Hm) as (n & Hcwd & Hn & _).
  run_step Hcwd. run_step (context_val (R:=Z) g ctx (at_context _ _ _ _ _ Hm)). rw Hn.
  destruct (lookup_val 1 (line "Error: Invalid NFS LOOKUP procedure result received from the server")
    (command +:+ line ": Permission denied")
    (λ status, "Error: Failed to lookup a file in the current working directory with status " +:+ line status)
    dir name h0 t0 g Hg Hname Ht) as (a & s & Hrun & Ha & Hs).
  run_step Hrun. rw (bind_val _ _ _ a (set_world s g)) // Ha (bind_val _ _ _ t0 (set_world s g)) //.
  rw decide_False // (bind_val _ _ _ tt (set_world s g)) //.
  rw (bind_val _ _ _ (mkFHandle (Some h0), t0) (set_world s g)); [by rw /looked_up /mbind /prog_bind /= Ha|].
  assert (mounted_at (set_world s g) ctx root dir path) as Hm' by by apply (mounted_at_same g).
  destruct (follow_symbolic_links_chase command root dir path h0 t0 (set_world s g) Hm' Hs Hlinks) as (g' & Hstep & Hrun' & Hout).
  exists g'. split_and!; [by apply (stepped_trans _ (set_world s g))| |done]. clear Hrun.
  rw /mbind /prog_bind /pointer /call /mbind /prog_bind Hrun'. by destruct (chase _ _ _ _ _ _ _).
Qed.
End find.

(** * Theorems *)

Section theorems.
Context `{Transports St} `{ClientCodec} (ctx : RpcConnectionContext) (tree : namespace).
Context (links : linkspace).
Implicit Types (g : Repl St).

Section links.
Context (inv : St → Prop) `{!LookupService ctx inv tree} `{!LinkService ctx inv links}.

End links.

Section files.
Context (h : NfsFileHandle) (inv : list byte → St → Prop).
Context `{!∀ c, LookupService ctx (inv c) tree} `{!∀ c, LinkService ctx (inv c) links}.
Context `{!FileService ctx h inv} `{!SizeService ctx h inv}.

(** A name in the current directory that leads to the file, directly or over
    symbolic links. *)
Definition leads_to (root dir : NfsFileHandle) (name : string) : Prop :=
  nameable tree dir name ∧
  ∃ h0 t0, tree dir name = inr (h0, t0) ∧ t0 ≠ NFDIR ∧ chaseable tree links root dir SYMLINK_LEVELS_LIMIT h0 t0 ∧
    chase tree links root dir SYMLINK_LEVELS_LIMIT h0 t0 = Reached h.

Lemma handle_cat_val fuel name root dir path c g :
  mounted_at g ctx root dir path → inv c (world g) → leads_to root dir name →
  Z.of_nat (length c) < 2 ^ 32 → (length c < fuel)%nat →
  ∃ g', run (handle_cat fuel name) g = Some (0, g') ∧ same g g' ∧ inv c (world g') ∧
        stdout g' = stdout g ++ [shown c; nl].
Proof.
  intros Hm Hg (Hname & h0 & t0 & Ht & Hd & Hlinks & Hch) Hmax Hf. rw /handle_cat.
  assert (require_mounted 1 g = Val tt g) as Hreq by apply require_mounted_mounted, (mounted_at_is _ _ _ _ _ Hm).
  destruct (find_file_chase (inv:=inv c) "cat" name root dir path h0 t0 g Hm Hg Hname Ht Hd Hlinks) as (g1 & [Hs Hi] & Hfind & Hout).
  rw Hch in Hfind. pose proof (mounted_at_same _ _ _ _ _ _ Hs Hm) as Hm1.
  destruct (print_file_val ctx h inv fuel c g1 (at_context _ _ _ _ _ Hm1) Hi Hmax Hf) as (s & Hp & Hinv).
  eexists. split; [apply run_val; run_step Hreq; run_step Hfind; exact Hp|]. split_and!; [|done|].
  - by destruct Hs.
  - simpl. rw (Hout _ Hch). by rw -app_assoc.
Qed.

Lemma handle_echo_val text name root dir path c g :
  mounted_at g ctx root dir path → inv c (world g) → leads_to root dir name →
  Z.of_nat (length c) + Z.of_nat (length (line_of text)) ≤ 2 ^ 32 →
  ∃ g', run (handle_echo text name) g = Some (0, g') ∧ same g g' ∧ inv (c ++ line_of text) (world g') ∧
        stdout g' = stdout g.
Proof.
  intros Hm Hg (Hname & h0 & t0 & Ht & Hd & Hlinks & Hch) Hmax. rw /handle_echo.
  assert (require_mounted 1 g = Val tt g) as Hreq by apply require_mounted_mounted, (mounted_at_is _ _ _ _ _ Hm).
  destruct (find_file_chase (inv:=inv c) "echo" name root dir path h0 t0 g Hm Hg Hname Ht Hd Hlinks) as (g1 & [Hs Hi] & Hfind & Hout).
  rw Hch in Hfind. pose proof (mounted_at_same _ _ _ _ _ _ Hs Hm) as Hm1.
  destruct (append_to_file_val ctx h inv text c g1 (at_context _ _ _ _ _ Hm1) Hi Hmax) as (s & Hp & Hinv).
  eexists. split; [apply run_val; run_step Hreq; run_step Hfind; exact Hp|]. split_and!; [|done|].
  - by destruct Hs.
  - simpl. by rw (Hout _ Hch).
Qed.

(** What [echo] appends [cat] shows: for every file that a name in
    the current directory leads to, directly or over symbolic links, [echo]
    succeeds and leaves the file with a newline and the text behind its old
    content and nothing else changed, and [cat], in as many calls of 5000 bytes as
    it takes, prints the whole content up to the first NUL and a newline (files
    below 4 GiB). *)
Theorem echo_then_cat text name root dir path c g fuel
    (Hm : mounted_at g ctx root dir path) (Hg : inv c (world g))
    (Hname : leads_to root dir name)
    (Hmax : Z.of_nat (length (c ++ line_of text)) < 2 ^ 32) (Hfuel : (length (c ++ line_of text) < fuel)%nat) :
  ∃ g1 g2, run (handle_echo text name) g = Some (0, g1) ∧ inv (c ++ line_of text) (world g1) ∧
    run (handle_cat fuel name) g1 = Some (0, g2) ∧ inv (c ++ line_of text) (world g2) ∧
    stdout g2 = stdout g ++ [shown (c ++ line_of text); nl].
Proof.
  rw length_app in Hmax. destruct (handle_echo_val text name root dir path c g Hm Hg Hname)
    as (g1 & Hecho & Hs & Hi & Hout); [lia|].
  destruct (handle_cat_val fuel name root dir path _ g1 (mounted_at_same _ _ _ _ _ _ Hs Hm) Hi Hname)
    as (g2 & Hcat & _ & Hi2 & Hout2); [rw length_app; lia|done|].
  exists g1, g2. split_and!; try done. by rw Hout2 Hout.
Qed.
End files.

(** One round of the loop. *)
Lemma ls_round fuel names cookie (page : list (string * Z)) inodes (e : bool) h root path g s :
  mounted_at g ctx root h path → (length page ≤ length inodes)%nat →
  run (nfs_procedure_16_read_from_directory (Some ctx)
         (mkReadDirArgs (Some (mkFHandle (Some h))) (Some (mkNfsCookie cookie)) READDIR_BYTES_PER_RPC)) (world g) =
    Some ((0, Some (ok_res (mkReadDirOk (zip_with entry_of page inodes) (if e then 1 else 0)))), s) →
  ls_loop (S fuel) names cookie g =
  (if e then Val (names ++ page.*1) (set_world s g)
   else ls_loop fuel (names ++ page.*1) (default cookie (snd <$> last page)) (set_world s g)).
Proof.
  intros Hm Hlen Hrun. destruct (mounted_cwd (R:=Z) g ctx root h path Hm) as (nd & Hcwd & Hnd & _).
  cbn [ls_loop]. run_step Hcwd. run_step (context_val (R:=Z) g ctx (at_context _ _ _ _ _ Hm)). rw Hnd.
  rw (bind_val _ _ _ _ _ (ok_results_val 1 _ _ _ _ _ _ g s Hrun (validate_page _ _ e))). cbn [entries eof].
  rw collect_fuse. run_step (collect_page _ _ names cookie (set_world s g) Hlen). by destruct e.
Qed.

Section directories.
Context (h : NfsFileHandle) (inv : St → Prop) (place : nat → Z → St → Prop) (names : list string).
Context `{!DirectoryService READDIR_BYTES_PER_RPC ctx h inv place names}.

(** The loop reads the rest of the directory. *)
Lemma ls_loop_val fuel i cookie root path g :
  mounted_at g ctx root h path → inv (world g) → place i cookie (world g) →
  (i ≤ length names)%nat → (length names - i < fuel)%nat →
  ∃ s, ls_loop fuel (take i names) cookie g = Val names (set_world s g) ∧ inv s.
Proof.
  revert i cookie g. induction fuel as [|fuel IH]; intros i cookie g Hm Hg Hp Hi Hf; [lia|].
  destruct (readdir_serves i cookie (world g) Hg Hp Hi) as (page & inodes & e & s & Hrun & Hlen & Hin & Hpage & Hs & Hend).
  rw (ls_round fuel _ _ page inodes e h root path g s Hm Hlen Hrun) Hpage take_take_drop. destruct e.
  - exists s. by rw Hend firstn_all.
  - destruct Hend as [Hpos Hp']. assert (mounted_at (set_world s g) ctx root h path) as Hm' by by apply (mounted_at_same g).
    destruct (IH (i + length page)%nat _ (set_world s g) Hm' Hs Hp') as (s' & Hl & Hs'); [lia..|]. by exists s'.
Qed.

(** [ls] prints the current directory: for every server that keeps
    the promise of READDIR for pages of 50 bytes it ends after at most one call
    per entry and one for the end, and prints every name exactly once, in order,
    with blanks between them. *)
Theorem ls_prints_directory root path fuel g
    (Hm : mounted_at g ctx root h path) (Hg : inv (world g)) (Hfuel : (length names < fuel)%nat) :
  ∃ g', run (handle_ls fuel) g = Some (0, g') ∧ same g g' ∧ inv (world g') ∧
        stdout g' = stdout g ++ [line (joined names)].
Proof.
  assert (require_mounted 1 g = Val tt g) as Hreq by apply require_mounted_mounted, (mounted_at_is _ _ _ _ _ Hm).
  destruct (ls_loop_val fuel 0 0 root path g Hm Hg (place_start _ Hg)) as (s & Hl & Hs); [lia..|].
  eexists. split; [apply run_val; rw /handle_ls; run_step Hreq; run_step Hl; done|]. by split_and!.
Qed.
End directories.

Section changing_directory.
Context {OS : Type} `{Posix OS} (local_files : St → OS) (memory : St → bool * bool).
Context (inv : St → Prop) `{!LookupService ctx inv tree}.

Lemma check_execute_values path uid gid (os : OS) :
  check_execute_permission path uid gid os = -1 ∨ check_execute_permission path uid gid os = 0 ∨
  check_execute_permission path uid gid os = 1.
Proof. rw /check_execute_permission. destruct (lstat path os) as [|st]; [by left|]. repeat case_match; auto. Qed.

Lemma auth_sys_val {R} g cred a :
  rpc_connection_context g = Some ctx → ctx_credential ctx = Some cred →
  Rpc.body cred = Rpc.AUTH_BODY_AUTH_SYS (Some a) → auth_sys (R:=R) g = Val a g.
Proof.
  intros Hc Hcred Ha. rw /auth_sys. run_step (context_val (R:=R) g ctx Hc). by rw /mbind /prog_bind Hcred /= Ha.
Qed.

Lemma enter_child_val child_path child g root dir path :
  repl_ok g → mounted_at g ctx root dir path → memory (world g) = (true, true) →
  ∃ g', enter_child memory child_path NFDIR (mkFHandle (Some child)) g = Val tt g' ∧ world g' = world g ∧
        mounted_at g' ctx root child child_path.
Proof.
  intros Hok [Hctx (lr & nr & Hr & Hnr & Hhr) (lc & nc & Hc & Hnc & _)] Hmem.
  pose proof Hok as Hok'. rw /repl_ok Hctx Hr Hc in Hok'. destruct Hok' as [_ Hdag].
  destruct (dag_enter (nodes g) lr lc child_path (mkFHandle (Some child)) Hdag)
    as (c & m1 & m2 & Hcreate & Hadd & Hdag' & Hkeep & Hnew).
  rw /enter_child /mbind /prog_bind /= /lift /=.
  assert ((memory (world g)).1 = true ∧ (memory (world g)).2 = true) as [-> ->] by by rw Hmem.
  rw Hcreate /= /attempt Hc /= Hadd /=. eexists. split_and!; [done|done|].
  destruct (dag_node _ _ _ Hdag) as [(st & Hst) (st' & Hst')]. split; simpl; [done|..].
  - exists lr. destruct (ancestors_top _ _ _ Hst') as (n & st2 & Hn & ->).
    destruct (ancestors_top _ _ _ (Hkeep _ _ Hst')) as (n' & st3 & Hn' & [= _ Heq _]). exists n'. split_and!; [done|done|].
    rw -Heq. congruence.
  - exists c. destruct (ancestors_top _ _ _ (Hnew _ Hst)) as (n' & st3 & Hn' & [= Hp Hh _]). exists n'. by rw -Hp -Hh.
Qed.

(** C40: entering a directory is decided by the files of the client's own
    machine. When the server has the directory and lets the client look it up, and
    there is memory for a node, [cd] of its name enters it exactly if a file with the server's path exists on the machine
    of the REPL and its permission bits, for the user and the group of the
    credential, have the execute bit; it then is the current directory, under its
    path on the server. Otherwise [cd] refuses and stays. *)
Theorem cd_asks_the_local_machine name root dir path h g a cred status
    (Hok : repl_ok g) (Hm : mounted_at g ctx root dir path) (Hg : inv (world g))
    (Hnm : nameable tree dir name)
    (Hname : tree dir name = inr (h, NFDIR)) (Hdots : name ≠ "." ∧ name ≠ "..")
    (Hcred : ctx_credential ctx = Some cred) (Ha : Rpc.body cred = Rpc.AUTH_BODY_AUTH_SYS (Some a))
    (Hmemory : ∀ s, memory s = (true, true))
    (Hlocal : ∀ s, inv s → check_execute_permission (get_file_absolute_path path name)
       (Rpc.uid a) (Rpc.gid a) (local_files s) = status) :
  ∃ r g', run (handle_cd local_files memory name) g = Some (r, g') ∧ inv (world g') ∧
    if decide (status = 0)
    then r = None ∧ mounted_at g' ctx root h (get_file_absolute_path path name)
    else r = Some 1 ∧ same g g'.
Proof.
  assert (require_mounted (Some 1) g = Val tt g) as Hreq by apply require_mounted_mounted, (mounted_at_is _ _ _ _ _ Hm).
  destruct (mounted_cwd (R:=option Z) g ctx root dir path Hm) as (n & Hcwd & Hn & Hpath).
  destruct Hdots as [Hd1%String.eqb_neq Hd2%String.eqb_neq].
  destruct (lookup_val (Some 1) invalid_result ("cd: Permission denied: " +:+ line name)
    (λ status, "Error: Failed to enter the specified directory with status " +:+ line status)
    dir name h NFDIR g Hg Hnm Hname) as (at' & s & Hrun & Hat & Hs).
  pose proof (Hlocal s Hs) as Hst. pose proof (check_execute_values (get_file_absolute_path path name)
    (Rpc.uid a) (Rpc.gid a) (local_files s)) as Hvals. rw Hst in Hvals.
  assert (check_local_permission local_files (get_file_absolute_path path name) name (set_world s g) =
    if decide (status = 0) then Val tt (set_world s g)
    else Ret (Some 1) (print (if status =? -1 then
        "Error: Failed to check if client has execute permission on directory " +:+ get_file_absolute_path path name +:+
        " with status " +:+ line (decimal status) else "cd: Permission denied: " +:+ line name) (set_world s g))) as Hcheck.
  { rw /check_local_permission (bind_val _ _ _ a (set_world s g)); [apply (auth_sys_val _ cred); [exact (at_context _ _ _ _ _ Hm)|done|done]|].
    rw /mbind /prog_bind /= Hst. by destruct Hvals as [->|[->| ->]]. }
  rw /run /handle_cd (bind_val _ _ _ _ _ Hreq) (bind_val _ _ _ _ _ Hcwd).
  rw (bind_val _ _ _ _ _ (context_val (R:=option Z) g ctx (at_context _ _ _ _ _ Hm))) Hn (bind_val _ _ _ _ _ Hrun).
  rw (bind_val _ _ _ at' (set_world s g)) // Hat (bind_val _ _ _ NFDIR (set_world s g)) //.
  rw (bind_val _ _ _ tt (set_world s g)) // Hd1 (bind_val _ _ _ tt (set_world s g)) // Hd2 Hpath.
  rw {1}/mbind {1}/prog_bind Hcheck. destruct (decide (status = 0)) as [->|Hne].
  - rw (bind_val _ _ _ (mkFHandle (Some h)) (set_world s g)) // (bind_val _ _ _ h (set_world s g)) //.
    destruct (enter_child_val (get_file_absolute_path path name) h (set_world s g) root dir path)
      as (g' & Henter & Hw & Hm'); [by apply (same_ok g)|by apply (mounted_at_same g)|by apply Hmemory|].
    run_step Henter. exists None, g'. by rw Hw.
  - eexists _, _. by split_and!.
Qed.
End changing_directory.
End theorems.
