(* ===== verification/ServerFiles.v ===== *)
(** The server behind the interfaces of the client's theorems: over a TCP
    connection the server of [Server] provides [LookupService], [FileService] and
    [SizeService], so that what the FUSE handlers and the commands of the REPL
    achieve for a server that keeps these promises they achieve on the files of
    the operating system that the server runs on.

    The assumptions are those of the parts that are not of this repository: the
    encoding of messages by protobuf-c ([Messaging]), and an operating system on
    which the calls on one ordinary file succeed ([OrdinaryFile]). *)
From S2P Require Import CStrings ReplDag ReplState ReplHandlers ReplSafety ReplData.
From S2P Require Import Prelude Messages Posix InodeCache Permissions FileManagement ReadDir.
From S2P Require Import ServerState ProcAttr ProcFile ProcCreate ProcRemove ProcMount RecordMarking Server.
From S2P Require Import Connections RpcClient NfsClient EndToEnd FusePaths FuseHandlers FuseData.

(** * Files that keep their identity *)

(** What reading and writing a file leaves as it is. *)
Definition identity (st : stat) : list Z :=
  [st_dev st; st_ino st; st_mode st; st_nlink st; st_uid st; st_gid st; st_rdev st].

Definition node_at `{Posix OS} (p : string) (o : OS) : errno + list Z :=
  match lstat p o with inl e => inl e | inr st => inr (identity st) end.

Definition same_nodes `{Posix OS} (o o' : OS) : Prop := ∀ p, node_at p o = node_at p o'.

Section same_nodes.
Context `{Posix OS}.
Implicit Types (o : OS).

#[global] Instance same_nodes_refl : Reflexive (same_nodes (OS:=OS)).
Proof. by intros o p. Qed.

#[global] Instance same_nodes_trans : Transitive (same_nodes (OS:=OS)).
Proof. intros o1 o2 o3 H1 H2 p. by rw H1. Qed.

Lemma same_lstat o o' p st :
  same_nodes o o' → lstat p o' = inr st → ∃ st0, lstat p o = inr st0 ∧ identity st0 = identity st.
Proof.
  intros Hs Hst. specialize (Hs p). revert Hs. rw /node_at Hst.
  destruct (lstat p o) as [e|st0]; [done|]. intros [= ???????]. exists st0. split; [done|]. rw /identity. congruence.
Qed.

Lemma same_lstat_error o o' p e : same_nodes o o' → lstat p o' = inl e → lstat p o = inl e.
Proof. intros Hs He. specialize (Hs p). revert Hs. rw /node_at He. by destruct (lstat p o); [intros [= ->]|]. Qed.
End same_nodes.

(** * The names for which the server has handles *)

Section names.
Context `{Posix OS}.
Implicit Types (o : OS) (K : InodeCache).

(** The directory of a handle, as LOOKUP sees it. *)
Definition lookup_view K o (uid gid : Z) (h : Nfs.NfsFileHandle) (n : string)
    : Nfs.Stat + (Nfs.NfsFileHandle * Nfs.FType) :=
  match get_absolute_path_from_inode_number (Nfs.inode_number h) K with
  | None => inl Nfs.NFSERR_NOENT
  | Some d =>
      match lstat d o, lstat (get_file_absolute_path d n) o with
      | inr st, inr f =>
          if negb (S_ISDIR (st_mode st)) then inl Nfs.NFSERR_NOTDIR
          else if permitted Execute st uid gid then
            match get_nfs_filehandle_from_inode_number (st_ino f) K with
            | Some h => inr (h, decode_file_type (st_mode f))
            | None => inl Nfs.NFSERR_NOENT
            end
          else inl Nfs.NFSERR_ACCES
      | inr st, inl _ => inl (if S_ISDIR (st_mode st) then Nfs.NFSERR_NOENT else Nfs.NFSERR_NOTDIR)
      | inl _, _ => inl Nfs.NFSERR_NOENT
      end
  end.

(** The name [n] in the directory of the handle [h] is one for which LOOKUP has
    nothing to remember: the path of the handle exists, and if it is a directory
    the name does not exist in it ([ENOENT]) or its inode is in the cache already.
    Nothing is said of any other name. *)
Definition servable K o (h : Nfs.NfsFileHandle) (n : string) : Prop :=
  ∀ d, get_absolute_path_from_inode_number (Nfs.inode_number h) K = Some d →
    ∃ st, lstat d o = inr st ∧
      (S_ISDIR (st_mode st) = true →
        match lstat (get_file_absolute_path d n) o with
        | inl e => e = ENOENT
        | inr f => is_Some (get_nfs_filehandle_from_inode_number (st_ino f) K)
        end).

(** The target of a link, as READLINK sees it. *)
Definition link_view K o (uid gid : Z) (h : Nfs.NfsFileHandle) : Nfs.Stat + string :=
  match get_absolute_path_from_inode_number (Nfs.inode_number h) K with
  | None => inl Nfs.NFSERR_NOENT
  | Some p =>
      match lstat p o with
      | inl _ => inl Nfs.NFSERR_NOENT
      | inr st =>
          if decide (decode_file_type (st_mode st) = Nfs.NFLNK) then
            if permitted Read st uid gid then
              match readlink p (Z.to_nat NFS_MAXPATHLEN) o with
              | inl _ => inl Nfs.NFSERR_IO
              | inr target => inr target
              end
            else inl Nfs.NFSERR_ACCES
          else inl Nfs.NFSERR_STALE
      end
  end.

(** The path of the handle exists, and if it is a link, reading it can only fail
    with [EIO]. *)
Definition link_readable K o (h : Nfs.NfsFileHandle) : Prop :=
  ∀ p, get_absolute_path_from_inode_number (Nfs.inode_number h) K = Some p →
    ∃ st, lstat p o = inr st ∧
      (decode_file_type (st_mode st) = Nfs.NFLNK → ∀ e, readlink p (Z.to_nat NFS_MAXPATHLEN) o = inl e → e = EIO).

Lemma servable_same K o o' h n : same_nodes o o' → servable K o h n → servable K o' h n.
Proof.
  intros Hs HK d Hd. destruct (HK d Hd) as (st & Hst & Hn).
  pose proof (Hs d) as Hd'. rw /node_at Hst in Hd'. destruct (lstat d o') as [|st'] eqn:Hst'; [done|].
  exists st'. split; [done|]. intros Hdir. injection Hd' as _ _ Hmode _ _ _ _. rw -Hmode in Hdir.
  specialize (Hn Hdir). destruct (lstat (get_file_absolute_path d n) o') as [e|f'] eqn:Hf'.
  - by rw (same_lstat_error _ _ _ _ Hs Hf') in Hn.
  - destruct (same_lstat _ _ _ _ Hs Hf') as (f & Hf & [= _ Hino _ _ _ _ _]). by rw Hf Hino in Hn.
Qed.

Lemma permitted_same a st st' uid gid : identity st = identity st' → permitted a st uid gid = permitted a st' uid gid.
Proof.
  intros [= _ _ Hm _ Hu Hg _]. by rw /permitted /unix_access /class_shift Hm Hu Hg.
Qed.

Lemma lookup_view_same K o o' uid gid h n : same_nodes o o' → lookup_view K o uid gid h n = lookup_view K o' uid gid h n.
Proof.
  intros Hs. rw /lookup_view. destruct (get_absolute_path_from_inode_number _ K) as [d|]; [|done].
  pose proof (Hs d) as Hd. pose proof (Hs (get_file_absolute_path d n)) as Hf. revert Hd Hf. rw /node_at.
  destruct (lstat d o) as [|st], (lstat d o') as [|st']; [done..|]. intros Hst.
  assert (identity st = identity st') as Hid by congruence.
  pose proof (permitted_same Execute st st' uid gid Hid) as Hp. injection Hst as _ _ Hm _ _ _ _.
  destruct (lstat (get_file_absolute_path d n) o) as [|f], (lstat (get_file_absolute_path d n) o') as [|f'];
    try done; [by rw Hm|]. intros [= _ Hi Hfm _ _ _ _]. by rw Hm Hp Hi Hfm.
Qed.

Lemma link_view_same K o o' uid gid h :
  same_nodes o o' → (∀ p n, readlink p n o = readlink p n o') → link_view K o uid gid h = link_view K o' uid gid h.
Proof.
  intros Hs Hl. rw /link_view. destruct (get_absolute_path_from_inode_number _ K) as [p|]; [|done].
  pose proof (Hs p) as Hp. revert Hp. rw /node_at. destruct (lstat p o) as [|st], (lstat p o') as [|st']; [done..|].
  intros Hst. assert (identity st = identity st') as Hid by congruence.
  rw (permitted_same Read st st' uid gid Hid) Hl. by injection Hid as _ _ -> _ _ _ _.
Qed.

Lemma link_readable_same K o o' h :
  same_nodes o o' → (∀ p n, readlink p n o = readlink p n o') → link_readable K o h → link_readable K o' h.
Proof.
  intros Hs Hl HK p Hp. destruct (HK p Hp) as (st & Hst & He). pose proof (Hs p) as Hp'. rw /node_at Hst in Hp'.
  destruct (lstat p o') as [|st'] eqn:Hst'; [done|]. exists st'. split; [done|].
  injection Hp' as _ _ <- _ _ _ _. intros Ht e. rw -Hl. by apply He.
Qed.
End names.

(** LOOKUP of such a name answers according to the view and changes nothing. *)
Section lookup.
Context `{Posix OS} `{Codec}.
Implicit Types (s : server_state OS).

Lemma lookup_servable credential verifier a params h n s :
  auth_sys_cred credential a →
  carries unpack_DirOpArgs "nfs/DirOpArgs" params (full_dir_op h n) →
  servable (inode_cache s) (os s) h n →
  ∃ res, run (serve_nfs_procedure_4_look_up_file_name credential verifier (Some params)) s =
           Some (success (pack_DirOpRes res) "nfs/DirOpRes", s) ∧
         tree_reply (lookup_view (inode_cache s) (os s) (Rpc.uid a) (Rpc.gid a) h n) res ∧
         (∀ h' t, lookup_view (inode_cache s) (os s) (Rpc.uid a) (Rpc.gid a) h n = inr (h', t) →
            ∃ p st, lstat p (os s) = inr st ∧
              res = Nfs.ok_res (Nfs.mkDirOpOk (Some (full_fhandle h')) (Some (fattr_of_stat st)))).
Proof.
  intros Hcred Hp HK. set (error st := Nfs.mkRes (Some st) (Nfs.BODY_DEFAULT_CASE (Some tt)) : Nfs.DirOpRes).
  rw /lookup_view. destruct (get_absolute_path_from_inode_number _ (inode_cache s)) as [d|] eqn:Hd; last first.
  { exists (error Nfs.NFSERR_NOENT). split_and!; [|done|done].
    rw /run /serve_nfs_procedure_4_look_up_file_name. run_step (lookup_args_val params h n s Hp).
    by rw /resolve_directory /mbind /prog_bind /= Hd. }
  destruct (HK _ Hd) as (st & Hst & Hnames). rw Hst.
  destruct (S_ISDIR (st_mode st)) eqn:Hdir; last first.
  { exists (error Nfs.NFSERR_NOTDIR). destruct (lstat (get_file_absolute_path d n) (os s)); (split_and!; [|done|done]);
      rw /run /serve_nfs_procedure_4_look_up_file_name; run_step (lookup_args_val params h n s Hp);
      rw /resolve_directory /mbind /prog_bind /= Hd /= /attributes_or_system_error /mbind /prog_bind /= /get_attributes Hst /=;
      (rw decide_False //; intros [= Heq]; apply decode_file_type_dir in Heq; congruence). }
  specialize (Hnames eq_refl). destruct (lstat (get_file_absolute_path d n) (os s)) as [e|f] eqn:Hf.
  { subst e. exists (error Nfs.NFSERR_NOENT). split_and!; [|done|done].
    rw /run /serve_nfs_procedure_4_look_up_file_name. run_step (lookup_args_val params h n s Hp).
    run_step (resolve_directory_val dir_op_res_error h d s Hd (ex_intro _ st (conj Hst Hdir))).
    by rw /lstat_existing /mbind /prog_bind /= Hf. }
  simpl. destruct (permitted Execute st (Rpc.uid a) (Rpc.gid a)) eqn:Hperm.
  - destruct Hnames as [h' Hh']. rw Hh'.
    exists (Nfs.ok_res (Nfs.mkDirOpOk (Some (full_fhandle h')) (Some (fattr_of_stat f)))). split_and!.
    + rw (lookup_run credential verifier a params h d n f s) //; [by exists st| |].
      { revert Hperm. rw /permitted /may. destruct (Z.eqb_spec (Rpc.uid a) 0); [by left|]. intros Hu. right. eauto. }
      pose proof (run_val _ _ _ _ (lookup_reply_val _ _ s Hf)) as Hrun. rw Hh' in Hrun. rw Hrun. by destruct s.
    + by exists (fattr_of_stat f).
    + intros h2 t [= -> _]. eauto.
  - exists (error Nfs.NFSERR_ACCES). split_and!; [|done|done].
    rw /run /serve_nfs_procedure_4_look_up_file_name. run_step (lookup_args_val params h n s Hp).
    run_step (resolve_directory_val dir_op_res_error h d s Hd (ex_intro _ st (conj Hst Hdir))).
    run_step (lstat_existing_val dir_op_res_error (get_file_absolute_path d n) f s Hf).
    rw /check_permissions decide_True; [apply Hcred|]. rw (proj2 Hcred) /mbind /prog_bind /=.
    revert Hperm. rw /permitted /check_lookup_proc_permissions /check_root_user.
    destruct (Z.eqb_spec (Rpc.uid a) 0) as [|Hne]; [done|]. simpl. intros Hu.
    by rw (check_permission_access Execute d (Rpc.uid a) (Rpc.gid a) (os s) st Hst : check_execute_permission _ _ _ _ = _) Hu.
Qed.

Lemma permitted_check x path st uid gid (o : OS) :
  lstat path o = inr st →
  (if check_root_user uid uid =? 0 then 0 else check_permission x path uid gid o) = if permitted x st uid gid then 0 else 1.
Proof.
  intros Hst. rw /permitted /check_root_user. destruct (Z.eqb_spec uid 0); [done|].
  by rw /= (check_permission_access x path uid gid o st Hst).
Qed.

(** READLINK of a link that can be read. *)
Lemma readlink_readable credential verifier a params h s :
  auth_sys_cred credential a →
  carries unpack_FHandle "nfs/FHandle" params (full_fhandle h) →
  link_readable (inode_cache s) (os s) h →
  run (serve_nfs_procedure_5_read_from_symbolic_link credential verifier (Some params)) s =
  Some (success (pack_ReadLinkRes
    (match link_view (inode_cache s) (os s) (Rpc.uid a) (Rpc.gid a) h with
     | inl e => Nfs.mkRes (Some e) (Nfs.BODY_DEFAULT_CASE (Some tt))
     | inr target => Nfs.ok_res (Nfs.mkPath (Some target))
     end)) "nfs/ReadLinkRes", s).
Proof.
  intros Hcred Hp HK. rw /run /serve_nfs_procedure_5_read_from_symbolic_link /link_view.
  run_step (getattr_args_val params h s Hp). rw {1}/mbind /prog_bind /=.
  destruct (get_absolute_path_from_inode_number _ (inode_cache s)) as [p|] eqn:Hpath; [|done].
  destruct (HK _ Hpath) as (st & Hst & HL). rw {1}/mbind /prog_bind /= Hst. run_step (attributes_val p st s Hst).
  simpl. destruct (decide (decode_file_type (st_mode st) = Nfs.NFLNK)) as [Ht|Ht]; last first.
  { rw decide_False; [congruence|]. done. }
  rw (bind_val _ _ s tt s); [by rw decide_True // Ht|].
  pose proof (permitted_check Read p st (Rpc.uid a) (Rpc.gid a) (os s) Hst) as Hcheck.
  destruct (permitted Read st (Rpc.uid a) (Rpc.gid a)).
  - rw (bind_val _ _ s tt s); [apply (check_permissions_val _ a); [done|by f_equal]|].
    rw /mbind /prog_bind /=. destruct (readlink p (Z.to_nat NFS_MAXPATHLEN) (os s)) as [e|target] eqn:Hl; [|done].
    by rw (HL Ht e eq_refl).
  - rw (bind_ret _ _ s (success (pack_ReadLinkRes (Nfs.mkRes (Some Nfs.NFSERR_ACCES) (Nfs.BODY_DEFAULT_CASE (Some tt))))
      "nfs/ReadLinkRes") s); [by apply (check_permissions_ret _ a); [|f_equal|]|done].
Qed.
End lookup.

(** * What is assumed *)

(** Numbers that fit their fields. *)
Definition handle_ok (h : Nfs.NfsFileHandle) : Prop := u64 (Nfs.inode_number h) ∧ u64 (Nfs.timestamp h).
Definition stat_ok (st : stat) : Prop :=
  u64 (st_dev st) ∧ u64 (st_ino st) ∧ u32 (st_mode st) ∧ u64 (st_nlink st) ∧ u32 (st_uid st) ∧ u32 (st_gid st) ∧ u64 (st_rdev st).

(** Encodings of at most 1 MiB. *)
Definition fits (bytes : list byte) : Prop := Z.of_nat (length bytes) ≤ 2 ^ 20.

(** [m] is encoded, and decoded as [m']. *)
Definition coded {A} (pack : A → list byte) (unpack : list byte → option A) (m m' : A) : Prop :=
  unpack (pack m) = Some m' ∧ fits (pack m).

(** What protobuf-c promises of the messages of these calls: it decodes what
    it encoded, an empty [bytes] field apart, and the encodings are not large. *)
Class Messaging `{Codec} `{ClientCodec} `{ReplyFuel} (ctx : RpcConnectionContext) := {
  fhandle_coded h : handle_ok h → coded pack_FHandle unpack_FHandle (full_fhandle h) (full_fhandle h);
  dir_op_args_coded h n : handle_ok h → (String.length n ≤ 255)%nat →
    coded pack_DirOpArgs unpack_DirOpArgs (full_dir_op h n) (full_dir_op h n);
  read_args_coded h off count : handle_ok h → u32 off → u32 count →
    coded pack_ReadArgs unpack_ReadArgs (full_read_args h off count) (full_read_args h off count);
  write_args_coded h off data : handle_ok h → u32 off → data ≠ [] → Z.of_nat (length data) ≤ NFS_MAXDATA →
    coded pack_WriteArgs unpack_WriteArgs (full_write_args h off data) (full_write_args h off data);
  attr_stat_coded st : stat_ok st →
    coded pack_AttrStat unpack_AttrStat (Nfs.ok_res (fattr_of_stat st)) (Nfs.ok_res (fattr_of_stat st));
  dir_op_ok_coded h st : handle_ok h → stat_ok st →
    let m := Nfs.ok_res (Nfs.mkDirOpOk (Some (full_fhandle h)) (Some (fattr_of_stat st))) in
    coded pack_DirOpRes unpack_DirOpRes m m;
  dir_op_error_coded e : let m := Nfs.mkRes (Some e) (Nfs.BODY_DEFAULT_CASE (Some tt)) in
    coded pack_DirOpRes unpack_DirOpRes m m;
  read_link_ok_coded target : Z.of_nat (String.length target) ≤ NFS_MAXPATHLEN →
    let m := Nfs.ok_res (Nfs.mkPath (Some target)) in coded pack_ReadLinkRes unpack_ReadLinkRes m m;
  read_link_error_coded e : let m := Nfs.mkRes (Some e) (Nfs.BODY_DEFAULT_CASE (Some tt)) in
    coded pack_ReadLinkRes unpack_ReadLinkRes m m;
  read_dir_args_coded h cookie count : handle_ok h → u64 cookie → u32 count →
    coded pack_ReadDirArgs unpack_ReadDirArgs (full_readdir_args h cookie count) (full_readdir_args h cookie count);
  read_dir_res_coded es (eof : bool) : Forall wire_entry es → Z.of_nat (length es) ≤ 1000 →
    let m := Nfs.ok_res (Nfs.mkReadDirOk es (if eof then 1 else 0)) in coded pack_ReadDirRes unpack_ReadDirRes m m;
  read_res_coded st data : stat_ok st → Z.of_nat (length data) ≤ NFS_MAXDATA →
    let m := Nfs.ok_res (Nfs.mkReadResBody (Some (fattr_of_stat st))
               (Nfs.mkBinaryData (Z.of_nat (length data)) (Some data))) in
    coded pack_ReadRes unpack_ReadRes m (received_read_res m);
  call_travels xid procedure type bytes : u32 xid → 0 ≤ procedure ≤ 17 → (String.length type ≤ 32)%nat → fits bytes →
    travels (call_msg xid (stub_call ctx NFS_RPC_PROGRAM procedure type bytes));
  reply_travels xid type bytes : (String.length type ≤ 32)%nat → fits bytes →
    let m := reply_msg xid (accepted (success bytes type)) in
    travels m ∧ (length (pack_RpcMsg m) ≤ reply_fuel)%nat }.

(** One regular file of an operating system on which the calls on it do not
    fail: [intact c] holds of the states in which the file has the content [c];
    its identity and that of all other files are those of [o0], and the user may
    read and write it. *)
Class OrdinaryFile `{Stdio OS} (path : string) (uid gid : Z) (o0 : OS) (intact : list byte → OS → Prop) := {
  intact_content c o : intact c o → content path o = Some c;
  intact_nodes c o : intact c o → same_nodes o0 o;
  intact_links c o p n : intact c o → readlink p n o0 = readlink p n o;
  intact_size c o st : intact c o → lstat path o = inr st → st_size st = Z.of_nat (length c);
  intact_exists : ∃ st, lstat path o0 = inr st ∧ S_ISDIR (st_mode st) = false ∧
    permitted Read st uid gid = true ∧ permitted Write st uid gid = true;
  opens mode c o : mode ∈ ["rb"; "r+b"] → intact c o → ∃ f o', fopen path mode o = (inr f, o') ∧ intact c o';
  seeks f i pos c o : stream f o = Some (path, i) → intact c o →
    ∃ o', fseek_set f pos o = (inr tt, o') ∧ intact c o';
  reads f pos n c o : stream f o = Some (path, pos) → intact c o →
    ∃ data o', fread f n o = ((data, false), o') ∧ intact c o';
  writes f pos data c o : stream f o = Some (path, pos) → intact c o →
    ∃ o', fwrite f data o = (Z.of_nat (length data), o') ∧ intact (splice (Z.to_nat pos) data c) o';
  closes f c o : intact c o → ∃ o', fclose f o = (inr tt, o') ∧ intact c o' }.

Section ordinary.
Context `{Stdio OS} (path : string) (uid gid : Z) (o0 : OS) (intact : list byte → OS → Prop).
Context `{!OrdinaryFile path uid gid o0 intact}.
Implicit Types (o : OS).

Lemma may_permitted a o st : lstat path o = inr st → permitted a st uid gid = true → may a path uid gid o.
Proof.
  intros Hst. rw /permitted /may. destruct (Z.eqb_spec uid 0); [by left|]. intros Hu. right. eauto.
Qed.

(** The file as [lstat] sees it. *)
Lemma ordinary_stat c o :
  intact c o → ∃ st, lstat path o = inr st ∧ S_ISDIR (st_mode st) = false ∧ st_size st = Z.of_nat (length c) ∧
    may Read path uid gid o ∧ may Write path uid gid o.
Proof.
  intros Hc. destruct intact_exists as (st0 & Hst0 & Hdir & Hr & Hw).
  pose proof (intact_nodes c o Hc path) as Hn. rw /node_at Hst0 in Hn.
  destruct (lstat path o) as [|st] eqn:Hst; [done|].
  assert (identity st0 = identity st) as Hid by congruence.
  exists st. split_and!; [done| |by apply (intact_size c o)| |].
  - injection Hid as _ _ <- _ _ _ _. done.
  - apply (may_permitted _ _ st); [done|]. by rw -(permitted_same Read _ _ _ _ Hid).
  - apply (may_permitted _ _ st); [done|]. by rw -(permitted_same Write _ _ _ _ Hid).
Qed.

Lemma ordinary_read off n c o :
  intact c o → ∃ o', read_from_file (Some path) off n o = (0, bytes_at off n c, o') ∧ intact c o'.
Proof.
  intros Hc. assert (∃ data o', read_from_file (Some path) off n o = (0, data, o') ∧ intact c o') as (data & o' & Hr & Hi).
  - rw /read_from_file. destruct (opens "rb" c o) as (f & o1 & Hopen & H1); [by constructor|done|].
    rw Hopen. destruct (fopen_ok path "rb" o f o1 ltac:(by constructor) Hopen) as [Hf _].
    destruct (seeks f 0 off c o1 Hf H1) as (o2 & Hseek & H2). rw Hseek.
    destruct (fseek_ok _ _ _ _ _ _ Hf Hseek) as [Hf2 _].
    destruct (reads f off n c o2 Hf2 H2) as (data & o3 & Hread & H3). rw Hread.
    destruct (closes f c o3 H3) as (o4 & Hclose & H4). rw Hclose. eauto.
  - exists o'. by rw Hr (read_from_file_content path off n c data o o' (intact_content c o Hc) Hr).
Qed.

Lemma ordinary_write off data c o :
  intact c o → ∃ o', write_to_file (Some path) off (Z.of_nat (length data)) data o = (0, o') ∧
                     intact (splice (Z.to_nat off) data c) o'.
Proof.
  intros Hc. rw /write_to_file. destruct (opens "r+b" c o) as (f & o1 & Hopen & H1); [by do 2 constructor|done|].
  rw Hopen. destruct (fopen_ok path "r+b" o f o1 ltac:(by do 2 constructor) Hopen) as [Hf _].
  destruct (seeks f 0 off c o1 Hf H1) as (o2 & Hseek & H2). rw Hseek.
  destruct (fseek_ok _ _ _ _ _ _ Hf Hseek) as [Hf2 _]. rw Nat2Z.id firstn_all.
  destruct (writes f off data c o2 Hf2 H2) as (o3 & Hwrite & H3). rw Hwrite Z.eqb_refl /=.
  destruct (closes f _ o3 H3) as (o4 & Hclose & H4). rw Hclose. eauto.
Qed.
End ordinary.

(** * The services *)

(** A client with an AUTH_SYS credential on a TCP connection. *)
Record tcp_user (ctx : RpcConnectionContext) (cred ver : Rpc.OpaqueAuth) (a : Rpc.AuthSysParams) (fd : Z) : Prop := {
  user_context : tcp_context ctx fd;
  user_cred : ctx_credential ctx = Some cred;
  user_ver : ctx_verifier ctx = Some ver;
  user_sys : auth_sys_cred cred a;
  user_accepted procedure type bytes : rejection (stub_call ctx NFS_RPC_PROGRAM procedure type bytes) = None }.

Section services.
Context `{Stdio OS} `{PackedSizeBounds, !CountRange, !PackSmall} `{!ClientCodec} `{Memory}.
Context `{LiveSocket W, !Arrivals W} `{QuicCalls (client W (remote OS W)), ReplyFuel}.
Context (ctx : RpcConnectionContext) (cred ver : Rpc.OpaqueAuth) (a : Rpc.AuthSysParams) (fd : Z) `{!Messaging ctx}.
Hypothesis Huser : tcp_user ctx cred ver a fd.
Hypothesis Hmem : memory_available.
Implicit Types (c : client W (remote OS W)).

(** The state of the server at the other end. *)
Abbreviation server_of c := (srv (rworld (peer c))).

(** A stub whose procedure succeeds on the server. *)
Lemma stub_served {A R} procedure args_type (pack : A → list byte) results_type (unpack : list byte → option R)
    args bytes res s' c :
  idle fd (cnet c) (peer c) → 0 ≤ procedure ≤ 17 →
  (String.length args_type ≤ 32)%nat → (String.length results_type ≤ 32)%nat → fits (pack args) → fits bytes →
  run (call_nfs cred ver 2 procedure (Some (Rpc.mkAny (Some args_type) (pack args)))) (server_of c) =
    Some (success bytes results_type, s') →
  unpack bytes = Some res →
  ∃ c', run (remote_procedure NFS_RPC_PROGRAM procedure args_type pack results_type unpack (Some ctx) args) c =
          Some ((0, Some res), c') ∧
        server_of c' = s' ∧ idle fd (cnet c') (peer c').
Proof.
  intros Hidle Hproc Ht Ht' Hfit Hfit' Hrun Hres.
  apply (stub_run NFS_RPC_PROGRAM procedure args_type pack results_type unpack ctx cred ver fd args bytes res s' c);
    try done; [apply Huser..|].
  destruct (reply_travels (next_xid (rworld (peer c))) results_type bytes Ht' Hfit') as [Hrep Hfuel].
  split_and!; [|done|done]. apply call_travels; [|done..]. rw /u32 /wrap32. apply Z.mod_pos_bound. lia.
Qed.

(** ** Names *)

Section lookups.
Context (K : InodeCache) (o0 : OS).
Hypothesis Hhandles : ∀ i h, get_nfs_filehandle_from_inode_number i K = Some h → handle_ok h.
Hypothesis Hstats : ∀ p st, lstat p o0 = inr st → stat_ok st.

Lemma stat_ok_same o p st : same_nodes o0 o → lstat p o = inr st → stat_ok st.
Proof.
  intros Hs Hst. destruct (same_lstat _ _ _ _ Hs Hst) as (st0 & Hst0 & Hid).
  pose proof (Hstats p st0 Hst0) as Hok. rw /stat_ok in Hok |- *. by injection Hid as <- <- <- <- <- <- <-.
Qed.

Lemma view_handles h n h' t : lookup_view K o0 (Rpc.uid a) (Rpc.gid a) h n = inr (h', t) → handle_ok h'.
Proof. rw /lookup_view. repeat case_match; try done. intros [= <- _]. eapply Hhandles; eassumption. Qed.

(** The tree of names that the server shows the user: the names that are
    [servable] and not too long. *)
Definition served_tree : namespace :=
  mkNamespace (lookup_view K o0 (Rpc.uid a) (Rpc.gid a))
    (λ h n, handle_ok h ∧ (String.length n ≤ 255)%nat ∧ servable K o0 h n).

(** Nothing is under way, and the cache and the files are those of the tree. *)
Definition served c : Prop :=
  idle fd (cnet c) (peer c) ∧ inode_cache (server_of c) = K ∧ same_nodes o0 (os (server_of c)).

Lemma lookup_served h n c : served c → nameable served_tree h n →
  ∃ res c', run (nfs_procedure_4_look_up_file_name (Some ctx) (full_dir_op h n)) c = Some ((0, Some res), c') ∧
    tree_reply (served_tree h n) res ∧ server_of c' = server_of c ∧ idle fd (cnet c') (peer c').
Proof.
  intros (Hidle & HK & Hs) (Hh & Hn & Hset). destruct (dir_op_args_coded h n Hh Hn) as [Hargs Hfit].
  apply (servable_same _ _ (os (server_of c))) in Hset; [|done]. rw -HK in Hset.
  destruct (lookup_servable cred ver a (Rpc.mkAny (Some "nfs/DirOpArgs") (pack_DirOpArgs (full_dir_op h n))) h n
    (server_of c)) as (res & Hrun & Hres & Hok); [apply Huser|done|done|].
  rw HK -(lookup_view_same K o0 _ _ _ _ _ Hs) in Hres Hok.
  assert (coded pack_DirOpRes unpack_DirOpRes res res) as [Hcoded Hfit'].
  { destruct (lookup_view K o0 (Rpc.uid a) (Rpc.gid a) h n) as [e|[h' t]] eqn:Hview.
    - destruct Hres as [_ ->]. apply dir_op_error_coded.
    - destruct (Hok h' t eq_refl) as (p & st & Hst & ->). apply dir_op_ok_coded; [by apply (view_handles h n h' t)|].
      by apply (stat_ok_same (os (server_of c)) p). }
  destruct (stub_served 4 "nfs/DirOpArgs" pack_DirOpArgs "nfs/DirOpRes" unpack_DirOpRes (full_dir_op h n)
    (pack_DirOpRes res) res (server_of c) c) as (c' & Hcall & Hsrv & Hidle'); [done|lia|simpl; lia|simpl; lia|done..|].
  exists res, c'. by split_and!.
Qed.

#[local] Instance served_lookups : LookupService ctx served served_tree.
Proof.
  intros h n c Hc Hn. destruct (lookup_served h n c Hc Hn) as (res & c' & Hrun & Hres & Hsrv & Hidle).
  exists res, c'. split_and!; [done..|]. destruct Hc as (_ & HK & Hs). by rw /served Hsrv.
Qed.

(** ** A file *)

Section file.
Context (path : string) (h : Nfs.NfsFileHandle) (intact : list byte → OS → Prop).
Context `{!OrdinaryFile path (Rpc.uid a) (Rpc.gid a) o0 intact}.
Hypothesis Hpath : get_absolute_path_from_inode_number (Nfs.inode_number h) K = Some path.
Hypothesis Hhandle : handle_ok h.

(** The file behind the handle has the content [d]. *)
Definition holds (d : list byte) c : Prop :=
  idle fd (cnet c) (peer c) ∧ inode_cache (server_of c) = K ∧ intact d (os (server_of c)) ∧
  Z.of_nat (length d) < 2 ^ 63.

Lemma holds_served d c : holds d c → served c.
Proof. intros (Hidle & HK & Hd & _). split_and!; [done..|]. by apply (intact_nodes (path:=path) d). Qed.

Lemma holds_content d c : holds d c → content path (os (server_of c)) = Some d.
Proof. intros (_ & _ & Hd & _). by apply (intact_content d). Qed.

#[local] Instance holds_lookups d : LookupService ctx (holds d) served_tree.
Proof.
  intros h' n c Hc Hn.
  destruct (lookup_served h' n c (holds_served _ _ Hc) Hn) as (res & c' & Hrun & Hres & Hsrv & Hidle).
  exists res, c'. split_and!; [done..|]. destruct Hc as (_ & HK & Hd & Hlen). by rw /holds Hsrv.
Qed.

(** After a call that leaves the file with the content [d]. *)
Lemma holds_after d c c' o :
  inode_cache (server_of c) = K → server_of c' = set_os o (server_of c) → idle fd (cnet c') (peer c') →
  intact d o → Z.of_nat (length d) < 2 ^ 63 → holds d c'.
Proof. intros HK Hsrv Hidle Hd Hlen. rw /holds Hsrv. by split_and!. Qed.

Lemma size_of st d o : intact d o → lstat path o = inr st → Z.of_nat (length d) < 2 ^ 63 →
  Nfs.fa_size (fattr_of_stat st) = Z.of_nat (length d).
Proof.
  intros Hd Hst Hlen. simpl. rw (intact_size (path:=path) d o st Hd Hst) wrap64_small //. rw /u64. lia.
Qed.

#[local] Instance holds_files : FileService ctx h holds.
Proof.
  split.
  - intros off count d c (Hidle & HK & Hd & Hlen) Hoff Hcount.
    destruct (ordinary_stat path _ _ o0 intact d (os (server_of c)) Hd) as (st & Hst & Hdir & _ & Hmay & _).
    destruct (read_args_coded h off count Hhandle) as [Hargs Hfit]; [rw /u32; lia..|].
    assert (clamp_count count = count) as Hclamp by (rw /clamp_count /NFS_MAXDATA; destruct (count >? 8192) eqn:?; lia).
    destruct (ordinary_read path _ _ o0 intact off count d (os (server_of c)) Hd) as (o' & Hread & Hd').
    destruct (ordinary_stat path _ _ o0 intact d o' Hd') as (st' & Hst' & _).
    assert (Z.of_nat (length (bytes_at off count d)) ≤ NFS_MAXDATA) as Hmax
      by (rw /bytes_at length_take /NFS_MAXDATA; lia).
    destruct (read_res_coded st' (bytes_at off count d)) as [Hres Hfit']; [|done|].
    { apply (stat_ok_same o' path); [by apply (intact_nodes (path:=path) d)|done]. }
    destruct (stub_served 6 "nfs/ReadArgs" pack_ReadArgs "nfs/ReadRes" unpack_ReadRes (full_read_args h off count)
      (pack_ReadRes (Nfs.ok_res (Nfs.mkReadResBody (Some (fattr_of_stat st'))
        (Nfs.mkBinaryData (Z.of_nat (length (bytes_at off count d))) (Some (bytes_at off count d))))))
      (read_ok (fattr_of_stat st') (bytes_at off count d)) (set_os o' (server_of c)) c)
      as (c' & Hcall & Hsrv & Hidle'); [done|lia|simpl; lia|simpl; lia|done|exact Hfit'| | |].
    + rw /call_nfs /= (read_run cred ver a _ h path off count st 0 (bytes_at off count d) o') //; [apply Huser| | |].
      * by rw /resolves HK.
      * by rw Hclamp.
      * by rw /= Hst'.
    + rw Hres /read_ok /received_read_res /received_binary /=. by destruct (bytes_at off count d).
    + exists (fattr_of_stat st'), c'. split_and!; [done|done|by apply (size_of _ _ o')|]. by apply (holds_after d c c' o').
  - intros off data d c (Hidle & HK & Hd & Hlen) Hoff Hne Hmax.
    destruct (ordinary_stat path _ _ o0 intact d (os (server_of c)) Hd) as (st & Hst & Hdir & _ & _ & Hmay).
    assert (Z.of_nat (length data) ≤ NFS_MAXDATA) as Hmax' by (rw /NFS_MAXDATA; lia).
    destruct (write_args_coded h off data Hhandle) as [Hargs Hfit]; [rw /u32; lia|done|done|].
    destruct (ordinary_write path _ _ o0 intact off data d (os (server_of c)) Hd) as (o' & Hwrite & Hd').
    destruct (ordinary_stat path _ _ o0 intact _ o' Hd') as (st' & Hst' & _).
    destruct (attr_stat_coded st') as [Hres Hfit'].
    { apply (stat_ok_same o' path); [eapply (intact_nodes (path:=path)); exact Hd'|done]. }
    destruct (stub_served 8 "nfs/WriteArgs" pack_WriteArgs "nfs/AttrStat" unpack_AttrStat (full_write_args h off data)
      (pack_AttrStat (Nfs.ok_res (fattr_of_stat st')))
      (Nfs.ok_res (fattr_of_stat st')) (set_os o' (server_of c)) c)
      as (c' & Hcall & Hsrv & Hidle'); [done|lia|simpl; lia|simpl; lia|done|exact Hfit'| |done|].
    + rw /call_nfs /= (write_run cred ver a _ h path off data st o' st') //; [apply Huser|]. by rw /resolves HK.
    + exists (fattr_of_stat st'), c'. split_and!; [done|done|]. apply (holds_after _ c c' o'); try done.
      rw splice_cons_length. lia.
Qed.

#[local] Instance holds_sizes : SizeService ctx h holds.
Proof.
  intros d c (Hidle & HK & Hd & Hlen). destruct (fhandle_coded h Hhandle) as [Hargs Hfit].
  destruct (ordinary_stat path _ _ o0 intact d (os (server_of c)) Hd) as (st & Hst & _).
  destruct (attr_stat_coded st) as [Hres Hfit'].
  { apply (stat_ok_same (os (server_of c)) path); [by apply (intact_nodes (path:=path) d)|done]. }
  destruct (stub_served 1 "nfs/FHandle" pack_FHandle "nfs/AttrStat" unpack_AttrStat (full_fhandle h)
    (pack_AttrStat (Nfs.ok_res (fattr_of_stat st)))
    (Nfs.ok_res (fattr_of_stat st)) (server_of c) c)
    as (c' & Hcall & Hsrv & Hidle'); [done|lia|simpl; lia|simpl; lia|done|exact Hfit'| |done|].
  - rw /call_nfs /= (getattr_behaviour cred ver a _ h) //; [apply Huser|]. by rw HK Hpath Hst.
  - exists (fattr_of_stat st), c'. split_and!; [done|done|by apply (size_of _ _ (os (server_of c)))|]. by rw /holds Hsrv.
Qed.

(** ** Links *)

Section links.

(** The links that the server shows the user: those that it can read and whose
    targets fit a message. *)
Definition served_links : linkspace :=
  mkLinkspace (link_view K o0 (Rpc.uid a) (Rpc.gid a))
    (λ h, handle_ok h ∧ link_readable K o0 h ∧
          ∀ target, link_view K o0 (Rpc.uid a) (Rpc.gid a) h = inr target →
            Z.of_nat (String.length target) ≤ NFS_MAXPATHLEN).
Abbreviation links := served_links.

#[local] Instance holds_links d : LinkService ctx (holds d) links.
Proof.
  intros h' c Hc (Hh & Hreadable & Htarget). destruct (fhandle_coded h' Hh) as [Hargs Hfit].
  pose proof Hc as (Hidle & HK & Hd & Hlen). set (s := server_of c) in *.
  assert (same_nodes o0 (os s)) as Hs by by apply (intact_nodes (path:=path) d).
  assert (∀ p n, readlink p n o0 = readlink p n (os s)) as Hl by (intros; by apply (intact_links (path:=path) d)).
  pose proof (readlink_readable cred ver a (Rpc.mkAny (Some "nfs/FHandle") (pack_FHandle (full_fhandle h'))) h' s) as Hrun.
  rw HK -(link_view_same K o0 (os s) _ _ h' Hs Hl) in Hrun.
  specialize (Hrun (user_sys _ _ _ _ _ Huser) (conj eq_refl Hargs)
    (link_readable_same _ _ _ _ Hs Hl Hreadable)).
  set (res := match link_view K o0 (Rpc.uid a) (Rpc.gid a) h' with inl _ => _ | inr _ => _ end) in Hrun.
  assert (coded pack_ReadLinkRes unpack_ReadLinkRes res res) as [Hres Hfit'].
  { rw /res. destruct (link_view _ _ _ _ h') as [e|target]; [apply read_link_error_coded|].
    by apply read_link_ok_coded, Htarget. }
  destruct (stub_served 5 "nfs/FHandle" pack_FHandle "nfs/ReadLinkRes" unpack_ReadLinkRes (full_fhandle h')
    (pack_ReadLinkRes res) res s c) as (c' & Hcall & Hsrv & Hidle'); [done|lia|simpl; lia|simpl; lia|done..|].
  exists c'. split; [by rw /holds Hsrv|]. revert Hcall. rw /res /links /=.
  destruct (link_view _ _ _ _ h') as [e|target] eqn:Ht; [|done].
  split; [|done]. revert Ht. rw /link_view. by repeat case_match; intros [= <-].
Qed.

(** ** Theorems *)

(** C7: the FUSE client and the server together store and return data: for a
    file of the server's operating system of which the calls on it succeed, and
    to which a path of the mounted file system leads whose names the server has
    already given handles for, [nfs_write] of a buffer that ends within the first
    4 GiB of the file, over LOOKUP and WRITE calls of at most 5000 bytes on the TCP
    connection, ends, reports the whole length and leaves the file on the server's
    disk with the buffer spliced in at the offset; and from then on [nfs_read] of a
    range within the first 4 GiB returns exactly the bytes of that file in the
    range, and leaves the file as it is. *)
Theorem fuse_writes_reach_the_disk root fpath buffer offset d c
    (Hc : holds d c) (Hleads : leads_to_file served_tree root h fpath)
    (Hbuf : buffer ≠ []) (Hlen : Z.of_nat (length buffer) < 2 ^ 31)
    (Hoff : 0 ≤ offset) (Hmax : offset + Z.of_nat (length buffer) ≤ 2 ^ 32) :
  ∃ c1, nfs_write (Some ctx) (Some (full_fhandle root)) true fpath buffer offset c =
          Some (Z.of_nat (length buffer), c1) ∧
    content path (os (server_of c1)) = Some (splice (Z.to_nat offset) buffer d) ∧
    ∀ size off, 0 ≤ size < 2 ^ 31 → 0 ≤ off < 2 ^ 32 → off + size ≤ 2 ^ 32 →
      ∃ c2, nfs_read (Some ctx) (Some (full_fhandle root)) (S (Z.to_nat size)) true fpath size off c1 =
          (let r := bytes_at off size (splice (Z.to_nat offset) buffer d) in Some (Z.of_nat (length r), r, c2)) ∧
        content path (os (server_of c2)) = Some (splice (Z.to_nat offset) buffer d).
Proof.
  destruct (nfs_write_val ctx served_tree root h holds fpath d buffer offset c) as (c1 & Hw & Hc1); [done..|].
  exists c1. split_and!; [done|by apply holds_content|]. intros size off Hsize Hoff' Hmax'.
  destruct (nfs_read_val ctx served_tree root h holds fpath _ size off c1 Hc1 Hleads Hsize Hoff' Hmax') as (c2 & Hr & Hc2).
  exists c2. split; [done|by apply holds_content].
Qed.

End links.
End file.
End lookups.
End services.
