(* ===== verification/ServerDirectories.v ===== *)
(** The server behind READDIR: over a TCP connection the server of [Server]
    provides [DirectoryService] for the directories whose entries fit in the pages
    that are asked for, so that the FUSE client lists the directories of the
    server's operating system; and in a directory with an entry that does not fit
    the pages that [ls] of the REPL asks for, [ls] never ends. *)
From S2P Require Import CStrings ReplDag ReplState ReplHandlers ReplSafety ReplData.
From S2P Require Import Prelude Messages Posix InodeCache Permissions FileManagement ReadDir.
From S2P Require Import ServerState ProcAttr ProcFile ProcCreate ProcRemove ProcMount RecordMarking Server.
From S2P Require Import Connections RpcClient NfsClient EndToEnd FusePaths FuseHandlers FuseData ServerFiles.

(** One directory that does not change, of an operating system on which the
    calls on it do not fail. *)
Class BrowsableDirectory `{DirStreams OS} (path : string) (uid gid : Z) (o0 : OS) (entries : list dirent)
    (browsing : OS → Prop) := {
  browsing_nodes o : browsing o → same_nodes o0 o;
  browsing_exists : ∃ st, lstat path o0 = inr st ∧ S_ISDIR (st_mode st) = true ∧ permitted Read st uid gid = true;
  browsing_kept : kept browsing;
  browsing_opens o : browsing o → ∃ d o', opendir path o = (inr d, o') ∧ browsing o' ∧
    dir_open d o' ∧ dir_entries d o' = entries }.

(** * Pages *)

Section pages.
Context `{Codec}.

(** What the client sees of the entries of a page. *)
Definition seen (entries : list dirent) (cookies : list Z) : list (string * Z) :=
  zip_with (λ e c, (d_name e, wrap64 c)) entries cookies.

Lemma page_seen entries cookies :
  page_of entries cookies = zip_with entry_of (seen entries cookies) ((λ e, wrap64 (d_ino e)) <$> entries).
Proof.
  revert cookies. induction entries as [|e entries IH]; intros [|c cookies]; try done.
  rw /page_of /seen /= in IH |- *. by rw IH.
Qed.

Lemma seen_length entries cookies n :
  length cookies = n → (n ≤ length entries)%nat → length (seen (take n entries) cookies) = n.
Proof. intros <- Hn. rw /seen length_zip_with length_take. lia. Qed.

Lemma seen_names entries cookies :
  (length cookies ≤ length entries)%nat →
  (seen (take (length cookies) entries) cookies).*1 = take (length cookies) (d_name <$> entries).
Proof.
  revert entries. induction cookies as [|c cookies IH]; intros [|e entries] Hl; simpl in Hl; try done; try lia.
  rw /seen in IH |- *. cbn [length take zip_with]. rw !fmap_cons IH //. lia.
Qed.

Lemma seen_last entries cookies cookie :
  (length cookies ≤ length entries)%nat → Forall (λ c, 0 < c < 2 ^ 63) cookies →
  default cookie (snd <$> last (seen (take (length cookies) entries) cookies)) = default cookie (last cookies).
Proof.
  intros Hl Hc. rw !last_lookup seen_length // /seen lookup_zip_with.
  destruct cookies as [|c cookies]; [done|]. cbn [length Nat.pred] in *. rw lookup_take_lt; [lia|].
  destruct (lookup_lt_is_Some_2 entries (length cookies)) as [e ->]; [lia|].
  destruct (lookup_lt_is_Some_2 (c :: cookies) (length cookies)) as [x Hx]; [simpl; lia|]. rw Hx /=.
  pose proof (Forall_lookup_1 _ _ _ _ Hc Hx). simpl in *. apply wrap64_small. rw /u64. lia.
Qed.

(** The sizes in which an entry can be sent, with whatever cookie. *)
Definition entry_fits (byte_count : Z) (e : dirent) : Prop :=
  ∀ cookie, 0 < cookie < 2 ^ 63 → directory_entry_packed_size (directory_entry_of e cookie) ≤ byte_count.
Definition entry_exceeds (byte_count : Z) (e : dirent) : Prop :=
  ∀ cookie, 0 < cookie < 2 ^ 63 → byte_count < directory_entry_packed_size (directory_entry_of e cookie).
End pages.

Section page_sizes.
Context `{PackedSizeBounds}.

Lemma page_wire entries cookies : Forall wire_entry (page_of entries cookies).
Proof.
  rw /page_of. revert cookies. induction entries as [|e entries IH]; intros [|c cookies]; simpl; try constructor.
  - apply directory_entry_wire.
  - apply IH.
Qed.

Lemma page_size_length es : Forall wire_entry es → Z.of_nat (length es) ≤ page_size es.
Proof.
  induction 1 as [|e es He _ IH]; [done|]. rw /page_size /= -/(page_size es). pose proof (packed_size_bounds e He). lia.
Qed.

Lemma page_size_elem e es : Forall wire_entry es → e ∈ es → directory_entry_packed_size e ≤ page_size es.
Proof.
  intros Hes. induction 1 as [e es|e e' es _ IH]; apply Forall_cons in Hes as [He Hes]; rw /page_size /= -/(page_size es).
  - pose proof (page_size_length es Hes). lia.
  - pose proof (packed_size_bounds e' He). specialize (IH Hes). lia.
Qed.

(** An entry that is too large is in no page. *)
Lemma exceeding_not_in_page entries cookies byte_count j e :
  Forall (λ c, 0 < c < 2 ^ 63) cookies → page_size (page_of entries cookies) ≤ byte_count →
  entries !! j = Some e → entry_exceeds byte_count e → (length cookies ≤ j)%nat.
Proof.
  intros Hc Hsize Hj He. apply Nat.nlt_ge. intros [c Hcj]%lookup_lt_is_Some_2.
  specialize (He c (Forall_lookup_1 _ _ _ _ Hc Hcj)).
  assert (directory_entry_of e c ∈ page_of entries cookies) as Hin.
  { apply (list_elem_of_lookup_2 _ j). by rw /page_of lookup_zip_with Hj Hcj. }
  pose proof (page_size_elem _ _ (page_wire _ _) Hin). lia.
Qed.
End page_sizes.

(** * The server's side *)

Section browsing.
Context `{DirStreams OS} `{PackedSizeBounds}.
Context (a : Rpc.AuthSysParams) (path : string) (ino : Z) (o0 : OS) (entries : list dirent) (browsing : OS → Prop).
Context `{!BrowsableDirectory path (Rpc.uid a) (Rpc.gid a) o0 entries browsing}.
Hypothesis Hname : client_ok (Some a).
Implicit Types (o : OS) (l : ReadDirSessionsList).

(** The client's session, if there is one, reads the directory. *)
Definition session_open l o : Prop :=
  ∀ x, find_first (is_session (Some a) ino) l = Some x →
    ∃ s, x = Some s ∧ dir_open (directory_stream s) o ∧ dir_entries (directory_stream s) o = entries.

Definition browsable l o : Prop := browsing o ∧ sessions_ok l ∧ sessions_unique l ∧ session_open l o.

(** The cookie stands for the place behind the first [k] entries: it is 0 for the
    beginning, or it was handed out for the place in the client's session. *)
Definition cookie_of l o (k : nat) (cookie : Z) : Prop :=
  match k with
  | O => cookie = 0
  | S _ => ∃ s, find_first (is_session (Some a) ino) l = Some (Some s) ∧ at_place (directory_stream s) o k cookie
  end.

Lemma cookie_range l o k cookie : browsable l o → cookie_of l o k cookie → 0 ≤ cookie < 2 ^ 63.
Proof.
  intros (_ & _ & _ & Hopen). destruct k as [|k]; simpl; [lia|]. intros (s & Hs & Hb & ->).
  destruct (Hopen _ Hs) as (s' & [= <-] & Hd & _). pose proof (tell_range _ _ _ Hd Hb). lia.
Qed.

(** There is a session, or the call opens one. *)
Lemma browse_session l o k cookie byte_count :
  browsable l o → cookie_of l o k cookie →
  ∃ s l1 o1, find_first (is_session (Some a) ino) l1 = Some (Some s) ∧ sessions_ok l1 ∧ browsing o1 ∧
    dir_open (directory_stream s) o1 ∧ dir_entries (directory_stream s) o1 = entries ∧
    at_place (directory_stream s) o1 k cookie ∧
    read_from_directory (Some a) path ino l cookie byte_count o =
    read_from_directory (Some a) path ino l1 cookie byte_count o1.
Proof.
  intros (Ho & Hl & Hu & Hopen) Hk. destruct (find_first (is_session (Some a) ino) l) as [x|] eqn:Hf.
  - destruct (Hopen x Hf) as (s & -> & Hd & He). exists s, l, o. split_and!; try done.
    destruct k as [|k]; [done|]. destruct Hk as (s' & Hs' & Hk). by assert (s' = s) as -> by congruence.
  - destruct k as [|k]; [|destruct Hk as (s & Hs & _); congruence].
    destruct (browsing_opens o Ho) as (d & o1 & Hod & Ho1 & Hd & He).
    destruct (read_opens_session (Some a) path ino l cookie byte_count o d o1 Hname Hl Hf Hod)
      as (s & <- & Hcs & His & Heq). exists s, (Some s :: l), o1. split_and!; try done; [by rw /= His|].
    constructor; [by exists s|done].
Qed.

Lemma browse_page l o k cookie byte_count :
  browsable l o → cookie_of l o k cookie → (k ≤ length entries)%nat → u32 byte_count →
  ∃ cookies eof l' o',
    let n := length cookies in
    let es := page_of (take n (drop k entries)) cookies in
    read_from_directory (Some a) path ino l cookie byte_count o = Some (0, es, eof, l', o') ∧
    (k + n ≤ length entries)%nat ∧ page_end byte_count eof es (drop (k + n) entries) ∧
    Forall (λ cookie, 0 < cookie < 2 ^ 63) cookies ∧ page_size es ≤ byte_count ∧ browsable l' o' ∧
    (eof = 0 → cookie_of l' o' (k + n) (default cookie (last cookies))).
Proof.
  intros Hb Hk Hlen Hbc. pose proof Hb as (Ho & Hl & Hu & Hopen).
  destruct (browse_session l o k cookie byte_count Hb Hk) as (s & l1 & o1 & Hs & Hl1 & Ho1 & Hd & He & Hp & Heq).
  destruct (read_page browsing (Some a) path ino l1 k cookie byte_count o1 s browsing_kept Ho1 Hname Hl1 Hs Hbc Hd Hp)
    as (cookies & eof & l' & o' & Hrun & Hn & Hend & Ho' & Hrange & Hs').
  rw He in Hrun Hn Hend Hs'. rw -Heq in Hrun.
  destruct (read_session_spec (Some a) path ino l cookie byte_count o Hname Hl Hu Hbc)
    as (code & es' & eof' & l2 & o2 & Hrun' & _ & Hl2 & Hu2 & Hsize & _ & Hcases).
  rw Hrun' in Hrun. injection Hrun as -> -> -> -> ->. exists cookies, eof, l', o'.
  split; [done|]. split; [lia|]. split; [done|]. split; [done|]. split; [done|]. split.
  - split; [done|]. split; [done|]. split; [done|]. intros x Hx.
    destruct (Hcases eq_refl) as [[-> Hnone]|[-> _]]; [congruence|].
    destruct (Hs' eq_refl) as (s2 & Hs2 & Hd2 & Ho2 & He2 & _). exists s2. split_and!; [congruence|by rw Hd2..].
  - intros He0. destruct (Hs' He0) as (s2 & Hs2 & Hd2 & _ & _ & Hp2 & Hplaces).
    destruct cookies as [|c cookies].
    + rw /= Nat.add_0_r. destruct k as [|k]; [done|]. exists s2. by rw Hd2.
    + rw /= Nat.add_succ_r. exists s2. split; [done|]. rw Hd2 last_lookup.
      destruct (lookup_lt_is_Some_2 (c :: cookies) (length cookies)) as [x Hx]; [simpl; lia|].
      cbn [length Nat.pred]. rw Hx. by apply Hplaces.
Qed.

Lemma browsing_directory o : browsing o → is_directory path o ∧ may Read path (Rpc.uid a) (Rpc.gid a) o.
Proof.
  intros Ho. destruct browsing_exists as (st0 & Hst0 & Hdir & Hr).
  pose proof (browsing_nodes o Ho path) as Hn. rw /node_at Hst0 in Hn. destruct (lstat path o) as [|st] eqn:Hst; [done|].
  assert (identity st0 = identity st) as Hid by congruence. split.
  - exists st. split; [done|]. injection Hid as _ _ <- _ _ _ _. done.
  - revert Hr. rw (permitted_same Read _ _ _ _ Hid) /permitted /may. destruct (Z.eqb_spec (Rpc.uid a) 0); [by left|].
    intros Hu. right. eauto.
Qed.
End browsing.

(** * The connection *)

Section connection.
Context `{Stdio OS, !DirStreams OS} `{PackedSizeBounds, !CountRange, !PackSmall} `{!ClientCodec} `{Memory}.
Context `{LiveSocket W, !Arrivals W} `{QuicCalls (client W (remote OS W)), ReplyFuel}.
Context (ctx : RpcConnectionContext) (cred ver : Rpc.OpaqueAuth) (a : Rpc.AuthSysParams) (fd : Z) `{!Messaging ctx}.
Hypothesis Huser : tcp_user ctx cred ver a fd.
Hypothesis Hmem : memory_available.
Hypothesis Hname : client_ok (Some a).
Implicit Types (c : client W (remote OS W)).

Abbreviation server_of c := (srv (rworld (peer c))).

Context (K : InodeCache) (o0 : OS) (path : string) (h : Nfs.NfsFileHandle) (entries : list dirent) (browsing : OS → Prop).
Context `{!BrowsableDirectory path (Rpc.uid a) (Rpc.gid a) o0 entries browsing}.
Hypothesis Hpath : get_absolute_path_from_inode_number (Nfs.inode_number h) K = Some path.
Hypothesis Hhandle : handle_ok h.

(** Nothing is under way, and the directory can be read. *)
Definition browses c : Prop :=
  idle fd (cnet c) (peer c) ∧ inode_cache (server_of c) = K ∧
  browsable a (Nfs.inode_number h) entries browsing (readdir_sessions_list (server_of c)) (os (server_of c)).

(** A cookie with which the client can go on behind the first [k] entries. *)
Definition place (k : nat) (cookie : Z) c : Prop :=
  cookie_of a (Nfs.inode_number h) (readdir_sessions_list (server_of c)) (os (server_of c)) k cookie.

(** One call of READDIR: what the client sees of the page. *)
Lemma page_served k cookie byte_count c :
  browses c → place k cookie c → (k ≤ length entries)%nat → 0 ≤ byte_count ≤ 1000 →
  ∃ cookies (eof : bool) c',
    let n := length cookies in
    let shown := take n (drop k entries) in
    run (nfs_procedure_16_read_from_directory (Some ctx) (full_readdir_args h cookie byte_count)) c =
      Some ((0, Some (Nfs.ok_res (Nfs.mkReadDirOk (zip_with entry_of (seen shown cookies) ((λ e, wrap64 (d_ino e)) <$> shown))
        (if eof then 1 else 0)))), c') ∧
    (k + n ≤ length entries)%nat ∧
    page_end byte_count (if eof then 1 else 0) (page_of shown cookies) (drop (k + n) entries) ∧
    Forall (λ cookie, 0 < cookie < 2 ^ 63) cookies ∧ page_size (page_of shown cookies) ≤ byte_count ∧ browses c' ∧
    (eof = false → place (k + n) (default cookie (snd <$> last (seen shown cookies))) c').
Proof.
  intros (Hidle & HK & Hb) Hplace Hk Hbc. assert (u32 byte_count) as Hbc' by (rw /u32; lia).
  pose proof Hb as (Ho & _). destruct (browsing_directory a path o0 entries browsing _ Ho) as [Hd Hmay].
  pose proof (cookie_range a (Nfs.inode_number h) entries browsing _ _ k cookie Hb Hplace) as Hcookie.
  destruct (browse_page a path (Nfs.inode_number h) o0 entries browsing Hname _ _ k cookie byte_count Hb Hplace Hk Hbc')
    as (cookies & e & l' & o' & Hread & Hn & Hend & Hrange & Hsize & Hb' & Hnext).
  assert (∃ eof : bool, e = if eof then 1 else 0) as [eof ->].
  { destruct Hend as [[-> _]|[-> _]]; [by exists true|by exists false]. }
  set (es := page_of _ cookies) in Hread, Hend, Hsize.
  destruct (read_dir_args_coded h cookie byte_count Hhandle) as [Hargs Hfit]; [rw /u64; lia|done|].
  destruct (read_dir_res_coded es eof (page_wire _ _)) as [Hres Hfit'].
  { pose proof (page_size_length es (page_wire _ _)). lia. }
  set (res := Nfs.ok_res (Nfs.mkReadDirOk es (if eof then 1 else 0))) in Hres, Hfit'.
  destruct (stub_served ctx cred ver a fd Huser Hmem 16 "nfs/ReadDirArgs" pack_ReadDirArgs "nfs/ReadDirRes" unpack_ReadDirRes
    (full_readdir_args h cookie byte_count) (pack_ReadDirRes res) res (set_sessions l' o' (server_of c)) c Hidle ltac:(lia)
    ltac:(simpl; lia) ltac:(simpl; lia) Hfit Hfit') as (c' & Hcall & Hsrv & Hidle'); [|exact Hres|].
  - rw /call_nfs /= (readdir_run cred ver a _ h path cookie byte_count es (if eof then 1 else 0) l' o') //;
      [apply Huser|by rw /resolves HK|]. by rw to_int64_small.
  - exists cookies, eof, c'. cbv zeta. rw -page_seen. split_and!; [done..|by rw /browses Hsrv|].
    intros ->. rw /place Hsrv seen_last //; [rw length_drop; lia|]. by apply Hnext.
Qed.

(** Pages in which every entry fits make progress. *)
Lemma browses_listing byte_count :
  0 < byte_count ≤ 1000 → Forall (entry_fits byte_count) entries →
  DirectoryService byte_count ctx h browses place (d_name <$> entries).
Proof.
  intros Hbc Hfit. split; [done|]. intros i cookie c Hc Hp Hi. rw length_fmap in Hi |- *.
  destruct (page_served i cookie byte_count c Hc Hp Hi ltac:(lia))
    as (cookies & eof & c' & Hrun & Hn & Hend & Hrange & _ & Hc' & Hnext).
  assert (length (seen (take (length cookies) (drop i entries)) cookies) = length cookies) as Hlen
    by (apply seen_length; [done|rw length_drop; lia]).
  eexists _, _, eof, c'. split; [exact Hrun|]. rw Hlen length_fmap length_take length_drop. split_and!; [lia|lia| |done|].
  - rw seen_names; [rw length_drop; lia|]. by rw fmap_drop.
  - destruct eof, Hend as [[? Hend]|[? Hend]]; try done.
    + apply (f_equal length) in Hend. rw length_drop /= in Hend. lia.
    + split; [|by apply Hnext]. destruct cookies as [|x cookies]; [|simpl; lia]. exfalso.
      destruct Hend as [Hend|(e & rest & x & He & Hx & Hend)]; [rw /page_size /= in Hend; lia|].
      rw Nat.add_0_r in He. assert (e ∈ entries) as Hin.
      { rw -(take_drop i entries) He. apply elem_of_app. right. left. }
      pose proof (proj1 (Forall_forall _ _) Hfit e Hin x Hx). rw /page_size /= in Hend. lia.
Qed.

(** ** [ls] *)

Abbreviation ls_page := ReplHandlers.READDIR_BYTES_PER_RPC.

(** The loop does not get past an entry that is larger than a page: after every
    number of rounds it goes on. *)
Lemma ls_loop_goes_on j e n i names cookie root p g :
  entries !! j = Some e → entry_exceeds ls_page e → (i ≤ j)%nat →
  mounted_at g ctx root h p → browses (ReplState.world g) → place i cookie (ReplState.world g) →
  ∃ names' cookie' g', mounted_at g' ctx root h p ∧ browses (ReplState.world g') ∧ stdout g' = stdout g ∧
    ∀ fuel, ls_loop (n + fuel) names cookie g = ls_loop fuel names' cookie' g'.
Proof.
  intros Hj He. pose proof (lookup_lt_Some _ _ _ Hj) as Hlen.
  revert i names cookie g. induction n as [|n IH]; intros i names cookie g Hi Hm Hg Hp; [by exists names, cookie, g|].
  destruct (page_served i cookie ls_page (ReplState.world g) Hg Hp ltac:(lia) ltac:(done))
    as (cookies & eof & c & Hrun & Hn & Hend & Hrange & Hsize & Hc & Hnext).
  assert (length cookies ≤ j - i)%nat as Hle.
  { destruct (decide (j - i < length cookies)%nat) as [Hlt|]; [|lia].
    apply (exceeding_not_in_page (take (length cookies) (drop i entries)) cookies ls_page (j - i) e); try done.
    rw lookup_take_lt // lookup_drop. by replace (i + (j - i))%nat with j by lia. }
  assert (eof = false) as ->.
  { destruct eof; [|done]. destruct Hend as [[_ Hend]|[? _]]; [|done].
    apply (f_equal length) in Hend. rw length_drop /= in Hend. lia. }
  set (page := seen (take (length cookies) (drop i entries)) cookies) in Hrun, Hnext.
  destruct (IH (i + length cookies)%nat (names ++ page.*1) (default cookie (snd <$> last page)) (set_world c g))
    as (names' & cookie' & g' & Hm' & Hg' & Hout & Hloop); [lia|by apply (mounted_at_same g)|done|by apply Hnext|].
  exists names', cookie', g'. split_and!; [done..|]. intros fuel. rw -Hloop. cbn [Nat.add].
  eapply (ls_round ctx (n + fuel) names cookie page _ false h root p g c Hm); [|exact Hrun].
  rw /page seen_length; [done|rw length_drop; lia|]. rw length_fmap length_take length_drop. lia.
Qed.


(** ** The FUSE client *)

Section fuse.
Hypothesis Hhandles : ∀ i h, get_nfs_filehandle_from_inode_number i K = Some h → handle_ok h.
Hypothesis Hstats : ∀ p st, lstat p o0 = inr st → stat_ok st.

Abbreviation tree := (served_tree a K o0).

#[local] Instance browses_lookups : LookupService ctx browses tree.
Proof.
  intros h' n c Hc Hn. pose proof Hc as (Hidle & HK & Hb).
  assert (served fd K o0 c) as Hserved by (split_and!; [done..|]; apply (browsing_nodes _ (proj1 Hb))).
  destruct (lookup_served ctx cred ver a fd Huser Hmem K o0 Hhandles Hstats h' n c Hserved Hn)
    as (res & c' & Hrun & Hres & Hsrv & Hidle').
  exists res, c'. split_and!; [done..|]. by rw /browses Hsrv.
Qed.

(** C19: the FUSE client and the server together list directories:
    for a directory of the server's operating system that does not change, can be
    opened and read, and whose cookies ([telldir]) are positive, and to which a path
    of the mounted file system leads whose names the server has already given
    handles for, [nfs_readdir], over LOOKUP calls and pages of READDIR on
    the TCP connection, ends and passes on the names that the operating system
    lists in it, each exactly once and in order, if every one of its entries, whatever
    its cookie, is sent in no more bytes than the client asks for in a page. *)
Theorem fuse_lists_the_servers_directory root fpath fuel c
    (Hc : browses c) (Hleads : leads_to_file tree root h fpath)
    (Hfit : Forall (entry_fits FuseHandlers.READDIR_BYTES_PER_RPC) entries) (Hfuel : (length entries < fuel)%nat) :
  ∃ c', nfs_readdir (Some ctx) (Some (full_fhandle root)) fuel true fpath c = Some (0, d_name <$> entries, c') ∧ browses c'.
Proof.
  pose proof (browses_listing FuseHandlers.READDIR_BYTES_PER_RPC ltac:(done) Hfit) as Hdir.
  destruct (nfs_readdir_val ctx tree root h browses place (d_name <$> entries) fpath fuel c Hc Hleads) as (c' & Hr & Hc');
    [by rw length_fmap|]. eauto.
Qed.
End fuse.
End connection.
