(* ===== verification/GeneratedCodec.v ===== *)
(** The interface of the rest of the development to the messages, [Codec] and
    [ClientCodec], implemented by the generated functions on top of protobuf-c: what
    a caller of [nfs__attr_stat__pack], [nfs__attr_stat__unpack] and their like gets.

    A structure is handed to a generated function as its content ([MessageContents]);
    what the generated function returns is read back by the same schema. *)
From S2P Require Import Prelude Messages Protobuf PbCommon PbRpc PbNfs PbTables ProtobufDecoding MessageContents MessageSchemas RpcSchemas ReceivedMessages.
From S2P Require Import Posix ReadDir ServerState ProcFile RecordMarking Server NfsClient.

(** * The messages that are exchanged *)

Inductive message_kind : Type → Type :=
  | KFHandle : message_kind Nfs.FHandle
  | KSAttrArgs : message_kind Nfs.SAttrArgs
  | KDirOpArgs : message_kind Nfs.DirOpArgs
  | KReadArgs : message_kind Nfs.ReadArgs
  | KWriteArgs : message_kind Nfs.WriteArgs
  | KCreateArgs : message_kind Nfs.CreateArgs
  | KRenameArgs : message_kind Nfs.RenameArgs
  | KLinkArgs : message_kind Nfs.LinkArgs
  | KSymLinkArgs : message_kind Nfs.SymLinkArgs
  | KReadDirArgs : message_kind Nfs.ReadDirArgs
  | KDirPath : message_kind Mount.DirPath
  | KNfsStat : message_kind Nfs.Stat
  | KAttrStat : message_kind Nfs.AttrStat
  | KDirOpRes : message_kind Nfs.DirOpRes
  | KReadLinkRes : message_kind Nfs.ReadLinkRes
  | KReadRes : message_kind Nfs.ReadRes
  | KReadDirRes : message_kind Nfs.ReadDirRes
  | KStatFsRes : message_kind Nfs.StatFsRes
  | KFhStatus : message_kind Mount.FhStatus
  | KRpcMsg : message_kind Rpc.RpcMsg.

Definition schema_of {A} (k : message_kind A) : schema A :=
  match k with
  | KFHandle => nfs_fhandle_schema
  | KSAttrArgs => sattr_args_schema
  | KDirOpArgs => dir_op_args_schema
  | KReadArgs => read_args_schema
  | KWriteArgs => write_args_schema
  | KCreateArgs => create_args_schema
  | KRenameArgs => rename_args_schema
  | KLinkArgs => link_args_schema
  | KSymLinkArgs => symlink_args_schema
  | KReadDirArgs => read_dir_args_schema
  | KDirPath => dirpath_schema
  | KNfsStat => nfs_stat_schema
  | KAttrStat => attr_stat_schema
  | KDirOpRes => dir_op_res_schema
  | KReadLinkRes => read_link_res_schema
  | KReadRes => read_res_schema
  | KReadDirRes => read_dir_res_schema
  | KStatFsRes => stat_fs_res_schema
  | KFhStatus => fh_status_schema
  | KRpcMsg => rpc_msg_schema
  end.

Lemma schema_lawful {A} (k : message_kind A) : lawful (schema_of k).
Proof. destruct k; simpl; unfold nfs_stat_schema; auto with lawful. Qed.

Section functions.
Context `{ProtobufC}.

Definition generated_of {A} (k : message_kind A) : generated :=
  match k with
  | KFHandle => nfs__fhandle
  | KSAttrArgs => nfs__sattr_args
  | KDirOpArgs => nfs__dir_op_args
  | KReadArgs => nfs__read_args
  | KWriteArgs => nfs__write_args
  | KCreateArgs => nfs__create_args
  | KRenameArgs => nfs__rename_args
  | KLinkArgs => nfs__link_args
  | KSymLinkArgs => nfs__sym_link_args
  | KReadDirArgs => nfs__read_dir_args
  | KDirPath => mount__dir_path
  | KNfsStat => nfs__nfs_stat
  | KAttrStat => nfs__attr_stat
  | KDirOpRes => nfs__dir_op_res
  | KReadLinkRes => nfs__read_link_res
  | KReadRes => nfs__read_res
  | KReadDirRes => nfs__read_dir_res
  | KStatFsRes => nfs__stat_fs_res
  | KFhStatus => mount__fh_status
  | KRpcMsg => rpc__rpc_msg
  end.

(** A structure that was initialised with its [__init] function and then filled. *)
Definition in_memory (g : generated) (m : message) : c_message := mkCMessage (base_descriptor (init g)) m.

(** [get_packed_size], a buffer of that size and [pack]. [None]: a failed
    assertion. *)
Definition packed {A} (k : message_kind A) (a : A) : option (list byte) :=
  pack (generated_of k) (in_memory (generated_of k) (to_message (schema_of k) a)).

(** [unpack]: NULL if the bytes are not an encoding of such a message. The
    structures of [Messages] have the constants of an enumeration only: a number that
    is none of them, which protobuf-c keeps in the structure it returns, is NULL here
    too. *)
Definition unpacked {A} (k : message_kind A) (bytes : list byte) : option A :=
  m ← unpack (generated_of k) bytes; of_message (schema_of k) (content m).

(** The packed size of one directory entry that is not linked yet. *)
Definition entry_size (e : Nfs.DirectoryEntry) : option Z :=
  get_packed_size nfs__directory_entries_list (in_memory nfs__directory_entries_list (entries_message e [])).

Lemma generated_functions {A} (k : message_kind A) : generated_of k = functions_of (table_name (schema_of k)).
Proof. by destruct k. Qed.

(** The assertions on the descriptor never fail. *)
Lemma packed_bytes {A} (k : message_kind A) a :
  packed k a = Some (protobuf_c_message_pack (table_name (schema_of k)) (to_message (schema_of k) a)).
Proof. by rw /packed generated_functions /in_memory /= String.eqb_refl. Qed.

Lemma entry_size_value e :
  entry_size e = Some (protobuf_c_message_get_packed_size "nfs__directory_entries_list__descriptor" (entries_message e [])).
Proof. done. Qed.

Definition generated_codec : Codec := {|
  unpack_FHandle := unpacked KFHandle;
  unpack_SAttrArgs := unpacked KSAttrArgs;
  unpack_DirOpArgs := unpacked KDirOpArgs;
  unpack_ReadArgs := unpacked KReadArgs;
  unpack_WriteArgs := unpacked KWriteArgs;
  unpack_CreateArgs := unpacked KCreateArgs;
  unpack_RenameArgs := unpacked KRenameArgs;
  unpack_LinkArgs := unpacked KLinkArgs;
  unpack_SymLinkArgs := unpacked KSymLinkArgs;
  unpack_ReadDirArgs := unpacked KReadDirArgs;
  unpack_DirPath := unpacked KDirPath;
  pack_NfsStat s := default [] (packed KNfsStat s);
  pack_AttrStat r := default [] (packed KAttrStat r);
  pack_DirOpRes r := default [] (packed KDirOpRes r);
  pack_ReadLinkRes r := default [] (packed KReadLinkRes r);
  pack_ReadRes r := default [] (packed KReadRes r);
  pack_ReadDirRes r := default [] (packed KReadDirRes r);
  pack_StatFsRes r := default [] (packed KStatFsRes r);
  pack_FhStatus r := default [] (packed KFhStatus r);
  directory_entry_packed_size e := default 0 (entry_size e);
  unpack_RpcMsg := unpacked KRpcMsg;
  pack_RpcMsg m := default [] (packed KRpcMsg m) |}.

Definition generated_client_codec : ClientCodec := {|
  pack_FHandle a := default [] (packed KFHandle a);
  pack_SAttrArgs a := default [] (packed KSAttrArgs a);
  pack_DirOpArgs a := default [] (packed KDirOpArgs a);
  pack_ReadArgs a := default [] (packed KReadArgs a);
  pack_WriteArgs a := default [] (packed KWriteArgs a);
  pack_CreateArgs a := default [] (packed KCreateArgs a);
  pack_RenameArgs a := default [] (packed KRenameArgs a);
  pack_LinkArgs a := default [] (packed KLinkArgs a);
  pack_SymLinkArgs a := default [] (packed KSymLinkArgs a);
  pack_ReadDirArgs a := default [] (packed KReadDirArgs a);
  pack_DirPath a := default [] (packed KDirPath a);
  unpack_NfsStat := unpacked KNfsStat;
  unpack_AttrStat := unpacked KAttrStat;
  unpack_DirOpRes := unpacked KDirOpRes;
  unpack_ReadLinkRes := unpacked KReadLinkRes;
  unpack_ReadRes := unpacked KReadRes;
  unpack_ReadDirRes := unpacked KReadDirRes;
  unpack_StatFsRes := unpacked KStatFsRes;
  unpack_FhStatus := unpacked KFhStatus |}.
End functions.

(** * What is sent arrives *)

Section laws.
Context `{ProtobufCEncodes tables}.

(** Two structures with the same content have the same encoding. *)
Lemma packed_as {A} (k : message_kind A) a a' :
  to_message (schema_of k) a = to_message (schema_of k) a' → sendable (schema_of k) a' →
  packed_size (to_message (schema_of k) a) < 2 ^ 31 →
  packed k a = Some (encode (to_message (schema_of k) a)) ∧ unpacked k (encode (to_message (schema_of k) a)) = Some a'.
Proof.
  intros Heq Ha Hs. destruct (schema_lawful k a' Ha) as [(d & Hd & Hm) Hback]. rw -Heq in Hm Hback.
  split; [by rw packed_bytes (pack_encodes _ d)|].
  rw /unpacked generated_functions /= (unpack_encoded _ d) //=.
Qed.

(** C13: for every message that client and server exchange, the generated
    [pack] on a structure that can be sent (numbers in the range of their C types,
    strings and cases of unions that are not NULL, empty data and arrays with a NULL
    pointer) does not fail an assertion and writes the documented encoding of its
    fields, and the generated [unpack] of these bytes returns that structure. *)
Theorem generated_code_round_trips {A} (k : message_kind A) a :
  sendable (schema_of k) a → packed_size (to_message (schema_of k) a) < 2 ^ 31 →
  ∃ bytes, packed k a = Some bytes ∧ bytes = encode (to_message (schema_of k) a) ∧ unpacked k bytes = Some a.
Proof. intros Ha Hs. destruct (packed_as k a a) as [Hp Hu]; eauto. Qed.
End laws.

(** * What arrives is well formed *)

Lemma schema_sound {A} (k : message_kind A) : sound (schema_of k).
Proof. destruct k; simpl; auto with sound. Qed.

Section received.
Context `{ProtobufCEncodes tables}.

Lemma unpacked_sendable {A} (k : message_kind A) bytes a : unpacked k bytes = Some a → sendable (schema_of k) a.
Proof.
  rw /unpacked generated_functions /=. destruct (protobuf_c_message_unpack _ bytes) as [m|] eqn:Hm; [|done]. simpl. intros Ha.
  assert (∃ d, tables (table_name (schema_of k)) = Some (MessageDescriptor d)) as [d Hd] by (destruct k; by eexists).
  apply (schema_sound k d m a Hd); [|done]. exact (unpacked_ok _ d bytes m Hd Hm).
Qed.

(** A structure that [unpacked] returns is well formed (its numbers are in the range of their C types, its strings
    and the messages of its unions are not NULL, its data and arrays are NULL only if
    they are empty, and so on in the structures it points to), so that it can be sent
    itself and arrives unchanged. *)
Theorem received_messages_are_well_formed {A} (k : message_kind A) bytes a :
  unpacked k bytes = Some a →
  sendable (schema_of k) a ∧
  (packed_size (to_message (schema_of k) a) < 2 ^ 31 →
   ∃ bytes', packed k a = Some bytes' ∧ unpacked k bytes' = Some a).
Proof.
  intros Ha%unpacked_sendable. split; [done|]. intros Hs. destruct (packed_as k a a eq_refl Ha Hs). eauto.
Qed.

Lemma generated_counts : @CountRange generated_codec.
Proof. intros b r Hr. apply (unpacked_sendable KReadDirArgs) in Hr as (_ & _ & Hc). exact Hc. Qed.

Lemma entries_message_nonempty e : is_Some (Nfs.de_name e) → entries_message e [] ≠ [].
Proof. intros [n Hn]. rw /entries_message /entry_slots /present /= Hn. by destruct (num _). Qed.
End received.
