(* ===== verification/GeneratedMessages.v ===== *)
(** The generated code keeps the promises of [Messaging]: the messages of the calls
    of a client whose credentials can be sent arrive as they were sent, and their
    encodings are small. *)
From S2P Require Import Prelude Messages Protobuf PbCommon PbRpc PbNfs PbTables ProtobufDecoding MessageContents MessageSchemas RpcSchemas.
From S2P Require Import Posix Permissions FileManagement ReadDir ServerState ProcFile RecordMarking Server RpcClient NfsClient EndToEnd ServerFiles.
From S2P Require Import GeneratedCodec.

(** * Sizes *)

Definition total_size (l : list slot) : Z := foldr (λ s n, slot_size s + n) 0 l.

Lemma total_nil : total_size [] ≤ 0.
Proof. done. Qed.

Lemma total_cons s l a b : slot_size s ≤ a → total_size l ≤ b → total_size (s :: l) ≤ a + b.
Proof. rw /total_size /=. lia. Qed.

Lemma size_pointer {A} i (f : A → message) a n : packed_size (f a) ≤ n → slot_size (i, sub f (Some a)) ≤ 20 + n.
Proof. intros Ha. pose proof (size_message i (f a)). rw /sub /=. lia. Qed.

#[local] Arguments present : simpl never.
#[local] Arguments packed_size : simpl never.
#[local] Arguments slot_size : simpl never.

Create HintDb sizes.

(** The bound of a structure is the sum of those of its fields. *)
Ltac slot_bound :=
  match goal with
  | |- slot_size (_, num _) ≤ _ => apply size_num
  | |- slot_size (_, text (Some _)) ≤ _ => apply size_text
  | |- slot_size (_, data _) ≤ _ => apply size_data
  | |- slot_size (_, nums _) ≤ _ => apply size_nums
  | |- slot_size (_, sub _ (Some _)) ≤ _ => eapply size_pointer; solve [eauto 3 with sizes]
  end.
Ltac fields_bound := rw size_present -/(total_size _); eapply Z.le_trans; [repeat (eapply total_cons; [slot_bound|]); apply total_nil|].
Tactic Notation "size_of" reference(s) := unfold s; rw {1}/to_message /=; fields_bound.

Lemma size_handle_message h : packed_size (to_message handle_schema h) ≤ 40.
Proof. size_of handle_schema. lia. Qed.
#[export] Hint Resolve size_handle_message : sizes.

Lemma size_fhandle_message name h : packed_size (to_message (fhandle_schema name) (full_fhandle h)) ≤ 60.
Proof. size_of fhandle_schema. lia. Qed.
#[export] Hint Resolve size_fhandle_message : sizes.

Lemma size_filename_message n : packed_size (to_message filename_schema (Nfs.mkFileName (Some n))) ≤ 20 + Z.of_nat (String.length n).
Proof. size_of filename_schema. lia. Qed.
#[export] Hint Resolve size_filename_message : sizes.

Lemma size_path_message n : packed_size (to_message path_schema (Nfs.mkPath (Some n))) ≤ 20 + Z.of_nat (String.length n).
Proof. size_of path_schema. lia. Qed.
#[export] Hint Resolve size_path_message : sizes.

Lemma size_dir_op_message h n : packed_size (to_message dir_op_args_schema (full_dir_op h n)) ≤ 120 + Z.of_nat (String.length n).
Proof. size_of dir_op_args_schema. lia. Qed.
#[export] Hint Resolve size_dir_op_message : sizes.

Lemma size_timeval_message t : packed_size (to_message timeval_schema t) ≤ 40.
Proof. size_of timeval_schema. lia. Qed.
Lemma size_ftype_message t : packed_size (to_message nfs_ftype_schema t) ≤ 20.
Proof. size_of nfs_ftype_schema. lia. Qed.
Lemma size_stat_message s : packed_size (to_message nfs_stat_schema s) ≤ 20.
Proof. size_of nfs_stat_schema. lia. Qed.
Lemma size_cookie_message c : packed_size (to_message cookie_schema c) ≤ 20.
Proof. size_of cookie_schema. lia. Qed.
#[export] Hint Resolve size_timeval_message size_ftype_message size_stat_message size_cookie_message : sizes.

Lemma size_fattr_message st : packed_size (to_message fattr_schema (fattr_of_stat st)) ≤ 1000.
Proof. size_of fattr_schema. lia. Qed.
#[export] Hint Resolve size_fattr_message : sizes.

Lemma size_read_args_message h off count : packed_size (to_message read_args_schema (full_read_args h off count)) ≤ 1000.
Proof. size_of read_args_schema. lia. Qed.

Lemma size_write_args_message h off data :
  packed_size (to_message write_args_schema (full_write_args h off data)) ≤ 1000 + Z.of_nat (length data).
Proof. size_of write_args_schema. rw /binary_bytes length_take /=. lia. Qed.

Lemma size_read_dir_args_message h c count : packed_size (to_message read_dir_args_schema (full_readdir_args h c count)) ≤ 1000.
Proof. size_of read_dir_args_schema. lia. Qed.

Lemma size_dir_op_ok_message h st :
  packed_size (to_message dir_op_ok_schema (Nfs.mkDirOpOk (Some (full_fhandle h)) (Some (fattr_of_stat st)))) ≤ 2000.
Proof. size_of dir_op_ok_schema. lia. Qed.

Lemma size_read_body_message st data :
  packed_size (to_message read_res_body_schema (Nfs.mkReadResBody (Some (fattr_of_stat st))
    (Nfs.mkBinaryData (Z.of_nat (length data)) (Some data)))) ≤ 2000 + Z.of_nat (length data).
Proof. size_of read_res_body_schema. rw /binary_bytes length_take /=. lia. Qed.
#[export] Hint Resolve size_dir_op_ok_message size_read_body_message : sizes.

(** A list of entries: the entries and the tags between them. *)
Lemma size_entries_message l : ∀ e, Forall wire_entry (e :: l) →
  packed_size (entries_message e l) ≤ 500 * Z.of_nat (length (e :: l)).
Proof.
  induction l as [|e' l IH]; intros e [(ino & name & cookie & -> & _ & Hn & _) Hl]%Forall_cons;
    rw entries_message_slots /entry_slots /=; rw size_present -/(total_size _).
  - eapply Z.le_trans; [do 3 (eapply total_cons; [slot_bound|]); apply (total_cons _ _ 0 0); [done|apply total_nil]|]. lia.
  - specialize (IH e' Hl). cbn [length] in IH |- *.
    eapply Z.le_trans; [do 3 (eapply total_cons; [slot_bound|]); eapply total_cons; [apply size_message|apply total_nil]|]. lia.
Qed.

Lemma size_read_dir_ok_message es (eof : Z) : Forall wire_entry es →
  packed_size (to_message read_dir_ok_schema (Nfs.mkReadDirOk es eof)) ≤ 100 + 500 * Z.of_nat (length es).
Proof.
  intros Hes. unfold read_dir_ok_schema. rw {1}/to_message /= size_present -/(total_size _).
  destruct es as [|e l].
  - eapply Z.le_trans; [apply (total_cons _ _ 0 20); [done|]; apply (total_cons _ _ 20 0); [apply size_num|apply total_nil]|]. lia.
  - pose proof (size_entries_message l e Hes).
    eapply Z.le_trans; [eapply total_cons; [apply size_message|]; eapply total_cons; [apply size_num|apply total_nil]|]. lia.
Qed.

(** Results. *)
Lemma size_ok_message {T} name (s : schema T) r n :
  packed_size (to_message s r) ≤ n → packed_size (to_message (res_schema name s) (Nfs.ok_res r)) ≤ 100 + n.
Proof. intros Hr. size_of res_schema. lia. Qed.

Lemma size_error_message {T} name (s : schema T) e :
  packed_size (to_message (res_schema name s) (Nfs.mkRes (Some e) (Nfs.BODY_DEFAULT_CASE (Some tt)))) ≤ 100.
Proof.
  unfold res_schema. rw {1}/to_message /= size_present -/(total_size _).
  eapply Z.le_trans; [eapply total_cons; [slot_bound|]; eapply total_cons; [apply (size_pointer _ _ _ 0); done|apply total_nil]|]. lia.
Qed.

(** * What can be sent *)

Lemma handle_sendable name h : handle_ok h → sendable (fhandle_schema name) (full_fhandle h).
Proof. intros Hh a [= <-]. exact Hh. Qed.

Lemma ptr_sendable {A} (s : schema A) a : sendable s a → sendable_ptr s (Some a).
Proof. by intros Ha a' [= <-]. Qed.

Lemma case_sendable {A} (s : schema A) a : sendable s a → sendable_case s (Some a).
Proof. by exists a. Qed.

Lemma name_sendable n : sendable filename_schema (Nfs.mkFileName (Some n)).
Proof. by eexists. Qed.

Lemma time_sendable t : sendable timeval_schema (time_val_of t).
Proof. split; apply wrap64_range. Qed.

#[local] Hint Resolve handle_sendable ptr_sendable case_sendable name_sendable time_sendable wrap64_range : core.

Lemma fattr_sendable st : stat_ok st → sendable fattr_schema (fattr_of_stat st).
Proof. intros (?&?&?&?&?&?&?). by rw /sendable /fattr_schema /fattr_of_stat /=; split_and!; auto. Qed.

Lemma dir_op_sendable h n : handle_ok h → sendable dir_op_args_schema (full_dir_op h n).
Proof. split; apply ptr_sendable; auto. Qed.

Lemma binary_sendable data : data ≠ [] → sendable_binary (Nfs.mkBinaryData (Z.of_nat (length data)) (Some data)).
Proof. intros Hd. rw /sendable_binary /binary_bytes /= Nat2Z.id firstn_all. by destruct data. Qed.

Lemma zero_u32 : u32 0.
Proof. rw /u32. lia. Qed.

#[local] Hint Resolve fattr_sendable dir_op_sendable binary_sendable zero_u32 : core.

Lemma read_args_sendable h off count : handle_ok h → u32 off → u32 count → sendable read_args_schema (full_read_args h off count).
Proof. intros Hh Ho Hc. split; [by apply ptr_sendable, handle_sendable|]. by split; [|split]. Qed.

Lemma write_args_sendable h off data :
  handle_ok h → u32 off → data ≠ [] → sendable write_args_schema (full_write_args h off data).
Proof.
  intros Hh Ho Hd. split; [by apply ptr_sendable, handle_sendable|]. split; [done|]. split; [done|]. split; [done|].
  by apply binary_sendable.
Qed.

Lemma read_dir_args_sendable h cookie count :
  handle_ok h → u64 cookie → u32 count → sendable read_dir_args_schema (full_readdir_args h cookie count).
Proof. intros Hh Hc Hn. split; [by apply ptr_sendable, handle_sendable|]. split; [by apply ptr_sendable|done]. Qed.

Lemma entry_sendable e : wire_entry e → sendable_entry e.
Proof. intros (ino & name & cookie & -> & ? & _ & ?). split; [done|]. by split; apply ptr_sendable; auto. Qed.

(** The data of a READ result is sent as what the client receives. *)
Lemma read_data_received data :
  binary_bytes (Nfs.mkBinaryData (Z.of_nat (length data)) (Some data)) =
    binary_bytes (received_binary (Nfs.mkBinaryData (Z.of_nat (length data)) (Some data))) ∧
  sendable_binary (received_binary (Nfs.mkBinaryData (Z.of_nat (length data)) (Some data))).
Proof. destruct data as [|b data]; [done|]. split; [done|]. by apply (binary_sendable (b :: data)). Qed.

Lemma read_body_message a b b' : binary_bytes b = binary_bytes b' →
  to_message read_res_body_schema (Nfs.mkReadResBody a b) = to_message read_res_body_schema (Nfs.mkReadResBody a b').
Proof. intros Hb. unfold read_res_body_schema. by rw /to_message /= Hb. Qed.

Lemma ok_message {T} name (s : schema T) r r' :
  to_message s r = to_message s r' → to_message (res_schema name s) (Nfs.ok_res r) = to_message (res_schema name s) (Nfs.ok_res r').
Proof. intros Hr. unfold res_schema. by rw {1 3}/to_message /= /sub /= Hr. Qed.

(** * Calls and replies *)

(** The credential and the verifier of a client can be sent. *)
Definition sendable_context (ctx : RpcConnectionContext) : Prop :=
  ∀ o, o ∈ [ctx_credential ctx; ctx_verifier ctx] →
    sendable_ptr opaque_auth_schema o ∧ ∀ a, o = Some a → packed_size (to_message opaque_auth_schema a) ≤ 2 ^ 16.

Lemma size_any_message type bytes :
  packed_size (to_message any_schema (Rpc.mkAny (Some type) bytes)) ≤ 40 + Z.of_nat (String.length type) + Z.of_nat (length bytes).
Proof. size_of any_schema. lia. Qed.
#[export] Hint Resolve size_any_message : sizes.

Lemma any_sendable type bytes : sendable any_schema (Rpc.mkAny (Some type) bytes).
Proof. by eexists. Qed.
#[local] Hint Resolve any_sendable : core.

Lemma size_call_message ctx xid procedure type bytes :
  sendable_context ctx →
  packed_size (to_message rpc_msg_schema (call_msg xid (stub_call ctx NFS_RPC_PROGRAM procedure type bytes))) ≤
  2 ^ 18 + Z.of_nat (String.length type) + Z.of_nat (length bytes).
Proof.
  intros Hctx. assert (∀ o, o ∈ [ctx_credential ctx; ctx_verifier ctx] → ∀ i,
    slot_size (i, sub (to_message opaque_auth_schema) o) ≤ 20 + 2 ^ 16) as Hauth.
  { intros o Ho i. apply size_sub; [lia|]. by apply Hctx. }
  assert (packed_size (to_message call_body_schema (stub_call ctx NFS_RPC_PROGRAM procedure type bytes)) ≤
    2 ^ 17 + 2 ^ 16 + Z.of_nat (String.length type) + Z.of_nat (length bytes)) as Hbody.
  { unfold call_body_schema. rw {1}/to_message /= size_present -/(total_size _).
    eapply Z.le_trans; [repeat (eapply total_cons; [first [slot_bound|by apply Hauth; rw !elem_of_cons; auto]|]); apply total_nil|]. lia. }
  size_of rpc_msg_schema. lia.
Qed.

Lemma size_auth_none_message : packed_size (to_message opaque_auth_schema Rpc.create_auth_none_opaque_auth) ≤ 10.
Proof. by apply Z.leb_le; vm_compute. Qed.

Lemma size_reply_message xid type bytes :
  packed_size (to_message rpc_msg_schema (reply_msg xid (accepted (success bytes type)))) ≤
  1000 + Z.of_nat (String.length type) + Z.of_nat (length bytes).
Proof.
  assert (packed_size (to_message accepted_reply_schema (Rpc.wrap_procedure_results_in_successful_accepted_reply bytes type)) ≤
    500 + Z.of_nat (String.length type) + Z.of_nat (length bytes)) as Hr.
  { pose proof size_auth_none_message. size_of accepted_reply_schema. lia. }
  assert (packed_size (to_message reply_body_schema (accepted (success bytes type))) ≤
    600 + Z.of_nat (String.length type) + Z.of_nat (length bytes)) as Hb by (rw /success; size_of reply_body_schema; lia).
  size_of rpc_msg_schema. lia.
Qed.

Lemma reply_sendable xid type bytes : sendable rpc_msg_schema (reply_msg xid (accepted (success bytes type))).
Proof.
  split; [apply wrap32_range|]. apply case_sendable, case_sendable. split; [|by apply case_sendable].
  by apply ptr_sendable, case_sendable.
Qed.

Lemma call_sendable ctx xid procedure type bytes :
  sendable_context ctx → u32 xid → 0 ≤ procedure ≤ 17 →
  sendable rpc_msg_schema (call_msg xid (stub_call ctx NFS_RPC_PROGRAM procedure type bytes)).
Proof.
  intros Hctx Hx Hp. split; [done|]. apply case_sendable. rw /sendable /call_body_schema /stub_call /call_body_of /= /u32.
  do 4 (split; [unfold NFS_RPC_PROGRAM; lia|]).
  split; [apply Hctx; rw !elem_of_cons; auto|]. split; [apply Hctx; rw !elem_of_cons; auto|by apply ptr_sendable].
Qed.

(** * The promises *)

Section promises.
Context `{ProtobufCEncodes tables} `{ReplyFuel}.

#[local] Existing Instance generated_codec.
#[local] Existing Instance generated_client_codec.

Lemma generated_coded {A} (k : message_kind A) a a' :
  to_message (schema_of k) a = to_message (schema_of k) a' → sendable (schema_of k) a' →
  packed_size (to_message (schema_of k) a) ≤ 2 ^ 20 →
  coded (λ a, default [] (packed k a)) (unpacked k) a a'.
Proof.
  intros Heq Ha Hs. destruct (packed_as k a a' Heq Ha) as [Hp Hu]; [lia|]. rw /coded Hp. split; [done|]. exact Hs.
Qed.

Lemma message_nonempty m :
  sendable rpc_msg_schema m → Rpc.msg_body m ≠ Rpc.MSG_BODY__NOT_SET → to_message rpc_msg_schema m ≠ [].
Proof.
  destruct m as [x t b]. intros [_ Hb] Hset. rw /to_message /= /present /=.
  by destruct b; [done|..]; destruct Hb as (a & -> & _); destruct (num x), (num (msg_type_number t)).
Qed.

Lemma generated_travels m :
  sendable rpc_msg_schema m → Rpc.msg_body m ≠ Rpc.MSG_BODY__NOT_SET → packed_size (to_message rpc_msg_schema m) < 2 ^ 31 →
  travels m ∧ Z.of_nat (length (pack_RpcMsg m)) = packed_size (to_message rpc_msg_schema m).
Proof.
  intros Hm Hb Hs. destruct (packed_as KRpcMsg m m eq_refl Hm Hs) as [Hp Hu].
  assert (pack_RpcMsg m = encode (to_message rpc_msg_schema m)) as Heq by by rw /pack_RpcMsg /generated_codec Hp.
  pose proof (encode_nonempty _ (message_nonempty m Hm Hb)) as Hne.
  split; [|by rw Heq]. split; rw Heq; [|done]. intros Hnil. by rw /packed_size Hnil in Hne.
Qed.

Lemma generated_messaging (ctx : RpcConnectionContext) :
  sendable_context ctx → (Z.to_nat (2 ^ 21) ≤ reply_fuel)%nat → Messaging ctx.
Proof.
  intros Hctx Hfuel. split.
  - intros h Hh. apply (generated_coded KFHandle); [done|by apply handle_sendable|].
    etrans; [apply size_fhandle_message|lia].
  - intros h n Hh Hn. apply (generated_coded KDirOpArgs); [done|by apply dir_op_sendable|].
    etrans; [apply size_dir_op_message|lia].
  - intros h off count Hh Ho Hc. apply (generated_coded KReadArgs); [done|by apply read_args_sendable|].
    etrans; [apply size_read_args_message|lia].
  - intros h off data Hh Ho Hne Hd. apply (generated_coded KWriteArgs); [done|by apply write_args_sendable|].
    rw /NFS_MAXDATA in Hd. etrans; [apply size_write_args_message|lia].
  - intros st Hst. apply (generated_coded KAttrStat); [done|by apply case_sendable, fattr_sendable|].
    etrans; [apply size_ok_message, size_fattr_message|lia].
  - intros h st Hh Hst m. apply (generated_coded KDirOpRes); [done|by apply case_sendable; split; apply ptr_sendable; auto|].
    etrans; [apply size_ok_message, size_dir_op_ok_message|lia].
  - intros e m. apply (generated_coded KDirOpRes); [done|by apply case_sendable|].
    etrans; [apply size_error_message|lia].
  - intros target Hl m. apply (generated_coded KReadLinkRes); [done|by apply case_sendable; eexists|].
    rw /NFS_MAXPATHLEN in Hl. etrans; [apply size_ok_message, size_path_message|lia].
  - intros e m. apply (generated_coded KReadLinkRes); [done|by apply case_sendable|].
    etrans; [apply size_error_message|lia].
  - intros h cookie count Hh Hc Hn. apply (generated_coded KReadDirArgs); [done|by apply read_dir_args_sendable|].
    etrans; [apply size_read_dir_args_message|lia].
  - intros es eof Hes Hlen m. apply (generated_coded KReadDirRes); [done|..].
    + apply case_sendable. split; [by apply (Forall_impl _ _ _ Hes), entry_sendable|]. by destruct eof.
    + etrans; [apply size_ok_message, size_read_dir_ok_message; done|lia].
  - intros st data Hst Hd m. destruct (read_data_received data) as [Hb Hr]. rw /NFS_MAXDATA in Hd.
    apply (generated_coded KReadRes); [by apply ok_message, read_body_message|by apply case_sendable; split; [apply ptr_sendable, fattr_sendable|]|].
    etrans; [apply size_ok_message, size_read_body_message|lia].
  - intros xid procedure type bytes Hx Hp Ht Hb. rw /fits in Hb.
    apply generated_travels; [by apply call_sendable|done|].
    eapply Z.le_lt_trans; [by apply size_call_message|lia].
  - intros xid type bytes Ht Hb m. rw /fits in Hb. pose proof (size_reply_message xid type bytes) as Hs.
    destruct (generated_travels m) as [Hm Hlen]; [apply reply_sendable|done|rw /m; lia|]. split; [done|]. subst m. lia.
Qed.

Lemma generated_sizes : PackedSizeBounds.
Proof.
  intros e He. pose proof (size_entries_message [] e (Forall_cons_2 _ _ _ He (Forall_nil_2 _))) as Hmax. cbn [length] in Hmax.
  assert (entries_message e [] ≠ []) as Hne.
  { apply entries_message_nonempty. destruct He as (? & ? & ? & -> & _). by eexists. }
  rw /directory_entry_packed_size /generated_codec entry_size_value. cbn [default id].
  rw (size_is_length _ nfs__directory_entries_list__descriptor); [done|..].
  - apply entries_described. constructor; [by apply entry_sendable|done].
  - lia.
  - pose proof (encode_nonempty _ Hne). lia.
Qed.

(** C12: over any protobuf-c that does what its documentation says of the
    tables of this program, the generated code keeps what the rest of the
    development asks of messages: the packed size of a directory entry with a name
    of at most 255 bytes is positive and below 2^32, the count of a READDIR call
    that arrives is a 32-bit number, and for a client whose credentials can be sent
    (and take at most 64 KiB each) the messages of [Messaging] arrive as they were
    sent (an empty READ result apart, whose data pointer is NULL when it arrives) and
    are of at most 1 MiB: the arguments of LOOKUP, GETATTR, READLINK, READ, WRITE and
    READDIR, the results of LOOKUP and READLINK, and the successful ones of GETATTR,
    READ, WRITE and READDIR; the call messages around arguments and the successful
    replies around results of at most 1 MiB arrive too. *)
Theorem generated_code_keeps_the_promises (ctx : RpcConnectionContext)
    (Hctx : sendable_context ctx) (Hfuel : (Z.to_nat (2 ^ 21) ≤ reply_fuel)%nat) :
  PackedSizeBounds ∧ CountRange ∧ Messaging ctx.
Proof. split_and!; [apply generated_sizes|apply generated_counts|by apply generated_messaging]. Qed.
End promises.
