(* ===== verification/MemFs.v ===== *)
(** A small file system in memory and a simple message encoding: instances of
    [Posix] and [Codec] on which the server can be run, and on which the
    hypotheses of the theorems are shown to hold together.

    The file system maps absolute paths to nodes. Every open file and
    directory stream has a number; a directory stream is a snapshot of the
    names of its directory with a position. *)
From S2P Require Import Prelude Messages Posix InodeCache Permissions FileManagement ReadDir.
From S2P Require Import ServerState ProcAttr ProcFile ProcCreate ProcRemove ProcMount RecordMarking Server.

Inductive kind := Reg (content : list byte) | Dir | Lnk (target : string).

Record node := mkNode { n_ino : Z; n_kind : kind; n_mode : Z; n_uid : Z; n_gid : Z }.

Record memfs := mkMemFs {
  nodes : gmap string node;
  next_ino : Z;
  files : gmap Z (string * Z);                  (* open files: path and position *)
  dirs : gmap Z (list dirent * nat);            (* directory streams: entries and position *)
  next_handle : Z;
  clock : Z;
  exports : list string }.

Definition set_nodes (f : gmap string node → gmap string node) (m : memfs) : memfs :=
  mkMemFs (f (nodes m)) (next_ino m) (files m) (dirs m) (next_handle m) (clock m) (exports m).

Definition set_files (f : gmap Z (string * Z) → gmap Z (string * Z)) (m : memfs) : memfs :=
  mkMemFs (nodes m) (next_ino m) (f (files m)) (dirs m) (next_handle m) (clock m) (exports m).

Definition set_dirs (f : gmap Z (list dirent * nat) → gmap Z (list dirent * nat)) (m : memfs) : memfs :=
  mkMemFs (nodes m) (next_ino m) (files m) (f (dirs m)) (next_handle m) (clock m) (exports m).

Definition bump_ino (m : memfs) : memfs :=
  mkMemFs (nodes m) (next_ino m + 1) (files m) (dirs m) (next_handle m) (clock m) (exports m).

Definition bump_handle (m : memfs) : memfs :=
  mkMemFs (nodes m) (next_ino m) (files m) (dirs m) (next_handle m + 1) (clock m) (exports m).

Definition format (k : kind) : Z :=
  match k with Reg _ => S_IFREG | Dir => S_IFDIR | Lnk _ => S_IFLNK end.

Definition node_size (k : kind) : Z := match k with Reg c => Z.of_nat (length c) | _ => 0 end.

Definition node_stat (now : Z) (n : node) : stat :=
  let t := mkTimespec now 0 in
  mkStat 1 (n_ino n) (format (n_kind n) + n_mode n) 1 (n_uid n) (n_gid n) 0
    (node_size (n_kind n)) 512 1 t t t.

Definition update (path : string) (f : node → node) (m : memfs) : (errno + unit) * memfs :=
  match nodes m !! path with
  | None => (inl ENOENT, m)
  | Some n => (inr tt, set_nodes <[path := f n]> m)
  end.

Definition make (path : string) (k : kind) (mode : Z) (m : memfs) : (errno + unit) * memfs :=
  match nodes m !! path with
  | Some _ => (inl EEXIST, m)
  | None => (inr tt, bump_ino (set_nodes <[path := mkNode (next_ino m) k mode 0 0]> m))
  end.

(** The last component of [path] when its directory is [dir]. *)
Definition child_of (dir path : string) : option string :=
  let prefix := dir +:+ "/" in
  if String.prefix prefix path then
    let name := String.substring (String.length prefix) (String.length path - String.length prefix) path in
    if bool_decide (String.index 0 "/" name = None) then Some name else None
  else None.

Definition entries_of (dir : string) (m : memfs) : list dirent :=
  omap (λ x : string * node, name ← child_of dir x.1; Some (mkDirent (n_ino x.2) name))
    (map_to_list (nodes m)).

#[global] Instance memfs_posix : Posix memfs := {
  lstat path m := match nodes m !! path with None => inl ENOENT | Some n => inr (node_stat (clock m) n) end;
  statvfs path m := inr (mkStatvfs 512 512 1000 500 500);
  readlink path n m := match n_kind <$> nodes m !! path with Some (Lnk t) => inr t | _ => inl EINVAL end;
  time m := clock m;
  read_exports m := Some (exports m);
  chmod path mode := update path (λ n, mkNode (n_ino n) (n_kind n) mode (n_uid n) (n_gid n));
  chown path uid gid := update path (λ n, mkNode (n_ino n) (n_kind n) (n_mode n)
    (if uid =? UINT32_MAX then n_uid n else uid) (if gid =? UINT32_MAX then n_gid n else gid));
  truncate path size := update path (λ n, mkNode (n_ino n)
    (match n_kind n with
     | Reg c => Reg (take (Z.to_nat size) c ++ replicate (Z.to_nat size - length c) x00)
     | k => k
     end) (n_mode n) (n_uid n) (n_gid n));
  utimes path _ _ _ _ := update path id;
  open_creat path mode := make path (Reg []) (default 384 mode);
  unlink path m := match nodes m !! path with
                   | None => (inl ENOENT, m) | Some _ => (inr tt, set_nodes (delete path) m) end;
  rename old new m := match nodes m !! old with
                      | None => (inl ENOENT, m)
                      | Some n => (inr tt, set_nodes (λ x, <[new := n]> (delete old x)) m) end;
  link old new m := match nodes m !! old with
                    | None => (inl ENOENT, m) | Some n => (inr tt, set_nodes <[new := n]> m) end;
  symlink target path := make path (Lnk target) 511;
  mkdir path mode := make path Dir mode;
  rmdir path m := match nodes m !! path with
                  | None => (inl ENOENT, m) | Some _ => (inr tt, set_nodes (delete path) m) end;
  fopen path _ m := match nodes m !! path with
                    | None => (inl ENOENT, m)
                    | Some _ => (inr (next_handle m),
                        bump_handle (set_files <[next_handle m := (path, 0)]> m)) end;
  fseek_set f pos m := match files m !! f with
                       | None => (inl EINVAL, m)
                       | Some (path, _) => (inr tt, set_files <[f := (path, pos)]> m) end;
  fread f n m := match files m !! f with
                 | Some (path, pos) =>
                     match n_kind <$> nodes m !! path with
                     | Some (Reg c) => ((take (Z.to_nat n) (drop (Z.to_nat pos) c), false), m)
                     | _ => (([], true), m)
                     end
                 | None => (([], true), m) end;
  fwrite f data m := match files m !! f with
                     | Some (path, pos) =>
                         match nodes m !! path with
                         | Some (mkNode i (Reg c) mode u g) =>
                             (Z.of_nat (length data),
                              set_nodes <[path := mkNode i (Reg (splice (Z.to_nat pos) data c)) mode u g]> m)
                         | _ => (0, m)
                         end
                     | None => (0, m) end;
  fclose f m := (inr tt, set_files (delete f) m);
  errno_now m := EIO;
  opendir path m := match n_kind <$> nodes m !! path with
                    | Some Dir => (inr (next_handle m),
                        bump_handle (set_dirs <[next_handle m := (entries_of path m, O)]> m))
                    | _ => (inl ENOENT, m) end;
  closedir d m := (inr tt, set_dirs (delete d) m);
  rewinddir d m := set_dirs (alter (λ x, (x.1, O)) d) m;
  seekdir d pos m := set_dirs (alter (λ x, (x.1, Z.to_nat pos)) d) m;
  readdir d m := match dirs m !! d with
                 | None => (RdError EINVAL, m)
                 | Some (es, pos) =>
                     match es !! pos with
                     | None => (RdEnd, m)
                     | Some e => (RdEntry e, set_dirs <[d := (es, S pos)]> m)
                     end end;
  telldir d m := default (-1) (Z.of_nat ∘ snd <$> dirs m !! d);
}.

(** ** Files and directory streams *)

Definition memfs_content (path : string) (m : memfs) : option (list byte) :=
  n ← nodes m !! path; match n_kind n with Reg c => Some c | _ => None end.

Lemma memfs_content_reg path m c :
  memfs_content path m = Some c →
  ∃ i mode u g, nodes m !! path = Some (mkNode i (Reg c) mode u g).
Proof.
  rw /memfs_content. destruct (nodes m !! path) as [[i k mode u g]|]; [|done]. simpl.
  destruct k; [|done..]. intros [= ->]. eauto.
Qed.

#[global, refine] Instance memfs_stdio : Stdio memfs := {
  file_id path m := n_ino <$> nodes m !! path;
  content := memfs_content;
  stream f m := files m !! f;
}.
Proof.
  - intros path mode o f o' _. simpl. destruct (nodes o !! path); [|done]. intros [= <- <-].
    split; [by rw /= lookup_insert_eq|done].
  - intros f path i pos o o' Hf. simpl. rw Hf. intros [= <-]. split; [by rw /= lookup_insert_eq|done].
  - intros f path pos n c o data o' Hf Hc. simpl. rw Hf.
    apply memfs_content_reg in Hc as (i & mode & u & g & ->). by intros [= <- <-].
  - intros f path pos data c o o' Hf Hc. simpl. rw Hf.
    pose proof (memfs_content_reg _ _ _ Hc) as (i & mode & u & g & Hn). rw Hn. intros [= <-].
    split; [by rw /memfs_content /= lookup_insert_eq|]. intros p Hp.
    rw /memfs_content /= lookup_insert_ne //. intros <-. by rw Hn in Hp.
  - by intros f o o' [= <-].
  - intros f n o data e o' Hn. simpl. destruct (files o !! f) as [[path pos]|].
    + destruct (n_kind <$> nodes o !! path) as [[c| |]|]; intros [= <- <- <-]; simpl; try lia.
      rw length_take. lia.
    + intros [= <- <- <-]. simpl. lia.
Defined.

#[global, refine] Instance memfs_dir_streams : DirStreams memfs := {
  dir_open d m := ∃ es pos, dirs m !! d = Some (es, pos) ∧ Z.of_nat (length es) < 2 ^ 63 ∧ (pos ≤ length es)%nat;
  dir_entries d m := default [] (fst <$> dirs m !! d);
  dir_pos d m := default O (snd <$> dirs m !! d);
  been d m n := (n ≤ length (default [] (fst <$> dirs m !! d)))%nat;
  tell d m n := Z.of_nat n;
}.
Proof.
  - done.
  - intros d m n (es & pos & -> & Hl & _). simpl. lia.
  - by intros d m (es & pos & Hd & _); rw /= Hd.
  - intros d m (es & pos & Hd & Hl & Hpos). simpl. rw Hd /=. destruct (es !! pos) as [e|] eqn:He.
    + apply lookup_lt_Some in He. eexists. split; [done|]. rw /= lookup_insert_eq /=. split_and!; [|done|done|lia|done].
      exists es, (S pos). split_and!; [done|lia|lia].
    + exists m. rw Hd. split_and!; try done. by exists es, pos.
  - intros d m n (es & pos & Hd & Hl & Hpos) Hn. simpl. rw lookup_alter_eq Hd /= Nat2Z.id. rw Hd /= in Hn.
    split_and!; try done. by exists es, n.
  - intros d m (es & pos & Hd & Hl & Hpos). simpl. rw lookup_alter_eq Hd /=. split_and!; try done. exists es, O.
    split_and!; [done|lia|lia].
Defined.

(** * A message encoding

    Arguments are a few bytes each: an inode number is one byte, names and
    data are the rest; 255 stands for "not set". *)

Definition string_of_bytes (l : list byte) : string :=
  String.string_of_list_ascii (Ascii.ascii_of_byte <$> l).

Definition opt32 (b : byte) : Z := if Z_of_byte b =? 255 then UINT32_MAX else Z_of_byte b.
Definition opt64 (b : byte) : Z := if Z_of_byte b =? 255 then UINT64_MAX else Z_of_byte b.

Definition handle_of (b : byte) : Nfs.FHandle := Nfs.mkFHandle (Some (Nfs.mkNfsFileHandle (Z_of_byte b) 0)).

Definition no_time : option Nfs.TimeVal := Some (Nfs.mkTimeVal UINT64_MAX UINT64_MAX).

Definition where_of (ino : byte) (name : list byte) : option Nfs.DirOpArgs :=
  Some (Nfs.mkDirOpArgs (Some (handle_of ino)) (Some (Nfs.mkFileName (Some (string_of_bytes name))))).

Definition stat_byte (st : Nfs.Stat) : byte :=
  match st with
  | Nfs.NFS_OK => x00 | Nfs.NFSERR_PERM => x01 | Nfs.NFSERR_NOENT => x02 | Nfs.NFSERR_IO => x05
  | Nfs.NFSERR_NXIO => x06 | Nfs.NFSERR_ACCES => x0d | Nfs.NFSERR_EXIST => x11
  | Nfs.NFSERR_NODEV => x13 | Nfs.NFSERR_NOTDIR => x14 | Nfs.NFSERR_ISDIR => x15
  | Nfs.NFSERR_FBIG => x1b | Nfs.NFSERR_NOSPC => x1c | Nfs.NFSERR_ROFS => x1e
  | Nfs.NFSERR_NAMETOOLONG => x3f | Nfs.NFSERR_NOTEMPTY => x42 | Nfs.NFSERR_DQUOT => x45
  | Nfs.NFSERR_STALE => x46 | Nfs.NFSERR_WFLUSH => x63
  end.

(** The status, and a projection of the body of a success. *)
Definition pack_res {T} (f : T → list byte) (r : Nfs.Res T) : list byte :=
  match Nfs.nfs_status r with Some st => [stat_byte st] | None => [] end ++
  match Nfs.body r with Nfs.BODY_OK (Some p) => f p | _ => [] end.

(** The type of the arguments of a procedure; procedures from 32 on are those
    of the Mount program. *)
Definition args_type (proc : Z) : string :=
  match proc with
  | 2 => "nfs/SAttrArgs" | 4 | 10 | 15 => "nfs/DirOpArgs" | 6 => "nfs/ReadArgs" | 8 => "nfs/WriteArgs"
  | 9 | 14 => "nfs/CreateArgs" | 11 => "nfs/RenameArgs" | 12 => "nfs/LinkArgs"
  | 13 => "nfs/SymLinkArgs" | 16 => "nfs/ReadDirArgs" | 33 => "mount/DirPath" | _ => "nfs/FHandle"
  end.

Definition auth_sys_of (uid gid : Z) : Rpc.OpaqueAuth :=
  Rpc.mkOpaqueAuth Rpc.AUTH_SYS
    (Rpc.AUTH_BODY_AUTH_SYS (Some (Rpc.mkAuthSysParams 0 (Some "client") uid gid (Some [gid])))).

(** A call: procedure, user (255: AUTH_NONE) and arguments. *)
Definition call_of (proc uid : byte) (args : list byte) : Rpc.CallBody :=
  let p := Z_of_byte proc in
  Rpc.mkCallBody 2 (if p <? 32 then 10003 else 10005) 2 (if p <? 32 then p else p - 32)
    (Some (if Z_of_byte uid =? 255 then Rpc.create_auth_none_opaque_auth
           else auth_sys_of (Z_of_byte uid) (Z_of_byte uid)))
    (Some Rpc.create_auth_none_opaque_auth)
    (Some (Rpc.mkAny (Some (args_type p)) args)).

#[global] Instance byte_codec : Codec := {
  unpack_FHandle b := match b with [i] => Some (handle_of i) | _ => None end;
  unpack_SAttrArgs b :=
    match b with
    | [i; mode; uid; gid; size] =>
        Some (Nfs.mkSAttrArgs (Some (handle_of i))
          (Some (Nfs.mkSAttr (opt32 mode) (opt32 uid) (opt32 gid) (opt64 size) no_time no_time)))
    | _ => None
    end;
  unpack_DirOpArgs b := match b with i :: name => where_of i name | _ => None end;
  unpack_ReadArgs b :=
    match b with
    | [i; off; count] => Some (Nfs.mkReadArgs (Some (handle_of i)) (Z_of_byte off) (Z_of_byte count * 100) 0)
    | _ => None
    end;
  unpack_WriteArgs b :=
    match b with
    | i :: off :: data =>
        Some (Nfs.mkWriteArgs (Some (handle_of i)) 0 (Z_of_byte off) 0
          (Nfs.mkBinaryData (Z.of_nat (length data)) (match data with [] => None | _ => Some data end)))
    | _ => None
    end;
  unpack_CreateArgs b :=
    match b with
    | i :: size :: name =>
        Some (Nfs.mkCreateArgs (where_of i name)
          (Some (Nfs.mkSAttr 420 UINT32_MAX UINT32_MAX (opt64 size) no_time no_time)))
    | _ => None
    end;
  unpack_RenameArgs b :=
    match b with
    | i :: j :: n :: names =>
        let k := Z.to_nat (Z_of_byte n) in
        Some (Nfs.mkRenameArgs (where_of i (take k names)) (where_of j (drop k names)))
    | _ => None
    end;
  unpack_LinkArgs b :=
    match b with i :: j :: name => Some (Nfs.mkLinkArgs (Some (handle_of i)) (where_of j name)) | _ => None end;
  unpack_SymLinkArgs b :=
    match b with
    | i :: n :: names =>
        let k := Z.to_nat (Z_of_byte n) in
        Some (Nfs.mkSymLinkArgs (where_of i (take k names))
          (Some (Nfs.mkPath (Some (string_of_bytes (drop k names)))))
          (Some (Nfs.mkSAttr UINT32_MAX UINT32_MAX UINT32_MAX UINT64_MAX no_time no_time)))
    | _ => None
    end;
  unpack_ReadDirArgs b :=
    match b with
    | [i; cookie; count] =>
        Some (Nfs.mkReadDirArgs (Some (handle_of i)) (Some (Nfs.mkNfsCookie (Z_of_byte cookie)))
          (Z_of_byte count))
    | _ => None
    end;
  unpack_DirPath b := Some (Mount.mkDirPath (Some (string_of_bytes b)));
  pack_NfsStat st := [stat_byte st];
  pack_AttrStat := pack_res (λ a, [byte_of_Z (Nfs.fa_fileid a)]);
  pack_DirOpRes := pack_res (λ d,
    match Nfs.file d with
    | Some (Nfs.mkFHandle (Some h)) => [byte_of_Z (Nfs.inode_number h)] | _ => [] end);
  pack_ReadLinkRes := pack_res (λ _, []);
  pack_ReadRes := pack_res (λ b, default [] (Nfs.data (Nfs.rr_nfsdata b)));
  pack_ReadDirRes := pack_res (λ r, byte_of_Z (Nfs.eof r) :: ((λ e, byte_of_Z (Nfs.de_fileid e)) <$> Nfs.entries r));
  pack_StatFsRes := pack_res (λ _, []);
  pack_FhStatus r := match Mount.fhstatus_body r with
                     | Mount.FHSTATUS_BODY_DIRECTORY (Some (Nfs.mkFHandle (Some h))) =>
                         [x00; byte_of_Z (Nfs.inode_number h)]
                     | _ => [x01] end;
  directory_entry_packed_size e := 16;
  unpack_RpcMsg b :=
    match b with
    | proc :: uid :: args =>
        Some (Rpc.mkRpcMsg 0 Rpc.CALL (Rpc.BODY_CBODY (Some (call_of proc uid args))))
    | _ => None
    end;
  pack_RpcMsg m :=
    [match Rpc.msg_body m with
     | Rpc.BODY_RBODY (Some b) =>
         match Rpc.rb_stat b with Rpc.MSG_ACCEPTED => x00 | Rpc.MSG_DENIED => x01 end
     | _ => x02
     end; byte_of_Z (Rpc.xid m)];
}.

#[global] Instance byte_codec_sizes : PackedSizeBounds.
Proof. intros e _. rw /=. lia. Defined.

#[global] Instance byte_codec_counts : CountRange.
Proof.
  intros b r. simpl. destruct b as [|i [|cookie [|count [|]]]]; try done. intros [= <-]. rw /u32 /=.
  pose proof (Z_of_byte_range count). lia.
Defined.

#[global] Instance byte_codec_small : PackSmall.
Proof. intros m. by rw /small. Defined.

(** * An example tree

    The exported directory /srv (inode 1) with the files a (2, owned by user
    5, mode 0644) and b (3, owned by root, mode 0600), the directory d (4,
    owned by user 5) with the file e (6) in it, and the link l (5). *)
Definition tree : memfs :=
  mkMemFs (list_to_map [
    ("/srv", mkNode 1 Dir 509 0 0);
    ("/srv/a", mkNode 2 (Reg [x68; x65; x6c; x6c; x6f]) 420 5 5);
    ("/srv/b", mkNode 3 (Reg [x62]) 384 0 0);
    ("/srv/d", mkNode 4 Dir 493 5 5);
    ("/srv/d/e", mkNode 6 (Reg [x65]) 420 5 5);
    ("/srv/l", mkNode 5 (Lnk "a") 511 0 0)]) 7 ∅ ∅ 1 100 ["/srv *(rw)"].

Example tree_lstat : st_ino <$> (match lstat "/srv/a" tree with inr st => Some st | inl _ => None end) = Some 2.
Proof. reflexivity. Qed.

(** * A running server

    Every node of the tree has a handle; requests of the encoding above. *)

Definition cached (ino : Z) (path : string) : InodeCacheMapping := mkMapping (Nfs.mkNfsFileHandle ino 0) path.

Definition booted : server_state memfs :=
  mkServerState tree
    [cached 6 "/srv/d/e"; cached 5 "/srv/l"; cached 4 "/srv/d"; cached 3 "/srv/b"; cached 2 "/srv/a"; cached 1 "/srv"] [] [].

Definition user (uid : Z) : Rpc.AuthSysParams := Rpc.mkAuthSysParams 0 (Some "client") uid uid (Some [uid]).

Definition no_verifier : Rpc.OpaqueAuth := Rpc.create_auth_none_opaque_auth.

Definition params_of (proc : Z) (args : list byte) : Rpc.Any := Rpc.mkAny (Some (args_type proc)) args.

Definition fh (ino : Z) : Nfs.NfsFileHandle := Nfs.mkNfsFileHandle ino 0.

(** The attributes of a node of the tree. *)
Definition stat_of (path : string) : stat :=
  match lstat path tree with inr st => st | inl _ => node_stat 0 (mkNode 0 Dir 0 0 0) end.

(** A reply's results. *)
Definition results_of (r : option (reply * server_state memfs)) : option (string * list byte) :=
  '(r, _) ← r; a ← r;
  match Rpc.ar_reply_data a with
  | Rpc.REPLY_DATA_RESULTS (Some (Rpc.mkAny (Some t) b)) => Some (t, b)
  | _ => None
  end.

(** A procedure of the NFS program called by [uid]. *)
Definition nfs (uid proc : Z) (args : list byte) : server_state memfs → option (reply * server_state memfs) :=
  run (call_nfs (auth_sys_of uid uid) no_verifier 2 proc (Some (params_of proc args))).
