(* ===== verification/WireCodec.v ===== *)
(** A binary encoding of all messages, an instance of [Codec] and
    [ClientCodec] in which every message decodes to itself (but for the data of
    an empty READ result, which is a null pointer when it arrives): client and
    server can be run together on it. It is built from serializers with their
    round-trip law. *)
From S2P Require Import Prelude Messages Posix InodeCache Permissions FileManagement ReadDir ServerState.
From S2P Require Import ProcFile RecordMarking Server RpcClient NfsClient.

Record serializer (A : Type) := mkSerializer {
  enc : A → list byte;
  dec : list byte → option (A * list byte);
  dec_enc a rest : dec (enc a ++ rest) = Some (a, rest) }.

Arguments mkSerializer {A} enc dec dec_enc.
Arguments enc {A} s a.
Arguments dec {A} s b.
Arguments dec_enc {A} s a rest.

(** * Combinators *)

(** The bits of a number, one byte each; the leading one is the end. *)
Fixpoint enc_pos (p : positive) : list byte :=
  match p with xH => [x02] | xO p => x00 :: enc_pos p | xI p => x01 :: enc_pos p end.

Fixpoint dec_pos (b : list byte) : option (positive * list byte) :=
  match b with
  | x02 :: b => Some (xH, b)
  | x00 :: b => '(p, b) ← dec_pos b; Some (xO p, b)
  | x01 :: b => '(p, b) ← dec_pos b; Some (xI p, b)
  | _ => None
  end.

Lemma dec_enc_pos p rest : dec_pos (enc_pos p ++ rest) = Some (p, rest).
Proof. by induction p as [p IH|p IH|]; rw /= ?IH. Qed.

Definition ser_Z : serializer Z.
Proof.
  refine (mkSerializer
    (λ z, match z with Z0 => [x00] | Zpos p => x01 :: enc_pos p | Zneg p => x02 :: enc_pos p end)
    (λ b, match b with
          | x00 :: b => Some (0, b)
          | x01 :: b => '(p, b) ← dec_pos b; Some (Zpos p, b)
          | x02 :: b => '(p, b) ← dec_pos b; Some (Zneg p, b)
          | _ => None
          end) _).
  intros [|p|p] rest; by rw /= ?dec_enc_pos.
Defined.

Definition ser_unit : serializer unit := mkSerializer (λ _, []) (λ b, Some (tt, b)) (λ a rest, match a with tt => eq_refl end).

Definition ser_byte : serializer byte :=
  mkSerializer (λ b, [b]) (λ l, match l with b :: l => Some (b, l) | [] => None end) (λ _ _, eq_refl).

Definition ser_pair {A B} (sa : serializer A) (sb : serializer B) : serializer (A * B).
Proof.
  refine (mkSerializer (λ x, enc sa x.1 ++ enc sb x.2)
    (λ b, '(a, b) ← dec sa b; '(x, b) ← dec sb b; Some ((a, x), b)) _).
  intros [a b] rest. rw /= -app_assoc dec_enc /= dec_enc //.
Defined.

(** A type that is described by another one. *)
Definition ser_via {A B} (sb : serializer B) (f : A → B) (g : B → option A)
    (gf : ∀ a, g (f a) = Some a) : serializer A.
Proof.
  refine (mkSerializer (λ a, enc sb (f a)) (λ b, '(x, b) ← dec sb b; a ← g x; Some (a, b)) _).
  intros a rest. rw /= dec_enc /= gf //.
Defined.

Definition ser_option {A} (sa : serializer A) : serializer (option A).
Proof.
  refine (mkSerializer (λ o, match o with None => [x00] | Some a => x01 :: enc sa a end)
    (λ b, match b with
          | x00 :: b => Some (None, b)
          | x01 :: b => '(a, b) ← dec sa b; Some (Some a, b)
          | _ => None
          end) _).
  intros [a|] rest; by rw /= ?dec_enc.
Defined.

Fixpoint dec_many {A} (sa : serializer A) (n : nat) (b : list byte) : option (list A * list byte) :=
  match n with
  | O => Some ([], b)
  | S n => '(a, b) ← dec sa b; '(l, b) ← dec_many sa n b; Some (a :: l, b)
  end.

Lemma dec_enc_many {A} (sa : serializer A) l rest :
  dec_many sa (length l) (concat (enc sa <$> l) ++ rest) = Some (l, rest).
Proof.
  induction l as [|a l IH]; [done|]. rw fmap_cons concat_cons -app_assoc /= dec_enc /= IH //.
Qed.

Definition ser_list {A} (sa : serializer A) : serializer (list A).
Proof.
  refine (mkSerializer (λ l, enc ser_Z (Z.of_nat (length l)) ++ concat (enc sa <$> l))
    (λ b, '(n, b) ← dec ser_Z b; dec_many sa (Z.to_nat n) b) _).
  intros l rest. rw -app_assoc dec_enc /= Nat2Z.id dec_enc_many //.
Defined.

Definition bytes_of_string (s : string) : list byte := Ascii.byte_of_ascii <$> String.list_ascii_of_string s.

Definition string_of_byte_list (l : list byte) : string := String.string_of_list_ascii (Ascii.ascii_of_byte <$> l).

Lemma string_of_bytes_of_string s : string_of_byte_list (bytes_of_string s) = s.
Proof.
  rw /string_of_byte_list /bytes_of_string -list_fmap_compose.
  rw (list_fmap_ext _ id).
  { intros i x _. simpl. apply Ascii.ascii_of_byte_of_ascii. }
  rw list_fmap_id. apply String.string_of_list_ascii_of_string.
Qed.

Definition ser_string : serializer string :=
  ser_via (ser_list ser_byte) bytes_of_string (λ l, Some (string_of_byte_list l))
    (λ s, f_equal Some (string_of_bytes_of_string s)).

(** An enumeration, by the position in the list of its values. *)
Fixpoint position {A} `{EqDecision A} (a : A) (l : list A) : nat :=
  match l with [] => O | x :: l => if decide (a = x) then O else S (position a l) end.

Definition ser_enum {A} `{EqDecision A} (l : list A) (all : ∀ a, l !! position a l = Some a) : serializer A.
Proof.
  refine (ser_via ser_Z (λ a, Z.of_nat (position a l)) (λ z, l !! Z.to_nat z) _).
  intros a. by rw Nat2Z.id.
Defined.

Ltac by_cases := intros []; vm_compute; reflexivity.

#[local] Notation "a * b" := (ser_pair a b).

(** * Messages *)

Import Nfs.

Definition ser_Stat : serializer Stat.
Proof.
  refine (ser_enum [NFS_OK; NFSERR_PERM; NFSERR_NOENT; NFSERR_IO; NFSERR_NXIO; NFSERR_ACCES; NFSERR_EXIST;
    NFSERR_NODEV; NFSERR_NOTDIR; NFSERR_ISDIR; NFSERR_FBIG; NFSERR_NOSPC; NFSERR_ROFS; NFSERR_NAMETOOLONG;
    NFSERR_NOTEMPTY; NFSERR_DQUOT; NFSERR_STALE; NFSERR_WFLUSH] _). by_cases.
Defined.

Definition ser_FType : serializer FType.
Proof. refine (ser_enum [NFNON; NFREG; NFDIR; NFBLK; NFCHR; NFLNK] _). by_cases. Defined.

Definition ser_NfsFileHandle : serializer NfsFileHandle.
Proof.
  refine (ser_via (ser_Z * ser_Z) (λ h, (inode_number h, timestamp h))
    (λ '(i, t), Some (mkNfsFileHandle i t)) _). by_cases.
Defined.

Definition ser_FHandle : serializer FHandle.
Proof.
  refine (ser_via (ser_option ser_NfsFileHandle) nfs_filehandle (λ h, Some (mkFHandle h)) _). by_cases.
Defined.

Definition ser_TimeVal : serializer TimeVal.
Proof.
  refine (ser_via (ser_Z * ser_Z) (λ t, (seconds t, useconds t)) (λ '(s, u), Some (mkTimeVal s u)) _). by_cases.
Defined.

Definition ser_FAttr : serializer FAttr.
Proof.
  refine (ser_via (ser_option ser_FType * ser_list ser_Z * ser_option ser_TimeVal * ser_option ser_TimeVal
                   * ser_option ser_TimeVal)
    (λ a, (fa_ftype a, [fa_mode a; fa_nlink a; fa_uid a; fa_gid a; fa_size a; fa_blocksize a; fa_rdev a;
       fa_blocks a; fa_fsid a; fa_fileid a], fa_atime a, fa_mtime a, fa_ctime a))
    (λ '(t, l, a, m, c),
       match l with
       | [mode; nlink; uid; gid; size; bs; rdev; blocks; fsid; fileid] =>
           Some (mkFAttr t mode nlink uid gid size bs rdev blocks fsid fileid a m c)
       | _ => None
       end) _). by_cases.
Defined.

Definition ser_SAttr : serializer SAttr.
Proof.
  refine (ser_via (ser_Z * ser_Z * ser_Z * ser_Z * ser_option ser_TimeVal * ser_option ser_TimeVal)
    (λ a, (sa_mode a, sa_uid a, sa_gid a, sa_size a, sa_atime a, sa_mtime a))
    (λ '(mode, uid, gid, size, a, m), Some (mkSAttr mode uid gid size a m)) _). by_cases.
Defined.

Definition ser_FileName : serializer FileName.
Proof. refine (ser_via (ser_option ser_string) filename (λ n, Some (mkFileName n)) _). by_cases. Defined.

Definition ser_Path : serializer Path.
Proof. refine (ser_via (ser_option ser_string) path (λ n, Some (mkPath n)) _). by_cases. Defined.

Definition ser_DirOpArgs : serializer DirOpArgs.
Proof.
  refine (ser_via (ser_option ser_FHandle * ser_option ser_FileName) (λ d, (dir d, name d))
    (λ '(d, n), Some (mkDirOpArgs d n)) _). by_cases.
Defined.

Definition ser_DirOpOk : serializer DirOpOk.
Proof.
  refine (ser_via (ser_option ser_FHandle * ser_option ser_FAttr) (λ d, (file d, attributes d))
    (λ '(f, a), Some (mkDirOpOk f a)) _). by_cases.
Defined.

Definition ser_SAttrArgs : serializer SAttrArgs.
Proof.
  refine (ser_via (ser_option ser_FHandle * ser_option ser_SAttr) (λ d, (sattr_file d, sattr_attributes d))
    (λ '(f, a), Some (mkSAttrArgs f a)) _). by_cases.
Defined.

Definition ser_ReadArgs : serializer ReadArgs.
Proof.
  refine (ser_via (ser_option ser_FHandle * ser_Z * ser_Z * ser_Z)
    (λ r, (read_file r, read_offset r, read_count r, read_totalcount r))
    (λ '(f, o, c, t), Some (mkReadArgs f o c t)) _). by_cases.
Defined.

Definition ser_BinaryData : serializer BinaryData.
Proof.
  refine (ser_via (ser_Z * ser_option (ser_list ser_byte)) (λ b, (len b, data b))
    (λ '(n, d), Some (mkBinaryData n d)) _). by_cases.
Defined.

Definition ser_ReadResBody : serializer ReadResBody.
Proof.
  refine (ser_via (ser_option ser_FAttr * ser_BinaryData) (λ b, (rr_attributes b, rr_nfsdata b))
    (λ '(a, d), Some (mkReadResBody a d)) _). by_cases.
Defined.

Definition ser_WriteArgs : serializer WriteArgs.
Proof.
  refine (ser_via (ser_option ser_FHandle * ser_Z * ser_Z * ser_Z * ser_BinaryData)
    (λ r, (write_file r, write_beginoffset r, write_offset r, write_totalcount r, write_nfsdata r))
    (λ '(f, b, o, t, d), Some (mkWriteArgs f b o t d)) _). by_cases.
Defined.

Definition ser_CreateArgs : serializer CreateArgs.
Proof.
  refine (ser_via (ser_option ser_DirOpArgs * ser_option ser_SAttr) (λ r, (where_ r, create_attributes r))
    (λ '(w, a), Some (mkCreateArgs w a)) _). by_cases.
Defined.

Definition ser_RenameArgs : serializer RenameArgs.
Proof.
  refine (ser_via (ser_option ser_DirOpArgs * ser_option ser_DirOpArgs) (λ r, (rename_from r, rename_to r))
    (λ '(f, t), Some (mkRenameArgs f t)) _). by_cases.
Defined.

Definition ser_LinkArgs : serializer LinkArgs.
Proof.
  refine (ser_via (ser_option ser_FHandle * ser_option ser_DirOpArgs) (λ r, (link_from r, link_to r))
    (λ '(f, t), Some (mkLinkArgs f t)) _). by_cases.
Defined.

Definition ser_SymLinkArgs : serializer SymLinkArgs.
Proof.
  refine (ser_via (ser_option ser_DirOpArgs * ser_option ser_Path * ser_option ser_SAttr)
    (λ r, (symlink_from r, symlink_to r, symlink_attributes r)) (λ '(f, t, a), Some (mkSymLinkArgs f t a)) _).
  by_cases.
Defined.

Definition ser_NfsCookie : serializer NfsCookie.
Proof. refine (ser_via ser_Z value (λ v, Some (mkNfsCookie v)) _). by_cases. Defined.

Definition ser_ReadDirArgs : serializer ReadDirArgs.
Proof.
  refine (ser_via (ser_option ser_FHandle * ser_option ser_NfsCookie * ser_Z)
    (λ r, (readdir_dir r, readdir_cookie r, readdir_count r)) (λ '(d, c, n), Some (mkReadDirArgs d c n)) _).
  by_cases.
Defined.

Definition ser_DirectoryEntry : serializer DirectoryEntry.
Proof.
  refine (ser_via (ser_Z * ser_option ser_FileName * ser_option ser_NfsCookie)
    (λ e, (de_fileid e, de_name e, de_cookie e)) (λ '(i, n, c), Some (mkDirectoryEntry i n c)) _). by_cases.
Defined.

Definition ser_ReadDirOk : serializer ReadDirOk.
Proof.
  refine (ser_via (ser_list ser_DirectoryEntry * ser_Z) (λ r, (entries r, eof r))
    (λ '(l, e), Some (mkReadDirOk l e)) _). by_cases.
Defined.

Definition ser_FsInfo : serializer FsInfo.
Proof.
  refine (ser_via (ser_Z * ser_Z * ser_Z * ser_Z * ser_Z) (λ f, (tsize f, bsize f, blocks f, bfree f, bavail f))
    (λ '(t, b, n, f, a), Some (mkFsInfo t b n f a)) _). by_cases.
Defined.

Definition ser_Res {T} (st : serializer T) : serializer (Res T).
Proof.
  refine (ser_via (ser_option ser_Stat * ser_Z * ser_option st * ser_option ser_unit)
    (λ r, match body r with
          | BODY__NOT_SET => (nfs_status r, 0, None, None)
          | BODY_OK p => (nfs_status r, 1, p, None)
          | BODY_DEFAULT_CASE p => (nfs_status r, 2, None, p)
          end)
    (λ '(s, k, p, e),
       Some (mkRes s (if k =? 0 then BODY__NOT_SET else if k =? 1 then BODY_OK p else BODY_DEFAULT_CASE e))) _).
  by intros [s []].
Defined.

Definition ser_DirPath : serializer Mount.DirPath.
Proof. refine (ser_via (ser_option ser_string) Mount.path (λ n, Some (Mount.mkDirPath n)) _). by_cases. Defined.

Definition ser_FhStatus : serializer Mount.FhStatus.
Proof.
  refine (ser_via (ser_option (ser_enum [Mount.MNT_OK; Mount.MNTERR_NOENT; Mount.MNTERR_NOTEXP; Mount.MNTERR_IO;
      Mount.MNTERR_ACCES; Mount.MNTERR_NOTDIR] _) * ser_Z * ser_option ser_FHandle * ser_option ser_unit)
    (λ r, match Mount.fhstatus_body r with
          | Mount.FHSTATUS_BODY__NOT_SET => (Mount.mnt_status r, 0, None, None)
          | Mount.FHSTATUS_BODY_DIRECTORY p => (Mount.mnt_status r, 1, p, None)
          | Mount.FHSTATUS_BODY_DEFAULT_CASE p => (Mount.mnt_status r, 2, None, p)
          end)
    (λ '(s, k, p, e),
       Some (Mount.mkFhStatus s (if k =? 0 then Mount.FHSTATUS_BODY__NOT_SET
         else if k =? 1 then Mount.FHSTATUS_BODY_DIRECTORY p else Mount.FHSTATUS_BODY_DEFAULT_CASE e))) _).
  - by_cases.
  - by intros [s []].
Defined.

Import Rpc.

Definition ser_AuthSysParams : serializer AuthSysParams.
Proof.
  refine (ser_via (ser_Z * ser_option ser_string * ser_Z * ser_Z * ser_option (ser_list ser_Z))
    (λ a, (Rpc.timestamp a, machinename a, uid a, gid a, gids a))
    (λ '(t, m, u, g, l), Some (mkAuthSysParams t m u g l)) _). by_cases.
Defined.

Definition ser_OpaqueAuth : serializer OpaqueAuth.
Proof.
  refine (ser_via (ser_enum [AUTH_NONE; AUTH_SYS; AUTH_SHORT; AUTH_DH; RPCSEC_GSS] _ * ser_Z
                   * ser_option ser_unit * ser_option ser_AuthSysParams)
    (λ a, match Rpc.body a with
          | AUTH_BODY__NOT_SET => (flavor a, 0, None, None)
          | AUTH_BODY_EMPTY p => (flavor a, 1, p, None)
          | AUTH_BODY_AUTH_SYS p => (flavor a, 2, None, p)
          end)
    (λ '(f, k, e, p),
       Some (mkOpaqueAuth f (if k =? 0 then AUTH_BODY__NOT_SET
         else if k =? 1 then AUTH_BODY_EMPTY e else AUTH_BODY_AUTH_SYS p))) _).
  - by_cases.
  - by intros [f []].
Defined.

Definition ser_Any : serializer Any.
Proof.
  refine (ser_via (ser_option ser_string * ser_list ser_byte) (λ a, (type_url a, Rpc.value a))
    (λ '(t, v), Some (mkAny t v)) _). by_cases.
Defined.

Definition ser_CallBody : serializer CallBody.
Proof.
  refine (ser_via (ser_Z * ser_Z * ser_Z * ser_Z * ser_option ser_OpaqueAuth * ser_option ser_OpaqueAuth
                   * ser_option ser_Any)
    (λ c, (rpcvers c, prog_ c, vers c, proc c, credential c, verifier c, params c))
    (λ '(r, p, v, n, c, w, a), Some (mkCallBody r p v n c w a)) _). by_cases.
Defined.

Definition ser_MismatchInfo : serializer MismatchInfo.
Proof.
  refine (ser_via (ser_Z * ser_Z) (λ m, (low m, high m)) (λ '(l, h), Some (mkMismatchInfo l h)) _). by_cases.
Defined.

Definition ser_AcceptedReply : serializer AcceptedReply.
Proof.
  refine (ser_via (ser_option ser_OpaqueAuth
                   * ser_enum [SUCCESS; PROG_UNAVAIL; PROG_MISMATCH; PROC_UNAVAIL; GARBAGE_ARGS; SYSTEM_ERR] _
                   * ser_Z * ser_option ser_Any * ser_option ser_MismatchInfo * ser_option ser_unit)
    (λ a, match ar_reply_data a with
          | REPLY_DATA__NOT_SET => (ar_verifier a, ar_stat a, 0, None, None, None)
          | REPLY_DATA_RESULTS p => (ar_verifier a, ar_stat a, 1, p, None, None)
          | REPLY_DATA_MISMATCH_INFO p => (ar_verifier a, ar_stat a, 2, None, p, None)
          | REPLY_DATA_DEFAULT_CASE p => (ar_verifier a, ar_stat a, 3, None, None, p)
          end)
    (λ '(v, s, k, p, m, e),
       Some (mkAcceptedReply v s (if k =? 0 then REPLY_DATA__NOT_SET else if k =? 1 then REPLY_DATA_RESULTS p
         else if k =? 2 then REPLY_DATA_MISMATCH_INFO m else REPLY_DATA_DEFAULT_CASE e))) _).
  - by_cases.
  - by intros [v s []].
Defined.

#[local] Instance RejectStat_eq_dec : EqDecision RejectStat.
Proof. solve_decision. Defined.

#[local] Instance AuthStat_eq_dec : EqDecision AuthStat.
Proof. solve_decision. Defined.

#[local] Instance ReplyStat_eq_dec : EqDecision ReplyStat.
Proof. solve_decision. Defined.

Definition ser_AuthStat : serializer AuthStat.
Proof.
  refine (ser_enum [AUTH_OK; AUTH_BADCRED; AUTH_REJECTEDCRED; AUTH_BADVERF; AUTH_REJECTEDVERF; AUTH_TOOWEAK;
    AUTH_INVALIDRESP; AUTH_FAILED; AUTH_KERB_GENERIC; AUTH_TIMEEXPIRE; AUTH_TKT_FILE; AUTH_DECODE;
    AUTH_NET_ADDR; RPCSEC_GSS_CREDPROBLEM; RPCSEC_GSS_CTXPROBLEM] _). by_cases.
Defined.

Definition ser_RejectedReply : serializer RejectedReply.
Proof.
  refine (ser_via (ser_enum [RPC_MISMATCH; AUTH_ERROR] _ * ser_Z * ser_option ser_MismatchInfo * ser_AuthStat)
    (λ r, match rr_reply_data r with
          | RR_DATA__NOT_SET => (rr_stat r, 0, None, AUTH_OK)
          | RR_DATA_MISMATCH_INFO p => (rr_stat r, 1, p, AUTH_OK)
          | RR_DATA_AUTH_STAT a => (rr_stat r, 2, None, a)
          end)
    (λ '(s, k, m, a),
       Some (mkRejectedReply s (if k =? 0 then RR_DATA__NOT_SET else if k =? 1 then RR_DATA_MISMATCH_INFO m
         else RR_DATA_AUTH_STAT a))) _).
  - by_cases.
  - by intros [s []].
Defined.

Definition ser_ReplyBody : serializer ReplyBody.
Proof.
  refine (ser_via (ser_enum [MSG_ACCEPTED; MSG_DENIED] _ * ser_Z * ser_option ser_AcceptedReply
                   * ser_option ser_RejectedReply)
    (λ r, match rb_reply r with
          | REPLY__NOT_SET => (rb_stat r, 0, None, None)
          | REPLY_AREPLY p => (rb_stat r, 1, p, None)
          | REPLY_RREPLY p => (rb_stat r, 2, None, p)
          end)
    (λ '(s, k, a, r),
       Some (mkReplyBody s (if k =? 0 then REPLY__NOT_SET else if k =? 1 then REPLY_AREPLY a else REPLY_RREPLY r))) _).
  - by_cases.
  - by intros [s []].
Defined.

Definition ser_RpcMsg : serializer RpcMsg.
Proof.
  refine (ser_via (ser_Z * ser_enum [CALL; REPLY] _ * ser_Z * ser_option ser_CallBody * ser_option ser_ReplyBody)
    (λ m, match msg_body m with
          | MSG_BODY__NOT_SET => (xid m, mtype m, 0, None, None)
          | BODY_CBODY p => (xid m, mtype m, 1, p, None)
          | BODY_RBODY p => (xid m, mtype m, 2, None, p)
          end)
    (λ '(x, t, k, c, r),
       Some (mkRpcMsg x t (if k =? 0 then MSG_BODY__NOT_SET else if k =? 1 then BODY_CBODY c else BODY_RBODY r))) _).
  - by_cases.
  - by intros [x t []].
Defined.

(** * The instances *)

(** Exactly one message. *)
Definition decode {A} (s : serializer A) (b : list byte) : option A :=
  match dec s b with Some (a, []) => Some a | _ => None end.

Lemma decode_enc {A} (s : serializer A) a : decode s (enc s a) = Some a.
Proof. rw /decode -(app_nil_r (enc s a)) dec_enc //. Qed.

(** Messages that do not fit the address space are not encoded. *)
Definition pack_small_msg (m : RpcMsg) : list byte :=
  let b := enc ser_RpcMsg m in if Z.of_nat (length b) <? 2 ^ 63 then b else [].

Definition wire_codec : Codec := {|
  unpack_FHandle := decode ser_FHandle;
  unpack_SAttrArgs := decode ser_SAttrArgs;
  unpack_DirOpArgs := decode ser_DirOpArgs;
  unpack_ReadArgs := decode ser_ReadArgs;
  unpack_WriteArgs := decode ser_WriteArgs;
  unpack_CreateArgs := decode ser_CreateArgs;
  unpack_RenameArgs := decode ser_RenameArgs;
  unpack_LinkArgs := decode ser_LinkArgs;
  unpack_SymLinkArgs := decode ser_SymLinkArgs;
  unpack_ReadDirArgs b :=
    match decode ser_ReadDirArgs b with
    | Some r => if (0 <=? readdir_count r) && (readdir_count r <? 2 ^ 32) then Some r else None
    | None => None
    end;
  unpack_DirPath := decode ser_DirPath;
  pack_NfsStat := enc ser_Stat;
  pack_AttrStat := enc (ser_Res ser_FAttr);
  pack_DirOpRes := enc (ser_Res ser_DirOpOk);
  pack_ReadLinkRes := enc (ser_Res ser_Path);
  pack_ReadRes := enc (ser_Res ser_ReadResBody);
  pack_ReadDirRes := enc (ser_Res ser_ReadDirOk);
  pack_StatFsRes := enc (ser_Res ser_FsInfo);
  pack_FhStatus := enc ser_FhStatus;
  directory_entry_packed_size e := Z.max 1 (Z.min (2 ^ 32 - 1) (Z.of_nat (length (enc ser_DirectoryEntry e))));
  unpack_RpcMsg := decode ser_RpcMsg;
  pack_RpcMsg := pack_small_msg |}.

#[global] Instance wire_client_codec : ClientCodec := {|
  pack_FHandle := enc ser_FHandle;
  pack_SAttrArgs := enc ser_SAttrArgs;
  pack_DirOpArgs := enc ser_DirOpArgs;
  pack_ReadArgs := enc ser_ReadArgs;
  pack_WriteArgs := enc ser_WriteArgs;
  pack_CreateArgs := enc ser_CreateArgs;
  pack_RenameArgs := enc ser_RenameArgs;
  pack_LinkArgs := enc ser_LinkArgs;
  pack_SymLinkArgs := enc ser_SymLinkArgs;
  pack_ReadDirArgs := enc ser_ReadDirArgs;
  pack_DirPath := enc ser_DirPath;
  unpack_NfsStat := decode ser_Stat;
  unpack_AttrStat := decode (ser_Res ser_FAttr);
  unpack_DirOpRes := decode (ser_Res ser_DirOpOk);
  unpack_ReadLinkRes := decode (ser_Res ser_Path);
  unpack_ReadRes b := received_read_res <$> decode (ser_Res ser_ReadResBody) b;
  unpack_ReadDirRes := decode (ser_Res ser_ReadDirOk);
  unpack_StatFsRes := decode (ser_Res ser_FsInfo);
  unpack_FhStatus := decode ser_FhStatus |}.

Lemma wire_codec_sizes : @PackedSizeBounds wire_codec.
Proof. intros e _. rw /directory_entry_packed_size /wire_codec. lia. Qed.

Lemma wire_codec_counts : @ProcFile.CountRange wire_codec.
Proof.
  intros b r. simpl. destruct (decode ser_ReadDirArgs b) as [r'|]; [|done].
  destruct (_ && _) eqn:Hc; [|done]. intros [= ->]. c_bools. rw /u32. lia.
Qed.

Lemma wire_codec_small : @PackSmall wire_codec.
Proof.
  intros m. rw /small /pack_RpcMsg /wire_codec /pack_small_msg.
  destruct (_ <? _) eqn:Hc; [by apply Z.ltb_lt|done].
Qed.

(** Small messages decode to themselves. *)
Lemma wire_codec_roundtrip m :
  Z.of_nat (length (enc ser_RpcMsg m)) < 2 ^ 63 →
  @unpack_RpcMsg wire_codec (@pack_RpcMsg wire_codec m) = Some m.
Proof. intros Hs%Z.ltb_lt. rw /= /pack_small_msg Hs. apply decode_enc. Qed.
