(* ===== verification/Witnesses.v ===== *)
(** The theorems at work: each is applied to a server with a small file
    system in memory ([MemFs]) where its hypotheses hold, and the behaviours
    reported as defects are run end to end. *)
From S2P Require Import Prelude Messages Posix InodeCache Permissions FileManagement ReadDir.
From S2P Require Import ServerState ProcAttr ProcFile ProcCreate ProcRemove ProcMount RecordMarking Server.
From S2P Require Import Authorization Connections MemFs.

(** Discharge a closed hypothesis by computing it. *)
Ltac by_compute :=
  lazymatch goal with
  | |- _ ∧ _ => split; by_compute
  | |- creatable _ _ _ _ _ => unfold creatable; by_compute
  | |- renamable _ _ _ _ _ _ _ _ => unfold renamable; by_compute
  | |- NoDup _ => apply (bool_decide_unpack _); vm_compute; exact I
  | |- is_directory _ _ => eexists; split; vm_compute; reflexivity
  | |- may _ _ _ _ _ =>
      first [left; reflexivity | right; eexists; split; vm_compute; reflexivity]
  | |- _ ∨ _ => first [left; by_compute | right; by_compute]
  | |- _ ≠ _ => vm_compute; intros ?; discriminate
  | |- _ => vm_compute; first [reflexivity | intros ?; discriminate | split; (reflexivity || (intros ?; discriminate))]
  end.

(** * Files and permissions *)

Lemma permission_checks_witness :
  check_create_proc_permissions "/srv" 7 0 tree = 0 ∧
  check_rename_proc_permissions "/srv" "/srv/d" 7 0 tree = 1.
Proof.
  destruct (permission_checks_follow_unix_rule "/srv" "/srv/d" 7 0 tree (stat_of "/srv") (stat_of "/srv/d"))
    as (_ & _ & Hw & Hr); [by_compute..|].
  apply Forall_cons in Hw as [_ [Hw _]%Forall_cons]. split; [rw Hw|rw Hr]; by_compute.
Defined.

(** Two bytes written over the middle of a file and past the end of it. *)
Definition after_write : memfs := (write_to_file (Some "/srv/a") 9 2 [x21; x3f] tree).2.

Lemma write_then_read_witness :
  [x21; x3f] = [x21; x3f] ∧
  ∀ p, file_id p tree ≠ file_id "/srv/a" tree → content p after_write = content p tree.
Proof.
  apply (write_then_read "/srv/a" 9 [x21; x3f] [x68; x65; x6c; x6c; x6f] tree after_write
    (read_from_file (Some "/srv/a") 9 2 after_write).2 [x21; x3f]).
  - by_compute.
  - intros f o. by eexists.
  - by_compute.
  - by_compute.
Defined.

Lemma getattr_witness :
  run (serve_nfs_procedure_1_get_file_attributes (auth_sys_of 7 7) no_verifier
         (Some (params_of 1 [x02]))) booted =
  Some (success [x00; x02] "nfs/AttrStat", booted).
Proof.
  rw (getattr_behaviour (auth_sys_of 7 7) no_verifier (user 7) (params_of 1 [x02]) (fh 2) booted); by_compute.
Defined.

Lemma lookup_witness :
  ∃ h s', nfs 7 4 [x01; x61] booted = Some (dir_op_ok_reply h (stat_of "/srv/a"), s') ∧
          Nfs.inode_number h = 2 ∧ nfs 7 4 [x01; x61] s' = Some (dir_op_ok_reply h (stat_of "/srv/a"), s').
Proof.
  destruct (lookup_returns_stable_handle (auth_sys_of 7 7) no_verifier (user 7) (params_of 4 [x01; x61])
    (fh 1) "/srv" "a" (stat_of "/srv/a") booted) as (h & s' & H1 & H2 & _ & _ & _ & H3); [by_compute..|].
  exists h, s'. split; [exact H1|]. split; [exact H2|exact H3].
Defined.

Definition give_away : Nfs.SAttr := Nfs.mkSAttr UINT32_MAX 9 UINT32_MAX UINT64_MAX no_time no_time.

Lemma setattr_owner_witness :
  nfs 5 2 [x02; xff; x09; xff; xff] booted = Some (attr_stat_error_reply Nfs.NFSERR_ACCES, booted).
Proof.
  apply (setattr_owner_is_for_root (auth_sys_of 5 5) no_verifier (user 5)
    (params_of 2 [x02; xff; x09; xff; xff]) (fh 2) "/srv/a" give_away
    (Nfs.mkTimeVal UINT64_MAX UINT64_MAX) (Nfs.mkTimeVal UINT64_MAX UINT64_MAX) booted); by_compute.
Defined.

(** * Reading and writing *)

Lemma read_witness :
  ∃ r s', nfs 7 6 [x02; x01; x01] booted = Some (r, s') ∧
    (r = system_error ∨
     ∃ data st', r = read_ok_reply st' data ∧ Z.of_nat (length data) ≤ 100 ∧
       Z.of_nat (length data) ≤ NFS_MAXDATA ∧
       ∀ c, content "/srv/a" tree = Some c → data = take (Z.to_nat (clamp_count 100)) (drop (Z.to_nat 1) c)).
Proof.
  apply (read_returns_file_data (auth_sys_of 7 7) no_verifier (user 7) (params_of 6 [x02; x01; x01])
    (fh 2) "/srv/a" 1 100 (stat_of "/srv/a") booted); by_compute.
Defined.

(** A WRITE of one byte more than the limit. *)
Definition too_much : list byte := replicate (Z.to_nat 8193) x61.

Lemma write_too_large_witness :
  nfs 5 8 (x02 :: x00 :: too_much) booted = Some (attr_stat_error_reply Nfs.NFSERR_FBIG, booted).
Proof.
  apply (write_too_large_refused (auth_sys_of 5 5) no_verifier (params_of 8 (x02 :: x00 :: too_much))
    (fh 2) "/srv/a" 0 too_much (stat_of "/srv/a") booted); by_compute.
Defined.

Definition wrote : memfs := (write_to_file (Some "/srv/a") 1 3 [x61; x6c; x74] tree).2.

Lemma write_stores_data_witness :
  nfs 5 8 [x02; x01; x61; x6c; x74] booted = Some (success [x00; x02] "nfs/AttrStat", set_os wrote booted) ∧
  content "/srv/a" wrote = Some [x68; x61; x6c; x74; x6f].
Proof.
  destruct (write_stores_data (auth_sys_of 5 5) no_verifier (user 5) (params_of 8 [x02; x01; x61; x6c; x74])
    (fh 2) "/srv/a" 1 [x61; x6c; x74] [x68; x65; x6c; x6c; x6f] (stat_of "/srv/a") wrote (stat_of "/srv/a") booted)
    as (H1 & H2 & _); [by_compute..| |by_compute|by_compute|].
  - intros f o. by eexists.
  - split; [exact H1|exact H2].
Defined.

(** * Making and removing names *)

Definition plain : Nfs.SAttr := Nfs.mkSAttr 420 UINT32_MAX UINT32_MAX UINT64_MAX no_time no_time.
Definition sized : Nfs.SAttr := Nfs.mkSAttr 420 UINT32_MAX UINT32_MAX 1 no_time no_time.
Definition never : Nfs.TimeVal := Nfs.mkTimeVal UINT64_MAX UINT64_MAX.

Definition with_c : memfs := (open_creat "/srv/d/c" (Some 420) tree).2.
Definition owned_c : memfs := (chown "/srv/d/c" UINT32_MAX UINT32_MAX with_c).2.
Definition stat_c : stat := node_stat 100 (mkNode 7 (Reg []) 420 0 0).

Lemma create_witness :
  ∃ h s', nfs 5 9 [x04; xff; x63] booted = Some (dir_op_ok_reply h stat_c, s') ∧
          Nfs.inode_number h = 7 ∧ resolves s' h "/srv/d/c".
Proof.
  destruct (create_returns_handle (auth_sys_of 5 5) no_verifier (user 5) (params_of 9 [x04; xff; x63])
    (fh 4) "/srv/d" "c" plain never never with_c owned_c stat_c booted)
    as (h & s' & H1 & _ & H2 & H3 & _); [by_compute..|].
  exists h, s'. split; [exact H1|]. split; [exact H2|exact H3].
Defined.

Definition with_dir : memfs := (mkdir "/srv/d/c" 420 tree).2.
Definition owned_dir : memfs := (chown "/srv/d/c" UINT32_MAX UINT32_MAX with_dir).2.

Lemma mkdir_with_size_witness :
  nfs 5 14 [x04; x01; x63] booted = Some (dir_op_error_reply Nfs.NFSERR_ISDIR, set_os owned_dir booted).
Proof.
  apply (mkdir_with_size_fails_after_creating (auth_sys_of 5 5) no_verifier (user 5)
    (params_of 14 [x04; x01; x63]) (fh 4) "/srv/d" "c" sized never never with_dir owned_dir booted);
    by_compute.
Defined.

Definition without_e : memfs := (unlink "/srv/d/e" tree).2.

Lemma remove_witness :
  ∃ s', nfs 5 10 [x04; x65] booted = Some (nfs_stat_reply Nfs.NFS_OK, s') ∧ ¬ resolves s' (fh 6) "/srv/d/e".
Proof.
  destruct (remove_unlinks_and_forgets (auth_sys_of 5 5) no_verifier (user 5) (params_of 10 [x04; x65])
    (fh 4) "/srv/d" "e" (stat_of "/srv/d/e") without_e booted) as (s' & H1 & _ & _ & H2); [by_compute..|].
  exists s'. split; [exact H1|]. apply H2. by_compute.
Defined.

Definition moved_e : memfs := (rename "/srv/d/e" "/srv/f" tree).2.

Lemma rename_witness :
  ∃ s', nfs 0 11 [x04; x01; x01; x65; x66] booted = Some (nfs_stat_reply Nfs.NFS_OK, s') ∧
        resolves s' (fh 6) "/srv/f".
Proof.
  destruct (rename_moves_handle (auth_sys_of 0 0) no_verifier (user 0) (params_of 11 [x04; x01; x01; x65; x66])
    (fh 4) "/srv/d" "e" (stat_of "/srv/d/e") (fh 1) "/srv" "f" moved_e booted)
    as (s' & H1 & _ & H2 & _); [by_compute..|].
  exists s'. split; [exact H1|]. apply H2; by_compute.
Defined.

(** User 0 renames /srv/a to /srv/b, which exists. *)
Definition replaced_b : memfs := (rename "/srv/a" "/srv/b" tree).2.

Lemma rename_over_existing_witness :
  ∃ s', nfs 0 11 [x01; x01; x01; x61; x62] booted = Some (nfs_stat_reply Nfs.NFS_OK, s') ∧
        resolves s' (fh 2) "/srv/b" ∧ resolves s' (fh 3) "/srv/b".
Proof.
  destruct (rename_over_existing_confuses_handles (auth_sys_of 0 0) no_verifier (user 0)
    (params_of 11 [x01; x01; x01; x61; x62]) (fh 1) "/srv" "a" (stat_of "/srv/a") (fh 1) "/srv" "b" replaced_b
    booted (fh 2) (fh 3)) as (s' & H1 & _ & H2 & H3); [by_compute..|].
  exists s'. split; [exact H1|]. split; [exact H2|exact H3].
Defined.

(** READ with the handle of the file that was replaced returns the content of
    the file that replaced it. *)
Example read_through_replaced_handle :
  results_of (nfs 0 11 [x01; x01; x01; x61; x62] booted ≫= λ r, nfs 0 6 [x03; x00; x01] r.2) =
  Some ("nfs/ReadRes", [x00; x68; x65; x6c; x6c; x6f]).
Proof. vm_compute. reflexivity. Qed.

(** * Directories and sessions *)

Definition session_of (uid ts : Z) : option ReadDirSession :=
  Some (mkReadDirSession (Some (user uid)) "/srv" 1 1 ts).

(** A server on which /srv was opened as stream 1. *)
Definition opened : memfs := (opendir "/srv" tree).2.

Lemma client_user uid : client_ok (Some (user uid)).
Proof. by exists (user uid), "client". Defined.

Lemma sessions_of_ok uid ts : sessions_ok [session_of uid ts].
Proof. constructor; [|done]. eexists. split; [done|]. apply client_user. Defined.

Lemma readdir_page_witness :
  ∃ cookies eof l' os',
    read_from_directory (Some (user 7)) "/srv" 1 [session_of 7 90] 2 40 opened =
      Some (0, page_of (take (length cookies) (drop 2 (dir_entries 1 opened))) cookies, eof, l', os') ∧
    page_end 40 eof (page_of (take (length cookies) (drop 2 (dir_entries 1 opened))) cookies)
      (drop (2 + length cookies) (dir_entries 1 opened)).
Proof.
  destruct (readdir_continues_at_cookie (Some (user 7)) "/srv" 1 [session_of 7 90] 2 2 40 opened
    (mkReadDirSession (Some (user 7)) "/srv" 1 1 90)) as (cookies & eof & l' & os' & Hrun & _ & Hend & _).
  - apply client_user.
  - apply sessions_of_ok.
  - by_compute.
  - by_compute.
  - exists (entries_of "/srv" tree), O. split; [by_compute|]. split; [by_compute|]. vm_compute. lia.
  - split; [|done]. vm_compute. lia.
  - exists cookies, eof, l', os'. split; [exact Hrun|exact Hend].
Defined.

Lemma readdir_sessions_witness :
  ∃ code es eof l' os',
    read_from_directory (Some (user 7)) "/srv" 1 [session_of 7 90] 0 40 opened = Some (code, es, eof, l', os') ∧
    (code = 0 ∨ code = 3 ∨ code = 5 ∨ code = 6) ∧ sessions_ok l' ∧ sessions_unique l'.
Proof.
  destruct (readdir_keeps_sessions (Some (user 7)) "/srv" 1 [session_of 7 90] 0 40 opened)
    as (code & es & eof & l' & os' & H1 & H2 & H3 & H4 & _);
    [apply client_user|apply sessions_of_ok|done|by_compute|].
  exists code, es, eof, l', os'. split; [exact H1|]. split; [exact H2|]. split; [exact H3|exact H4].
Defined.

(** One READDIR call opens a session, then the clean-up's next round. *)
Lemma sessions_survive_witness :
  match read_from_directory (Some (user 7)) "/srv" 1 [] 0 40 tree with
  | Some (_, _, _, l, os) =>
      length l = 1%nat ∧ sessions_unique l ∧
      ∀ os, ∃ os', clean_up_expired_readdir_sessions l os = Some (filter (λ o, not_expired (time os) o = true) l, os')
  | None => False
  end.
Proof.
  destruct (read_from_directory (Some (user 7)) "/srv" 1 [] 0 40 tree) as [[[[[code es] eof] l] os]|] eqn:Hr;
    [|by vm_compute in Hr].
  destruct (sessions_survive_interleaving tree (mkShared l os)) as (_ & Hu & _ & Hclean).
  - apply rtc_once. apply (step_readdir (Some (user 7)) "/srv" 1 0 40 code es eof); [apply client_user|by_compute|exact Hr].
  - split; [|split; [exact Hu|exact Hclean]]. vm_compute in Hr. by injection Hr as <- <- <- <- <-.
Defined.

Lemma clean_up_witness :
  ∃ os', clean_up_expired_readdir_sessions [session_of 7 50; session_of 8 90] tree = Some ([session_of 8 90], os').
Proof.
  destruct (clean_up_keeps_fresh_sessions [session_of 7 50; session_of 8 90] tree) as (os' & H1 & _).
  - repeat constructor; eexists; (split; [done|]); apply client_user.
  - split; [|done]. intros [a|] ino; [|done]. rw /= /is_session /=. case_bool_decide as Hc; [|done].
    rw bool_decide_false //. intros (_ & _ & Hu). destruct Hc as (_ & _ & Hu'). by rw Hu' in Hu.
  - exists os'. rw H1. by_compute.
Defined.

Definition user_in (uid gid : Z) : Rpc.AuthSysParams := Rpc.mkAuthSysParams 0 (Some "client") uid gid (Some [gid]).

Lemma shared_session_witness :
  find_readdir_session (Some (user_in 7 100)) 1 [session_of 7 90] = Some 0.
Proof.
  apply (readdir_session_shared_across_groups (user 7) (user_in 7 100) "client"
    (mkReadDirSession (Some (user 7)) "/srv" 1 1 90) 1); by_compute.
Defined.

(** * Mounting *)

Lemma mnt_witness :
  ∃ r s', run (serve_mnt_procedure_1_add_mount_entry (auth_sys_of 7 7) no_verifier
                 (Some (params_of 33 [x2f; x73; x72; x76]))) booted = Some (r, s') ∧
    ∃ h, r = mnt_ok_reply h ∧ Nfs.inode_number h = 1 ∧ resolves s' h "/srv" ∧
         mount_list s' = [Mount.mkMountListEntry "client" "/srv"].
Proof.
  destruct (mnt_behaviour (auth_sys_of 7 7) no_verifier (user 7) (params_of 33 [x2f; x73; x72; x76])
    "/srv" "client" booted) as (r & s' & Hrun & Hr); [by_compute..|].
  exists r, s'. split; [exact Hrun|].
  assert (lstat "/srv" (os booted) = inr (stat_of "/srv")) as Hst by by_compute.
  rw Hst in Hr. destruct Hr as (h & -> & Hi & Hres & Hl & _).
  exists h. split; [done|]. split; [exact Hi|]. split; [exact Hres|exact Hl].
Defined.

(** * Calls *)

Lemma user_authenticated uid : authenticated (auth_sys_of uid uid) (user uid).
Proof. split; [by split|by eexists]. Defined.


(** A server with the record [r] waiting on its connection. *)
Definition waiting (r : list byte) : world memfs Loopback.wire :=
  mkWorld booted (Loopback.mkWire [] (encode_fragments [r])) 1.

Lemma one_fragment (r : list byte) : fragment_ok r → r ≠ [] → sendable_fragments [r].
Proof. intros Hr Hne. split; by repeat constructor. Defined.

(** GETATTR without credentials. *)
Lemma rejected_call_witness :
  ∃ w' fs', run (process_single_rpc_tcp 1 7) (waiting [x01; xff; x02]) = Some (0, w') ∧
    srv w' = booted ∧ Loopback.inc (net w') = [] ∧ Loopback.out (net w') = encode_fragments fs' ∧
    concat fs' = [x01; x01].
Proof.
  destruct (rejected_call_runs_nothing 1 7 [[x01; xff; x02]] [] 0 (call_of x01 xff [x02])
    (Rpc.create_auth_error_rejected_reply Rpc.AUTH_TOOWEAK) 0 (waiting [x01; xff; x02]))
    as (w' & fs' & H1 & H2 & H3 & H4 & H5).
  - done.
  - done.
  - apply one_fragment; by_compute.
  - done.
  - by_compute.
  - by_compute.
  - by_compute.
  - exists w', fs'. split; [exact H1|]. split; [exact H2|]. split; [exact H3|]. split; [exact H4|exact H5].
Defined.

(** GETATTR by user 7. *)
Lemma call_is_served_witness :
  ∃ r s' w' fs', nfs 7 1 [x02] booted = Some (r, s') ∧ reply_ok r ∧
    run (process_single_rpc_tcp 1 7) (waiting [x01; x07; x02]) = Some (0, w') ∧ srv w' = s' ∧
    Loopback.out (net w') = encode_fragments fs' ∧ concat fs' = [x00; x01].
Proof.
  destruct (call_is_served 1 7 [[x01; x07; x02]] [] 0 (call_of x01 x07 [x02])
    (auth_sys_of 7 7) no_verifier (waiting [x01; x07; x02]))
    as (r & s' & w' & fs' & H1 & H2 & H3 & H4 & _ & _ & H5 & H6).
  - done.
  - done.
  - apply one_fragment; by_compute.
  - done.
  - by_compute.
  - by_compute.
  - by_compute.
  - by_compute.
  - by_compute.
  - by split; [constructor|].
  - exists r, s', w', fs'. split; [exact H1|]. split; [exact H2|]. split; [exact H3|].
    split; [exact H4|]. split; [exact H5|exact H6].
Defined.

(** A client that looks up attributes, tries to do so without credentials,
    removes a file and closes the connection. *)
#[global] Instance wire_peek : PeekSocket Loopback.wire :=
  λ fd w, (match Loopback.inc w with [] => 0 | _ => 1 end, w).

#[global, refine] Instance wire_closing : ClosingClient Loopback.wire := {}.
Proof. all: by intros fd w r w' [= <- <-]. Defined.

Definition one_record (proc uid : byte) (args : list byte) : wire_call :=
  mkWireCall [proc :: uid :: args] 0 (call_of proc uid args).

Definition conversation : list wire_call :=
  [one_record x01 x07 [x02]; one_record x01 xff [x02]; one_record x0a x05 [x04; x65]].

Definition conversing : world memfs Loopback.wire :=
  mkWorld booted (Loopback.mkWire [] (concat (wire_bytes <$> conversation))) 1.

Lemma one_record_ok proc uid args :
  (length args < 1000)%nat → wire_call_ok 1 (one_record proc uid args).
Proof.
  intros Hl. split_and!; simpl; [done| |done|by rw app_nil_r].
  apply one_fragment; [|done]. rw /fragment_ok /RM_MAX_FRAGMENT_DATA_SIZE /=. lia.
Defined.


(** Three replies are sent and the file is gone. *)
Example conversation_outcome :
  (λ x, (length x.1.1, x.1.2, nodes (os x.2) !! "/srv/d/e")) <$> answer_all (call_body <$> conversation) booted =
  Some (3%nat, Closed, None).
Proof. vm_compute. reflexivity. Qed.

(** * Authorization *)

(** The state after a call. *)
Definition after (r : option (reply * server_state memfs)) : server_state memfs :=
  default booted (snd <$> r).

Definition reply_of (r : option (reply * server_state memfs)) : reply := r ≫= fst.

Lemma directory_gate_witness :
  let r := nfs 5 14 [x04; xff; x63] booted in
  after r = booted ∨ may_write_directory (user 5) (Some (fh 4)) booted.
Proof.
  rw (_ : Some (fh 4) = target_directory 14 [x04; xff; x63]); [by_compute|].
  apply (directory_changes_need_write_permission (auth_sys_of 5 5) no_verifier (user 5)
    (params_of 14 [x04; xff; x63]) 14 booted (reply_of (nfs 5 14 [x04; xff; x63] booted))
    (after (nfs 5 14 [x04; xff; x63] booted))).
  - by_compute.
  - by do 5 constructor.
  - by_compute.
Defined.

Lemma rename_gate_witness :
  let r := nfs 7 11 [x04; x01; x01; x65; x66] booted in
  after r = booted ∨
  may_write_directory (user 7) (Some (fh 4)) booted ∧ may_write_directory (user 7) (Some (fh 1)) booted.
Proof.
  rw (_ : Some (fh 4) = (rename_directories [x04; x01; x01; x65; x66]).1); [by_compute|].
  rw (_ : Some (fh 1) = (rename_directories [x04; x01; x01; x65; x66]).2); [by_compute|].
  apply (rename_needs_write_permission_on_both (auth_sys_of 7 7) no_verifier (user 7)
    (params_of 11 [x04; x01; x01; x65; x66]) booted (reply_of (nfs 7 11 [x04; x01; x01; x65; x66] booted))
    (after (nfs 7 11 [x04; x01; x01; x65; x66] booted))); by_compute.
Defined.

Lemma write_gate_witness :
  let r := nfs 5 8 [x02; x01; x61] booted in
  after r = booted ∨
  ∃ args h path, unpack_WriteArgs [x02; x01; x61] = Some args ∧ written_file args = Some h ∧
    resolves booted h path ∧ may Write path 5 5 tree ∧ Nfs.len (Nfs.write_nfsdata args) ≤ NFS_MAXDATA.
Proof.
  apply (write_needs_write_permission (auth_sys_of 5 5) no_verifier (user 5) (params_of 8 [x02; x01; x61])
    booted (reply_of (nfs 5 8 [x02; x01; x61] booted)) (after (nfs 5 8 [x02; x01; x61] booted))); by_compute.
Defined.

(** The calls above do change something, where they are allowed to. *)
Example allowed_mkdir : nodes (os (after (nfs 5 14 [x04; xff; x63] booted))) !! "/srv/d/c" ≠ None.
Proof. vm_compute. discriminate. Qed.

Example denied_rename : results_of (nfs 7 11 [x04; x01; x01; x65; x66] booted) = Some ("nfs/NfsStat", [x0d]).
Proof. vm_compute. reflexivity. Qed.
