(* ===== verification/ServerLifeWitnesses.v ===== *)
(** Shutdowns of a server with one connection, on the file system in memory of
    [MemFs]: the theorems of [ServerShutdown] and [ServerLife] applied. *)
From S2P Require Import Prelude CStrings Messages Parsing Posix InodeCache ReadDir ServerState RpcClient ServerThreads ServerShutdown ServerLife.
From S2P Require Import MemFs.

(** A server over TCP with its handles and a READDIR session on the stream 1. *)
Definition listening_tcp : listener := mkListener 4 false 0 None None None None false [].

Definition busy : process memfs :=
  mkProcess TRANSPORT_PROTOCOL_TCP listening_tcp
    (mkServerState tree (inode_cache booted) [] [Some (mkReadDirSession (Some (user 5)) "/srv" 1 1 100)]) true None.

Lemma sigterm_frees_the_state_witness :
  ∃ p, finish_signal busy = Some p ∧ exited p = Some 0 ∧ freed (listening p) = [TcpSocket 4].
Proof.
  destruct (sigterm_frees_the_state busy _ eq_refl) as (p & Hp & He & Hr & _). exists p. split; [exact Hp|]. split; [exact He|].
  by rw Hr.
Defined.

(** The handler has cancelled the thread of the one connection, which gave up just
    then: both wait forever. *)
Definition hung : shutdown := mkShutdown (set_worker 1 Removing (set_mutex (Some Main) registered)) (Joining 100 None).

Lemma hung_reachable : rtc shutdown_step (signalled registered) hung.
Proof.
  eapply rtc_l; [exact (shut_lock registered (Some 100) eq_refl)|].
  eapply rtc_l; [exact (shut_cancel (set_mutex (Some Main) registered) 100 (mkEntry 1 (TcpConnection (Some 7)) None) eq_refl)|].
  apply rtc_once. exact (shut_worker _ _ _ (step_failed (set_mutex (Some Main) registered) 1 eq_refl) eq_refl).
Qed.


(** An endpoint that cannot be created. *)
Definition no_endpoint : answers := mkAnswers (UdpReady 5) (Some 10) (Some 11) None 12.

Lemma quic_server_releases_what_it_acquired_witness :
  run_server_quic no_endpoint fresh_listener =
    (1, mkListener 0 false 5 (Some 11) None None (Some 10) true [TlsConfig 11; UdpSocket 5; QuicConfig 10]) ∧
  Permutation [TlsConfig 11; UdpSocket 5; QuicConfig 10] (acquired no_endpoint).
Proof.
  split; [done|]. refine (proj1 (quic_server_releases_what_it_acquired no_endpoint _)). by intros fd [= <-].
Defined.

Lemma command_line_starts_the_server_witness :
  ServerLife.main (true, true) ["server"; "3000"; "--proto=quic"] = RunServer 3000 TRANSPORT_PROTOCOL_QUIC.
Proof. refine (proj1 (proj2 (command_line_starts_the_server "server" 3000 _))). lia. Defined.
