(* ===== verification/ClientWitnesses.v ===== *)
(** Client and server at work: the theorems about the client applied to a
    connection between a client and a server with a small file system in
    memory ([MemFs]), with the encoding of [WireCodec]. *)
From S2P Require Import Prelude Messages Posix InodeCache Permissions FileManagement ReadDir.
From S2P Require Import ServerState ProcAttr ProcFile ProcCreate ProcRemove ProcMount RecordMarking Server.
From S2P Require Import Connections RpcClient NfsClient EndToEnd FusePaths FuseHandlers MemFs WireCodec Witnesses.

#[local] Existing Instance wire_codec.
#[local] Existing Instance wire_codec_sizes.
#[local] Existing Instance wire_codec_counts.
#[local] Existing Instance wire_codec_small.

Import Loopback.

#[local, refine] Instance wire_arrivals : Arrivals wire := {
  arrive fd bs w := mkWire (out w) (inc w ++ bs) }.
Proof. all: done. Defined.

(** No call is made over QUIC here. *)
#[local] Instance no_quic {St} : QuicCalls St := λ _ _ _ _ _ _ s, Some (None, s).

#[local] Instance two_thousand : ReplyFuel := 2000%nat.

Definition user_context (uid : Z) : RpcConnectionContext :=
  mkRpcConnectionContext (Some "10.0.0.1") 3000 (Some (auth_sys_of uid uid)) (Some no_verifier)
    TRANSPORT_PROTOCOL_TCP (Some (TC_TCP_CLIENT (Some (mkTcpClient (Some 3))))).

Definition connected : client wire (remote memfs wire) :=
  mkClient (mkWire [] []) 1 (mkRemote (mkWorld booted (mkWire [] []) 1) 7 0 0 true).

Definition handle (ino : Z) : Nfs.FHandle := Nfs.mkFHandle (Some (fh ino)).

Example getattr_over_tcp :
  (λ x, x.1) <$> run (nfs_procedure_1_get_file_attributes (Some (user_context 7)) (handle 2)) connected =
  Some (0, Some (Nfs.ok_res (fattr_of_stat (stat_of "/srv/a")))).
Proof. vm_compute. reflexivity. Qed.

(** * Stubs *)

(** The user's GETATTR of file 2. *)
Abbreviation getattr_call := (remote_call (user_context 7) NFS_RPC_PROGRAM 1
  (Rpc.mkAny (Some "nfs/FHandle") (pack_FHandle (handle 2)))).

Definition attributes_of_a : Nfs.AttrStat := Nfs.ok_res (fattr_of_stat (stat_of "/srv/a")).

Definition getattr_reply : option Rpc.RpcMsg :=
  Some (reply_msg 1 (accepted (success (pack_AttrStat attributes_of_a) "nfs/AttrStat"))).

Definition after_getattr : client wire (remote memfs wire) :=
  default connected (snd <$> getattr_call connected).

Lemma stub_returns_checked_results_witness :
  match run (nfs_procedure_1_get_file_attributes (Some (user_context 7)) (handle 2)) connected with
  | None => lacks_accepted_reply getattr_reply
  | Some ((code, res), s1) =>
      ¬ lacks_accepted_reply getattr_reply ∧ s1 = after_getattr ∧
      (code > 0 ↔ successful_results getattr_reply = None) ∧
      (∀ r, (code, res) = (0, Some r) ↔
        ∃ any, successful_results getattr_reply = Some any ∧ Rpc.type_url any = Some "nfs/AttrStat" ∧
               unpack_AttrStat (Rpc.value any) = Some r) ∧
      (code = -2 ↔ ∃ any, successful_results getattr_reply = Some any ∧ Rpc.type_url any ≠ Some "nfs/AttrStat") ∧
      (code = -3 ↔ ∃ any, successful_results getattr_reply = Some any ∧ Rpc.type_url any = Some "nfs/AttrStat" ∧
                          unpack_AttrStat (Rpc.value any) = None) ∧
      (code ≠ 0 → res = None)
  end.
Proof.
  apply (stub_returns_checked_results NFS_RPC_PROGRAM 1 "nfs/FHandle" pack_FHandle "nfs/AttrStat" unpack_AttrStat
    (user_context 7) (handle 2) connected getattr_reply after_getattr).
  vm_compute. reflexivity.
Defined.

(** * End to end *)

Lemma stub_runs_procedure_on_server_witness :
  ∃ c', run (nfs_procedure_1_get_file_attributes (Some (user_context 7)) (handle 2)) connected =
          Some ((0, Some attributes_of_a), c') ∧
        srv (rworld (peer c')) = booted ∧ idle 3 (cnet c') (peer c').
Proof.
  apply (stub_runs_procedure_on_server NFS_RPC_PROGRAM 1 "nfs/FHandle" pack_FHandle "nfs/AttrStat" unpack_AttrStat
    (user_context 7) (auth_sys_of 7 7) no_verifier 3 (handle 2) (pack_AttrStat attributes_of_a) attributes_of_a booted connected).
  - done.
  - by split_and!.
  - done.
  - done.
  - done.
  - vm_compute. reflexivity.
  - vm_compute. reflexivity.
  - vm_compute. reflexivity.
  - split_and!; [split; [by vm_compute|vm_compute; reflexivity]|split; [by vm_compute|vm_compute; reflexivity]|].
    apply Nat.leb_le. vm_compute. reflexivity.
Defined.

(** A context with the AUTH_NONE credential. *)
Definition anonymous_context : RpcConnectionContext :=
  mkRpcConnectionContext (Some "10.0.0.1") 3000 (Some no_verifier) (Some no_verifier)
    TRANSPORT_PROTOCOL_TCP (Some (TC_TCP_CLIENT (Some (mkTcpClient (Some 3))))).

Lemma rejected_stub_changes_nothing_witness :
  ∃ c', run (nfs_procedure_1_get_file_attributes (Some anonymous_context) (handle 2)) connected = Some ((3, None), c') ∧
        srv (rworld (peer c')) = booted.
Proof.
  apply (rejected_stub_changes_nothing NFS_RPC_PROGRAM 1 "nfs/FHandle" pack_FHandle "nfs/AttrStat" unpack_AttrStat
    anonymous_context 3 (handle 2) (Rpc.create_auth_error_rejected_reply Rpc.AUTH_TOOWEAK) 0 connected).
  - done.
  - by split_and!.
  - done.
  - vm_compute. reflexivity.
  - split_and!; [split; [by vm_compute|vm_compute; reflexivity]|split; [by vm_compute|vm_compute; reflexivity]|].
    apply Nat.leb_le. vm_compute. reflexivity.
Defined.

(** * Contexts *)

(** A host on which everything succeeds; the state is the number of the next
    descriptor. *)
#[local] Instance plain_host : ClientHost Z := {
  socket_stream n := (n, n + 1);
  connect _ _ _ n := (0, n);
  close_socket _ n := n;
  gethostname _ _ := Some "client";
  geteuid _ := 7;
  getegid _ := 7;
  getgroups _ _ := Some [7; 8];
  time_now _ := 0;
  getaddrinfo _ _ n := (Some 1, n);
  socket_dgram _ n := (n, n + 1);
  set_nonblocking _ n := (0, n);
  getsockname _ n := (0, n) }.

#[local] Instance plain_quic : QuicLibrary Z := {
  quic_config_new n := (Some 1, n);
  quic_tls_config_new_client_config n := (Some 1, n);
  quic_endpoint_new _ n := (Some 1, n);
  quic_endpoint_connect _ _ n := (0, n) }.

Definition quic_context : RpcConnectionContext :=
  mkRpcConnectionContext (Some "10.0.0.1") 3000
    (Some (create_auth_sys_opaque_auth 0 "client" 7 7 [7; 8])) (Some Rpc.create_auth_none_opaque_auth)
    TRANSPORT_PROTOCOL_QUIC (Some (TC_QUIC_CLIENT (Some (mkQuicSetup 3 1 1 1)))).

Lemma created_contexts_are_well_formed_witness :
  connection_matches quic_context ∧
  (∃ stamp name gids,
     ctx_credential quic_context = Some (Rpc.mkOpaqueAuth Rpc.AUTH_SYS (Rpc.AUTH_BODY_AUTH_SYS (Some
       (Rpc.mkAuthSysParams stamp (Some name) 7 7 (Some gids))))) ∧
     (String.length name ≤ MAX_MACHINENAME_LEN)%nat ∧ (length gids ≤ MAX_N_GIDS)%nat) ∧
  (∀ program procedure args_type bytes,
     rejection (stub_call quic_context program procedure args_type bytes) = None).
Proof.
  assert (create_auth_sys_rpc_connection_context (true, true, true) "10.0.0.1" 3000 TRANSPORT_PROTOCOL_QUIC 3 =
    Some (Some quic_context, 4)) as Hmade by (vm_compute; reflexivity).
  exact (created_contexts_are_well_formed (W:=Z) _ _ _ _ _ _ _ Hmade).
Defined.

(** * The FUSE client and the server *)

(** Mount the exported directory, write to a file through the FUSE handlers and
    read it back, all over the TCP connection to the server. *)
Definition fuse_session (uid : Z) (path : string) (text : list byte) (offset : Z)
    : option (Z * (Z * list byte) * list string) :=
  '(ctx, root, c) ← match mount_remote_filesystem (λ c, Some (Some (user_context uid), c)) (λ _ c, Some c) (true, true)
                        "/srv" connected with
                    | Val (ctx, root) c => Some (ctx, root, c)
                    | _ => None
                    end;
  '(written, c) ← nfs_write (Some ctx) (Some root) true path text offset c;
  '(n, read, c) ← nfs_read (Some ctx) (Some root) 20 true path 20 0 c;
  '(_, names, c) ← nfs_readdir (Some ctx) (Some root) 20 true "/" c;
  Some (written, (n, read), names).

(** Root may write; user 9 may only read. *)
Example fuse_sessions :
  fuse_session 0 "/a" [x41; x42] 1 = Some (2, (5, [x68; x41; x42; x6c; x6f]), ["a"; "b"; "l"; "d"]) ∧
  fuse_session 9 "/a" [x41; x42] 1 = Some (- Errno.EACCES, (5, [x68; x65; x6c; x6c; x6f]), ["a"; "b"; "l"; "d"]).
Proof. split; vm_compute; reflexivity. Qed.
