(* ===== verification/FuseWitnesses.v ===== *)
(** A small server that keeps the promises on which the theorems about the
    two clients rest: a root directory with one file whose content is the
    state, a directory and two symbolic links, reached over the stubs with the
    encoding of [WireCodec]. *)
From S2P Require Import Prelude Messages Posix FileManagement RecordMarking Server RpcClient NfsClient.
From S2P Require Import FusePaths FuseHandlers FuseData WireCodec.

Import Nfs.

Definition small_node (ino : Z) : NfsFileHandle := mkNfsFileHandle ino 0.

(** [/f] is a file, [/d] a directory, [/l] a link to [f] and [/x] one that
    leads nowhere. *)
Definition small_entry (h : NfsFileHandle) (n : string) : Stat + (NfsFileHandle * FType) :=
  if inode_number h =? 1 then
    if String.eqb n "f" then inr (small_node 2, NFREG)
    else if String.eqb n "d" then inr (small_node 3, NFDIR)
    else if String.eqb n "l" then inr (small_node 4, NFLNK)
    else if String.eqb n "x" then inr (small_node 5, NFLNK) else inl NFSERR_NOENT
  else if inode_number h =? 2 then inl NFSERR_NOTDIR
  else if (inode_number h =? 3) && String.eqb n ".." then inr (small_node 1, NFDIR) else inl NFSERR_ACCES.

Definition small_tree : namespace := mkNamespace small_entry (λ _ _, True).

Lemma all_walkable h t l : walkable small_tree h t l.
Proof.
  revert h t. induction l as [|n l IH]; intros h t; [done|]. intros _. split; [done|].
  destruct (small_tree h n) as [st|[h' t']]; [done|apply IH].
Qed.

Definition attributes_of (t : FType) (size : Z) : FAttr :=
  mkFAttr (Some t) 0 1 0 0 size 0 0 0 0 0 (Some (mkTimeVal 0 0)) (Some (mkTimeVal 0 0)) (Some (mkTimeVal 0 0)).

Definition small_listing : list (string * Z) := [(".", 1); ("..", 2); ("f", 3); ("d", 4)].

Definition successful (bytes : list byte) (type : string) : option Rpc.RpcMsg :=
  Some (Rpc.mkRpcMsg 0 Rpc.REPLY (Rpc.BODY_RBODY (Some (Rpc.mkReplyBody Rpc.MSG_ACCEPTED
    (Rpc.REPLY_AREPLY (Some (Rpc.wrap_procedure_results_in_successful_accepted_reply bytes type))))))).

Definition small_lookup (a : DirOpArgs) : option DirOpRes :=
  h ← dir a;
  h ← nfs_filehandle h;
  n ← name a;
  n ← filename n;
  Some (match small_tree h n with
        | inl st => mkRes (Some st) (BODY_DEFAULT_CASE (Some tt))
        | inr (h, t) => ok_res (mkDirOpOk (Some (mkFHandle (Some h))) (Some (attributes_of t 0)))
        end).

Definition small_attributes (c : list byte) : FAttr := attributes_of NFREG (Z.of_nat (length c)).

Definition small_read (a : ReadArgs) (c : list byte) : ReadRes :=
  read_ok (small_attributes c) (bytes_at (read_offset a) (read_count a) c).

Definition small_write (a : WriteArgs) (c : list byte) : list byte :=
  splice (Z.to_nat (write_offset a)) (default [] (data (write_nfsdata a))) c.

Definition small_target (h : NfsFileHandle) : Stat + string :=
  if inode_number h =? 4 then inr "f" else if inode_number h =? 5 then inr "/nowhere" else inl NFSERR_NXIO.

Definition small_readlink (h : FHandle) : option ReadLinkRes :=
  h ← nfs_filehandle h;
  Some (match small_target h with
        | inl st => mkRes (Some st) (BODY_DEFAULT_CASE (Some tt))
        | inr target => ok_res (mkPath (Some target))
        end).

(** One entry at a time; what [/d] holds does not fit in any page. *)
Definition small_readdir (a : ReadDirArgs) : ReadDirRes :=
  let i := Z.to_nat (default 0 (value <$> readdir_cookie a)) in
  if default 0 (inode_number <$> (readdir_dir a ≫= nfs_filehandle)) =? 3 then ok_res (mkReadDirOk [] 0) else
  ok_res (mkReadDirOk (zip_with entry_of (take 1 (drop i small_listing)) [7])
    (if (i + 1 <? length small_listing)%nat then 0 else 1)).

Definition small_call (program procedure : Z) (params : Rpc.Any) (c : list byte)
    : option (option Rpc.RpcMsg * list byte) :=
  if program =? MOUNT_RPC_PROGRAM then
    Some (successful (enc ser_FhStatus (Mount.mkFhStatus (Some Mount.MNT_OK)
            (Mount.FHSTATUS_BODY_DIRECTORY (Some (mkFHandle (Some (small_node 1))))))) "mount/FhStatus", c)
  else
    match procedure with
    | 1 => Some (successful (enc (ser_Res ser_FAttr) (ok_res (small_attributes c))) "nfs/AttrStat", c)
    | 4 => a ← decode ser_DirOpArgs (Rpc.value params);
           r ← small_lookup a;
           Some (successful (enc (ser_Res ser_DirOpOk) r) "nfs/DirOpRes", c)
    | 5 => h ← decode ser_FHandle (Rpc.value params);
           r ← small_readlink h;
           Some (successful (enc (ser_Res ser_Path) r) "nfs/ReadLinkRes", c)
    | 6 => a ← decode ser_ReadArgs (Rpc.value params);
           Some (successful (enc (ser_Res ser_ReadResBody) (small_read a c)) "nfs/ReadRes", c)
    | 8 => a ← decode ser_WriteArgs (Rpc.value params);
           let c := small_write a c in
           Some (successful (enc (ser_Res ser_FAttr) (ok_res (small_attributes c))) "nfs/AttrStat", c)
    | 16 => a ← decode ser_ReadDirArgs (Rpc.value params);
            Some (successful (enc (ser_Res ser_ReadDirOk) (small_readdir a)) "nfs/ReadDirRes", c)
    | _ => None
    end.

(** Everything else is left without a reply. *)
#[local] Instance small_server : Transports (list byte) := {
  rpc_tcp ctx program version procedure params c := Some (default (None, c) (small_call program procedure params c));
  rpc_quic ctx program version procedure params aux c := Some (None, c) }.

Definition small_context : RpcConnectionContext :=
  mkRpcConnectionContext (Some "10.0.0.1") 3000 (Some (create_auth_sys_opaque_auth 0 "client" 1000 1000 []))
    None TRANSPORT_PROTOCOL_TCP None.

(** A stub that gets its result from this server. *)
Lemma small_stub_unpack {A R} procedure args_type (sa : serializer A) results_type (sr : serializer R) unpack a r
    (c c' : list byte) :
  unpack (enc sr r) = Some r →
  rpc_tcp small_context NFS_RPC_PROGRAM 2 procedure (Rpc.mkAny (Some args_type) (enc sa a)) c =
    Some (successful (enc sr r) results_type, c') →
  run (remote_procedure NFS_RPC_PROGRAM procedure args_type (enc sa) results_type unpack
         (Some small_context) a) c = Some ((0, Some r), c').
Proof.
  intros Hun Hcall. rw (remote_procedure_run NFS_RPC_PROGRAM procedure args_type (enc sa) results_type unpack
    small_context a c _ c' Hcall) /= /accept /=. by rw decide_True // Hun.
Qed.

Lemma small_stub {A R} procedure args_type (sa : serializer A) results_type (sr : serializer R) a r (c c' : list byte) :
  rpc_tcp small_context NFS_RPC_PROGRAM 2 procedure (Rpc.mkAny (Some args_type) (enc sa a)) c =
    Some (successful (enc sr r) results_type, c') →
  run (remote_procedure NFS_RPC_PROGRAM procedure args_type (enc sa) results_type (decode sr)
         (Some small_context) a) c = Some ((0, Some r), c').
Proof. apply small_stub_unpack, decode_enc. Qed.

#[local] Instance small_lookup_service c : LookupService small_context (eq c) small_tree.
Proof.
  intros h n s <- _.
  set (res := match small_tree h n with
     | inl st => mkRes (Some st) (BODY_DEFAULT_CASE (Some tt))
     | inr (h, t) => ok_res (mkDirOpOk (Some (mkFHandle (Some h))) (Some (attributes_of t 0)))
     end : DirOpRes).
  exists res, c. split_and!; [|rw /res|done].
  - apply small_stub. by rw /rpc_tcp /small_server /small_call decode_enc.
  - destruct (small_tree h n) as [st|[h' t]] eqn:Ht; simpl; [|by exists (attributes_of t 0)].
    split; [|done]. intros ->. revert Ht. rw /= /small_entry. by repeat case_match.
Qed.

#[local] Instance small_file_service : FileService small_context (small_node 2) eq.
Proof.
  split.
  - intros off count c s <- Hoff Hcount. exists (small_attributes c), c. split_and!; [|done|done|done].
    apply (small_stub_unpack 6 "nfs/ReadArgs" ser_ReadArgs "nfs/ReadRes" (ser_Res ser_ReadResBody));
      [|by rw /rpc_tcp /small_server /small_call decode_enc].
    rw /unpack_ReadRes /wire_client_codec decode_enc /= /read_ok /ServerState.received_read_res /ServerState.received_binary /=. by destruct (bytes_at off count c).
  - intros off d c s <- Hoff Hd Hlen. exists (small_attributes (splice (Z.to_nat off) d c)), (splice (Z.to_nat off) d c).
    split_and!; [|done|done].
    apply small_stub. by rw /rpc_tcp /small_server /small_call decode_enc.
Qed.

#[local] Instance small_directory_service count c : DirectoryService count small_context (small_node 1) (eq c)
  (λ i cookie _, cookie = Z.of_nat i) small_listing.*1.
Proof.
  split; [done|].
  intros i cookie s <- -> Hi. exists (take 1 (drop i small_listing)), [7], (negb (i + 1 <? 4)%nat), c.
  split; [apply small_stub; rw /rpc_tcp /small_server /small_call decode_enc|]; do 5 (destruct i as [|i]; [done || (simpl; split_and!; try done; lia)|]);
    simpl in Hi; lia.
Qed.

(** * Witnesses *)

Definition small_root : option FHandle := Some (mkFHandle (Some (small_node 1))).

(** Resolving [/d/x] asks the server twice, and the second answer is a denial. *)
Lemma resolution_walks_the_tree_witness :
  ∃ s', resolve_absolute_path (Some small_context) small_root (Some "/d/x") [x61] = Ret Errno.EACCES s' ∧ [x61] = s'.
Proof. exact (resolution_walks_the_tree (inv:=eq [x61]) (tree:=small_tree) (small_node 1) "/d/x" [x61] eq_refl (all_walkable _ _ _)). Defined.

Definition much : nat := Z.to_nat 6000.
Definition text : list byte := replicate much x62.

(** Six thousand bytes are written in two calls and read back in two. *)
Lemma fuse_write_then_read_witness :
  ∃ s1, nfs_write (Some small_context) small_root true "/f" text 1 [x61] = Some (6000, s1) ∧
    splice 1 text [x61] = s1 ∧
    (∃ s2, nfs_read (Some small_context) small_root (S much) true "/f" 6000 1 s1 = Some (6000, text, s2)) ∧
    (∀ size off, 0 ≤ size < 2 ^ 31 → 0 ≤ off < 2 ^ 32 → off + size ≤ 2 ^ 32 →
       ∃ s2, nfs_read (Some small_context) small_root (S (Z.to_nat size)) true "/f" size off s1 =
         let d := bytes_at off size (splice 1 text [x61]) in
         Some (Z.of_nat (length d), d, s2)).
Proof.
  pose proof (fuse_write_then_read small_context small_tree (small_node 1) (small_node 2) eq "/f" text 1 [x61] [x61]) as Hthm.
  rw /text length_replicate /much Z2Nat.id in Hthm; [done|]. apply Hthm; try done.
  split_and!; [done|apply all_walkable|by exists NFREG].
Defined.

Lemma fuse_readdir_lists_directory_witness :
  ∃ s', nfs_readdir (Some small_context) small_root 5 true "/" [x61] = Some (0, ["."; ".."; "f"; "d"], s') ∧ [x61] = s'.
Proof.
  assert (leads_to_file small_tree (small_node 1) (small_node 1) "/") as Hpath
    by (split_and!; [done|apply all_walkable|by exists NFDIR]).
  exact (fuse_readdir_lists_directory small_context small_tree (small_node 1) (small_node 1) (eq [x61]) _ small_listing.*1 "/"
    5 [x61] eq_refl Hpath (proj1 (Nat.ltb_lt 4 5) eq_refl)).
Defined.
