(* ===== verification/ReplWitnesses.v ===== *)
(** The theorems about the REPL at concrete inputs, over the server of
    [FuseWitnesses]. *)
From Stdlib Require Import Strings.Ascii.
From S2P Require Import Prelude CStrings Messages Posix Permissions FileManagement Parsing RecordMarking Server RpcClient NfsClient.
From S2P Require Import FusePaths FuseHandlers FuseData ReplDag ReplState ReplHandlers ReplCommands ReplSafety ReplData.
From S2P Require Import MemFs WireCodec FuseWitnesses.

Import Nfs.

#[local] Existing Instance small_server.
#[local] Existing Instance small_lookup_service.
#[local] Existing Instance small_file_service.
#[local] Existing Instance small_directory_service.

#[local] Instance small_size_service : SizeService small_context (small_node 2) eq.
Proof.
  intros c s <-. exists (small_attributes c), c. split_and!; [|done..]. by apply small_stub.
Qed.

Definition small_links : linkspace := mkLinkspace small_target (λ _, True).

#[local] Instance small_link_service c : LinkService small_context (eq c) small_links.
Proof.
  intros h s <- _. exists c. split; [done|]. cbn [small_links target_of].
  destruct (small_target h) as [st|target] eqn:Hl.
  - split; [by revert Hl; rw /small_target; repeat case_match; intros [= <-]|].
    apply small_stub. by rw /rpc_tcp /small_server /small_call decode_enc /small_readlink /= Hl.
  - apply small_stub. by rw /rpc_tcp /small_server /small_call decode_enc /small_readlink /= Hl.
Qed.

Lemma all_chaseable root dir levels h t : chaseable small_tree small_links root dir levels h t.
Proof.
  revert h t. induction levels as [|levels IH]; intros h t; [done|]. intros _. split; [done|]. cbn [small_links target_of].
  destruct (small_target h) as [|target]; [done|]. split; [apply all_walkable|].
  destruct (resolve_target small_tree root dir target) as [|[h' t']]; [done|apply IH].
Qed.

#[local] Instance small_answers : Answers (list byte).
Proof.
  intros ctx program procedure params c. rw /remote_call. destruct (_ =? _); [by eexists _, _; split; [done|intros []]|].
  rw /rpc_tcp /small_server. destruct (small_call program procedure params c) as [[rep c']|] eqn:E;
    [|by eexists _, _; split; [done|intros []]].
  exists rep, c'. split; [done|]. intros [xid ->]. revert E. rw /small_call /successful.
  by repeat (case_match; try done); unfold mbind, option_bind; repeat case_match.
Qed.

(** * A REPL on this server *)

(** The machine of the REPL has the paths of the server, but for one. *)
Definition client_files : memfs :=
  mkMemFs {[ "/nfs/d" := mkNode 3 Dir 493 1000 1000 ]} 10 ∅ ∅ 1 0 [].
Definition local_files (s : list byte) : memfs := client_files.
Definition memory (s : list byte) : bool * bool := (true, true).
Definition create (ip : string) (port transport : Z) (s : list byte)
    : option (option RpcConnectionContext * list byte) := Some (Some small_context, s).
Definition release (ctx : RpcConnectionContext) (s : list byte) : option (list byte) := Some s.

Definition started : Repl (list byte) := mkRepl [x61] None None None ∅ TRANSPORT_PROTOCOL_TCP [].

Definition after (c : command) (g : Repl (list byte)) : Repl (list byte) :=
  match perform (R:=Z) local_files memory create release 10 c g with Val _ g' => g' | _ => g end.

Definition mount_it : command := Mount_ "10.0.0.1" 3000 "/nfs".
Definition mounted : Repl (list byte) := after mount_it started.
Definition inside : Repl (list byte) := after (Cd "d") mounted.

Lemma small_context_usable ip port transport s ctx s' : create ip port transport s = Some (Some ctx, s') → usable ctx.
Proof. intros [= <- _]. split; [by eexists|]. by eexists _, _. Qed.

Lemma port_numbers_read_back_witness :
  parse_port_number (decimal 3000) = 3000 ∧ parse_port_number "-18446744073709551615" = 1.
Proof.
  split.
  - apply (proj1 (proj2 (port_numbers_read_back "" 3000))). done.
  - apply (proj2 (proj2 (proj2 (port_numbers_read_back "-18446744073709551615" 1)) ltac:(done))). split; [done|].
    exists [], ["-"%char], (chars "18446744073709551615").
    split_and!; [| |done]; [|by vm_compute].
    split_and!; [done|constructor|by right; right|by repeat constructor|done].
Defined.

Lemma typed_commands_are_understood_witness :
  ∃ buffer, fgets BUFFER_SIZE (chars "echo 'a b' >> f" ++ newline :: chars "ls") = Some (buffer, chars "ls") ∧
    strip_newline buffer = chars "echo 'a b' >> f" ∧ parse_command (strip_newline buffer) = Echo "a b" "f".
Proof.
  apply (typed_commands_are_understood (Echo "a b" "f") "echo 'a b' >> f" (chars "ls")); [done| |by vm_compute; lia].
  split; (split; [done|]); by repeat constructor.
Defined.

Lemma arguments_fit_their_buffers_witness :
  (length (chars "cd x") < 256)%nat ∧
  Forall (λ argument, String.length argument < BUFFER_SIZE)%nat (sscanf (behind 2 (strip_newline (chars "cd x"))) [Blank; Word]).
Proof. exact (arguments_fit_their_buffers (chars "cd x") (chars "cd x") [] 2 [Blank; Word] eq_refl). Defined.

(** Mounting, entering a directory and leaving it. *)
Lemma cwd_is_a_stack_witness :
  repl_ok (after (Cd "..") inside) ∧ located (after (Cd "..") inside) [("/nfs", mkFHandle (Some (small_node 1)))].
Proof.
  apply (cwd_is_a_stack local_files memory create release 10 [mount_it; Cd "d"; Cd ".."] started
    (after (Cd "..") inside) []); [done|exact small_context_usable|done|done|].
  apply (session_cons _ _ _ _ _ _ _ _ mounted); [by vm_compute|].
  apply (session_cons _ _ _ _ _ _ _ _ inside); [by vm_compute|].
  apply (session_cons _ _ _ _ _ _ _ _ (after (Cd "..") inside)); [by vm_compute|].
  match goal with |- session _ _ _ _ _ _ _ ?st _ _ => let v := eval vm_compute in st in change st with v end.
  constructor.
Defined.

(** In the directory the stack has two entries. *)
Example inside_stack :
  stack_after local_files memory create release (Cd "d") mounted [("/nfs", mkFHandle (Some (small_node 1)))] =
  [("/nfs/d", mkFHandle (Some (small_node 3))); ("/nfs", mkFHandle (Some (small_node 1)))].
Proof. vm_compute. reflexivity. Qed.

(** In [inside] the root is node 0 and the current directory node 1. *)
Definition small_dag : node_tree := Tree 0 [Tree 1 []].

Lemma small_dag_shaped : shaped (ReplState.nodes inside) None small_dag ∧ NoDup (locs small_dag).
Proof.
  split.
  - eapply shaped_node; [by vm_compute|by split|]. constructor; [|constructor].
    eapply shaped_node; [by vm_compute|by split|constructor].
  - by apply (bool_decide_unpack _).
Qed.

Lemma clean_up_frees_only_the_root_witness :
  ∃ g', clean_up (R:=Z) release inside = Val tt g' ∧
    ReplState.nodes g' !! 0%nat = None ∧
    ∀ l, l ∈ [0; 1]%nat → l ≠ 0%nat →
      ∃ n, ReplState.nodes inside !! l = Some n ∧ ReplState.nodes g' !! l = Some (set_ref_count 1 n).
Proof.
  apply (clean_up_frees_only_the_root release inside 0 small_dag small_context [x61]);
    [by vm_compute|done|by vm_compute|done|apply small_dag_shaped|apply small_dag_shaped].
Defined.


Lemma mounted_small : mounted_at mounted small_context (small_node 1) (small_node 1) "/nfs".
Proof. by split; [vm_compute|eexists _, _; split_and!; by vm_compute..]. Qed.

Lemma inside_small : mounted_at inside small_context (small_node 1) (small_node 3) "/nfs/d".
Proof. by split; [vm_compute|eexists _, _; split_and!; by vm_compute..]. Qed.


Lemma echo_then_cat_witness :
  ∃ g1 g2, run (handle_echo "b c" "l") mounted = Some (0, g1) ∧ [x61; x0a; x62; x20; x63] = world g1 ∧
    run (handle_cat 10 "l") g1 = Some (0, g2) ∧ [x61; x0a; x62; x20; x63] = world g2 ∧
    stdout g2 = stdout mounted ++ [shown [x61; x0a; x62; x20; x63]; nl].
Proof.
  apply (echo_then_cat small_context small_tree small_links (small_node 2) eq "b c" "l" (small_node 1) (small_node 1) "/nfs"
    [x61] mounted 10); [exact mounted_small|by vm_compute| |done|].
  { split; [done|]. exists (small_node 4), NFLNK. split_and!; [done|done|apply all_chaseable|by vm_compute]. }
  vm_compute. lia.
Defined.

Lemma ls_prints_directory_witness :
  ∃ g', run (handle_ls 5) mounted = Some (0, g') ∧ same mounted g' ∧ [x61] = world g' ∧
        stdout g' = stdout mounted ++ [line ". .. f d"].
Proof.
  exact (ls_prints_directory small_context (small_node 1) (eq [x61]) _ small_listing.*1 (small_node 1) "/nfs" 5 mounted
    mounted_small ltac:(by vm_compute) (proj1 (Nat.ltb_lt 4 5) eq_refl)).
Defined.

(** The machine of the REPL has no [/elsewhere/d]. *)
Definition elsewhere : Repl (list byte) := after (Mount_ "10.0.0.1" 3000 "/elsewhere") started.

Lemma elsewhere_small : mounted_at elsewhere small_context (small_node 1) (small_node 1) "/elsewhere".
Proof. by split; [vm_compute|eexists _, _; split_and!; by vm_compute..]. Qed.

Lemma single_ok (g : Repl (list byte)) :
  rpc_connection_context g = Some small_context → filesystem_dag_root g = Some 0%nat → cwd_node g = Some 0%nat →
  (∃ n, ReplState.nodes g !! 0%nat = Some n ∧ node_ok None [] n) → repl_ok g.
Proof.
  intros Hc Hr Hw (n & Hn & Hok). rw /repl_ok Hc Hr Hw. split; [by apply (small_context_usable "" 0 0 [] _ [])|].
  exists (Tree 0 []). split_and!; [done|by apply (shaped_node _ _ _ n)|apply NoDup_singleton|by left].
Qed.

Lemma cd_asks_the_local_machine_witness :
  (∃ g', run (handle_cd local_files memory "d") mounted = Some (None, g')) ∧
  (∃ g', run (handle_cd local_files memory "d") elsewhere = Some (Some 1, g') ∧ same elsewhere g').
Proof.
  split.
  - destruct (cd_asks_the_local_machine small_context small_tree local_files memory (eq [x61]) "d" (small_node 1) (small_node 1)
      "/nfs" (small_node 3) mounted (Rpc.mkAuthSysParams 0 (Some "client") 1000 1000 (Some []))
      (create_auth_sys_opaque_auth 0 "client" 1000 1000 []) 0) as (r & g' & Hrun & _ & -> & _);
      [|exact mounted_small|by vm_compute|done|done|done|done|done|done|by intros s _; vm_compute|by exists g'].
    apply single_ok; [by vm_compute..|]. eexists. split; [by vm_compute|by split].
  - destruct (cd_asks_the_local_machine small_context small_tree local_files memory (eq [x61]) "d" (small_node 1) (small_node 1)
      "/elsewhere" (small_node 3) elsewhere (Rpc.mkAuthSysParams 0 (Some "client") 1000 1000 (Some []))
      (create_auth_sys_opaque_auth 0 "client" 1000 1000 []) (-1)) as (r & g' & Hrun & _ & -> & Hs);
      [|exact elsewhere_small|by vm_compute|done|done|done|done|done|done|by intros s _; vm_compute|by exists g'].
    apply single_ok; [by vm_compute..|]. eexists. split; [by vm_compute|by split].
Defined.
