(* ===== verification/SystemWitnesses.v ===== *)
(** Clients and server at work on one file and on directories: the theorems of
    [ServerFiles] and [ServerDirectories] applied to the file system in memory of
    [MemFs] and to the messages of the generated code, over the library of
    [ProtobufDecoding]. *)
From S2P Require Import CStrings ReplDag ReplState ReplHandlers ReplSafety ReplData.
From S2P Require Import Prelude Messages Posix InodeCache Permissions FileManagement ReadDir.
From S2P Require Import ServerState ProcAttr ProcFile ProcCreate ProcRemove ProcMount RecordMarking Server.
From S2P Require Import Connections RpcClient NfsClient EndToEnd FusePaths FuseHandlers FuseData ServerFiles ServerDirectories.
From S2P Require Import Protobuf PbTables ProtobufDecoding MessageContents MessageSchemas RpcSchemas GeneratedCodec GeneratedMessages.
From S2P Require Import MemFs WireCodec Witnesses ClientWitnesses.

#[local] Existing Instance documented_library.
#[local] Existing Instance documented_encodes.
#[local] Existing Instance generated_codec | 0.
#[local] Existing Instance generated_client_codec | 0.
#[local] Existing Instance generated_sizes.
#[local] Existing Instance generated_counts.

#[local] Instance documented_small : PackSmall.
Proof.
  intros m. rw /pack_RpcMsg /generated_codec packed_bytes /small. cbn [default id].
  pose proof (documented_limit (table_name (schema_of KRpcMsg)) (to_message (schema_of KRpcMsg) m)). lia.
Qed.

#[local] Existing Instance wire_arrivals.
#[local] Existing Instance no_quic.

Import Loopback.

#[local] Instance reply_limit : ReplyFuel := Z.to_nat (2 ^ 21).

Abbreviation owner := (ClientWitnesses.user_context 5).

Lemma owner_sendable : sendable_context owner.
Proof.
  intros o Ho. rw !elem_of_cons elem_of_nil in Ho. destruct Ho as [->|[->|[]]].
  - split; [|by intros a [= <-]; apply Z.leb_le; vm_compute]. apply ptr_sendable, case_sendable.
    split; [by vm_compute|]. split; [by eexists|]. split; [by vm_compute|]. split; [by vm_compute|]. split; [done|]. by repeat constructor.
  - split; [|by intros a [= <-]; apply Z.leb_le; vm_compute]. by apply ptr_sendable, case_sendable.
Qed.

#[local] Instance owner_messages : Messaging owner.
Proof. apply generated_messaging; [apply owner_sendable|unfold reply_fuel, reply_limit; apply Nat.le_refl]. Qed.

(** * The file *)

Definition a_node (c : list byte) : node := mkNode 2 (Reg c) 420 5 5.

(** The tree of [MemFs] with the content [c] in [/srv/a]. *)
Definition a_holds (c : list byte) (o : memfs) : Prop :=
  nodes o = <["/srv/a" := a_node c]> (nodes tree) ∧ clock o = clock tree.

Lemma a_lookup c o p : a_holds c o →
  nodes o !! p = if decide (p = "/srv/a") then Some (a_node c) else nodes tree !! p.
Proof.
  intros [-> _]. case_decide as Hp; [subst p; apply lookup_insert_eq|apply lookup_insert_ne; congruence].
Qed.

Lemma tree_a : nodes tree !! "/srv/a" = Some (a_node [x68; x65; x6c; x6c; x6f]).
Proof. by vm_compute. Qed.

#[local] Instance a_ordinary : OrdinaryFile "/srv/a" 5 5 tree a_holds.
Proof.
  split.
  - intros c o Hc. by rw /content /= /memfs_content (a_lookup c o _ Hc).
  - intros c o Hc p. rw /node_at /lstat /memfs_posix (a_lookup c o p Hc). case_decide as Hp; [|by destruct (nodes tree !! p)].
    subst p. by rw tree_a.
  - intros c o p n Hc. rw /readlink /memfs_posix (a_lookup c o p Hc). case_decide as Hp; [|done]. subst p. by rw tree_a.
  - intros c o st Hc. rw /= (a_lookup c o _ Hc) /=. by intros [= <-].
  - exists (node_stat 100 (a_node [x68; x65; x6c; x6c; x6f])). by vm_compute.
  - intros mode c o _ Hc. simpl. rw (a_lookup c o _ Hc) /=. eauto.
  - intros f i pos c o Hf Hc. simpl in Hf |- *. rw Hf. eauto.
  - intros f pos n c o Hf Hc. simpl in Hf |- *. rw Hf (a_lookup c o _ Hc) /=. eauto.
  - intros f pos data c o Hf Hc. simpl in Hf |- *. rw Hf (a_lookup c o _ Hc) /=. eexists. split; [done|].
    destruct Hc as [Hn Hk]. split; [|done]. by rw /= Hn insert_insert_eq.
  - intros f c o Hc. simpl. eauto.
Qed.

(** * The names *)

Abbreviation K := (inode_cache booted).

(** What holds of all nodes of the tree. *)
Definition good_node (n : node) : bool :=
  bool_decide (is_Some (get_nfs_filehandle_from_inode_number (n_ino n) K)) &&
  bool_decide (stat_ok (node_stat 100 n)).

Lemma tree_good p n : nodes tree !! p = Some n → good_node n = true.
Proof.
  assert (map_Forall (λ _ n, good_node n = true) (nodes tree)) as Hall by (apply (bool_decide_unpack _); by vm_compute).
  apply Hall.
Qed.

Lemma tree_lstat_good p st : lstat p tree = inr st →
  is_Some (get_nfs_filehandle_from_inode_number (st_ino st) K) ∧ stat_ok st.
Proof.
  rw /lstat /memfs_posix. destruct (nodes tree !! p) as [n|] eqn:Hn; [|done]. intros [= <-].
  apply tree_good, andb_prop in Hn as [Hk Hf]. split; [by apply bool_decide_eq_true in Hk|].
  by apply bool_decide_eq_true in Hf.
Qed.

Lemma cached_exists i d : get_absolute_path_from_inode_number i K = Some d → ∃ st, lstat d tree = inr st.
Proof.
  rw /booted. cbn [inode_cache get_absolute_path_from_inode_number].
  repeat (case_match; [intros [= <-]; eexists; vm_compute; reflexivity|]). done.
Qed.

Lemma booted_servable h n : servable K tree h n.
Proof.
  intros d Hd. destruct (cached_exists _ _ Hd) as [st Hst].
  exists st. split; [done|]. intros _. destruct (lstat (get_file_absolute_path d n) tree) as [e|f] eqn:Hf.
  - revert Hf. rw /lstat /memfs_posix. by destruct (nodes tree !! _); [|intros [= <-]].
  - by apply (tree_lstat_good _ _ Hf).
Qed.

Lemma booted_handles i h : get_nfs_filehandle_from_inode_number i K = Some h → handle_ok h.
Proof.
  rw /booted. cbn [inode_cache get_nfs_filehandle_from_inode_number].
  repeat (case_match; [intros [= <-]; rw /handle_ok /u64 /=; lia|]). done.
Qed.

(** * Witnesses *)

Lemma owner_user : tcp_user owner (auth_sys_of 5 5) no_verifier (user 5) 3.
Proof. by split. Qed.

Lemma tree_stats p st : lstat p tree = inr st → stat_ok st.
Proof. intros Hst. by apply (tree_lstat_good p). Qed.

Lemma all_memory : memory_available.
Proof. done. Qed.

Definition hello : list byte := [x68; x65; x6c; x6c; x6f].

Lemma connected_holds : holds 3 K a_holds hello connected.
Proof.
  split; [by split_and!|]. split; [done|]. split; [split; [|done]|done].
  symmetry. by apply insert_id, tree_a.
Qed.

(** Two bytes written to [/a] are in [/srv/a] on the server. *)
Lemma fuse_writes_reach_the_disk_witness :
  ∃ c1, nfs_write (Some owner) (Some (handle 1)) true "/a" [x41; x42] 1 connected = Some (2, c1) ∧
    memfs_content "/srv/a" (os (srv (rworld (peer c1)))) = Some [x68; x41; x42; x6c; x6f] ∧
    ∀ size off, 0 ≤ size < 2 ^ 31 → 0 ≤ off < 2 ^ 32 → off + size ≤ 2 ^ 32 →
      ∃ c2, nfs_read (Some owner) (Some (handle 1)) (S (Z.to_nat size)) true "/a" size off c1 =
          (let r := bytes_at off size [x68; x41; x42; x6c; x6f] in Some (Z.of_nat (length r), r, c2)) ∧
        memfs_content "/srv/a" (os (srv (rworld (peer c2)))) = Some [x68; x41; x42; x6c; x6f].
Proof.
  assert (leads_to_file (served_tree (user 5) K tree) (fh 1) (fh 2) "/a") as Hleads.
  { split; [done|]. split; [|exists Nfs.NFREG; by vm_compute]. intros _. split; [|by vm_compute].
    split; [by apply (booted_handles 1)|]. split; [simpl; lia|apply booted_servable]. }
  exact (fuse_writes_reach_the_disk owner (auth_sys_of 5 5) no_verifier (user 5) 3 owner_user all_memory K tree
    booted_handles tree_stats "/srv/a" (fh 2) a_holds eq_refl (booted_handles 2 (fh 2) eq_refl)
    (fh 1) "/a" [x41; x42] 1 hello connected connected_holds Hleads ltac:(done) ltac:(done) ltac:(done) ltac:(done)).
Defined.

(** The links of the tree. *)
Definition good_link (n : node) : bool :=
  match n_kind n with
  | Lnk t => true
  | _ => negb (bool_decide (decode_file_type (st_mode (node_stat 100 n)) = Nfs.NFLNK))
  end.

Lemma tree_links p n : nodes tree !! p = Some n → good_link n = true.
Proof.
  assert (map_Forall (λ _ n, good_link n = true) (nodes tree)) as Hall by (apply (bool_decide_unpack _); by vm_compute).
  apply Hall.
Qed.

Lemma booted_readable h : link_readable K tree h.
Proof.
  intros p Hp. destruct (cached_exists _ _ Hp) as [st Hst]. exists st. split; [done|]. intros Ht e He.
  revert He Hst. rw /readlink /lstat /memfs_posix.
  destruct (nodes tree !! p) as [n|] eqn:Hn; [|done]. apply tree_links in Hn. intros He [= <-].
  destruct n as [i' [c| |t] m u g]; [| |done]; revert Hn; by rw /good_link bool_decide_true.
Qed.

(** The REPL with the exported directory mounted. *)
Definition at_srv : Repl (client wire (remote memfs wire)) :=
  mkRepl connected (Some owner) (Some 0%nat) (Some 0%nat)
    {[0%nat := mkDAGNode "/srv" Nfs.NFDIR (handle 1) None true None 0 1]} TRANSPORT_PROTOCOL_TCP [].

Lemma at_srv_mounted : mounted_at at_srv owner (fh 1) (fh 1) "/srv".
Proof. by split; [|eexists _, _; split_and!; by vm_compute..]. Qed.


(** * Directories *)

(** The files of [m0], whatever streams are open. *)
Definition unchanged (m0 o : memfs) : Prop := nodes o = nodes m0 ∧ clock o = clock m0.

Lemma memfs_browsable m0 path ino mode owner group uid gid :
  nodes m0 !! path = Some (mkNode ino Dir mode owner group) → S_ISDIR (S_IFDIR + mode) = true →
  permitted Read (node_stat (clock m0) (mkNode ino Dir mode owner group)) uid gid = true →
  Z.of_nat (length (entries_of path m0)) < 2 ^ 63 →
  BrowsableDirectory path uid gid m0 (entries_of path m0) (unchanged m0).
Proof.
  intros Hp Hdir Hr Hlen. split.
  - intros o [Hn Hk] p. by rw /node_at /= Hn Hk.
  - exists (node_stat (clock m0) (mkNode ino Dir mode owner group)). split; [|done]. by rw /= Hp.
  - split_and!; [done|done| |done]. intros d o Ho. simpl.
    destruct (dirs o !! d) as [[es pos]|]; [|done]. by destruct (es !! pos).
  - intros o [Hn Hk]. simpl. rw Hn Hp /=. eexists _, _. split; [reflexivity|]. split; [done|].
    simpl. rw lookup_insert_eq /= /entries_of Hn. split; [|done]. eexists _, _. split_and!; [done|done|lia].
Qed.

#[local] Instance srv_browsable : BrowsableDirectory "/srv" 5 5 tree (entries_of "/srv" tree) (unchanged tree).
Proof. by apply (memfs_browsable tree "/srv" 1 509 0 0). Qed.

(** The size of an entry without its cookie, which adds at most 13 bytes. *)
Definition bare_size (e : dirent) : Z :=
  slot_size (1, num (wrap64 (d_ino e))) +
  slot_size (2, sub (to_message filename_schema) (Some (Nfs.mkFileName (Some (d_name e))))).

Lemma cookie_size c : 0 ≤ slot_size (3, sub (to_message cookie_schema) (Some c)) ≤ 13.
Proof.
  destruct c as [v]. rw /slot_size /= /cookie_schema /to_message /= /present /= /num.
  destruct (v =? 0); [by vm_compute|]. simpl. rw app_nil_r.
  pose proof (varint_short (wrap64 v)) as Hv. set (b := varint (wrap64 v)) in Hv |- *. clearbody b.
  do 11 (destruct b as [|? b]; [by vm_compute|]). simpl in Hv. lia.
Qed.

Lemma entry_size_bounds e cookie :
  Z.min (bare_size e) (2 ^ 31) ≤ directory_entry_packed_size (directory_entry_of e cookie) ≤ bare_size e + 13.
Proof.
  pose proof (cookie_size (Nfs.mkNfsCookie (wrap64 cookie))).
  rw /directory_entry_packed_size /generated_codec entry_size_value. cbn [default id protobuf_c_message_get_packed_size documented_library].
  rw entries_message_slots size_present. cbn [foldr app entry_slots next_slot directory_entry_of Nfs.de_fileid Nfs.de_name Nfs.de_cookie].
  rw /bare_size. change (slot_size (next_slot [])) with 0.
  lia.
Qed.

Lemma small_entries es (n : Z) : forallb (λ e, bare_size e + 13 <=? n) es = true → Forall (entry_fits n) es.
Proof.
  rw forallb_forall. intros Hg. apply Forall_forall. intros e He%list_elem_of_In%Hg cookie _.
  pose proof (entry_size_bounds e cookie). lia.
Qed.

Lemma large_entries es (n : Z) : n < 2 ^ 31 → existsb (λ e, n <? bare_size e) es = true → Exists (entry_exceeds n) es.
Proof.
  intros Hn (e & He%list_elem_of_In & Hs)%existsb_exists. apply Exists_exists. exists e. split; [done|].
  intros cookie _. pose proof (entry_size_bounds e cookie). lia.
Qed.

Lemma user_named : client_ok (Some (user 5)).
Proof. by eexists _, _. Qed.

Lemma connected_browses : browses (user 5) 3 K (fh 1) (entries_of "/srv" tree) (unchanged tree) connected.
Proof. split; [by split_and!|]. split; [done|]. split_and!; [done..|constructor|done|done]. Qed.

(** The names in the exported directory. *)
Lemma fuse_lists_the_servers_directory_witness :
  ∃ c', nfs_readdir (Some owner) (Some (handle 1)) 10 true "/" connected =
    Some (0, d_name <$> entries_of "/srv" tree, c').
Proof.
  assert (leads_to_file (served_tree (user 5) K tree) (fh 1) (fh 1) "/") as Hleads.
  { split; [done|]. split; [done|]. exists Nfs.NFDIR. by vm_compute. }
  destruct (fuse_lists_the_servers_directory owner (auth_sys_of 5 5) no_verifier (user 5) 3 owner_user all_memory user_named
    K tree "/srv" (fh 1) (entries_of "/srv" tree) (unchanged tree) eq_refl (booted_handles 1 (fh 1) eq_refl)
    booted_handles tree_stats
    (fh 1) "/" 10 connected connected_browses Hleads) as (c' & Hr & _); [apply small_entries; by vm_compute|vm_compute; lia|].
  exists c'. exact Hr.
Defined.

(** A server with a long name in [/srv/d]. *)
Definition long_name : string := "a name of more than fifty characters, which is longer than a page".
Definition long_tree : memfs := set_nodes <["/srv/d/" +:+ long_name := mkNode 9 (Reg []) 420 5 5]> tree.
Definition long_connected : client wire (remote memfs wire) :=
  mkClient (mkWire [] []) 1 (mkRemote (mkWorld (mkServerState long_tree K [] []) (mkWire [] []) 1) 7 0 0 true).

#[local] Instance d_browsable : BrowsableDirectory "/srv/d" 5 5 long_tree (entries_of "/srv/d" long_tree) (unchanged long_tree).
Proof. by apply (memfs_browsable long_tree "/srv/d" 4 493 5 5). Qed.

Lemma long_browses : browses (user 5) 3 K (fh 4) (entries_of "/srv/d" long_tree) (unchanged long_tree) long_connected.
Proof. split; [by split_and!|]. split; [done|]. split_and!; [done..|constructor|done|done]. Qed.

Definition in_d : Repl (client wire (remote memfs wire)) :=
  mkRepl long_connected (Some owner) (Some 0%nat) (Some 0%nat)
    {[0%nat := mkDAGNode "/srv/d" Nfs.NFDIR (handle 4) None true None 0 1]} TRANSPORT_PROTOCOL_TCP [].


(** * Messages *)

Lemma generated_code_keeps_the_promises_witness : PackedSizeBounds ∧ CountRange ∧ Messaging owner.
Proof. exact (generated_code_keeps_the_promises owner owner_sendable (Nat.le_refl _)). Defined.

(** A page with the names [a] and [b], and its encoding. *)
Definition two_names : Nfs.ReadDirRes :=
  Nfs.ok_res (Nfs.mkReadDirOk
    [Nfs.mkDirectoryEntry 2 (Some (Nfs.mkFileName (Some "a"))) (Some (Nfs.mkNfsCookie 1));
     Nfs.mkDirectoryEntry 300 (Some (Nfs.mkFileName (Some "b"))) (Some (Nfs.mkNfsCookie 2))] 1).

Lemma two_names_sendable : sendable (schema_of KReadDirRes) two_names.
Proof.
  apply case_sendable. split; [|done]. apply (Forall_impl wire_entry); [|apply entry_sendable].
  apply Forall_cons_2; [|apply Forall_cons_2; [|by apply Forall_nil_2]]; eexists _, _, _; (split; [reflexivity|]); (split; [by vm_compute|]); (split; [simpl; lia|by vm_compute]).
Qed.

Lemma generated_code_round_trips_witness :
  packed KReadDirRes two_names = Some
    [x0a; x00; x12; x1d; x0a; x19; x08; x02; x12; x03; x0a; x01; x61; x1a; x02; x08; x01;
     x22; x0c; x08; xac; x02; x12; x03; x0a; x01; x62; x1a; x02; x08; x02; x10; x01] ∧
  ∃ bytes, packed KReadDirRes two_names = Some bytes ∧ unpacked KReadDirRes bytes = Some two_names.
Proof.
  destruct (generated_code_round_trips KReadDirRes two_names two_names_sendable ltac:(by vm_compute)) as (bytes & Hp & Hb & Hu).
  split; [rw Hp Hb; by vm_compute|]. exists bytes. exact (conj Hp Hu).
Defined.

(** A READDIR call without a handle and a cookie. *)
Lemma received_messages_are_well_formed_witness :
  let a := Nfs.mkReadDirArgs None None 50 in
  unpacked KReadDirArgs [x18; x32] = Some a ∧ sendable (schema_of KReadDirArgs) a ∧
  ∃ bytes, packed KReadDirArgs a = Some bytes ∧ unpacked KReadDirArgs bytes = Some a.
Proof.
  assert (unpacked KReadDirArgs [x18; x32] = Some (Nfs.mkReadDirArgs None None 50)) as Ha by (vm_compute; reflexivity).
  destruct (received_messages_are_well_formed KReadDirArgs [x18; x32] _ Ha) as [Hs Hp].
  exact (conj Ha (conj Hs (Hp ltac:(by vm_compute)))).
Defined.

(** READDIR counts the entries of a page before it links them: linked, each entry
    holds the next one with a tag and a length, which are not counted. *)
Example linked_entries_exceed_their_sizes :
  ∃ e1 e2, Nfs.ok_res (Nfs.mkReadDirOk [e1; e2] 1) = two_names ∧
    page_size [e1; e2] = 23 ∧ packed_size (entries_message e1 [e2]) = 25.
Proof. eexists _, _. split; [reflexivity|]. by vm_compute. Qed.
