(* ===== verification/QuicWitnesses.v ===== *)
(** The server over QUIC at work: two streams of one connection whose calls
    arrive in pieces, interleaved, at a server with the file system of
    [MemFs]. *)
From S2P Require Import Prelude Messages Posix InodeCache Permissions FileManagement ReadDir.
From S2P Require Import ServerState ProcAttr ProcFile ProcCreate ProcRemove ProcMount RecordMarking.
From S2P Require Import RecordMarkingQuic QuicStreams Server Connections QuicServer MemFs Witnesses.

(** What has arrived on each stream, in pieces that are not empty, and what
    was sent on it. *)
Record streams := mkStreams { arrived : gmap key (list (byte * list byte)); sent_bytes : gmap key (list byte) }.

Definition waiting_pieces (k : key) (n : streams) : list (byte * list byte) := default [] (arrived n !! k).
Definition sent_bytes_of (k : key) (n : streams) : list byte := default [] (sent_bytes n !! k).

#[export] Instance streams_quic : QuicStream streams := {
  quic_stream_write conn id buf n :=
    (Z.of_nat (length buf), mkStreams (arrived n) (<[(conn, id) := sent_bytes_of (conn, id) n ++ buf]> (sent_bytes n)));
  quic_stream_read conn id size n :=
    match waiting_pieces (conn, id) n with
    | [] => (-1, [], n)
    | (b, d) :: ps =>
        (Z.of_nat (length (b :: d)), b :: d, mkStreams (<[(conn, id) := ps]> (arrived n)) (sent_bytes n))
    end }.

Definition piece (p : byte * list byte) : list byte := p.1 :: p.2.

Lemma waiting_insert k k' ps n :
  waiting_pieces k (mkStreams (<[k' := ps]> (arrived n)) (sent_bytes n)) = if decide (k' = k) then ps else waiting_pieces k n.
Proof. rw /waiting_pieces /= lookup_insert. by case_decide. Qed.

#[export] Instance streams_pending : PendingStream streams.
Proof.
  refine {| pending conn id n := piece <$> waiting_pieces (conn, id) n |}.
  - intros conn id n Hn. exists (-1), [], n. rw /quic_stream_read /streams_quic.
    by destruct (waiting_pieces (conn, id) n).
  - intros conn id n data ps Hn. rw /quic_stream_read /streams_quic.
    destruct (waiting_pieces (conn, id) n) as [|[b d] rest] eqn:Hw; [done|]. injection Hn as <- <-.
    split; [done|]. eexists. split; [done|]. by rw waiting_insert decide_True.
Defined.

#[export] Instance streams_live : LiveStreams streams.
Proof.
  refine {| written k n := sent_bytes_of k n |}.
  - intros conn id buf n r n' Hne [= <- <-]. rw /sent_bytes_of /=. split_and!; [| | | |done].
    + destruct buf; [done|]. simpl. lia.
    + lia.
    + by rw lookup_insert_eq Nat2Z.id firstn_all.
    + intros k Hk. by rw lookup_insert_ne; [congruence|].
  - intros conn id size n r data n'. rw /quic_stream_read /streams_quic.
    destruct (waiting_pieces (conn, id) n) as [|[b d] rest]; intros [= <- <- <-]; [done|]. split; [done|].
    intros c i Hne. rw /pending /= waiting_insert decide_False //. congruence.
Defined.

Definition pieces_of (ps : list (list byte)) : list (byte * list byte) :=
  omap (λ p, match p with [] => None | b :: d => Some (b, d) end) ps.

#[export] Instance streams_arrivals : StreamArrivals streams.
Proof.
  refine {| deliver k ps n := mkStreams (<[k := waiting_pieces k n ++ pieces_of ps]> (arrived n)) (sent_bytes n) |}.
  - intros conn id ps n Hps. rw /pending /= waiting_insert decide_True // fmap_app. f_equal.
    induction Hps as [|p ps Hp _ IH]; [done|]. destruct p as [|b d]; [done|].
    change (piece <$> pieces_of ((b :: d) :: ps)) with ((b :: d) :: (piece <$> pieces_of ps)). by rw IH.
  - intros k ps n. split; [|done]. intros c i Hne. rw /pending /= waiting_insert decide_False //. congruence.
Defined.

(** A GETATTR on stream 0 and a REMOVE on stream 4 of connection 1, each cut in
    two; the second is complete first. *)
Definition cut_call (k : key) (c : wire_call) (n : nat) : arrival * arrival :=
  (mkArrival k [take n (wire_bytes c)] c, mkArrival k [drop n (wire_bytes c)] c).

Definition interleaved : list arrival :=
  let a := cut_call (1, 0) (one_record x01 x07 [x02]) 2 in
  let b := cut_call (1, 4) (one_record x0a x05 [x04; x65]) 5 in
  [a.1; b.1; b.2; a.2].

Lemma arrivals_ok_cons ev evs open c due :
  current open ev = (c, due) → wire_call_ok (length (fragments (starts ev))) (starts ev) → Forall (.≠ []) (pieces ev) →
  due = concat (pieces ev) ++ drop (length (concat (pieces ev))) due →
  arrivals_ok evs (if decide (drop (length (concat (pieces ev))) due = []) then delete (stream ev) open
                   else <[stream ev := (c, drop (length (concat (pieces ev))) due)]> open) →
  arrivals_ok (ev :: evs) open.
Proof. intros Hc Hok Hps Hdue Hrest. cbn [arrivals_ok]. rw Hc. split_and!; try done. by rw Hdue; eexists. Qed.

Lemma interleaved_ok : arrivals_ok interleaved ∅.
Proof.
  do 4 (eapply arrivals_ok_cons;
    [vm_compute; reflexivity|apply one_record_ok; simpl; lia|by repeat constructor|vm_compute; reflexivity|]).
  done.
Qed.

Definition serving_quic : world memfs streams := mkWorld booted (mkStreams ∅ ∅) 1.


(** The REMOVE is answered first, and nothing is left open. *)
Example interleaved_outcome :
  (λ x, (x.1.1.*1, size x.1.2)) <$> answer_arrivals interleaved ∅ booted = Some ([(1, 4); (1, 0)], 0%nat).
Proof. vm_compute. reflexivity. Qed.
