(* ===== verification/QuicClientWitnesses.v ===== *)
(** The QUIC client at work: an executable form of its steps, runs of it with a
    peer that sends every record back, and the client with one call more than
    it has streams. *)
From S2P Require Import Prelude Messages RecordMarking RecordMarkingQuic QuicStreams Server QuicClient QuicReplies QuicShutdown.
From S2P Require Import WireCodec QuicWitnesses.

#[local] Existing Instance wire_codec.
#[local] Existing Instance wire_codec_small.

(** * Executable steps *)

Inductive event :=
  | Call (k : call_ptr) (msg : Rpc.RpcMsg)
  | Allocate (l : stream_ptr) (number : Z)
  | TestAllocation (k : call_ptr) | Add (k : call_ptr)
  | Writable (sid : Z) | Readable (sid : Z)
  | TestReply (k : call_ptr) | Sleep (k : call_ptr) | ReadReply (k : call_ptr)
  | CleanUp (k : call_ptr) | Release (k : call_ptr)
  | Answer (sid : Z) (f f' : list byte) | Arrive (sid : Z) (ps : list (list byte)).

(** The peer sends back what it gets. *)
Definition echo (m r : list byte) : Prop := r = m.

Definition guarded {A} (b : bool) (x : option A) : option A := if b then x else None.

Abbreviation client := (QuicClient streams).

Definition client_event (ev : event) (q : client) : option client :=
  match ev with
  | Allocate l number =>
      guarded (alive q && bool_decide (stream_allocation_queue q ≠ []) &&
               bool_decide (Forall (λ k, k ∉ allocator_locks q) (stream_allocation_queue q)) &&
               bool_decide (stream_heap q !! l = None) &&
               bool_decide (map_Forall (λ _ s, stream_number s ≠ number) (stream_heap q)))
        (async_stream_allocator_round (mkOffer (Some l) (Some number) true) q)
  | TestAllocation k =>
      match callers q !! k with
      | Some AllocationWait => guarded (bool_decide (k ∉ allocator_locks q)) (test_allocation k q)
      | _ => None
      end
  | Add k =>
      match callers q !! k with
      | Some AddingContext => guarded (negb (list_locked q)) (Some (add_context true k q))
      | _ => None
      end
  | Writable sid => guarded (alive q && negb (list_locked q)) (client_on_stream_writable 1 sid q)
  | Readable sid => guarded (alive q && negb (list_locked q)) (client_on_stream_readable 1 100 true sid q)
  | TestReply k => match callers q !! k with Some ReplyWait => test_reply k q | _ => None end
  | Sleep k => match callers q !! k with Some ReplyGap => Some (set_caller k ReplyAsleep q) | _ => None end
  | ReadReply k => match callers q !! k with Some ReplyDone => read_reply k q | _ => None end
  | CleanUp k =>
      match callers q !! k with Some (Cleaning r) => guarded (negb (list_locked q)) (clean_up k r q) | _ => None end
  | Release k => match callers q !! k with Some (Releasing l r) => release_stream k l r q | _ => None end
  | _ => None
  end.

Lemma guarded_Some {A} b (x : option A) y : guarded b x = Some y → b = true ∧ x = Some y.
Proof. by destruct b. Qed.

Lemma client_event_step ev q q' : client_event ev q = Some q' → client_step 1 true q q'.
Proof.
  destruct ev as [k msg|l number|k|k|sid|sid|k|k|k|k|k|sid f f'|sid ps]; try done; simpl.
  - intros [((((Ha & Hne%bool_decide_eq_true)%andb_true_iff & Hk%bool_decide_eq_true)%andb_true_iff &
      Hl%bool_decide_eq_true)%andb_true_iff & Hn%bool_decide_eq_true)%andb_true_iff Hr]%guarded_Some.
    destruct (stream_allocation_queue q) as [|k rest] eqn:Hq; [done|]. apply Forall_cons in Hk as [Hk _].
    apply (step_allocate _ _ _ k rest (mkOffer (Some l) (Some number) true)); try done; [by rw Ha|]. split.
    + by intros ? [= <-].
    + intros ? [= <-] l' s Hs. exact (Hn l' s Hs).
  - destruct (callers q !! k) as [[]|] eqn:Hk; try done. intros [Hl%bool_decide_eq_true Hr]%guarded_Some.
    by apply (step_test_allocation _ _ _ k).
  - destruct (callers q !! k) as [[]|] eqn:Hk; try done. intros [Hl%negb_true_iff [= <-]]%guarded_Some. by apply step_add.
  - intros [[Ha Hl%negb_true_iff]%andb_true_iff Hr]%guarded_Some. by apply (step_writable _ _ _ sid); [rw Ha| |].
  - intros [[Ha Hl%negb_true_iff]%andb_true_iff Hr]%guarded_Some. by apply (step_readable _ _ _ 100 true sid); [rw Ha| | |].
  - destruct (callers q !! k) as [[]|] eqn:Hk; try done. by apply step_test_reply.
  - destruct (callers q !! k) as [[]|] eqn:Hk; try done. intros [= <-]. by apply step_sleep.
  - destruct (callers q !! k) as [[]|] eqn:Hk; try done. by apply step_read.
  - destruct (callers q !! k) as [[]|] eqn:Hk; try done. intros [Hl%negb_true_iff Hr]%guarded_Some. by apply (step_clean_up _ _ _ k reply).
  - destruct (callers q !! k) as [[]|] eqn:Hk; try done. intros Hr. by apply (step_release _ _ _ k stream reply).
Qed.

(** The fragments that a peer of few words sends and receives. *)
Definition few_bytes (f : list byte) : bool := bool_decide (f ≠ []) && (Z.of_nat (length f) <=? 4000).

Definition exchange_event (ev : event) (s : exchange streams) : option (exchange streams) :=
  let q := quic_client s in
  match ev with
  | Call k msg =>
      guarded (bool_decide (callers q !! k = None))
        (Some (mkExchange (start_call (true, true) true k msg q) (seen s) (to_come s) (<[k := msg]> (asked s))))
  | Answer sid f f' =>
      guarded (bool_decide (written (1, sid) (client_net q) = bytes_at (seen s) sid ++ encode_fragments [f]) &&
               bool_decide (bytes_at (to_come s) sid = []) && bool_decide (f' = f) && few_bytes f)
        (Some (mkExchange q (<[sid := written (1, sid) (client_net q)]> (seen s))
                 (<[sid := encode_fragments [f']]> (to_come s)) (asked s)))
  | Arrive sid ps =>
      let rest := drop (length (concat ps)) (bytes_at (to_come s) sid) in
      guarded (bool_decide (bytes_at (to_come s) sid = concat ps ++ rest) && bool_decide (Forall (.≠ []) ps))
        (Some (mkExchange (set_net (deliver (1, sid) ps (client_net q)) q) (seen s) (<[sid := rest]> (to_come s)) (asked s)))
  | _ =>
      q' ← client_event ev q;
      guarded (bool_decide (dom (callers q') = dom (callers q))) (Some (mkExchange q' (seen s) (to_come s) (asked s)))
  end.

Lemma few_bytes_sendable f : few_bytes f = true → sendable_fragments [f].
Proof.
  intros [Hne%bool_decide_eq_true Hl%Z.leb_le]%andb_true_iff. split; repeat constructor; [|done].
  rw /fragment_ok /RM_MAX_FRAGMENT_DATA_SIZE. lia.
Qed.

Lemma exchange_event_step (P : list byte → list byte → Prop) ev s s' :
  exchange_event ev s = Some s' → (∀ sid f, ev = Answer sid f f → P f f) → exchange_step 1 P s s'.
Proof.
  assert (∀ ev, (q' ← client_event ev (quic_client s);
    guarded (bool_decide (dom (callers q') = dom (callers (quic_client s)))) (Some (mkExchange q' (seen s) (to_come s) (asked s))))
      = Some s' → exchange_step 1 P s s') as Hclient.
  { intros ev'. destruct (client_event ev' (quic_client s)) as [q'|] eqn:He; [|done]. simpl.
    intros [Hd%bool_decide_eq_true [= <-]]%guarded_Some. apply exchange_client; [by apply (client_event_step ev')|done]. }
  destruct ev as [k msg|l number|k|k|sid|sid|k|k|k|k|k|sid f f'|sid ps]; try (by intros Hev _; apply (Hclient _ Hev)); cbn [exchange_event].
  - intros [Hk%bool_decide_eq_true [= <-]]%guarded_Some _. by apply exchange_call.
  - intros [(((Hw%bool_decide_eq_true & Ht%bool_decide_eq_true)%andb_true_iff & Hf%bool_decide_eq_true)%andb_true_iff &
      Hfew)%andb_true_iff <-%(inj Some)]%guarded_Some HP. subst f'. apply few_bytes_sendable in Hfew.
    apply (exchange_answer _ _ _ sid [f] [f]); try done. rw /= app_nil_r. by apply (HP sid).
  - intros [[Ht%bool_decide_eq_true Hps%bool_decide_eq_true]%andb_true_iff <-%(inj Some)]%guarded_Some _. by apply exchange_arrive.
Qed.

Fixpoint exchange_run (evs : list event) (s : exchange streams) : option (exchange streams) :=
  match evs with
  | [] => Some s
  | ev :: evs => s ← exchange_event ev s; exchange_run evs s
  end.

Lemma exchange_run_steps evs s s' : exchange_run evs s = Some s' → rtc (exchange_step 1 echo) s s'.
Proof.
  revert s. induction evs as [|ev evs IH]; intros s; [intros [= <-]; apply rtc_refl|]. simpl.
  destruct (exchange_event ev s) as [s1|] eqn:He; [|done]. intros Hr. exact (rtc_l _ _ _ _ (exchange_event_step echo ev s s1 He ltac:(done)) (IH s1 Hr)).
Qed.

(** * Two calls at once *)

Definition ask (xid : Z) : Rpc.RpcMsg := Rpc.mkRpcMsg xid Rpc.CALL (Rpc.BODY_CBODY None).

Definition no_data : streams := mkStreams ∅ ∅.

(** Both calls are sent before either is answered; the second is answered first,
    and its caller sleeps until the reply arrives, in two pieces. *)
Definition two_calls : list event :=
  let m1 := pack_RpcMsg (ask 17) in
  let m2 := pack_RpcMsg (ask 18) in
  let r2 := encode_fragments [m2] in
  [Call 1 (ask 17); Call 2 (ask 18); Allocate 100 0; TestAllocation 1; Allocate 101 4; TestAllocation 2; Add 2; Add 1;
   Writable 0; Writable 4; TestReply 2; Answer 4 m2 m2; Sleep 2; Arrive 4 [take 3 r2]; Readable 4; Answer 0 m1 m1;
   Arrive 0 [encode_fragments [m1]]; Arrive 4 [drop 3 r2]; Readable 4; Readable 0;
   TestReply 2; ReadReply 2; TestReply 1; ReadReply 1; CleanUp 1; CleanUp 2; Release 2; Release 1].

Definition two_calls_done : exchange streams :=
  default (new_exchange None no_data) (exchange_run two_calls (new_exchange None no_data)).

(** Each caller has the answer to its own message. *)
Example two_calls_outcome :
  callers (quic_client two_calls_done) !! 1 = Some (Returned (Some (ask 17))) ∧
  callers (quic_client two_calls_done) !! 2 = Some (Returned (Some (ask 18))).
Proof. vm_compute. done. Qed.

Lemma two_calls_steps : rtc (exchange_step 1 echo) (new_exchange None no_data) two_calls_done.
Proof. apply (exchange_run_steps two_calls). vm_compute. reflexivity. Qed.

Lemma quic_calls_get_their_own_replies_witness :
  callers (quic_client two_calls_done) !! 2 = Some (Returned (Some (ask 18))) ∧
  (∀ k reply, callers (quic_client two_calls_done) !! k = Some (Returned reply) →
     ∃ msg rep, asked two_calls_done !! k = Some msg ∧ echo (pack_RpcMsg msg) rep ∧ reply = unpack_RpcMsg rep) ∧
  alive (quic_client two_calls_done) = true.
Proof.
  destruct (quic_calls_get_their_own_replies 1 echo None no_data two_calls_done) as (Hrep & Halive & _).
  - done.
  - done.
  - exact two_calls_steps.
  - split; [vm_compute; reflexivity|]. split; [exact Hrep|exact Halive].
Defined.

(** * The pool of streams *)

Lemma exchange_reachable s s' :
  rtc (exchange_step 1 echo) s s' → rtc (step_any 1) (quic_client s) (quic_client s').
Proof.
  induction 1 as [s|s1 s2 s3 Hst _ IH]; [apply rtc_refl|]. eapply rtc_trans; [|exact IH].
  destruct Hst as [s k msg Hk|s q Hst _|s sid fs fs' _ _ _ _ _ _ _|s sid ps rest _ _].
  - apply rtc_once. left. by apply step_call.
  - apply rtc_once. left. by apply client_step_reliable.
  - apply rtc_refl.
  - apply rtc_once. right. by eexists.
Qed.

Definition client_after (evs : list event) : client :=
  quic_client (default (new_exchange None no_data) (exchange_run evs (new_exchange None no_data))).

Lemma client_after_reachable evs :
  is_Some (exchange_run evs (new_exchange None no_data)) → client_reachable 1 (client_after evs).
Proof.
  intros [s Hs]. exists None, no_data. rw /client_after Hs. exact (exchange_reachable _ _ (exchange_run_steps _ _ _ Hs)).
Qed.

(** Both calls have sent their messages. *)
Definition both_sent : client := client_after (take 10 two_calls).

Lemma calls_have_their_own_streams_witness :
  owned (view_of both_sent 1) = Some 100 ∧ owned (view_of both_sent 2) = Some 101 ∧
  Z.of_nat (length (auxiliary_streams_list both_sent)) ≤ MAX_STREAMS_PER_CONNECTION ∧
  (∀ k l, owned (view_of both_sent k) = Some l → used (stream_heap both_sent) l) ∧
  (∀ k k' l, owned (view_of both_sent k) = Some l → owned (view_of both_sent k') = Some l → k = k').
Proof.
  destruct (calls_have_their_own_streams 1 both_sent) as (Hlen & Hused & Hex & _).
  - apply client_after_reachable. vm_compute. by eexists.
  - split; [vm_compute; reflexivity|]. split; [vm_compute; reflexivity|]. split_and!; [exact Hlen|exact Hused|exact Hex].
Defined.

(** Ten calls have their streams when the eleventh asks for one. *)
Definition eleven_calls : list event :=
  concat ((λ k, [Call k (ask k); Allocate (100 + k) (4 * k)]) <$> [1; 2; 3; 4; 5; 6; 7; 8; 9; 10]) ++ [Call 11 (ask 11)].

Definition crowded : client := client_after eleven_calls.

Definition one_more : offer := mkOffer (Some 200) (Some 100) true.

Definition crowded_refused : client := default crowded (async_stream_allocator_round one_more crowded).

Lemma call_without_a_stream_never_returns_witness :
  stream_allocation_queue crowded = [11] ∧
  ∀ q, rtc (step_any 1) crowded_refused q → callers q !! 11 = Some AllocationWait.
Proof.
  split; [vm_compute; reflexivity|].
  refine (proj2 (call_without_a_stream_never_returns 1 crowded 11 [] one_more crowded_refused _ _ _ _ _ _)).
  - apply client_after_reachable. vm_compute. by eexists.
  - vm_compute. reflexivity.
  - vm_compute. reflexivity.
  - assert (Forall (λ o, ∀ l, o = Some l → used (stream_heap crowded) l) (auxiliary_streams_list crowded)) as Hall.
    { vm_compute. repeat (constructor; [intros l [= <-]; by eexists|]). constructor. }
    intros l Hl. exact (proj1 (Forall_forall _ _) Hall (Some l) Hl l eq_refl).
  - split.
    + intros l [= <-]. vm_compute. reflexivity.
    + intros n [= <-]. apply (bool_decide_unpack (map_Forall (λ _ s, stream_number s ≠ 100) (stream_heap crowded))). vm_compute. exact I.
  - vm_compute. reflexivity.
Defined.

(** Both calls have returned: freeing the client leaves nothing behind. *)
Definition is_returned (pc : caller) : bool := match pc with Returned _ => true | _ => false end.

Lemma freeing_the_client_frees_everything_witness :
  size (stream_heap (client_after two_calls)) = 2%nat ∧ free_quic_client (client_after two_calls) = Some (∅, ∅, []).
Proof.
  split; [vm_compute; reflexivity|]. refine (freeing_the_client_frees_everything 1 (client_after two_calls) _ _).
  - apply client_after_reachable. vm_compute. by eexists.
  - intros k pc Hk. assert (map_Forall (λ _ pc, is_returned pc = true) (callers (client_after two_calls))) as Hall
      by (apply (bool_decide_unpack _); by vm_compute).
    specialize (Hall k pc Hk). clear Hk. destruct pc; try discriminate Hall. eexists. reflexivity.
Defined.

(** * A wake-up that is lost *)

(** The reply arrives between the caller's test and its falling asleep: the event
    loop signals the condition variable without the mutex that the caller holds. *)
Definition unlucky : list event :=
  let m := pack_RpcMsg (ask 17) in
  [Call 1 (ask 17); Allocate 100 0; TestAllocation 1; Add 1; Writable 0; Answer 0 m m; Arrive 0 [encode_fragments [m]];
   TestReply 1; Readable 0; Sleep 1].

(** A caller can fall asleep after its reply has been received, and nothing is
    left to arrive on its stream that would wake it. *)
Theorem reply_wakeup_can_be_lost :
  ∃ s c, rtc (exchange_step 1 echo) (new_exchange None no_data) s ∧
    callers (quic_client s) !! 1 = Some ReplyAsleep ∧ contexts (quic_client s) !! 1 = Some c ∧
    finished c = true ∧ reply_rpc_msg_successfully_received c = true ∧
    pending 1 0 (client_net (quic_client s)) = [] ∧ bytes_at (to_come s) 0 = [].
Proof.
  destruct (exchange_run unlucky (new_exchange None no_data)) as [s|] eqn:Hs; [|by vm_compute in Hs].
  exists s. assert (default s (exchange_run unlucky (new_exchange None no_data)) = s) as <- by by rw Hs.
  eexists. split_and!; [by rw Hs; apply (exchange_run_steps unlucky)|vm_compute; reflexivity..].
Qed.
