(* ===== verification/QuicSystemWitnesses.v ===== *)
(** A call of GETATTR over QUIC, from the client to the server on the file system
    in memory and back: the theorem of [QuicEndToEnd] applied. *)
From S2P Require Import Prelude Messages Posix InodeCache Permissions FileManagement ReadDir.
From S2P Require Import ServerState ProcAttr ProcFile ProcCreate ProcRemove ProcMount RecordMarking RecordMarkingQuic.
From S2P Require Import QuicStreams Server Connections QuicClient QuicReplies RpcClient NfsClient QuicEndToEnd.
From S2P Require Import MemFs WireCodec ClientWitnesses QuicWitnesses QuicClientWitnesses.

#[local] Existing Instance wire_codec.
#[local] Existing Instance wire_codec_small.

Abbreviation system := (quic_system (W:=streams) (OS:=memfs)).

(** The server's side of an event: the reply to the message that is on the
    stream. *)
Definition server_event (sid : Z) (message : list byte) (y : system) : option system :=
  let e := messages y in
  let q := quic_client e in
  m ← unpack_RpcMsg message;
  match m with
  | Rpc.mkRpcMsg _ Rpc.CALL (Rpc.BODY_CBODY (Some cb)) =>
      '(b, _, s) ← answer cb (server y);
      let rep := pack_RpcMsg (reply_msg (reply_xid y) b) in
      guarded (bool_decide (written (1, sid) (client_net q) = bytes_at (seen e) sid ++ encode_fragments [message]) &&
               bool_decide (bytes_at (to_come e) sid = []) && few_bytes message && few_bytes rep)
        (Some (mkQuicSystem
          (mkExchange q (<[sid := written (1, sid) (client_net q)]> (seen e)) (<[sid := encode_fragments [rep]]> (to_come e)) (asked e))
          s (reply_xid y + 1) (answered y ++ [(message, rep)])))
  | _ => None
  end.

Definition system_event (ev : event) (y : system) : option system :=
  match ev with
  | Answer sid message _ => server_event sid message y
  | _ => e ← exchange_event ev (messages y); Some (mkQuicSystem e (server y) (reply_xid y) (answered y))
  end.

Lemma system_event_step ev y y' : system_event ev y = Some y' → system_step 1 y y'.
Proof.
  assert (∀ ev, (∀ sid f f', ev ≠ Answer sid f f') →
    (e ← exchange_event ev (messages y); Some (mkQuicSystem e (server y) (reply_xid y) (answered y))) = Some y' →
    system_step 1 y y') as Hclient.
  { intros ev' Hev. destruct (exchange_event ev' (messages y)) as [e|] eqn:He; [|done]. intros [= <-].
    apply system_client. apply (exchange_event_step _ ev'); [done|]. intros sid f ->. by destruct (Hev sid f f). }
  destruct ev as [k msg|l number|k|k|sid|sid|k|k|k|k|k|sid f f'|sid ps]; try (by apply Hclient). cbn [system_event].
  rw /server_event. destruct (unpack_RpcMsg f) as [[x [] [|[cb|]|]]|] eqn:Hu; try done. simpl.
  destruct (answer cb (server y)) as [[[b code] s]|] eqn:Ha; [|done]. simpl.
  intros [(((Hw%bool_decide_eq_true & Ht%bool_decide_eq_true)%andb_true_iff & Hf)%andb_true_iff &
      Hf')%andb_true_iff <-%(inj Some)]%guarded_Some.
  apply few_bytes_sendable in Hf, Hf'.
  set (rep := pack_RpcMsg (reply_msg (reply_xid y) b)) in *.
  assert (concat [f] = f ∧ concat [rep] = rep) as [Hcf Hcr] by (split; apply app_nil_r).
  pose proof (system_answer 1 y sid [f] [rep] s) as Hst. cbv zeta in Hst. rw Hcf Hcr in Hst. apply Hst; try done.
  by exists x, cb, b, code.
Qed.

Fixpoint system_run (evs : list event) (y : system) : option system :=
  match evs with
  | [] => Some y
  | ev :: evs => y ← system_event ev y; system_run evs y
  end.

Lemma system_run_steps evs y y' : system_run evs y = Some y' → rtc (system_step 1) y y'.
Proof.
  revert y. induction evs as [|ev evs IH]; intros y; [intros [= <-]; apply rtc_refl|]. simpl.
  destruct (system_event ev y) as [y1|] eqn:He; [|done]. intros Hr. exact (rtc_l _ _ _ _ (system_event_step ev y y1 He) (IH y1 Hr)).
Qed.

(** The attributes of the file [a], asked for by user 5. *)
Definition getattr_message : Rpc.RpcMsg :=
  quic_call_message 17 (ClientWitnesses.user_context 5) NFS_RPC_PROGRAM 2 1
    (Rpc.mkAny (Some "nfs/FHandle") (pack_FHandle (handle 2))).

Definition getattr_reply : list byte :=
  match answer (call_body_of (ClientWitnesses.user_context 5) NFS_RPC_PROGRAM 2 1
                  (Rpc.mkAny (Some "nfs/FHandle") (pack_FHandle (handle 2)))) booted with
  | Some (b, _, _) => pack_RpcMsg (reply_msg 1 b)
  | None => []
  end.

Definition getattr_events : list event :=
  [Call 1 getattr_message; Allocate 100 0; TestAllocation 1; Add 1; Writable 0; TestReply 1;
   Answer 0 (pack_RpcMsg getattr_message) []; Sleep 1;
   Arrive 0 [take 100 (encode_fragments [getattr_reply])]; Readable 0;
   Arrive 0 [drop 100 (encode_fragments [getattr_reply])]; Readable 0; TestReply 1; ReadReply 1; CleanUp 1; Release 1].

Definition getattr_start : system := new_system None no_data booted 1.
Definition getattr_done : system := default getattr_start (system_run getattr_events getattr_start).

Lemma getattr_steps : rtc (system_step 1) getattr_start getattr_done.
Proof.
  apply (system_run_steps getattr_events). rw /getattr_done.
  destruct (system_run getattr_events getattr_start) eqn:Hr; [done|]. exfalso.
  assert (is_Some (system_run getattr_events getattr_start)) as [y Hy] by (vm_compute; by eexists). congruence.
Qed.

(** The caller has the reply of the procedure on the server's state. *)
Lemma quic_stubs_run_on_the_server_witness :
  ∃ before after s1 s2 b code,
    answered getattr_done = before ++ (pack_RpcMsg getattr_message, pack_RpcMsg (reply_msg (1 + Z.of_nat (length before)) b)) :: after ∧
    replays 1 booted before s1 ∧
    answer (call_body_of (ClientWitnesses.user_context 5) NFS_RPC_PROGRAM 2 1
              (Rpc.mkAny (Some "nfs/FHandle") (pack_FHandle (handle 2)))) s1 = Some (b, code, s2) ∧
    replays (1 + Z.of_nat (length before) + 1) s2 after (server getattr_done) ∧
    unpack_RpcMsg getattr_reply = unpack_RpcMsg (pack_RpcMsg (reply_msg (1 + Z.of_nat (length before)) b)).
Proof.
  refine (quic_stubs_run_on_the_server 1 None no_data booted 1 getattr_done 1 (unpack_RpcMsg getattr_reply) 17
    (ClientWitnesses.user_context 5) NFS_RPC_PROGRAM 2 1 (Rpc.mkAny (Some "nfs/FHandle") (pack_FHandle (handle 2)))
    _ _ getattr_steps _ _ _).
  - done.
  - done.
  - vm_compute. reflexivity.
  - intros m ->. vm_compute. reflexivity.
  - vm_compute. reflexivity.
Defined.
